(* ===== verification/_CoqProject ===== *)
-Q . S2P
Prelude.v
Enums.v
Ids.v
Float64.v
FloatExact.v
Types.v
State.v
Admission.v
Queue.v
Batch.v
Dispatch.v
Completion.v
Control.v
Frames.v
Lifecycle.v
Index.v
Accounts.v
Micro.v
Refine.v
Seed.v
BatchSpec.v
Handlers.v
Machine.v
Demo.v
Safety.v
Selection.v
CompletionSpec.v
DispatchSpec.v
AdmissionSpec.v
Journal.v
Ordering.v
Bytes.v
Envelope.v
EnvelopeSpec.v
EnvelopeWin.v
Wire.v
Persist.v
PersistCodec.v
PersistSpec.v
Public.v
Net.v
Decimal.v
Json.v
JsonSpec.v
Protocol.v
ProtocolSpec.v
Executor.v
Cuda.v
CudaSpec.v
Api.v
Reports.v
Rounds.v
LocalDriver.v
DriverSpec.v
Worker.v
Coordinator.v
CoordinatorSpec.v
Cli.v
CliSpec.v
Interleaving.v
Fresh.v
Cluster.v
Carried.v
Client.v
Programs.v
ProgramsSpec.v
System.v
ClientSpec.v
Interference.v
Findings.v
Departures.v
Ledger.v
Tending.v
Clock.v
Moves.v
Examples.v
