(* ===== verification/Prelude.v ===== *)
(** * Inference Scheduler: a verification development

    The program is a scheduler for inference requests: clients submit requests,
    an admission gate admits, defers or rejects them, admitted requests wait in
    per-flow ready queues, a dispatcher picks a request by weighted fair
    queueing, forms a batch of compatible requests around it, reserves capacity
    on the best worker, and workers confirm and complete the attempts.  Failed
    attempts are retried, requests can be cancelled or expire, workers come and
    go, and the state can be saved to a file and recovered.  The core is
    [Scheduler::Impl] in [src/scheduler.cpp]; around it are the data types
    ([include/inference_scheduler]), the persistence envelope
    ([src/persistence.cpp]), an in-process driver ([src/local_driver.cpp]) with
    its executors (one for the CPU, one for CUDA), three programs that talk JSON
    over framed connections: a coordinator that owns the scheduler, workers that
    run the batches it sends them, and a client that submits and dispatches
    requests; and a command line ([src/cli.cpp]) that works on a saved scheduler
    or starts the programs.

    ** The model, file by file

    - [Prelude]: machine integers, record update, the state monad [ST] in which
      the methods are written, and the relation [steps R s m] ("running [m] in
      [s] ends in a state related by [R]") with the tactic [mwalk] that reduces
      it to the primitive updates of a method.
    - [Enums], [Ids], [Float64], [FloatExact], [Types]: enumerations, error codes and
      [Result] (enums.cpp, error.cpp, result.hpp), identifiers (id_types.hpp),
      [double] and [float] by the executable IEEE-754 specification of the
      standard library, where their arithmetic is exact, and the public structures with their defaults
      (types.hpp, scheduler.hpp).  [Clock]: the clocks of clock.hpp and a
      scheduler under a simulated one.
    - [State]: the structures of namespace [detail] and the members of
      [Scheduler::Impl] as the record [Impl].
    - [Admission], [Queue], [Batch], [Dispatch], [Completion], [Control]: the
      methods of [Scheduler::Impl], one definition per method with the method's
      name ([make_admission], [enqueue_request], [pick_seed], [form_batch],
      [do_plan_dispatch], [do_complete], ...).
    - [Bytes], [Envelope], [EnvelopeWin], [Wire], [Persist]: bytes and
      little-endian words, the file envelope of persistence.cpp in its two
      platform branches, [BinWriter]/[BinReader], and
      [serialize_locked], [deserialize_locked], [do_persist], [do_recover].
    - [Machine]: the methods of [Scheduler::Impl] that work on the scheduler
      alone, as steps of a transition system, and the states reachable from a
      fresh scheduler.  [Public]: the same with [persist] and [recover].
      [Api]: the public methods of [Scheduler], which its clients call.
    - [Net]: framing and the loops of [send_all] and [recv_all] over sockets
      that are given by a class ([Socket]; [StreamSocket] and [LiveSocket] are
      its laws), and the descriptors of net.cpp.
    - [Decimal], [Json], [Protocol]: decimal text of integers and doubles,
      values with [dump_json] and [parse_json] (json_util.hpp), messages and
      request specifications (protocol.hpp).
    - [Executor], [LocalDriver]: the executor interface as a class, the CPU
      executor, the driver (executor.hpp, cpu_executor.cpp, local_driver.cpp).
      [Cuda]: the CUDA executor (cuda_executor.cu) over a runtime given by a
      class, its kernels as grids of threads.
    - [Cli]: the command line with its state file (cli.cpp).  [Examples]: the
      programs of examples/, which are evaluated.
    - [Worker], [Coordinator], [Client]: the three programs (worker_app.cpp,
      coordinator_app.cpp, client_app.cpp); [Programs] their arguments and exit
      statuses.  [System] puts a coordinator and its
      workers together as the channel of a client.

    ** The theorems

    - [Frames], [Lifecycle], [Index], [Accounts], [Micro], [Refine],
      [Handlers], [Machine], [Safety]: the abstract machine [micro] changes one
      request at a time; every operation is a sequence of its steps, from which
      follow the invariant [Inv] (queueing index, admission counters and limits,
      exclusive execution, attempts) and the facts about whole runs (frozen
      terminal records, cancellations).  [Public] states this for all public
      operations, saving and recovery included.
    - [Moves]: the lifecycle of a request, as a table of which operation may take
      it from which state to which, under which condition.
    - [Seed], [Selection], [BatchSpec], [DispatchSpec]: work conservation and
      fairness of the choice of a request, optimality of the choice of a
      worker, well-formed and greedy batches, what a dispatch reserves.
      [Ledger]: the reserved units of a worker are those of its batches that
      have not started, and dispatches stay within what it has available.
    - [CompletionSpec]: only authorised reports are accepted, the others are
      answered with the code of their first defect, and each report is acted on
      once.
    - [Clock]: under a simulated clock requests expire when their time is up.
    - [AdmissionSpec], [Journal], [Ordering]: the admission decision against a
      declarative description, draining, the event log, the order of the ready
      queues (by the slack at the time of enqueueing), uniqueness of identifiers,
      names.
    - [EnvelopeSpec], [EnvelopeWin], [PersistCodec], [PersistSpec]: the envelope is a canonical
      encoding that detects any single overwritten byte and is replaced
      atomically; what a scheduler saves is what another one restores, as far as
      the format stores it.
    - [Net], [JsonSpec], [ProtocolSpec]: the transport loops end, messages
      arrive whole and in order and a receive that meets a cut message returns
      false, descriptors do not leak; the parser is total,
      reads back what is printed, and submitted requests arrive.
    - [Reports], [Rounds]: a client of the scheduler that reports the start and
      the completion of a batch keeps the scheduler's contract and finishes the
      batch; the driver ([DriverSpec]) and the coordinator ([CoordinatorSpec])
      both discharge the interface of [Rounds].
    - [CoordinatorSpec]: the coordinator's scheduler stays reachable and its
      slots agree with the registrations.  [Interleaving]: the scheduler stays
      reachable whatever the threads do between each other's calls.  [Fresh]:
      while the 32-bit counter of the identifier factory lasts, the threads
      need not care about identifiers for that.  [Interference]: what a client
      is told of a request being over is true, and stays true, whatever calls
      other threads make meanwhile.  [Tending]: a dispatched batch is finished
      although other threads make calls between those of the worker's thread.
      [Cluster]:
      a dispatch through coordinator, text, worker, text and coordinator ends
      with its requests finished and the client told so.  [Carried], [ClientSpec]: the client's
      loop ends and what it takes for over is over; [System] evaluates the
      client's two scenarios.
    - [CudaSpec]: the CUDA executor gives back all its memory whatever fails,
      except blocks that [cudaFree] refuses to release, and computes what its kernels say in whatever order the threads run.
    - [CliSpec]: a command continues the scheduler that its state file holds,
      and leaves the state after it in the file where the write succeeds.  [ProgramsSpec]: the command
      that starts a worker is read by the worker program, and its registration
      by the coordinator, as the arguments given.
    - [Demo] is a small run on which the theorems are exercised; [Findings] and
      [Departures] evaluate runs that depart from the intended behaviour.

    ** How the code is represented

    - Methods are state transformers on [Impl]; each public operation holds the
      scheduler's mutex throughout, so it is one atomic step.  [plan_next] takes
      the mutex twice and is two steps, as is [flush_events], which public
      methods call after releasing the mutex.
    - A loop over an unordered container visits the elements in the order of
      [map_to_list] or [elements]; the order is unspecified in C++, and
      [worker_selection_is_order_independent] shows where it does not matter.
    - Integers are [Z]; sums and differences of 64-bit quantities that depend on
      user data wrap ([i64], [u64]); counters that move by one are not wrapped.
    - The clock is the sequence of its readings, a parameter ([Env]; in [Clock]
      the reading of a simulated clock during each call), as are the
      result of a [double]-to-integer conversion that C++ leaves undefined and
      the text of [std::to_string(double)].  Nothing is assumed about them.
    - Callers: a reachable state is one reached by operations that satisfy
      [guard]: a submitted id is not already in use, and completions come from
      the worker the attempt runs on ([honest]).  The scheduler checks neither
      (see [Findings]); every other operation is unrestricted.  For the driver
      and for the rounds between coordinator and worker the second is proved.
      [Ledger] also asks that costs and capacities fit in an [int], that workers
      announce a positive capacity and that the identifier factory has not come
      round ([sober]).  [Public] asks of a file given to [recover] that, if the
      envelope accepts it, a scheduler of the same configuration saved it.
    - The scheduler's recursion follows the data.  Fuel appears in loops that
      the outside drives: [send_loop] and [recv_loop] get one turn more than
      there are bytes, the parser as much depth as the text is long, the
      driver's loop one turn more than its limit, and each is proved to be
      enough ([transport_loops_terminate], [json_parser_is_total],
      [driver_runs_the_scheduler]); the client's loops count down the bounds in
      the source.  The message loops of the worker and of the coordinator's
      threads last as long as their connection and take fuel as a bound on the
      number of messages.
    - Files are a map from names to contents; which library calls fail is a
      parameter of each write ([WriteCalls]) and read ([ReadCalls]).
    - The coordinator's threads: [Interleaving] takes each call that holds a
      mutex as a step and lets the threads' calls interleave in any order, and
      [Interference] puts calls of other threads between those of a worker's
      thread, and so does [Tending] from the plan of a batch on.  The theorems
      of [CoordinatorSpec], [Cluster] and [ClientSpec] on
      what a message achieves take the calls of one handler without those of
      other threads between them; what happens while a dispatch waits is a
      parameter of [respond], which [Cluster] instantiates with the worker
      program.
    - The CUDA runtime and [malloc] are the class [CudaRuntime]: what each call
      answers may depend on the memory and on the calls made before it.  What
      is assumed of them (new addresses, every thread of a grid runs once, a
      [cudaFree] that succeeds releases) is [LawfulRuntime]; that no call fails is [WorkingRuntime], which only the
      theorem on the computed values uses.
    - The shell that [std::system] starts splits a command of plain words at the
      blanks ([shell_args]); nothing is said of other commands.

    ** Not modelled

    What the three distributed programs print, and their sleeping; the creation
    of threads; hash functions (the containers are maps and sets); the Win32
    branches of net.cpp, which name the same calls differently; the benchmark,
    which times calls of the public interface; the contents of an enumeration object after an out-of-range
    integer was cast to it (recovery and message handlers stop there, and so do
    the commands). *)

From stdpp Require Export base tactics decidable option list gmap strings sorting relations.
From Stdlib Require Export ZArith Lia.

Open Scope Z_scope.

(** ** Machine integers

    [u32], [u64] reduce to the unsigned range; [i32], [i64] are the two's
    complement representatives that a conversion to [std::int32_t] /
    [std::int64_t] yields. *)

Definition u32 (z : Z) : Z := z mod 2 ^ 32.
Definition u64 (z : Z) : Z := z mod 2 ^ 64.
Definition i32 (z : Z) : Z := (z + 2 ^ 31) mod 2 ^ 32 - 2 ^ 31.
Definition i64 (z : Z) : Z := (z + 2 ^ 63) mod 2 ^ 64 - 2 ^ 63.

Definition int64_max : Z := 2 ^ 63 - 1.

Lemma u64_range z : 0 <= u64 z < 2 ^ 64.
Proof. unfold u64. apply Z.mod_pos_bound. lia. Qed.

Lemma u64_id z : 0 <= z < 2 ^ 64 -> u64 z = z.
Proof. intros. unfold u64. apply Z.mod_small. lia. Qed.

Lemma u32_small z : 0 <= z < 2 ^ 32 -> u32 z = z.
Proof. intros. unfold u32. apply Z.mod_small. lia. Qed.

Lemma i64_range z : - 2 ^ 63 <= i64 z < 2 ^ 63.
Proof. unfold i64. pose proof (Z.mod_pos_bound (z + 2 ^ 63) (2 ^ 64)). lia. Qed.

Lemma i64_id z : - 2 ^ 63 <= z < 2 ^ 63 -> i64 z = z.
Proof. intros. unfold i64. rewrite Z.mod_small; lia. Qed.

Lemma i64_mod z : (i64 z) mod 2 ^ 64 = z mod 2 ^ 64.
Proof.
  unfold i64. rewrite Zminus_mod_idemp_l.
  by replace (z + 2 ^ 63 - 2 ^ 63) with z by lia.
Qed.

Lemma i64_eq_mod a b : a mod 2 ^ 64 = b mod 2 ^ 64 -> i64 a = i64 b.
Proof.
  intros E. unfold i64. by rewrite <- (Zplus_mod_idemp_l a), E, Zplus_mod_idemp_l.
Qed.

(** ** Record update

    [r <| f := v |>] is [r] with the field [f] replaced.  A record declares its
    eta-expanded form once ([Eta]); [derive_update] then builds the setter of
    each field from it. *)

Class Eta (R : Type) := eta : R -> R.

Class Update {R T : Type} (proj : R -> T) := upd : (T -> T) -> R -> R.
Arguments upd {R T} proj {Update} _ _ : assert.

Ltac derive_update :=
  lazymatch goal with
  | |- @Update ?R ?T ?p =>
      let r := fresh "r" in
      let body := constr:(fun r : R =>
        ltac:(let e := eval cbv [eta] in (eta r) in
              let e := eval hnf in e in
              lazymatch eval pattern (p r) in e with
              | ?g _ => exact (fun f : T -> T => g (f (p r)))
              end)) in
      let body := eval cbv beta in body in
      exact (fun (f : T -> T) (r : R) => body r f)
  end.

Declare Scope update_scope.
Delimit Scope update_scope with upd.
Notation "r <| f := v |>" := (upd f (fun _ => v) r)
  (at level 1, left associativity, format "r  <| f  :=  v |>")
  : update_scope.
Notation "r <| f ::= g |>" := (upd f g r)
  (at level 1, left associativity, format "r  <| f  ::=  g |>")
  : update_scope.
Open Scope update_scope.

(** ** The state monad of the scheduler's methods *)

Section StateMonad.
  Context {S : Type}.

Definition ST (A : Type) : Type := S -> A * S.

#[global] Instance ST_ret : MRet ST := fun A a s => (a, s).
#[global] Instance ST_bind : MBind ST :=
  fun A B k m s => let '(a, s') := m s in k a s'.

Definition gets {A} (f : S -> A) : ST A := fun s => (f s, s).
Definition modify (f : S -> S) : ST unit := fun s => (tt, f s).
Definition when (b : bool) (m : ST unit) : ST unit := if b then m else mret tt.

Fixpoint foreach {A} (l : list A) (body : A -> ST unit) : ST unit :=
  match l with
  | [] => mret tt
  | x :: l => body x ≫= fun _ => foreach l body
  end.

Definition exec {A} (m : ST A) (s : S) : S := (m s).2.
Definition result {A} (m : ST A) (s : S) : A := (m s).1.

Lemma exec_bind {A B} (m : ST A) (k : A -> ST B) s :
  exec (m ≫= k) s = exec (k (result m s)) (exec m s).
Proof. unfold exec, result, mbind, ST_bind. by destruct (m s). Qed.

Lemma result_bind {A B} (m : ST A) (k : A -> ST B) s :
  result (m ≫= k) s = result (k (result m s)) (exec m s).
Proof. unfold exec, result, mbind, ST_bind. by destruct (m s). Qed.

Lemma run_bind {A B} (m : ST A) (k : A -> ST B) s :
  (m ≫= k) s = k (m s).1 (m s).2.
Proof. unfold mbind, ST_bind. by destruct (m s). Qed.

Lemma exec_ret {A} (a : A) s : exec (mret a) s = s.
Proof. done. Qed.
Lemma result_ret {A} (a : A) s : result (mret a) s = a.
Proof. done. Qed.
Lemma exec_gets {A} (f : S -> A) s : exec (gets f) s = s.
Proof. done. Qed.
Lemma result_gets {A} (f : S -> A) s : result (gets f) s = f s.
Proof. done. Qed.
Lemma exec_modify f s : exec (modify f) s = f s.
Proof. done. Qed.
Lemma exec_when b m s : exec (when b m) s = if b then exec m s else s.
Proof. by destruct b. Qed.
Lemma exec_if {A} (b : bool) (m1 m2 : ST A) s :
  exec (if b then m1 else m2) s = if b then exec m1 s else exec m2 s.
Proof. by destruct b. Qed.

End StateMonad.

Arguments ST : clear implicits.

(** ** Reasoning about methods

    [steps R s m] says that running [m] in [s] ends in a state related to [s]
    by [R].  With a preorder [R] the property composes along the method's
    body; an invariant [I] is the preorder [fun s s' => I s -> I s']. *)

Section Steps.
  Context {S : Type} (R : relation S).

Definition steps {A} (s : S) (m : ST S A) : Prop := R s (exec m s).

Lemma steps_ret `{!Reflexive R} {A} (a : A) s : steps s (mret a).
Proof. unfold steps. by rewrite exec_ret. Qed.

Lemma steps_gets `{!Reflexive R} {A} (f : S -> A) s : steps s (gets f).
Proof. unfold steps. by rewrite exec_gets. Qed.

Lemma steps_modify f s : R s (f s) -> steps s (modify f).
Proof. done. Qed.

Lemma steps_bind `{!Transitive R} {A B} (m : ST S A) (k : A -> ST S B) s :
  steps s m -> steps (exec m s) (k (result m s)) -> steps s (m ≫= k).
Proof. unfold steps. rewrite exec_bind. intros. by etrans. Qed.

Lemma steps_gets_bind {A B} (f : S -> A) (k : A -> ST S B) s :
  steps s (k (f s)) -> steps s (gets f ≫= k).
Proof. done. Qed.

Lemma steps_bind_all `{!Transitive R} {A B} (m : ST S A) (k : A -> ST S B) s :
  (forall s, steps s m) -> (forall a s, steps s (k a)) -> steps s (m ≫= k).
Proof. intros. apply steps_bind; auto. Qed.

Lemma steps_after `{!Transitive R} {A} (m : ST S A) s s1 :
  R s s1 -> steps s1 m -> R s (exec m s1).
Proof. unfold steps. intros. by etrans. Qed.

Lemma steps_when `{!Reflexive R} (b : bool) (m : ST S unit) s :
  (b = true -> steps s m) -> steps s (when b m).
Proof. destruct b; [auto | intros; apply steps_ret]. Qed.

Lemma steps_if {A} (b : bool) (m1 m2 : ST S A) s :
  (b = true -> steps s m1) -> (b = false -> steps s m2) ->
  steps s (if b then m1 else m2).
Proof. destruct b; auto. Qed.

Lemma steps_foreach `{!PreOrder R} {A} (l : list A) (body : A -> ST S unit) s :
  (forall x s', x ∈ l -> R s s' -> steps s' (body x)) ->
  steps s (foreach l body).
Proof.
  revert s. induction l as [|x l IH]; intros s H; simpl.
  - apply steps_ret.
  - assert (steps s (body x)) as Hx by (apply H; [left | done]).
    apply steps_bind; [done|]. apply IH. intros y s' Hy Hs.
    apply H; [by right | by etrans].
Qed.

End Steps.

Arguments steps {S} R {A} s m.

(** [X] is a change, [R] a frame that may come before and after it. *)
Class Absorbs {S} (R X : relation S) : Prop := {
  absorb_l s1 s2 s3 : R s1 s2 -> X s2 s3 -> X s1 s3;
  absorb_r s1 s2 s3 : X s1 s2 -> R s2 s3 -> X s1 s3
}.

Lemma steps_skip {S A B} (R X : relation S) `{!Absorbs R X} (m : ST S A) (k : A -> ST S B) s :
  steps R s m -> steps X (exec m s) (k (result m s)) -> steps X s (m ≫= k).
Proof. unfold steps. rewrite exec_bind. apply absorb_l. Qed.

Lemma steps_hit {S A B} (R X : relation S) `{!Absorbs R X} (m : ST S A) (k : A -> ST S B) s :
  steps X s m -> (forall a s', steps R s' (k a)) -> steps X s (m ≫= k).
Proof. unfold steps. rewrite exec_bind. intros. eapply absorb_r; eauto. Qed.

(** An invariant, as a preorder on states. *)
Definition keeps {S} (I : S -> Prop) : relation S := fun s s' => I s -> I s'.

#[global] Instance keeps_preorder {S} (I : S -> Prop) : PreOrder (keeps I).
Proof. unfold keeps. split; repeat intro; auto. Qed.

(** Two states that agree on a projection. *)
Definition same {S T} (f : S -> T) : relation S := fun s s' => f s' = f s.

#[global] Instance same_preorder {S T} (f : S -> T) : PreOrder (same f).
Proof. unfold same. split; repeat intro; congruence. Qed.

(** ** Walking a method's body

    [mwalk base] reduces [steps R s m] to the primitive updates of [m]: it
    splits binds, conditionals, matches and loops, uses the lemmas of the hint
    database [frame] for the methods already treated, and hands each
    [R s (f s)] to [base]. *)

Create HintDb frame discriminated.

Ltac mcase :=
  match goal with
  | |- steps _ _ (match ?x with _ => _ end) => destruct x eqn:?
  | |- steps _ _ (if ?b then _ else _) => destruct b eqn:?
  end.

Ltac mstep :=
  first
    [ solve [auto 2 with frame nocore]
    | lazymatch goal with
      | |- steps _ _ (mret _) => apply steps_ret; exact _
      | |- steps _ _ (gets _ ≫= _) => apply steps_gets_bind; cbv beta
      | |- steps _ _ (gets _) => apply steps_gets; exact _
      | |- steps _ _ (modify _) => apply steps_modify; cbv beta
      | |- steps _ _ (_ ≫= _) => apply steps_bind_all; [exact _ | intros ? | intros ? ?]
      | |- steps _ _ (when _ _) => apply steps_when; [exact _ | intros ?]
      | |- steps _ _ (foreach _ _) => apply steps_foreach; [exact _ | intros ?? _ _]
      end
    | mcase
    | progress cbv zeta ].

Ltac mwalk base :=
  repeat mstep; try (solve [base]).

(** ** Counting the values of a finite map *)

Section Count.
  Context {A : Type}.
  Implicit Types (P Q : A -> bool) (m : gmap Z A).

Definition mcount P m : Z :=
  Z.of_nat (length (List.filter (fun p => P p.2) (map_to_list m))).

Lemma mcount_empty P : mcount P ∅ = 0.
Proof. unfold mcount. by rewrite map_to_list_empty. Qed.

Lemma filter_length_perm {B} (f : B -> bool) (l l' : list B) :
  l ≡ₚ l' -> length (List.filter f l) = length (List.filter f l').
Proof.
  induction 1; simpl; repeat case_match; simpl; congruence.
Qed.

Lemma mcount_insert P m i x :
  m !! i = None -> mcount P (<[i := x]> m) = mcount P m + Z.b2z (P x).
Proof.
  intros Hi. unfold mcount.
  rewrite (filter_length_perm _ _ _ (map_to_list_insert m i x Hi)). simpl.
  destruct (P x); simpl; lia.
Qed.

Lemma mcount_delete P m i x :
  m !! i = Some x -> mcount P m = mcount P (delete i m) + Z.b2z (P x).
Proof.
  intros Hi. rewrite <- (insert_delete_id m i x Hi) at 1.
  rewrite mcount_insert; [done|]. apply lookup_delete_eq.
Qed.

Lemma mcount_update P m i x y :
  m !! i = Some x -> mcount P (<[i := y]> m) = mcount P m - Z.b2z (P x) + Z.b2z (P y).
Proof.
  intros Hi. rewrite (mcount_delete P m i x Hi), <- insert_delete_eq.
  rewrite mcount_insert by apply lookup_delete_eq. lia.
Qed.

Lemma mcount_nonneg P m : 0 <= mcount P m.
Proof. unfold mcount. lia. Qed.

Lemma mcount_pos P m i x : m !! i = Some x -> P x = true -> 0 < mcount P m.
Proof.
  intros Hi HP. rewrite (mcount_delete P m i x Hi), HP.
  pose proof (mcount_nonneg P (delete i m)). simpl. lia.
Qed.

Lemma mcount_split P Q m R :
  (forall i x, m !! i = Some x -> Z.b2z (P x) = Z.b2z (Q x) + Z.b2z (R x)) ->
  mcount P m = mcount Q m + mcount R m.
Proof.
  induction m as [|i x m Hi IH] using map_ind; intros Hs.
  - by rewrite !mcount_empty.
  - rewrite !mcount_insert, (Hs i x), IH; [lia| |apply lookup_insert_eq|done..].
    intros j y Hj. apply (Hs j). rewrite lookup_insert_ne; [done|]. congruence.
Qed.

Lemma mcount_le P Q m :
  (forall x, P x = true -> Q x = true) -> mcount P m <= mcount Q m.
Proof.
  intros HPQ. induction m as [|i x m Hi IH] using map_ind.
  - by rewrite !mcount_empty.
  - rewrite !mcount_insert by done. specialize (HPQ x).
    destruct (P x), (Q x); simpl; try lia; naive_solver.
Qed.

End Count.
