(* ===== verification/Enums.v ===== *)
(** * Enumerations, error codes and results

    The enumerations of [include/inference_scheduler/enums.hpp] with the
    helpers of [src/enums.cpp], and the error codes, [Error] and [Result<T>] of
    [error.hpp], [src/error.cpp] and [result.hpp].

    Every enumerator keeps its C++ integer ([..._int]); [..._of_int] is the
    inverse, [None] on an integer without enumerator. *)

From S2P Require Import Prelude.
Open Scope Z_scope.

Inductive PriorityClass : Set :=
| PC_Background
| PC_Low
| PC_Medium
| PC_High
| PC_Critical.

#[export] Instance PriorityClass_eq_dec : EqDecision PriorityClass.
Proof. solve_decision. Defined.

Definition PriorityClass_int (e : PriorityClass) : Z :=
  match e with
  | PC_Background => 0
  | PC_Low => 1
  | PC_Medium => 2
  | PC_High => 3
  | PC_Critical => 4
  end.

Definition PriorityClass_of_int (v : Z) : option PriorityClass :=
  match v with
  | 0 => Some PC_Background
  | 1 => Some PC_Low
  | 2 => Some PC_Medium
  | 3 => Some PC_High
  | 4 => Some PC_Critical
  | _ => None
  end.

Definition PriorityClass_name (e : PriorityClass) : string :=
  match e with
  | PC_Background => "background"
  | PC_Low => "low"
  | PC_Medium => "medium"
  | PC_High => "high"
  | PC_Critical => "critical"
  end.

Inductive LatencyClass : Set :=
| LC_Background
| LC_Throughput
| LC_Standard
| LC_Interactive.

#[export] Instance LatencyClass_eq_dec : EqDecision LatencyClass.
Proof. solve_decision. Defined.

Definition LatencyClass_int (e : LatencyClass) : Z :=
  match e with
  | LC_Background => 0
  | LC_Throughput => 1
  | LC_Standard => 2
  | LC_Interactive => 3
  end.

Definition LatencyClass_of_int (v : Z) : option LatencyClass :=
  match v with
  | 0 => Some LC_Background
  | 1 => Some LC_Throughput
  | 2 => Some LC_Standard
  | 3 => Some LC_Interactive
  | _ => None
  end.

Definition LatencyClass_name (e : LatencyClass) : string :=
  match e with
  | LC_Background => "background"
  | LC_Throughput => "throughput"
  | LC_Standard => "standard"
  | LC_Interactive => "interactive"
  end.

Inductive QueueClass : Set :=
| QC_Latency
| QC_Phase
| QC_Tenant
| QC_Priority.

#[export] Instance QueueClass_eq_dec : EqDecision QueueClass.
Proof. solve_decision. Defined.

Definition QueueClass_int (e : QueueClass) : Z :=
  match e with
  | QC_Latency => 0
  | QC_Phase => 1
  | QC_Tenant => 2
  | QC_Priority => 3
  end.

Definition QueueClass_of_int (v : Z) : option QueueClass :=
  match v with
  | 0 => Some QC_Latency
  | 1 => Some QC_Phase
  | 2 => Some QC_Tenant
  | 3 => Some QC_Priority
  | _ => None
  end.

Definition QueueClass_name (e : QueueClass) : string :=
  match e with
  | QC_Latency => "latency"
  | QC_Phase => "phase"
  | QC_Tenant => "tenant"
  | QC_Priority => "priority"
  end.

Inductive RequestPhase : Set :=
| RP_Unknown
| RP_Prefill
| RP_Decode.

#[export] Instance RequestPhase_eq_dec : EqDecision RequestPhase.
Proof. solve_decision. Defined.

Definition RequestPhase_int (e : RequestPhase) : Z :=
  match e with
  | RP_Unknown => 0
  | RP_Prefill => 1
  | RP_Decode => 2
  end.

Definition RequestPhase_of_int (v : Z) : option RequestPhase :=
  match v with
  | 0 => Some RP_Unknown
  | 1 => Some RP_Prefill
  | 2 => Some RP_Decode
  | _ => None
  end.

Definition RequestPhase_name (e : RequestPhase) : string :=
  match e with
  | RP_Unknown => "unknown"
  | RP_Prefill => "prefill"
  | RP_Decode => "decode"
  end.

Inductive RequestState : Set :=
| RS_Created
| RS_PendingAdmission
| RS_Admitted
| RS_Queued
| RS_Reserved
| RS_Dispatched
| RS_Running
| RS_Completing
| RS_Completed
| RS_Rejected
| RS_Cancelled
| RS_Expired
| RS_Failed.

#[export] Instance RequestState_eq_dec : EqDecision RequestState.
Proof. solve_decision. Defined.

Definition RequestState_int (e : RequestState) : Z :=
  match e with
  | RS_Created => 0
  | RS_PendingAdmission => 1
  | RS_Admitted => 2
  | RS_Queued => 3
  | RS_Reserved => 4
  | RS_Dispatched => 5
  | RS_Running => 6
  | RS_Completing => 7
  | RS_Completed => 8
  | RS_Rejected => 9
  | RS_Cancelled => 10
  | RS_Expired => 11
  | RS_Failed => 12
  end.

Definition RequestState_of_int (v : Z) : option RequestState :=
  match v with
  | 0 => Some RS_Created
  | 1 => Some RS_PendingAdmission
  | 2 => Some RS_Admitted
  | 3 => Some RS_Queued
  | 4 => Some RS_Reserved
  | 5 => Some RS_Dispatched
  | 6 => Some RS_Running
  | 7 => Some RS_Completing
  | 8 => Some RS_Completed
  | 9 => Some RS_Rejected
  | 10 => Some RS_Cancelled
  | 11 => Some RS_Expired
  | 12 => Some RS_Failed
  | _ => None
  end.

Definition RequestState_name (e : RequestState) : string :=
  match e with
  | RS_Created => "created"
  | RS_PendingAdmission => "pending_admission"
  | RS_Admitted => "admitted"
  | RS_Queued => "queued"
  | RS_Reserved => "reserved"
  | RS_Dispatched => "dispatched"
  | RS_Running => "running"
  | RS_Completing => "completing"
  | RS_Completed => "completed"
  | RS_Rejected => "rejected"
  | RS_Cancelled => "cancelled"
  | RS_Expired => "expired"
  | RS_Failed => "failed"
  end.

Inductive AttemptState : Set :=
| AS_Created
| AS_Reserved
| AS_Dispatched
| AS_Running
| AS_Completing
| AS_Succeeded
| AS_Failed
| AS_Cancelled
| AS_Stale
| AS_Expired.

#[export] Instance AttemptState_eq_dec : EqDecision AttemptState.
Proof. solve_decision. Defined.

Definition AttemptState_int (e : AttemptState) : Z :=
  match e with
  | AS_Created => 0
  | AS_Reserved => 1
  | AS_Dispatched => 2
  | AS_Running => 3
  | AS_Completing => 4
  | AS_Succeeded => 5
  | AS_Failed => 6
  | AS_Cancelled => 7
  | AS_Stale => 8
  | AS_Expired => 9
  end.

Definition AttemptState_of_int (v : Z) : option AttemptState :=
  match v with
  | 0 => Some AS_Created
  | 1 => Some AS_Reserved
  | 2 => Some AS_Dispatched
  | 3 => Some AS_Running
  | 4 => Some AS_Completing
  | 5 => Some AS_Succeeded
  | 6 => Some AS_Failed
  | 7 => Some AS_Cancelled
  | 8 => Some AS_Stale
  | 9 => Some AS_Expired
  | _ => None
  end.

Definition AttemptState_name (e : AttemptState) : string :=
  match e with
  | AS_Created => "created"
  | AS_Reserved => "reserved"
  | AS_Dispatched => "dispatched"
  | AS_Running => "running"
  | AS_Completing => "completing"
  | AS_Succeeded => "succeeded"
  | AS_Failed => "failed"
  | AS_Cancelled => "cancelled"
  | AS_Stale => "stale"
  | AS_Expired => "expired"
  end.

Inductive WorkerState : Set :=
| WS_Unknown
| WS_Booted
| WS_Online
| WS_Busy
| WS_Offline
| WS_Drained
| WS_Unhealthy.

#[export] Instance WorkerState_eq_dec : EqDecision WorkerState.
Proof. solve_decision. Defined.

Definition WorkerState_int (e : WorkerState) : Z :=
  match e with
  | WS_Unknown => 0
  | WS_Booted => 1
  | WS_Online => 2
  | WS_Busy => 3
  | WS_Offline => 4
  | WS_Drained => 5
  | WS_Unhealthy => 6
  end.

Definition WorkerState_of_int (v : Z) : option WorkerState :=
  match v with
  | 0 => Some WS_Unknown
  | 1 => Some WS_Booted
  | 2 => Some WS_Online
  | 3 => Some WS_Busy
  | 4 => Some WS_Offline
  | 5 => Some WS_Drained
  | 6 => Some WS_Unhealthy
  | _ => None
  end.

Definition WorkerState_name (e : WorkerState) : string :=
  match e with
  | WS_Unknown => "unknown"
  | WS_Booted => "booted"
  | WS_Online => "online"
  | WS_Busy => "busy"
  | WS_Offline => "offline"
  | WS_Drained => "drained"
  | WS_Unhealthy => "unhealthy"
  end.

Inductive AdmissionDecision : Set :=
| AD_Admit
| AD_Defer
| AD_Reject.

#[export] Instance AdmissionDecision_eq_dec : EqDecision AdmissionDecision.
Proof. solve_decision. Defined.

Definition AdmissionDecision_int (e : AdmissionDecision) : Z :=
  match e with
  | AD_Admit => 0
  | AD_Defer => 1
  | AD_Reject => 2
  end.

Definition AdmissionDecision_of_int (v : Z) : option AdmissionDecision :=
  match v with
  | 0 => Some AD_Admit
  | 1 => Some AD_Defer
  | 2 => Some AD_Reject
  | _ => None
  end.

Definition AdmissionDecision_name (e : AdmissionDecision) : string :=
  match e with
  | AD_Admit => "admit"
  | AD_Defer => "defer"
  | AD_Reject => "reject"
  end.

Inductive DispatchDecision : Set :=
| DD_Dispatch
| DD_Hold
| DD_NoEligibleWorker
| DD_Cancelled.

#[export] Instance DispatchDecision_eq_dec : EqDecision DispatchDecision.
Proof. solve_decision. Defined.

Definition DispatchDecision_int (e : DispatchDecision) : Z :=
  match e with
  | DD_Dispatch => 0
  | DD_Hold => 1
  | DD_NoEligibleWorker => 2
  | DD_Cancelled => 3
  end.

Definition DispatchDecision_of_int (v : Z) : option DispatchDecision :=
  match v with
  | 0 => Some DD_Dispatch
  | 1 => Some DD_Hold
  | 2 => Some DD_NoEligibleWorker
  | 3 => Some DD_Cancelled
  | _ => None
  end.

Definition DispatchDecision_name (e : DispatchDecision) : string :=
  match e with
  | DD_Dispatch => "dispatch"
  | DD_Hold => "hold"
  | DD_NoEligibleWorker => "no_eligible_worker"
  | DD_Cancelled => "cancelled"
  end.

Inductive RetryDecision : Set :=
| RD_Retry
| RD_GiveUp
| RD_NoBudget.

#[export] Instance RetryDecision_eq_dec : EqDecision RetryDecision.
Proof. solve_decision. Defined.

Definition RetryDecision_int (e : RetryDecision) : Z :=
  match e with
  | RD_Retry => 0
  | RD_GiveUp => 1
  | RD_NoBudget => 2
  end.

Definition RetryDecision_of_int (v : Z) : option RetryDecision :=
  match v with
  | 0 => Some RD_Retry
  | 1 => Some RD_GiveUp
  | 2 => Some RD_NoBudget
  | _ => None
  end.

Definition RetryDecision_name (e : RetryDecision) : string :=
  match e with
  | RD_Retry => "retry"
  | RD_GiveUp => "give_up"
  | RD_NoBudget => "no_budget"
  end.

Inductive CancellationReason : Set :=
| CR_ClientRequested
| CR_DeadlineExpired
| CR_SchedulerDrain
| CR_TransientFailure
| CR_Policy
| CR_Overload
| CR_Manual.

#[export] Instance CancellationReason_eq_dec : EqDecision CancellationReason.
Proof. solve_decision. Defined.

Definition CancellationReason_int (e : CancellationReason) : Z :=
  match e with
  | CR_ClientRequested => 0
  | CR_DeadlineExpired => 1
  | CR_SchedulerDrain => 2
  | CR_TransientFailure => 3
  | CR_Policy => 4
  | CR_Overload => 5
  | CR_Manual => 6
  end.

Definition CancellationReason_of_int (v : Z) : option CancellationReason :=
  match v with
  | 0 => Some CR_ClientRequested
  | 1 => Some CR_DeadlineExpired
  | 2 => Some CR_SchedulerDrain
  | 3 => Some CR_TransientFailure
  | 4 => Some CR_Policy
  | 5 => Some CR_Overload
  | 6 => Some CR_Manual
  | _ => None
  end.

Definition CancellationReason_name (e : CancellationReason) : string :=
  match e with
  | CR_ClientRequested => "client_requested"
  | CR_DeadlineExpired => "deadline_expired"
  | CR_SchedulerDrain => "scheduler_drain"
  | CR_TransientFailure => "transient_failure"
  | CR_Policy => "policy"
  | CR_Overload => "overload"
  | CR_Manual => "manual"
  end.

Inductive CompletionStatus : Set :=
| CS_Succeeded
| CS_Failed
| CS_Cancelled
| CS_Expired
| CS_Stale
| CS_Ambiguous.

#[export] Instance CompletionStatus_eq_dec : EqDecision CompletionStatus.
Proof. solve_decision. Defined.

Definition CompletionStatus_int (e : CompletionStatus) : Z :=
  match e with
  | CS_Succeeded => 0
  | CS_Failed => 1
  | CS_Cancelled => 2
  | CS_Expired => 3
  | CS_Stale => 4
  | CS_Ambiguous => 5
  end.

Definition CompletionStatus_of_int (v : Z) : option CompletionStatus :=
  match v with
  | 0 => Some CS_Succeeded
  | 1 => Some CS_Failed
  | 2 => Some CS_Cancelled
  | 3 => Some CS_Expired
  | 4 => Some CS_Stale
  | 5 => Some CS_Ambiguous
  | _ => None
  end.

Definition CompletionStatus_name (e : CompletionStatus) : string :=
  match e with
  | CS_Succeeded => "succeeded"
  | CS_Failed => "failed"
  | CS_Cancelled => "cancelled"
  | CS_Expired => "expired"
  | CS_Stale => "stale"
  | CS_Ambiguous => "ambiguous"
  end.

Inductive FailureClass : Set :=
| FC_RetryableTransport
| FC_RetryableWorker
| FC_NonRetryableRequest
| FC_SchedulerRejection
| FC_DeadlineExpiration
| FC_Cancellation
| FC_StaleAuthority
| FC_AmbiguousDispatch
| FC_Internal.

#[export] Instance FailureClass_eq_dec : EqDecision FailureClass.
Proof. solve_decision. Defined.

Definition FailureClass_int (e : FailureClass) : Z :=
  match e with
  | FC_RetryableTransport => 0
  | FC_RetryableWorker => 1
  | FC_NonRetryableRequest => 2
  | FC_SchedulerRejection => 3
  | FC_DeadlineExpiration => 4
  | FC_Cancellation => 5
  | FC_StaleAuthority => 6
  | FC_AmbiguousDispatch => 7
  | FC_Internal => 8
  end.

Definition FailureClass_of_int (v : Z) : option FailureClass :=
  match v with
  | 0 => Some FC_RetryableTransport
  | 1 => Some FC_RetryableWorker
  | 2 => Some FC_NonRetryableRequest
  | 3 => Some FC_SchedulerRejection
  | 4 => Some FC_DeadlineExpiration
  | 5 => Some FC_Cancellation
  | 6 => Some FC_StaleAuthority
  | 7 => Some FC_AmbiguousDispatch
  | 8 => Some FC_Internal
  | _ => None
  end.

Definition FailureClass_name (e : FailureClass) : string :=
  match e with
  | FC_RetryableTransport => "retryable_transport"
  | FC_RetryableWorker => "retryable_worker"
  | FC_NonRetryableRequest => "non_retryable_request"
  | FC_SchedulerRejection => "scheduler_rejection"
  | FC_DeadlineExpiration => "deadline_expiration"
  | FC_Cancellation => "cancellation"
  | FC_StaleAuthority => "stale_authority"
  | FC_AmbiguousDispatch => "ambiguous_dispatch"
  | FC_Internal => "internal"
  end.

Inductive ErrorCode : Set :=
| EC_None
| EC_InvalidArgument
| EC_InvalidState
| EC_NotFound
| EC_AlreadyExists
| EC_CapacityExhausted
| EC_AdmissionRejected
| EC_Deferred
| EC_DeadlineExpired
| EC_Cancelled
| EC_StaleEpoch
| EC_StaleWorker
| EC_StaleAttempt
| EC_Incompatible
| EC_TransportFailure
| EC_PersistenceFailure
| EC_Corruption
| EC_Unsupported
| EC_Internal.

#[export] Instance ErrorCode_eq_dec : EqDecision ErrorCode.
Proof. solve_decision. Defined.

Definition ErrorCode_int (e : ErrorCode) : Z :=
  match e with
  | EC_None => 0
  | EC_InvalidArgument => 1
  | EC_InvalidState => 2
  | EC_NotFound => 3
  | EC_AlreadyExists => 4
  | EC_CapacityExhausted => 5
  | EC_AdmissionRejected => 6
  | EC_Deferred => 7
  | EC_DeadlineExpired => 8
  | EC_Cancelled => 9
  | EC_StaleEpoch => 10
  | EC_StaleWorker => 11
  | EC_StaleAttempt => 12
  | EC_Incompatible => 13
  | EC_TransportFailure => 14
  | EC_PersistenceFailure => 15
  | EC_Corruption => 16
  | EC_Unsupported => 17
  | EC_Internal => 18
  end.

Definition error_code_name (c : ErrorCode) : string :=
  match c with
  | EC_None => "none"
  | EC_InvalidArgument => "invalid_argument"
  | EC_InvalidState => "invalid_state"
  | EC_NotFound => "not_found"
  | EC_AlreadyExists => "already_exists"
  | EC_CapacityExhausted => "capacity_exhausted"
  | EC_AdmissionRejected => "admission_rejected"
  | EC_Deferred => "deferred"
  | EC_DeadlineExpired => "deadline_expired"
  | EC_Cancelled => "cancelled"
  | EC_StaleEpoch => "stale_epoch"
  | EC_StaleWorker => "stale_worker"
  | EC_StaleAttempt => "stale_attempt"
  | EC_Incompatible => "incompatible"
  | EC_TransportFailure => "transport_failure"
  | EC_PersistenceFailure => "persistence_failure"
  | EC_Corruption => "corruption"
  | EC_Unsupported => "unsupported"
  | EC_Internal => "internal"
  end.

(** [error_code_from_name]: a chain of comparisons, [Internal] by default. *)
Definition error_code_from_name (name : string) : ErrorCode :=
  if String.eqb name "none" then EC_None else
  if String.eqb name "invalid_argument" then EC_InvalidArgument else
  if String.eqb name "invalid_state" then EC_InvalidState else
  if String.eqb name "not_found" then EC_NotFound else
  if String.eqb name "already_exists" then EC_AlreadyExists else
  if String.eqb name "capacity_exhausted" then EC_CapacityExhausted else
  if String.eqb name "admission_rejected" then EC_AdmissionRejected else
  if String.eqb name "deferred" then EC_Deferred else
  if String.eqb name "deadline_expired" then EC_DeadlineExpired else
  if String.eqb name "cancelled" then EC_Cancelled else
  if String.eqb name "stale_epoch" then EC_StaleEpoch else
  if String.eqb name "stale_worker" then EC_StaleWorker else
  if String.eqb name "stale_attempt" then EC_StaleAttempt else
  if String.eqb name "incompatible" then EC_Incompatible else
  if String.eqb name "transport_failure" then EC_TransportFailure else
  if String.eqb name "persistence_failure" then EC_PersistenceFailure else
  if String.eqb name "corruption" then EC_Corruption else
  if String.eqb name "unsupported" then EC_Unsupported else
  if String.eqb name "internal" then EC_Internal else
  EC_Internal.

(** The enumerator with a given integer, as [static_cast<ErrorCode>] yields it
    inside the enumeration's range. *)
Definition ErrorCode_cast (v : Z) : ErrorCode :=
  match v with
  | 0 => EC_None
  | 1 => EC_InvalidArgument
  | 2 => EC_InvalidState
  | 3 => EC_NotFound
  | 4 => EC_AlreadyExists
  | 5 => EC_CapacityExhausted
  | 6 => EC_AdmissionRejected
  | 7 => EC_Deferred
  | 8 => EC_DeadlineExpired
  | 9 => EC_Cancelled
  | 10 => EC_StaleEpoch
  | 11 => EC_StaleWorker
  | 12 => EC_StaleAttempt
  | 13 => EC_Incompatible
  | 14 => EC_TransportFailure
  | 15 => EC_PersistenceFailure
  | 16 => EC_Corruption
  | 17 => EC_Unsupported
  | 18 => EC_Internal
  | _ => EC_Internal
  end.

Definition error_code_from_int (v : Z) : ErrorCode :=
  if (ErrorCode_int EC_None <=? v) && (v <=? ErrorCode_int EC_Internal)
  then ErrorCode_cast v else EC_Internal.

Definition priority_class_from_string (s : string) : PriorityClass :=
  if String.eqb s "background" then PC_Background else
  if String.eqb s "low" then PC_Low else
  if String.eqb s "medium" then PC_Medium else
  if String.eqb s "high" then PC_High else
  if String.eqb s "critical" then PC_Critical else
  PC_Medium.

Definition latency_class_from_string (s : string) : LatencyClass :=
  if String.eqb s "background" then LC_Background else
  if String.eqb s "throughput" then LC_Throughput else
  if String.eqb s "standard" then LC_Standard else
  if String.eqb s "interactive" then LC_Interactive else
  LC_Standard.

Definition request_phase_from_string (s : string) : RequestPhase :=
  if String.eqb s "prefill" then RP_Prefill else
  if String.eqb s "decode" then RP_Decode else
  RP_Unknown.

(** [is_terminal] and [is_active] of enums.hpp. *)
Definition is_terminal (s : RequestState) : bool :=
  match s with
  | RS_Completed | RS_Rejected | RS_Cancelled | RS_Expired | RS_Failed => true
  | _ => false
  end.

Definition attempt_is_terminal (s : AttemptState) : bool :=
  match s with
  | AS_Succeeded | AS_Failed | AS_Cancelled | AS_Stale | AS_Expired => true
  | _ => false
  end.

Definition is_active (s : RequestState) : bool :=
  match s with
  | RS_Admitted | RS_Queued | RS_Reserved | RS_Dispatched | RS_Running
  | RS_Completing => true
  | _ => false
  end.

(** ** Error and Result *)

Record Error := mkError { err_code : ErrorCode; err_message : string; err_context : string }.

Definition make_error (c : ErrorCode) (m : string) : Error := mkError c m EmptyString.

Definition error_ok (e : Error) : bool := bool_decide (err_code e = EC_None).

(** [Result<T>] keeps a value and an error side by side; [ok()] reads the
    error's code.  A success is a value with the code [None]; constructing a
    result from an error whose code is [None] turns that code into
    [Internal]. *)
Inductive Result (A : Type) : Type :=
| Ok (a : A)
| Err (e : Error).
Arguments Ok {A} a.
Arguments Err {A} e.

Definition result_err {A} (e : Error) : Result A :=
  Err (if bool_decide (err_code e = EC_None) then mkError EC_Internal (err_message e) EmptyString else e).

Definition result_ok {A} (r : Result A) : bool :=
  match r with Ok _ => true | Err e => error_ok e end.

Definition fail {A} (c : ErrorCode) (m : string) : Result A := result_err (make_error c m).

(** [Result<void>] is its error alone: the code [None] is success.  The methods
    that return one are modelled with [Result unit], which [void_result] reads
    off it. *)
Record ResultVoid := mkResultVoid { rv_error : Error }.

Definition void_success : ResultVoid := mkResultVoid (make_error EC_None EmptyString).

Definition void_err (e : Error) : ResultVoid :=
  mkResultVoid (if bool_decide (err_code e = EC_None) then mkError EC_Internal (err_message e) EmptyString else e).

Definition void_ok (r : ResultVoid) : bool := error_ok (rv_error r).

Definition void_result (r : ResultVoid) : Result unit := if void_ok r then Ok tt else Err (rv_error r).

(** ** Properties *)

(** The two ways to make a [Result<void>] are the two constructors. *)
Lemma void_result_success : void_result void_success = Ok tt.
Proof. done. Qed.

Lemma void_result_err e : void_result (void_err e) = result_err e.
Proof.
  unfold void_result, void_ok, void_err, result_err, error_ok. cbn [rv_error].
  destruct (bool_decide_reflect (err_code e = EC_None)) as [H|H]; [done|]. by rewrite bool_decide_eq_false_2.
Qed.

Lemma result_err_not_ok {A} (e : Error) : result_ok (@result_err A e) = false.
Proof.
  unfold result_err, result_ok, error_ok. case_bool_decide as H; simpl;
    by case_bool_decide.
Qed.

(** Terminal and active are disjoint: a request that may still be scheduled is
    never terminal. *)
Lemma is_active_not_terminal s : is_active s = true -> is_terminal s = false.
Proof. by destruct s. Qed.
