(* ===== verification/Ids.v ===== *)
(** * Strong identifiers and the identifier factory

    Models [include/inference_scheduler/id_types.hpp].  An [Id<Tag>] wraps a
    [std::uint64_t]; the tags only separate types at compile time, so every
    identifier is a [Z] in [0, 2^64) here. *)

From S2P Require Import Prelude.
Open Scope Z_scope.

(** [Id<Tag>::invalid] is [std::numeric_limits<std::uint64_t>::max()]. *)
Definition invalid_id : Z := 2 ^ 64 - 1.

Definition id_valid (v : Z) : bool := negb (v =? invalid_id).

Record IdFactory := mkIdFactory { idf_salt : Z; idf_counter : Z }.

#[export] Instance IdFactory_eta : Eta IdFactory :=
  fun r => mkIdFactory (idf_salt r) (idf_counter r).
#[export] Instance upd_idf_counter : Update idf_counter. Proof. derive_update. Defined.

(** [IdFactory::random_salt] masks and tags the entropy it draws. *)
Definition random_salt (r1 r2 : Z) : Z :=
  Z.lor (Z.land (Z.lxor (u64 (Z.shiftl r1 16)) r2) 0xFFFFFFFF) 0x80000000.

(** The value handed out for the counter value [c]. *)
Definition id_value (salt c : Z) : Z := Z.lor (u64 (Z.shiftl salt 32)) c.

(** [IdFactory::next]: [counter_.fetch_add(1) + 1], then salt and counter are
    combined. *)
Definition id_next (f : IdFactory) : Z * IdFactory :=
  let c := u64 (idf_counter f + 1) in
  (id_value (idf_salt f) c, f <| idf_counter := c |>).

(** The factory after [k] more identifiers. *)
Definition issue (k : nat) (f : IdFactory) : IdFactory := Nat.iter k (fun f => (id_next f).2) f.

Definition issues (f f' : IdFactory) : Prop := exists k, f' = issue k f.

#[export] Instance issues_preorder : PreOrder issues.
Proof.
  split; [by exists 0%nat|]. intros f1 f2 f3 [k ->] [j ->]. exists (j + k)%nat. unfold issue. by rewrite Nat.iter_add.
Qed.

(** ** Freshness

    [issued f v]: the factory [f] has already handed out [v]. *)
Definition issued (f : IdFactory) (v : Z) : Prop :=
  exists c, 1 <= c <= idf_counter f /\ v = id_value (idf_salt f) c.

(** A factory as [random_salt] makes it, before its low 32 bits run out. *)
Definition factory_ok (f : IdFactory) : Prop :=
  0 <= idf_salt f < 2 ^ 32 /\ 0 <= idf_counter f < 2 ^ 32.

Lemma id_value_sum salt c :
  0 <= salt < 2 ^ 32 -> 0 <= c < 2 ^ 32 -> id_value salt c = salt * 2 ^ 32 + c.
Proof.
  intros Hs Hc. unfold id_value. rewrite u64_id by (rewrite Z.shiftl_mul_pow2; lia).
  rewrite Z.shiftl_mul_pow2 by lia.
  assert (Z.land (salt * 2 ^ 32) c = 0) as L.
  { apply Z.bits_inj'; intros n Hn. rewrite Z.land_spec, Z.bits_0.
    destruct (decide (n < 32)); [by rewrite Z.mul_pow2_bits_low by lia|].
    destruct (decide (c = 0)) as [->|]; [by rewrite Z.bits_0, andb_false_r|].
    rewrite (Z.bits_above_log2 c n), andb_false_r; [done | lia |].
    apply Z.log2_lt_pow2; [lia|]. apply Z.lt_le_trans with (2 ^ 32); [lia|].
    apply Z.pow_le_mono_r; lia. }
  by rewrite (Z.add_nocarry_lxor _ _ L), (Z.lxor_lor _ _ L).
Qed.

Lemma id_next_salt f : idf_salt (id_next f).2 = idf_salt f.
Proof. done. Qed.

Lemma id_next_counter f :
  0 <= idf_counter f < 2 ^ 64 - 1 -> idf_counter (id_next f).2 = idf_counter f + 1.
Proof. intros. simpl. apply u64_id. lia. Qed.

Section Fresh.
  Context (f : IdFactory) (Hok : factory_ok f) (Hnext : idf_counter f + 1 < 2 ^ 32).

Lemma id_next_ok : factory_ok (id_next f).2.
Proof. destruct Hok. split; [done|]. rewrite id_next_counter; lia. Qed.

Lemma id_next_value : (id_next f).1 = id_value (idf_salt f) (idf_counter f + 1).
Proof. simpl. destruct Hok. by rewrite u64_id by lia. Qed.

Lemma id_next_issued : issued (id_next f).2 (id_next f).1.
Proof.
  exists (idf_counter f + 1). rewrite id_next_value, id_next_salt.
  destruct Hok. rewrite id_next_counter; lia.
Qed.

Lemma issued_next v : issued f v -> issued (id_next f).2 v.
Proof.
  intros (c & Hc & ->). exists c. rewrite id_next_salt. destruct Hok.
  rewrite id_next_counter; lia.
Qed.

Lemma id_next_fresh : ~ issued f (id_next f).1.
Proof.
  intros (c & Hc & E). rewrite id_next_value in E. destruct Hok.
  rewrite !id_value_sum in E; lia.
Qed.

Lemma id_next_valid : idf_counter f + 1 < 2 ^ 32 - 1 -> id_valid (id_next f).1 = true.
Proof.
  intros. rewrite id_next_value. destruct Hok. rewrite id_value_sum by lia.
  unfold id_valid, invalid_id. destruct (Z.eqb_spec (idf_salt f * 2 ^ 32 + (idf_counter f + 1)) (2 ^ 64 - 1)); lia.
Qed.

End Fresh.
