(* ===== verification/Float64.v ===== *)
(** * IEEE-754 binary64 and binary32 values

    The [double] and [float] fields of the scheduler, as the executable
    specification of IEEE-754 arithmetic of the standard library
    ([SpecFloat]): [double] is precision 53 with maximal exponent 1024,
    [float] is precision 24 with maximal exponent 128.  Every operation rounds
    to nearest, ties to even, as the code's default environment does. *)

From S2P Require Import Prelude.
From Stdlib Require Export SpecFloat.
Open Scope Z_scope.

Abbreviation f64 := spec_float (only parsing).
Abbreviation f32 := spec_float (only parsing).

Definition fadd : f64 -> f64 -> f64 := SFadd 53 1024.
Definition fsub : f64 -> f64 -> f64 := SFsub 53 1024.
Definition fmul : f64 -> f64 -> f64 := SFmul 53 1024.
Definition fdiv : f64 -> f64 -> f64 := SFdiv 53 1024.
Definition fltb : f64 -> f64 -> bool := SFltb.
Definition fleb : f64 -> f64 -> bool := SFleb.
Definition feqb : f64 -> f64 -> bool := SFeqb.

(** [float] product and sum, and the promotion of a [float] to [double]. *)
Definition fmul32 : f32 -> f32 -> f32 := SFmul 24 128.
Definition fadd32 : f32 -> f32 -> f32 := SFadd 24 128.
Definition f32_to_f64 (x : f32) : f64 :=
  match x with
  | S754_finite s m e => binary_normalize 53 1024 (cond_Zopp s (Z.pos m)) e s
  | _ => x
  end.

(** [static_cast<double>] of an integer, and the literal [n / d]. *)
Definition f64_of_Z (z : Z) : f64 := binary_normalize 53 1024 z 0 false.
Definition flit (n d : Z) : f64 := fdiv (f64_of_Z n) (f64_of_Z d).

Definition fzero : f64 := S754_zero false.
Definition fone : f64 := f64_of_Z 1.
Definition fhalf : f64 := flit 1 2.
Definition finf : f64 := S754_infinity false.
Definition fneg_inf : f64 := S754_infinity true.

Definition is_nan (x : f64) : bool :=
  match x with S754_nan => true | _ => false end.

(** [std::max(a, b)] is [(a < b) ? b : a]. *)
Definition fmax (a b : f64) : f64 := if fltb a b then b else a.

(** The integer [std::ceil(x)], for a finite [x]. *)
Definition f64_ceil (x : f64) : option Z :=
  match x with
  | S754_zero _ => Some 0
  | S754_finite s m e =>
      let v := cond_Zopp s (Z.pos m) in
      Some (if 0 <=? e then v * 2 ^ e else - ((- v) / 2 ^ (- e)))
  | S754_infinity _ | S754_nan => None
  end.

Definition in_int64 (z : Z) : bool := (- 2 ^ 63 <=? z) && (z <? 2 ^ 63).

(** ** The order of doubles

    [<] on the values that are not NaN is a strict weak order: irreflexive,
    transitive, and compatible with [==]. *)

Lemma pos_compare_cont m n : Pos.compare_cont Eq m n = Pos.compare m n.
Proof. done. Qed.

(** A key that orders the finite doubles lexicographically. *)
Definition fkey (x : f64) : Z * Z * Z :=
  match x with
  | S754_zero _ => (0, 0, 0)
  | S754_infinity s => (cond_Zopp s 2, 0, 0)
  | S754_nan => (3, 0, 0)
  | S754_finite s m e => (cond_Zopp s 1, cond_Zopp s e, cond_Zopp s (Z.pos m))
  end.

Definition key_lt (a b : Z * Z * Z) : Prop :=
  a.1.1 < b.1.1 \/ (a.1.1 = b.1.1 /\ (a.1.2 < b.1.2 \/ (a.1.2 = b.1.2 /\ a.2 < b.2))).

Ltac fcases :=
  repeat match goal with
  | x : spec_float |- _ => destruct x as [[]|[]| |[] ??]
  end.

Lemma SFcompare_spec x y :
  is_nan x = false -> is_nan y = false ->
  match SFcompare x y with
  | Some Lt => key_lt (fkey x) (fkey y)
  | Some Eq => fkey x = fkey y
  | Some Gt => key_lt (fkey y) (fkey x)
  | None => False
  end.
Proof.
  intros Hx Hy. fcases; try done; simpl; unfold key_lt; simpl; try lia;
    rewrite pos_compare_cont;
    repeat match goal with
    | |- context [Z.compare ?a ?b] => destruct (Z.compare_spec a b); subst; simpl
    | |- context [Pos.compare ?a ?b] => destruct (Pos.compare_spec a b); subst; simpl
    end; try done; try lia; repeat (right; split; [done|]); lia.
Qed.

Lemma fltb_spec x y :
  is_nan x = false -> is_nan y = false -> fltb x y = true <-> key_lt (fkey x) (fkey y).
Proof.
  intros Hx Hy. pose proof (SFcompare_spec x y Hx Hy) as H.
  unfold fltb, SFltb. destruct (SFcompare x y) as [[]|]; [..|done];
    split; try done; unfold key_lt in *; rewrite ?H in *; lia.
Qed.

Lemma feqb_spec x y :
  is_nan x = false -> is_nan y = false -> feqb x y = true <-> fkey x = fkey y.
Proof.
  intros Hx Hy. pose proof (SFcompare_spec x y Hx Hy) as H.
  unfold feqb, SFeqb. destruct (SFcompare x y) as [[]|]; [..|done];
    split; try done; intros E; rewrite E in H; unfold key_lt in H; lia.
Qed.

Lemma fltb_nan_l x : fltb S754_nan x = false.
Proof. done. Qed.
Lemma fltb_nan_r x : fltb x S754_nan = false.
Proof. by fcases. Qed.

Lemma fltb_irrefl x : fltb x x = false.
Proof.
  destruct (is_nan x) eqn:N; [by destruct x|].
  destruct (fltb x x) eqn:E; [|done].
  apply fltb_spec in E; [|done..]. unfold key_lt in E. lia.
Qed.

Lemma fltb_not_nan x y : fltb x y = true -> is_nan x = false /\ is_nan y = false.
Proof. intros. split; [by destruct x | by destruct y; fcases]. Qed.

Lemma fltb_trans x y z : fltb x y = true -> fltb y z = true -> fltb x z = true.
Proof.
  intros H1 H2. destruct (fltb_not_nan _ _ H1), (fltb_not_nan _ _ H2).
  apply fltb_spec in H1, H2; [|done..]. apply fltb_spec; [done..|].
  unfold key_lt in *. lia.
Qed.

Lemma f_trichotomy x y :
  is_nan x = false -> is_nan y = false ->
  fltb x y = true \/ feqb x y = true \/ fltb y x = true.
Proof.
  intros Hx Hy. rewrite !fltb_spec, feqb_spec by done.
  destruct (fkey x) as [[a b] c], (fkey y) as [[a' b'] c']. unfold key_lt; simpl.
  destruct (decide (a = a')), (decide (b = b')), (decide (c = c')); subst;
    try (right; left; done); lia.
Qed.

(** [std::max] is an upper bound of its arguments (no NaN). *)
Lemma fmax_ge_l a b : fltb (fmax a b) a = false.
Proof.
  unfold fmax. destruct (fltb a b) eqn:E; [|apply fltb_irrefl].
  destruct (fltb b a) eqn:E2; [|done].
  by rewrite <- (fltb_irrefl a), (fltb_trans a b a).
Qed.

Lemma fmax_ge_r a b : fltb (fmax a b) b = false.
Proof. unfold fmax. destruct (fltb a b) eqn:E; [apply fltb_irrefl | done]. Qed.
