(* ===== verification/FloatExact.v ===== *)
(** * Exact floating-point arithmetic on integers

    Sums of non-negative integers that fit in the precision are exact: the
    rounding of the executable specification loses nothing on them.  Stated for
    any precision, so for [float] and for [double]. *)

From S2P Require Import Prelude Float64.
Open Scope Z_scope.

Lemma digits2_pos_log2 m : Z.pos (digits2_pos m) = Z.log2 (Z.pos m) + 1.
Proof.
  induction m as [m IH|m IH|]; cbn [digits2_pos]; [| |done];
    rewrite Pos2Z.inj_succ, IH; [rewrite Pos2Z.inj_xI|rewrite Pos2Z.inj_xO].
  - rewrite Z.log2_succ_double by lia. lia.
  - rewrite Z.log2_double by lia. lia.
Qed.

Lemma iter_xO_shift m d : Z.pos (Pos.iter xO m d) = Z.pos m * 2 ^ Z.pos d.
Proof.
  induction d as [|d IH] using Pos.peano_ind; [cbn [Pos.iter]; rewrite Pos2Z.inj_xO; lia|].
  rewrite Pos.iter_succ, Pos2Z.inj_xO, IH, Pos2Z.inj_succ, Z.pow_succ_r; lia.
Qed.

Lemma shl_align_spec m e e' :
  Z.pos (shl_align m e e').1 = Z.pos m * 2 ^ (Z.max 0 (e - e')) /\ (shl_align m e e').2 = Z.min e e'.
Proof.
  unfold shl_align. destruct (e' - e) as [|p|p] eqn:E; cbn [fst snd].
  - replace (Z.max 0 (e - e')) with 0 by lia. rewrite Z.pow_0_r. lia.
  - replace (Z.max 0 (e - e')) with 0 by lia. rewrite Z.pow_0_r. lia.
  - rewrite iter_xO_shift. replace (Z.max 0 (e - e')) with (Z.pos p) by lia. lia.
Qed.

(** Shifting out zeros. *)
Lemma shr_1_even m : shr_1 {| shr_m := 2 * Z.pos m; shr_r := false; shr_s := false |}
  = {| shr_m := Z.pos m; shr_r := false; shr_s := false |}.
Proof. done. Qed.

Lemma iter_pos_iter {A} (f : A -> A) n x : iter_pos f n x = Pos.iter f x n.
Proof.
  revert x. induction n as [n IH|n IH|]; intros x; cbn [iter_pos]; [| |done]; rewrite !IH.
  - rewrite <- Pos.iter_add, <- Pos.iter_succ_r. f_equal. lia.
  - rewrite <- Pos.iter_add. f_equal. lia.
Qed.

Lemma shr_exact m n :
  Pos.iter shr_1 {| shr_m := Z.pos m * 2 ^ Z.pos n; shr_r := false; shr_s := false |} n
  = {| shr_m := Z.pos m; shr_r := false; shr_s := false |}.
Proof.
  induction n as [|n IH] using Pos.peano_ind; [cbn [Pos.iter]; rewrite Z.pow_1_r, Z.mul_comm; apply shr_1_even|].
  rewrite Pos.iter_succ_r, Pos2Z.inj_succ, Z.pow_succ_r by lia.
  replace (Z.pos m * (2 * 2 ^ Z.pos n)) with (2 * (Z.pos m * 2 ^ Z.pos n)) by lia.
  rewrite <- iter_xO_shift, shr_1_even, iter_xO_shift. exact IH.
Qed.

Section Exact.
  Context (prec emax : Z) (Hprec : 0 < prec) (Hemax : prec <= emax) (Hemax2 : 2 <= emax).

Lemma shr_fexp_canonical m e :
  bounded prec emax m e = true ->
  shr_fexp prec emax (Z.pos m) e loc_Exact = (shr_record_of_loc (Z.pos m) loc_Exact, e).
Proof.
  unfold bounded, canonical_mantissa. intros [Hc _]%andb_true_iff. apply Z.eqb_eq in Hc.
  unfold shr_fexp. cbn [Zdigits2]. by rewrite Hc, Z.sub_diag.
Qed.

(** A mantissa that becomes canonical without losing a bit is not rounded. *)
Lemma round_shifted s m e c e' :
  shr_fexp prec emax (Z.pos m) e loc_Exact = (shr_record_of_loc (Z.pos c) loc_Exact, e') ->
  bounded prec emax c e' = true -> binary_round_aux prec emax s (Z.pos m) e loc_Exact = S754_finite s c e'.
Proof.
  intros E Hb. unfold binary_round_aux. rewrite E. cbn [shr_m shr_record_of_loc loc_of_shr_record round_nearest_even].
  rewrite (shr_fexp_canonical c e' Hb). cbn [shr_m shr_record_of_loc].
  unfold bounded in Hb. by apply andb_true_iff in Hb as [_ ->].
Qed.

Lemma round_canonical s m e :
  bounded prec emax m e = true -> binary_round_aux prec emax s (Z.pos m) e loc_Exact = S754_finite s m e.
Proof. intros Hb. by apply round_shifted; [apply shr_fexp_canonical|]. Qed.

(** The zeros below the precision that give [x] its canonical mantissa. *)
Definition pad (x : positive) : Z := prec - Z.pos (digits2_pos x).

Lemma pad_bounds x : Z.pos x < 2 ^ prec -> 0 <= pad x < prec.
Proof.
  intros Hx. unfold pad. rewrite digits2_pos_log2. pose proof (Z.log2_nonneg (Z.pos x)).
  pose proof (Z.log2_lt_pow2 (Z.pos x) prec). lia.
Qed.

Lemma digits_shift x m k : 0 <= k -> Z.pos m = Z.pos x * 2 ^ k -> Z.pos (digits2_pos m) = Z.pos (digits2_pos x) + k.
Proof. intros Hk E. rewrite !digits2_pos_log2, E, Z.log2_mul_pow2 by lia. lia. Qed.

Lemma pad_canonical x m :
  Z.pos x < 2 ^ prec -> Z.pos m = Z.pos x * 2 ^ pad x -> bounded prec emax m (- pad x) = true.
Proof.
  intros Hx Em. pose proof (pad_bounds x Hx) as Hp. unfold bounded, canonical_mantissa.
  rewrite (digits_shift x m (pad x)) by (lia || done).
  apply andb_true_iff. split; [|lia]. apply Z.eqb_eq. unfold fexp, emin, pad in *. lia.
Qed.

(** However an integer below [2 ^ prec] is written, it is rounded to its
    canonical form. *)
Lemma round_integer s x m e :
  Z.pos x < 2 ^ prec -> e <= 0 -> Z.pos m = Z.pos x * 2 ^ (- e) ->
  exists c, Z.pos c = Z.pos x * 2 ^ pad x /\ binary_round prec emax s m e = S754_finite s c (- pad x).
Proof.
  intros Hx He Em. pose proof (pad_bounds x Hx) as Hp.
  assert (fexp prec emax (Z.pos (digits2_pos m) + e) = - pad x) as Hf.
  { rewrite (digits_shift x m (- e)) by (lia || done). unfold fexp, emin, pad in *. lia. }
  unfold binary_round. rewrite Hf. destruct (shl_align_spec m e (- pad x)) as [E1 E2].
  destruct (shl_align m e (- pad x)) as [mz ez]. cbn [fst snd] in *. subst ez.
  destruct (Z.le_gt_cases (- pad x) e) as [Hle|Hgt].
  - exists mz. rewrite (Z.min_r e) by lia.
    assert (Z.pos mz = Z.pos x * 2 ^ pad x) as Ez.
    { rewrite E1, Em, Z.max_r, <- Z.mul_assoc, <- Z.pow_add_r by lia. f_equal. f_equal. lia. }
    split; [done|]. by apply round_canonical, pad_canonical.
  - rewrite (Z.min_l e), (Z.max_l 0), Z.pow_0_r, Z.mul_1_r in * by lia. apply Pos2Z.inj in E1 as ->.
    assert (exists c, Z.pos c = Z.pos x * 2 ^ pad x) as [c Ec].
    { pose proof (Z.pow_pos_nonneg 2 (pad x)). exists (Z.to_pos (Z.pos x * 2 ^ pad x)). rewrite Z2Pos.id; nia. }
    exists c. split; [done|].
    destruct (- pad x - e) as [|n|n] eqn:En; [lia| |lia].
    assert (Z.pos m = Z.pos c * 2 ^ Z.pos n) as Emc.
    { rewrite Ec, Em, <- Z.mul_assoc, <- Z.pow_add_r by lia. f_equal. f_equal. lia. }
    apply round_shifted; [|by apply (pad_canonical x)].
    unfold shr_fexp. cbn [Zdigits2 shr_record_of_loc]. rewrite Hf, En. unfold shr.
    rewrite iter_pos_iter, Emc, shr_exact. f_equal. lia.
Qed.

(** The floating-point number of an integer. *)
Definition float_of_Z (z : Z) : spec_float := binary_normalize prec emax z 0 false.

Lemma float_of_pos x :
  Z.pos x < 2 ^ prec ->
  exists c, Z.pos c = Z.pos x * 2 ^ pad x /\ float_of_Z (Z.pos x) = S754_finite false c (- pad x).
Proof. intros Hx. apply (round_integer false x x 0); lia. Qed.

Lemma round_float_of_Z x m e :
  Z.pos x < 2 ^ prec -> e <= 0 -> Z.pos m = Z.pos x * 2 ^ (- e) ->
  binary_normalize prec emax (Z.pos m) e false = float_of_Z (Z.pos x).
Proof.
  intros Hx He Em. destruct (round_integer false x m e) as (c & Ec & Er); [done..|].
  destruct (float_of_pos x Hx) as (c' & Ec' & ->). cbn [binary_normalize]. rewrite Er.
  rewrite <- Ec in Ec'. by apply Pos2Z.inj in Ec' as ->.
Qed.

(** Sums of non-negative integers are exact. *)
Lemma float_add_exact a b :
  0 <= a -> 0 <= b -> a + b < 2 ^ prec ->
  SFadd prec emax (float_of_Z a) (float_of_Z b) = float_of_Z (a + b).
Proof.
  intros Ha Hb Hab. destruct a as [|a|a]; [| |lia].
  - rewrite Z.add_0_l. destruct b as [|b|b]; [done| |lia].
    destruct (float_of_pos b) as (c & _ & ->); [lia|done].
  - destruct b as [|b|b]; [|  |lia].
    { rewrite Z.add_0_r. destruct (float_of_pos a) as (c & _ & ->); [lia|done]. }
    destruct (float_of_pos a) as (ca & Eca & ->); [lia|].
    destruct (float_of_pos b) as (cb & Ecb & ->); [lia|].
    pose proof (pad_bounds a ltac:(lia)). pose proof (pad_bounds b ltac:(lia)).
    cbn [SFadd cond_Zopp]. set (ez := Z.min (- pad a) (- pad b)).
    destruct (shl_align_spec ca (- pad a) ez) as [-> _], (shl_align_spec cb (- pad b) ez) as [-> _].
    rewrite Eca, Ecb, <- !Z.mul_assoc, <- !Z.pow_add_r by lia.
    replace (pad a + Z.max 0 (- pad a - ez)) with (- ez) by lia.
    replace (pad b + Z.max 0 (- pad b - ez)) with (- ez) by lia.
    rewrite <- Z.mul_add_distr_r.
    assert (exists m, Z.pos m = (Z.pos a + Z.pos b) * 2 ^ (- ez)) as [m Em].
    { pose proof (Z.pow_pos_nonneg 2 (- ez)). exists (Z.to_pos ((Z.pos a + Z.pos b) * 2 ^ (- ez))). rewrite Z2Pos.id; nia. }
    rewrite <- Em. apply (round_float_of_Z (a + b)); [done|lia|]. by rewrite Em.
Qed.

End Exact.

(** ** [float] and [double] *)

Definition f32_of_Z (z : Z) : f32 := binary_normalize 24 128 z 0 false.

Lemma fadd32_exact a b : 0 <= a -> 0 <= b -> a + b < 2 ^ 24 -> fadd32 (f32_of_Z a) (f32_of_Z b) = f32_of_Z (a + b).
Proof. apply float_add_exact; lia. Qed.

Lemma fadd_exact a b : 0 <= a -> 0 <= b -> a + b < 2 ^ 53 -> fadd (f64_of_Z a) (f64_of_Z b) = f64_of_Z (a + b).
Proof. apply float_add_exact; lia. Qed.

Lemma f32_to_f64_exact a : 0 <= a < 2 ^ 24 -> f32_to_f64 (f32_of_Z a) = f64_of_Z a.
Proof.
  intros Ha. destruct a as [|a|a]; [done| |lia].
  destruct (float_of_pos 24 128 ltac:(lia) ltac:(lia) ltac:(lia) a ltac:(lia)) as (c & Ec & E).
  unfold f32_of_Z. unfold float_of_Z in E. rewrite E. cbn [f32_to_f64 cond_Zopp].
  pose proof (pad_bounds 24 a ltac:(lia)).
  apply (round_float_of_Z 53 1024); [lia..| |lia|by rewrite Z.opp_involutive]. lia.
Qed.

(** The double of an integer of at most 53 bits is that integer. *)
Lemma f64_of_pos s m :
  Z.pos m < 2 ^ 53 ->
  exists m' k, binary_round 53 1024 s m 0 = S754_finite s m' (- k) /\ 0 <= k /\ Z.pos m' = Z.pos m * 2 ^ k.
Proof.
  intros Hm. destruct (round_integer 53 1024 ltac:(lia) ltac:(lia) ltac:(lia) s m m 0) as (c & Ec & E); [lia..|].
  exists c, (pad 53 m). pose proof (pad_bounds 53 m Hm). split; [exact E|]. split; [lia|done].
Qed.
