(* ===== verification/Types.v ===== *)
(** * Public data types

    The structures of [include/inference_scheduler/types.hpp] and of
    [scheduler.hpp], with the default member initialisers as [default_...]
    values, and the [Deadline] class with its clock.

    Widths: [int], [std::int64_t] and identifiers are [Z]; an arithmetic
    operation that can leave its type's range is wrapped where the code
    performs it.  Instants and durations count nanoseconds of the steady
    clock, [std::chrono::milliseconds] fields count milliseconds. *)

From S2P Require Import Prelude Enums Ids Float64.
Open Scope Z_scope.

(** ** Tokens, budgets, deadlines *)

Record TokenEstimate := mkTokenEstimate {
  te_input : Z;
  te_output : Z;
  te_decoded : Z
}.

#[export] Instance TokenEstimate_eta : Eta TokenEstimate :=
  fun r => mkTokenEstimate (te_input r) (te_output r) (te_decoded r).
#[export] Instance upd_te_input : Update te_input. Proof. derive_update. Defined.
#[export] Instance upd_te_output : Update te_output. Proof. derive_update. Defined.

Definition default_tokens : TokenEstimate := {|
  te_input := 0;
  te_output := 0;
  te_decoded := 0
|}.

Definition tokens_total (t : TokenEstimate) : Z := i64 (te_input t + te_output t).

Record Budget := mkBudget {
  bud_units : Z
}.

Definition default_budget : Budget := {|
  bud_units := 0
|}.

Definition budget_unbounded (b : Budget) : bool := bud_units b <=? 0.

Record Deadline := mkDeadline {
  dl_point : Z;
  dl_valid : bool
}.

Definition deadline_none : Deadline := {|
  dl_point := 0;
  dl_valid := false
|}.

Definition ns_per_ms : Z := 1000000.

(** [Deadline::at] and [Deadline::after] (a duration in nanoseconds). *)
Definition deadline_at (p : Z) : Deadline := mkDeadline p true.
Definition deadline_after (d now : Z) : Deadline := deadline_at (i64 (now + d)).

(** [Deadline::remaining], in milliseconds: the maximum without a deadline,
    zero once the instant has passed. *)
Definition remaining (d : Deadline) (now : Z) : Z :=
  if negb (dl_valid d) then int64_max
  else let r := i64 (dl_point d - now) in
       if r <? 0 then 0 else Z.quot r ns_per_ms.

Definition expired (d : Deadline) (now : Z) : bool :=
  if negb (dl_valid d) then false else dl_point d <=? now.

Definition slack_ms (d : Deadline) (now : Z) : Z :=
  if negb (dl_valid d) then -1 else Z.quot (i64 (dl_point d - now)) ns_per_ms.

Definition deadline_eqb (a b : Deadline) : bool :=
  eqb (dl_valid a) (dl_valid b) && (negb (dl_valid a) || (dl_point a =? dl_point b)).

(** ** Hints and resources *)

Record LocalityHint := mkLocalityHint {
  lh_node : Z;
  lh_accelerator : Z;
  lh_affinity : Z
}.

Definition default_locality : LocalityHint := {|
  lh_node := invalid_id;
  lh_accelerator := invalid_id;
  lh_affinity := 0
|}.

Definition has_preference (l : LocalityHint) : bool :=
  id_valid (lh_node l) || id_valid (lh_accelerator l).

Record WarmthHint := mkWarmthHint {
  wh_model_warmth : f32;
  wh_state_warmth : f32;
  wh_cache_hit : f32
}.

Definition default_warmth : WarmthHint := {|
  wh_model_warmth := fzero;
  wh_state_warmth := fzero;
  wh_cache_hit := fzero
|}.

Record ResourceDemand := mkResourceDemand {
  rd_tokens : TokenEstimate;
  rd_memory_bytes : Z;
  rd_cost_units : f64
}.

#[export] Instance ResourceDemand_eta : Eta ResourceDemand :=
  fun r => mkResourceDemand (rd_tokens r) (rd_memory_bytes r) (rd_cost_units r).
#[export] Instance upd_rd_cost_units : Update rd_cost_units. Proof. derive_update. Defined.

Definition default_demand : ResourceDemand := {|
  rd_tokens := default_tokens;
  rd_memory_bytes := 0;
  rd_cost_units := fone
|}.

Record ResourceSnapshot := mkResourceSnapshot {
  res_total_capacity_units : Z;
  res_available_capacity_units : Z;
  res_memory_bytes_total : Z;
  res_memory_bytes_available : Z;
  res_queue_depth : Z;
  res_running : Z;
  res_healthy : bool
}.

#[export] Instance ResourceSnapshot_eta : Eta ResourceSnapshot :=
  fun r => mkResourceSnapshot (res_total_capacity_units r) (res_available_capacity_units r) (res_memory_bytes_total r) (res_memory_bytes_available r) (res_queue_depth r) (res_running r) (res_healthy r).
#[export] Instance upd_res_total_capacity_units : Update res_total_capacity_units. Proof. derive_update. Defined.
#[export] Instance upd_res_available_capacity_units : Update res_available_capacity_units. Proof. derive_update. Defined.
#[export] Instance upd_res_memory_bytes_total : Update res_memory_bytes_total. Proof. derive_update. Defined.
#[export] Instance upd_res_memory_bytes_available : Update res_memory_bytes_available. Proof. derive_update. Defined.
#[export] Instance upd_res_queue_depth : Update res_queue_depth. Proof. derive_update. Defined.
#[export] Instance upd_res_running : Update res_running. Proof. derive_update. Defined.
#[export] Instance upd_res_healthy : Update res_healthy. Proof. derive_update. Defined.

Definition default_resource : ResourceSnapshot := {|
  res_total_capacity_units := 0;
  res_available_capacity_units := 0;
  res_memory_bytes_total := -1;
  res_memory_bytes_available := -1;
  res_queue_depth := 0;
  res_running := 0;
  res_healthy := true
|}.

(** ** Policies and configuration *)

Record BatchConstraints := mkBatchConstraints {
  bc_max_batch_size : Z;
  bc_max_tokens : Z;
  bc_max_wait : Z;
  bc_allow_phase_mix : bool;
  bc_require_model_match : bool;
  bc_require_revision_match : bool;
  bc_require_adapter_match : bool
}.

#[export] Instance BatchConstraints_eta : Eta BatchConstraints :=
  fun r => mkBatchConstraints (bc_max_batch_size r) (bc_max_tokens r) (bc_max_wait r) (bc_allow_phase_mix r) (bc_require_model_match r) (bc_require_revision_match r) (bc_require_adapter_match r).
#[export] Instance upd_bc_max_batch_size : Update bc_max_batch_size. Proof. derive_update. Defined.

Definition default_batch_constraints : BatchConstraints := {|
  bc_max_batch_size := 16;
  bc_max_tokens := 4096;
  bc_max_wait := 8;
  bc_allow_phase_mix := false;
  bc_require_model_match := true;
  bc_require_revision_match := true;
  bc_require_adapter_match := true
|}.

Definition latency_index (c : LatencyClass) : nat := Z.to_nat (LatencyClass_int c).
Definition priority_index (c : PriorityClass) : nat := Z.to_nat (PriorityClass_int c).

Record DispatchWeights := mkDispatchWeights {
  dw_capability : f64;
  dw_capacity : f64;
  dw_load : f64;
  dw_deadline : f64;
  dw_latency_class : f64;
  dw_phase : f64;
  dw_locality : f64;
  dw_model_warmth : f64;
  dw_state_warmth : f64;
  dw_batch : f64;
  dw_fairness : f64
}.

Definition default_dispatch_weights : DispatchWeights := {|
  dw_capability := fone;
  dw_capacity := f64_of_Z 2;
  dw_load := fone;
  dw_deadline := flit 3 2;
  dw_latency_class := fone;
  dw_phase := fone;
  dw_locality := fhalf;
  dw_model_warmth := flit 6 10;
  dw_state_warmth := flit 6 10;
  dw_batch := flit 12 10;
  dw_fairness := fone
|}.

Record SchedulingPolicy := mkSchedulingPolicy {
  pol_latency_weight : list f64;
  pol_priority_weight : list f64;
  pol_phase_weight : list f64;
  pol_primary : QueueClass;
  pol_deadline_boost_enabled : bool;
  pol_deadline_boost_max : f64;
  pol_deadline_boost_threshold_ms : Z;
  pol_preemption_enabled : bool;
  pol_dispatch : DispatchWeights
}.

Definition default_scheduling_policy : SchedulingPolicy := {|
  pol_latency_weight := [fone; fone; fone; fone];
  pol_priority_weight := [fone; fone; fone; fone; fone];
  pol_phase_weight := [fone; fone; fone];
  pol_primary := QC_Tenant;
  pol_deadline_boost_enabled := true;
  pol_deadline_boost_max := f64_of_Z 4;
  pol_deadline_boost_threshold_ms := 2000;
  pol_preemption_enabled := false;
  pol_dispatch := default_dispatch_weights
|}.

Record TenantWeight := mkTenantWeight {
  tw_tenant : Z;
  tw_weight : f64
}.

Record FairnessPolicy := mkFairnessPolicy {
  fair_tenant_weights : list TenantWeight;
  fair_default_weight : f64;
  fair_quantum : Z;
  fair_starvation_guard_factor : f64;
  fair_enabled : bool
}.

Definition default_fairness : FairnessPolicy := {|
  fair_tenant_weights := [];
  fair_default_weight := fone;
  fair_quantum := 1;
  fair_starvation_guard_factor := f64_of_Z 4;
  fair_enabled := true
|}.

Record RetryPolicy := mkRetryPolicy {
  ret_max_attempts : Z;
  ret_base_backoff : Z;
  ret_backoff_multiplier : f64;
  ret_max_backoff : Z;
  ret_retry_on_transport : bool;
  ret_retry_on_worker_failure : bool;
  ret_retry_on_ambiguous : bool
}.

Definition default_retry : RetryPolicy := {|
  ret_max_attempts := 3;
  ret_base_backoff := 20;
  ret_backoff_multiplier := f64_of_Z 2;
  ret_max_backoff := 2000;
  ret_retry_on_transport := true;
  ret_retry_on_worker_failure := true;
  ret_retry_on_ambiguous := false
|}.

Record BackpressurePolicy := mkBackpressurePolicy {
  bp_admission_saturation_fraction : f64;
  bp_queue_saturation_fraction : f64;
  bp_emit_backpressure : bool
}.

Definition default_backpressure : BackpressurePolicy := {|
  bp_admission_saturation_fraction := flit 95 100;
  bp_queue_saturation_fraction := fone;
  bp_emit_backpressure := true
|}.

Record AdmissionLimits := mkAdmissionLimits {
  al_max_global_admitted : Z;
  al_max_global_queued : Z;
  al_max_tenants : Z;
  al_default_tenant_concurrency : Z;
  al_default_tenant_queue_depth : Z;
  al_max_global_token_budget : Z;
  al_enforce_deadline_feasibility : bool
}.

#[export] Instance AdmissionLimits_eta : Eta AdmissionLimits :=
  fun r => mkAdmissionLimits (al_max_global_admitted r) (al_max_global_queued r) (al_max_tenants r) (al_default_tenant_concurrency r) (al_default_tenant_queue_depth r) (al_max_global_token_budget r) (al_enforce_deadline_feasibility r).
#[export] Instance upd_al_max_global_admitted : Update al_max_global_admitted. Proof. derive_update. Defined.
#[export] Instance upd_al_max_global_token_budget : Update al_max_global_token_budget. Proof. derive_update. Defined.

Definition default_admission_limits : AdmissionLimits := {|
  al_max_global_admitted := 1024;
  al_max_global_queued := 4096;
  al_max_tenants := 64;
  al_default_tenant_concurrency := 64;
  al_default_tenant_queue_depth := 512;
  al_max_global_token_budget := 0;
  al_enforce_deadline_feasibility := true
|}.

Record SchedulerConfig := mkSchedulerConfig {
  cfg_admission : AdmissionLimits;
  cfg_scheduling : SchedulingPolicy;
  cfg_fairness : FairnessPolicy;
  cfg_batch : BatchConstraints;
  cfg_retry : RetryPolicy;
  cfg_backpressure : BackpressurePolicy;
  cfg_persist_recovery : bool;
  cfg_state_path : string;
  cfg_strict_deadline_rejection : bool
}.

#[export] Instance SchedulerConfig_eta : Eta SchedulerConfig :=
  fun r => mkSchedulerConfig (cfg_admission r) (cfg_scheduling r) (cfg_fairness r) (cfg_batch r) (cfg_retry r) (cfg_backpressure r) (cfg_persist_recovery r) (cfg_state_path r) (cfg_strict_deadline_rejection r).
#[export] Instance upd_cfg_admission : Update cfg_admission. Proof. derive_update. Defined.
#[export] Instance upd_cfg_batch : Update cfg_batch. Proof. derive_update. Defined.
#[export] Instance upd_cfg_retry : Update cfg_retry. Proof. derive_update. Defined.
#[export] Instance upd_cfg_persist_recovery : Update cfg_persist_recovery. Proof. derive_update. Defined.
#[export] Instance upd_cfg_state_path : Update cfg_state_path. Proof. derive_update. Defined.

(** [default_scheduler_config()]: every value it assigns is the member's
    default initialiser as well. *)
Definition default_scheduler_config : SchedulerConfig := {|
  cfg_admission := {|
    al_max_global_admitted := 1024; al_max_global_queued := 4096;
    al_max_tenants := 64; al_default_tenant_concurrency := 64;
    al_default_tenant_queue_depth := 512; al_max_global_token_budget := 0;
    al_enforce_deadline_feasibility := true |};
  cfg_scheduling := default_scheduling_policy;
  cfg_fairness := {|
    fair_tenant_weights := []; fair_default_weight := fone; fair_quantum := 1;
    fair_starvation_guard_factor := f64_of_Z 4; fair_enabled := true |};
  cfg_batch := {|
    bc_max_batch_size := 16; bc_max_tokens := 4096; bc_max_wait := 8;
    bc_allow_phase_mix := false; bc_require_model_match := true;
    bc_require_revision_match := true; bc_require_adapter_match := true |};
  cfg_retry := {|
    ret_max_attempts := 3; ret_base_backoff := 20;
    ret_backoff_multiplier := f64_of_Z 2; ret_max_backoff := 2000;
    ret_retry_on_transport := true; ret_retry_on_worker_failure := true;
    ret_retry_on_ambiguous := false |};
  cfg_backpressure := default_backpressure;
  cfg_persist_recovery := false;
  cfg_state_path := EmptyString;
  cfg_strict_deadline_rejection := true
|}.

(** ** Requests *)

Record RequestSpec := mkRequestSpec {
  spec_tenant : Z;
  spec_session : Z;
  spec_sequence : Z;
  spec_model : Z;
  spec_revision : Z;
  spec_adapter : Z;
  spec_phase : RequestPhase;
  spec_priority : PriorityClass;
  spec_latency_class : LatencyClass;
  spec_tokens : TokenEstimate;
  spec_demand : ResourceDemand;
  spec_locality : LocalityHint;
  spec_warmth : WarmthHint;
  spec_deadline : Deadline;
  spec_budget : Budget;
  spec_estimated_memory_bytes : Z;
  spec_model_name : string;
  spec_payload : string;
  spec_max_batch_size : Z;
  spec_interactive : bool
}.

#[export] Instance RequestSpec_eta : Eta RequestSpec :=
  fun r => mkRequestSpec (spec_tenant r) (spec_session r) (spec_sequence r) (spec_model r) (spec_revision r) (spec_adapter r) (spec_phase r) (spec_priority r) (spec_latency_class r) (spec_tokens r) (spec_demand r) (spec_locality r) (spec_warmth r) (spec_deadline r) (spec_budget r) (spec_estimated_memory_bytes r) (spec_model_name r) (spec_payload r) (spec_max_batch_size r) (spec_interactive r).
#[export] Instance upd_spec_tenant : Update spec_tenant. Proof. derive_update. Defined.
#[export] Instance upd_spec_session : Update spec_session. Proof. derive_update. Defined.
#[export] Instance upd_spec_sequence : Update spec_sequence. Proof. derive_update. Defined.
#[export] Instance upd_spec_model : Update spec_model. Proof. derive_update. Defined.
#[export] Instance upd_spec_revision : Update spec_revision. Proof. derive_update. Defined.
#[export] Instance upd_spec_adapter : Update spec_adapter. Proof. derive_update. Defined.
#[export] Instance upd_spec_phase : Update spec_phase. Proof. derive_update. Defined.
#[export] Instance upd_spec_priority : Update spec_priority. Proof. derive_update. Defined.
#[export] Instance upd_spec_latency_class : Update spec_latency_class. Proof. derive_update. Defined.
#[export] Instance upd_spec_tokens : Update spec_tokens. Proof. derive_update. Defined.
#[export] Instance upd_spec_demand : Update spec_demand. Proof. derive_update. Defined.
#[export] Instance upd_spec_locality : Update spec_locality. Proof. derive_update. Defined.
#[export] Instance upd_spec_warmth : Update spec_warmth. Proof. derive_update. Defined.
#[export] Instance upd_spec_deadline : Update spec_deadline. Proof. derive_update. Defined.
#[export] Instance upd_spec_budget : Update spec_budget. Proof. derive_update. Defined.
#[export] Instance upd_spec_estimated_memory_bytes : Update spec_estimated_memory_bytes. Proof. derive_update. Defined.
#[export] Instance upd_spec_model_name : Update spec_model_name. Proof. derive_update. Defined.
#[export] Instance upd_spec_payload : Update spec_payload. Proof. derive_update. Defined.
#[export] Instance upd_spec_max_batch_size : Update spec_max_batch_size. Proof. derive_update. Defined.
#[export] Instance upd_spec_interactive : Update spec_interactive. Proof. derive_update. Defined.

Definition default_spec : RequestSpec := {|
  spec_tenant := invalid_id;
  spec_session := invalid_id;
  spec_sequence := invalid_id;
  spec_model := invalid_id;
  spec_revision := invalid_id;
  spec_adapter := invalid_id;
  spec_phase := RP_Prefill;
  spec_priority := PC_Medium;
  spec_latency_class := LC_Standard;
  spec_tokens := default_tokens;
  spec_demand := default_demand;
  spec_locality := default_locality;
  spec_warmth := default_warmth;
  spec_deadline := deadline_none;
  spec_budget := default_budget;
  spec_estimated_memory_bytes := 0;
  spec_model_name := EmptyString;
  spec_payload := EmptyString;
  spec_max_batch_size := 0;
  spec_interactive := false
|}.

Record AdmissionOutput := mkAdmissionOutput {
  ao_decision : AdmissionDecision;
  ao_reason_code : string;
  ao_explanation : string;
  ao_request_id : Z;
  ao_attempt_id : Z;
  ao_generation : Z;
  ao_defer_after : Z
}.

#[export] Instance AdmissionOutput_eta : Eta AdmissionOutput :=
  fun r => mkAdmissionOutput (ao_decision r) (ao_reason_code r) (ao_explanation r) (ao_request_id r) (ao_attempt_id r) (ao_generation r) (ao_defer_after r).
#[export] Instance upd_ao_decision : Update ao_decision. Proof. derive_update. Defined.
#[export] Instance upd_ao_reason_code : Update ao_reason_code. Proof. derive_update. Defined.
#[export] Instance upd_ao_explanation : Update ao_explanation. Proof. derive_update. Defined.
#[export] Instance upd_ao_request_id : Update ao_request_id. Proof. derive_update. Defined.
#[export] Instance upd_ao_attempt_id : Update ao_attempt_id. Proof. derive_update. Defined.
#[export] Instance upd_ao_generation : Update ao_generation. Proof. derive_update. Defined.
#[export] Instance upd_ao_defer_after : Update ao_defer_after. Proof. derive_update. Defined.

Definition default_admission_output : AdmissionOutput := {|
  ao_decision := AD_Defer;
  ao_reason_code := EmptyString;
  ao_explanation := EmptyString;
  ao_request_id := invalid_id;
  ao_attempt_id := invalid_id;
  ao_generation := invalid_id;
  ao_defer_after := 0
|}.

(** ** Workers *)

Record WorkerCapability := mkWorkerCapability {
  cap_accelerator : Z;
  cap_backend : string;
  cap_device_name : string;
  cap_compute_capability_major : Z;
  cap_compute_capability_minor : Z;
  cap_total_capacity_units : Z;
  cap_available_capacity_units : Z;
  cap_memory_bytes_total : Z;
  cap_memory_bytes_available : Z;
  cap_models : list Z;
  cap_revisions : list Z;
  cap_adapters : list Z;
  cap_phases : list RequestPhase;
  cap_batch : BatchConstraints;
  cap_locality_tag : string;
  cap_model_warmth : f32;
  cap_state_warmth : f32
}.

#[export] Instance WorkerCapability_eta : Eta WorkerCapability :=
  fun r => mkWorkerCapability (cap_accelerator r) (cap_backend r) (cap_device_name r) (cap_compute_capability_major r) (cap_compute_capability_minor r) (cap_total_capacity_units r) (cap_available_capacity_units r) (cap_memory_bytes_total r) (cap_memory_bytes_available r) (cap_models r) (cap_revisions r) (cap_adapters r) (cap_phases r) (cap_batch r) (cap_locality_tag r) (cap_model_warmth r) (cap_state_warmth r).
#[export] Instance upd_cap_backend : Update cap_backend. Proof. derive_update. Defined.
#[export] Instance upd_cap_device_name : Update cap_device_name. Proof. derive_update. Defined.
#[export] Instance upd_cap_total_capacity_units : Update cap_total_capacity_units. Proof. derive_update. Defined.
#[export] Instance upd_cap_available_capacity_units : Update cap_available_capacity_units. Proof. derive_update. Defined.
#[export] Instance upd_cap_models : Update cap_models. Proof. derive_update. Defined.

Definition default_capability : WorkerCapability := {|
  cap_accelerator := invalid_id;
  cap_backend := EmptyString;
  cap_device_name := EmptyString;
  cap_compute_capability_major := 0;
  cap_compute_capability_minor := 0;
  cap_total_capacity_units := 1;
  cap_available_capacity_units := 1;
  cap_memory_bytes_total := -1;
  cap_memory_bytes_available := -1;
  cap_models := [];
  cap_revisions := [];
  cap_adapters := [];
  cap_phases := [];
  cap_batch := default_batch_constraints;
  cap_locality_tag := EmptyString;
  cap_model_warmth := fzero;
  cap_state_warmth := fzero
|}.

Record WorkerRegistration := mkWorkerRegistration {
  reg_worker : Z;
  reg_node : Z;
  reg_accelerator : Z;
  reg_boot_id : Z;
  reg_capability : WorkerCapability;
  reg_state : WorkerState;
  reg_endpoint : string
}.

#[export] Instance WorkerRegistration_eta : Eta WorkerRegistration :=
  fun r => mkWorkerRegistration (reg_worker r) (reg_node r) (reg_accelerator r) (reg_boot_id r) (reg_capability r) (reg_state r) (reg_endpoint r).
#[export] Instance upd_reg_worker : Update reg_worker. Proof. derive_update. Defined.
#[export] Instance upd_reg_node : Update reg_node. Proof. derive_update. Defined.
#[export] Instance upd_reg_accelerator : Update reg_accelerator. Proof. derive_update. Defined.
#[export] Instance upd_reg_boot_id : Update reg_boot_id. Proof. derive_update. Defined.
#[export] Instance upd_reg_capability : Update reg_capability. Proof. derive_update. Defined.
#[export] Instance upd_reg_state : Update reg_state. Proof. derive_update. Defined.
#[export] Instance upd_reg_endpoint : Update reg_endpoint. Proof. derive_update. Defined.

Definition default_registration : WorkerRegistration := {|
  reg_worker := invalid_id;
  reg_node := invalid_id;
  reg_accelerator := invalid_id;
  reg_boot_id := invalid_id;
  reg_capability := default_capability;
  reg_state := WS_Booted;
  reg_endpoint := EmptyString
|}.

(** ** Dispatch scoring and explanations *)

Record ScoreComponent := mkScoreComponent {
  sc_name : string;
  sc_value : f64;
  sc_weight : f64
}.

Record WorkerScore := mkWorkerScore {
  ws_worker : Z;
  ws_eligible : bool;
  ws_components : list ScoreComponent;
  ws_total : f64;
  ws_reject_reason_code : string;
  ws_reject_reason : string
}.

#[export] Instance WorkerScore_eta : Eta WorkerScore :=
  fun r => mkWorkerScore (ws_worker r) (ws_eligible r) (ws_components r) (ws_total r) (ws_reject_reason_code r) (ws_reject_reason r).
#[export] Instance upd_ws_worker : Update ws_worker. Proof. derive_update. Defined.
#[export] Instance upd_ws_eligible : Update ws_eligible. Proof. derive_update. Defined.
#[export] Instance upd_ws_components : Update ws_components. Proof. derive_update. Defined.
#[export] Instance upd_ws_total : Update ws_total. Proof. derive_update. Defined.
#[export] Instance upd_ws_reject_reason_code : Update ws_reject_reason_code. Proof. derive_update. Defined.
#[export] Instance upd_ws_reject_reason : Update ws_reject_reason. Proof. derive_update. Defined.

Definition default_score : WorkerScore := {|
  ws_worker := invalid_id;
  ws_eligible := false;
  ws_components := [];
  ws_total := fzero;
  ws_reject_reason_code := EmptyString;
  ws_reject_reason := EmptyString
|}.

Record ExplainResult := mkExplainResult {
  ex_request_id : Z;
  ex_attempt_id : Z;
  ex_admission : AdmissionDecision;
  ex_admitted : bool;
  ex_admission_reason_code : string;
  ex_admission_explanation : string;
  ex_ordering_factors : list string;
  ex_candidates : list WorkerScore;
  ex_selected_worker : Z;
  ex_batch_id : Z;
  ex_batch_formed : bool;
  ex_batch_explanation : string;
  ex_epoch : Z;
  ex_notes : list string
}.

#[export] Instance ExplainResult_eta : Eta ExplainResult :=
  fun r => mkExplainResult (ex_request_id r) (ex_attempt_id r) (ex_admission r) (ex_admitted r) (ex_admission_reason_code r) (ex_admission_explanation r) (ex_ordering_factors r) (ex_candidates r) (ex_selected_worker r) (ex_batch_id r) (ex_batch_formed r) (ex_batch_explanation r) (ex_epoch r) (ex_notes r).
#[export] Instance upd_ex_request_id : Update ex_request_id. Proof. derive_update. Defined.
#[export] Instance upd_ex_attempt_id : Update ex_attempt_id. Proof. derive_update. Defined.
#[export] Instance upd_ex_admission : Update ex_admission. Proof. derive_update. Defined.
#[export] Instance upd_ex_admitted : Update ex_admitted. Proof. derive_update. Defined.
#[export] Instance upd_ex_admission_reason_code : Update ex_admission_reason_code. Proof. derive_update. Defined.
#[export] Instance upd_ex_admission_explanation : Update ex_admission_explanation. Proof. derive_update. Defined.
#[export] Instance upd_ex_ordering_factors : Update ex_ordering_factors. Proof. derive_update. Defined.
#[export] Instance upd_ex_candidates : Update ex_candidates. Proof. derive_update. Defined.
#[export] Instance upd_ex_selected_worker : Update ex_selected_worker. Proof. derive_update. Defined.
#[export] Instance upd_ex_batch_id : Update ex_batch_id. Proof. derive_update. Defined.
#[export] Instance upd_ex_batch_formed : Update ex_batch_formed. Proof. derive_update. Defined.
#[export] Instance upd_ex_batch_explanation : Update ex_batch_explanation. Proof. derive_update. Defined.
#[export] Instance upd_ex_epoch : Update ex_epoch. Proof. derive_update. Defined.
#[export] Instance upd_ex_notes : Update ex_notes. Proof. derive_update. Defined.

Definition default_explain : ExplainResult := {|
  ex_request_id := invalid_id;
  ex_attempt_id := invalid_id;
  ex_admission := AD_Defer;
  ex_admitted := false;
  ex_admission_reason_code := EmptyString;
  ex_admission_explanation := EmptyString;
  ex_ordering_factors := [];
  ex_candidates := [];
  ex_selected_worker := invalid_id;
  ex_batch_id := invalid_id;
  ex_batch_formed := false;
  ex_batch_explanation := EmptyString;
  ex_epoch := invalid_id;
  ex_notes := []
|}.

Record DispatchOutcome := mkDispatchOutcome {
  dout_request_id : Z;
  dout_attempt_id : Z;
  dout_generation : Z;
  dout_worker_id : Z;
  dout_batch_id : Z;
  dout_batch_members : list Z;
  dout_decision : DispatchDecision;
  dout_reason_code : string;
  dout_explanation : string;
  dout_candidates : list WorkerScore;
  dout_estimated_cost_units : Z
}.

#[export] Instance DispatchOutcome_eta : Eta DispatchOutcome :=
  fun r => mkDispatchOutcome (dout_request_id r) (dout_attempt_id r) (dout_generation r) (dout_worker_id r) (dout_batch_id r) (dout_batch_members r) (dout_decision r) (dout_reason_code r) (dout_explanation r) (dout_candidates r) (dout_estimated_cost_units r).
#[export] Instance upd_dout_request_id : Update dout_request_id. Proof. derive_update. Defined.
#[export] Instance upd_dout_attempt_id : Update dout_attempt_id. Proof. derive_update. Defined.
#[export] Instance upd_dout_generation : Update dout_generation. Proof. derive_update. Defined.
#[export] Instance upd_dout_worker_id : Update dout_worker_id. Proof. derive_update. Defined.
#[export] Instance upd_dout_batch_id : Update dout_batch_id. Proof. derive_update. Defined.
#[export] Instance upd_dout_batch_members : Update dout_batch_members. Proof. derive_update. Defined.
#[export] Instance upd_dout_decision : Update dout_decision. Proof. derive_update. Defined.
#[export] Instance upd_dout_reason_code : Update dout_reason_code. Proof. derive_update. Defined.
#[export] Instance upd_dout_explanation : Update dout_explanation. Proof. derive_update. Defined.
#[export] Instance upd_dout_candidates : Update dout_candidates. Proof. derive_update. Defined.
#[export] Instance upd_dout_estimated_cost_units : Update dout_estimated_cost_units. Proof. derive_update. Defined.

Definition default_dispatch_outcome : DispatchOutcome := {|
  dout_request_id := invalid_id;
  dout_attempt_id := invalid_id;
  dout_generation := invalid_id;
  dout_worker_id := invalid_id;
  dout_batch_id := invalid_id;
  dout_batch_members := [];
  dout_decision := DD_Hold;
  dout_reason_code := EmptyString;
  dout_explanation := EmptyString;
  dout_candidates := [];
  dout_estimated_cost_units := 0
|}.

(** ** Events, statistics and snapshots *)

Record SchedulerEvent := mkSchedulerEvent {
  ev_sequence : Z;
  ev_epoch : Z;
  ev_type : string;
  ev_request_id : Z;
  ev_attempt_id : Z;
  ev_worker_id : Z;
  ev_batch_id : Z;
  ev_timestamp_ns : Z;
  ev_detail : string;
  ev_reason_code : string
}.

Record LatencyClassStats := mkLatencyClassStats {
  lcs_admitted : Z;
  lcs_completed : Z;
  lcs_expired : Z
}.

#[export] Instance LatencyClassStats_eta : Eta LatencyClassStats :=
  fun r => mkLatencyClassStats (lcs_admitted r) (lcs_completed r) (lcs_expired r).
#[export] Instance upd_lcs_admitted : Update lcs_admitted. Proof. derive_update. Defined.
#[export] Instance upd_lcs_completed : Update lcs_completed. Proof. derive_update. Defined.
#[export] Instance upd_lcs_expired : Update lcs_expired. Proof. derive_update. Defined.

Definition default_latency_stats : LatencyClassStats := {|
  lcs_admitted := 0;
  lcs_completed := 0;
  lcs_expired := 0
|}.

Record SchedulerStats := mkSchedulerStats {
  st_requests_submitted : Z;
  st_requests_admitted : Z;
  st_requests_deferred : Z;
  st_requests_rejected : Z;
  st_requests_completed : Z;
  st_requests_cancelled : Z;
  st_requests_expired : Z;
  st_requests_failed : Z;
  st_attempts_created : Z;
  st_dispatches : Z;
  st_completions : Z;
  st_retries : Z;
  st_stale_rejected : Z;
  st_batches_formed : Z;
  st_batch_members : Z;
  st_backpressure_events : Z;
  st_current_admitted : Z;
  st_current_queued : Z;
  st_current_reserved : Z;
  st_current_running : Z;
  st_current_capacity_units : Z;
  st_current_reserved_units : Z;
  st_total_queue_delay_ms : Z;
  st_total_schedule_delay_ms : Z;
  st_total_dispatch_delay_ms : Z;
  st_by_latency : list LatencyClassStats
}.

#[export] Instance SchedulerStats_eta : Eta SchedulerStats :=
  fun r => mkSchedulerStats (st_requests_submitted r) (st_requests_admitted r) (st_requests_deferred r) (st_requests_rejected r) (st_requests_completed r) (st_requests_cancelled r) (st_requests_expired r) (st_requests_failed r) (st_attempts_created r) (st_dispatches r) (st_completions r) (st_retries r) (st_stale_rejected r) (st_batches_formed r) (st_batch_members r) (st_backpressure_events r) (st_current_admitted r) (st_current_queued r) (st_current_reserved r) (st_current_running r) (st_current_capacity_units r) (st_current_reserved_units r) (st_total_queue_delay_ms r) (st_total_schedule_delay_ms r) (st_total_dispatch_delay_ms r) (st_by_latency r).
#[export] Instance upd_st_requests_submitted : Update st_requests_submitted. Proof. derive_update. Defined.
#[export] Instance upd_st_requests_admitted : Update st_requests_admitted. Proof. derive_update. Defined.
#[export] Instance upd_st_requests_deferred : Update st_requests_deferred. Proof. derive_update. Defined.
#[export] Instance upd_st_requests_rejected : Update st_requests_rejected. Proof. derive_update. Defined.
#[export] Instance upd_st_requests_completed : Update st_requests_completed. Proof. derive_update. Defined.
#[export] Instance upd_st_requests_cancelled : Update st_requests_cancelled. Proof. derive_update. Defined.
#[export] Instance upd_st_requests_expired : Update st_requests_expired. Proof. derive_update. Defined.
#[export] Instance upd_st_requests_failed : Update st_requests_failed. Proof. derive_update. Defined.
#[export] Instance upd_st_attempts_created : Update st_attempts_created. Proof. derive_update. Defined.
#[export] Instance upd_st_dispatches : Update st_dispatches. Proof. derive_update. Defined.
#[export] Instance upd_st_completions : Update st_completions. Proof. derive_update. Defined.
#[export] Instance upd_st_retries : Update st_retries. Proof. derive_update. Defined.
#[export] Instance upd_st_stale_rejected : Update st_stale_rejected. Proof. derive_update. Defined.
#[export] Instance upd_st_batches_formed : Update st_batches_formed. Proof. derive_update. Defined.
#[export] Instance upd_st_batch_members : Update st_batch_members. Proof. derive_update. Defined.
#[export] Instance upd_st_backpressure_events : Update st_backpressure_events. Proof. derive_update. Defined.
#[export] Instance upd_st_current_admitted : Update st_current_admitted. Proof. derive_update. Defined.
#[export] Instance upd_st_current_queued : Update st_current_queued. Proof. derive_update. Defined.
#[export] Instance upd_st_current_reserved : Update st_current_reserved. Proof. derive_update. Defined.
#[export] Instance upd_st_current_running : Update st_current_running. Proof. derive_update. Defined.
#[export] Instance upd_st_current_capacity_units : Update st_current_capacity_units. Proof. derive_update. Defined.
#[export] Instance upd_st_current_reserved_units : Update st_current_reserved_units. Proof. derive_update. Defined.
#[export] Instance upd_st_total_queue_delay_ms : Update st_total_queue_delay_ms. Proof. derive_update. Defined.
#[export] Instance upd_st_total_schedule_delay_ms : Update st_total_schedule_delay_ms. Proof. derive_update. Defined.
#[export] Instance upd_st_total_dispatch_delay_ms : Update st_total_dispatch_delay_ms. Proof. derive_update. Defined.
#[export] Instance upd_st_by_latency : Update st_by_latency. Proof. derive_update. Defined.

Definition default_stats : SchedulerStats := {|
  st_requests_submitted := 0;
  st_requests_admitted := 0;
  st_requests_deferred := 0;
  st_requests_rejected := 0;
  st_requests_completed := 0;
  st_requests_cancelled := 0;
  st_requests_expired := 0;
  st_requests_failed := 0;
  st_attempts_created := 0;
  st_dispatches := 0;
  st_completions := 0;
  st_retries := 0;
  st_stale_rejected := 0;
  st_batches_formed := 0;
  st_batch_members := 0;
  st_backpressure_events := 0;
  st_current_admitted := 0;
  st_current_queued := 0;
  st_current_reserved := 0;
  st_current_running := 0;
  st_current_capacity_units := 0;
  st_current_reserved_units := 0;
  st_total_queue_delay_ms := 0;
  st_total_schedule_delay_ms := 0;
  st_total_dispatch_delay_ms := 0;
  st_by_latency := replicate 4 default_latency_stats
|}.

Record TenantSnapshot := mkTenantSnapshot {
  tsn_tenant : Z;
  tsn_weight : f64;
  tsn_virtual_time : f64;
  tsn_queued : Z;
  tsn_admitted : Z;
  tsn_services_consumed : Z;
  tsn_service_debt : Z
}.

Record WorkerSnapshot := mkWorkerSnapshot {
  wsn_worker : Z;
  wsn_node : Z;
  wsn_boot_id : Z;
  wsn_state : WorkerState;
  wsn_backend : string;
  wsn_device_name : string;
  wsn_total_capacity_units : Z;
  wsn_available_capacity_units : Z;
  wsn_reserved_units : Z;
  wsn_running : Z;
  wsn_memory_bytes_total : Z;
  wsn_memory_bytes_available : Z
}.

Record RequestSnapshot := mkRequestSnapshot {
  rsn_request_id : Z;
  rsn_tenant : Z;
  rsn_state : RequestState;
  rsn_phase : RequestPhase;
  rsn_latency_class : LatencyClass;
  rsn_priority : PriorityClass;
  rsn_model : Z;
  rsn_revision : Z;
  rsn_attempt_id : Z;
  rsn_generation : Z;
  rsn_worker_id : Z;
  rsn_deadline : Deadline;
  rsn_queue_delay_ms : Z
}.

Record SchedulerSnapshot := mkSchedulerSnapshot {
  ssn_epoch : Z;
  ssn_generated_ns : Z;
  ssn_stats : SchedulerStats;
  ssn_tenants : list TenantSnapshot;
  ssn_workers : list WorkerSnapshot;
  ssn_requests : list RequestSnapshot
}.

(** ** Completion reports ([scheduler.hpp]) *)

Record CompletionReport := mkCompletionReport {
  cr_epoch : Z;
  cr_worker : Z;
  cr_boot_id : Z;
  cr_request_id : Z;
  cr_attempt_id : Z;
  cr_generation : Z;
  cr_status : CompletionStatus;
  cr_failure_class : FailureClass;
  cr_error_message : string;
  cr_output_tokens_produced : Z;
  cr_work_units : Z;
  cr_duration_us : Z;
  cr_worker_snapshot : ResourceSnapshot
}.

#[export] Instance CompletionReport_eta : Eta CompletionReport :=
  fun r => mkCompletionReport (cr_epoch r) (cr_worker r) (cr_boot_id r) (cr_request_id r) (cr_attempt_id r) (cr_generation r) (cr_status r) (cr_failure_class r) (cr_error_message r) (cr_output_tokens_produced r) (cr_work_units r) (cr_duration_us r) (cr_worker_snapshot r).
#[export] Instance upd_cr_epoch : Update cr_epoch. Proof. derive_update. Defined.
#[export] Instance upd_cr_worker : Update cr_worker. Proof. derive_update. Defined.
#[export] Instance upd_cr_boot_id : Update cr_boot_id. Proof. derive_update. Defined.
#[export] Instance upd_cr_request_id : Update cr_request_id. Proof. derive_update. Defined.
#[export] Instance upd_cr_attempt_id : Update cr_attempt_id. Proof. derive_update. Defined.
#[export] Instance upd_cr_generation : Update cr_generation. Proof. derive_update. Defined.
#[export] Instance upd_cr_status : Update cr_status. Proof. derive_update. Defined.
#[export] Instance upd_cr_failure_class : Update cr_failure_class. Proof. derive_update. Defined.
#[export] Instance upd_cr_error_message : Update cr_error_message. Proof. derive_update. Defined.
#[export] Instance upd_cr_output_tokens_produced : Update cr_output_tokens_produced. Proof. derive_update. Defined.
#[export] Instance upd_cr_work_units : Update cr_work_units. Proof. derive_update. Defined.
#[export] Instance upd_cr_duration_us : Update cr_duration_us. Proof. derive_update. Defined.
#[export] Instance upd_cr_worker_snapshot : Update cr_worker_snapshot. Proof. derive_update. Defined.

Definition default_report : CompletionReport := {|
  cr_epoch := invalid_id;
  cr_worker := invalid_id;
  cr_boot_id := invalid_id;
  cr_request_id := invalid_id;
  cr_attempt_id := invalid_id;
  cr_generation := invalid_id;
  cr_status := CS_Succeeded;
  cr_failure_class := FC_Internal;
  cr_error_message := EmptyString;
  cr_output_tokens_produced := 0;
  cr_work_units := 0;
  cr_duration_us := 0;
  cr_worker_snapshot := default_resource
|}.

Inductive CompletionAcceptance : Set :=
| CA_Accepted
| CA_CancelledOutcome
| CA_StaleEpoch
| CA_StaleWorker
| CA_StaleAttempt
| CA_Duplicate
| CA_Invalid.

#[export] Instance CompletionAcceptance_eq_dec : EqDecision CompletionAcceptance.
Proof. solve_decision. Defined.

Record CompletionOutcome := mkCompletionOutcome {
  co_acceptance : CompletionAcceptance;
  co_reason_code : string;
  co_explanation : string;
  co_retried : bool;
  co_retry_attempt : Z
}.

#[export] Instance CompletionOutcome_eta : Eta CompletionOutcome :=
  fun r => mkCompletionOutcome (co_acceptance r) (co_reason_code r) (co_explanation r) (co_retried r) (co_retry_attempt r).
#[export] Instance upd_co_acceptance : Update co_acceptance. Proof. derive_update. Defined.
#[export] Instance upd_co_reason_code : Update co_reason_code. Proof. derive_update. Defined.
#[export] Instance upd_co_explanation : Update co_explanation. Proof. derive_update. Defined.
#[export] Instance upd_co_retried : Update co_retried. Proof. derive_update. Defined.
#[export] Instance upd_co_retry_attempt : Update co_retry_attempt. Proof. derive_update. Defined.

Definition default_outcome : CompletionOutcome := {|
  co_acceptance := CA_Invalid;
  co_reason_code := EmptyString;
  co_explanation := EmptyString;
  co_retried := false;
  co_retry_attempt := invalid_id
|}.

(** ** Deadline arithmetic

    [dl_in_range]: the distance to the deadline fits the clock's 64-bit
    duration, as it does for two readings of a steady clock. *)

Definition dl_in_range (d : Deadline) (now : Z) : Prop :=
  - 2 ^ 63 <= dl_point d - now < 2 ^ 63.

Lemma remaining_nonneg d now : 0 <= remaining d now.
Proof.
  unfold remaining, int64_max, ns_per_ms. destruct (dl_valid d); simpl; [|lia].
  destruct (Z.ltb_spec (i64 (dl_point d - now)) 0); [lia|].
  apply Z.quot_pos; lia.
Qed.

Lemma expired_remaining d now :
  dl_in_range d now -> expired d now = true -> remaining d now = 0.
Proof.
  unfold dl_in_range, expired, remaining. destruct (dl_valid d); [simpl|done].
  intros Hr He%Z.leb_le. rewrite i64_id by lia.
  destruct (Z.ltb_spec (dl_point d - now) 0); [done|].
  by replace (dl_point d - now) with 0 by lia.
Qed.

Lemma expired_mono d now now' : now <= now' -> expired d now = true -> expired d now' = true.
Proof.
  unfold expired. destruct (dl_valid d); [simpl|done]. rewrite !Z.leb_le. lia.
Qed.
