(* ===== verification/State.v ===== *)
(** * The scheduler's state

    The structures of namespace [detail] in [src/scheduler.cpp] and the data
    members of [Scheduler::Impl], as one record [Impl]; the methods are state
    transformers [M A] over it.

    - [std::unordered_map] and [std::map] are [gmap]; a loop over an unordered
      container visits [map_to_list] / [elements] (one unspecified order), a
      loop over an ordered one visits the sorted keys.
    - a [std::priority_queue] is the list of its entries in the order in which
      [top]/[pop] deliver them.
    - the injected [Clock] is the sequence of its readings ([env_clock]); the
      state counts how many readings were taken.
    - a [double] outside the range of [std::int64_t] has no defined conversion
      in C++; [env_cast] is whatever the platform returns there. *)

From S2P Require Import Prelude Enums Ids Float64 Types.
Open Scope Z_scope.

Class Env := {
  env_clock : nat -> Z;      (* the n-th reading of the injected clock, ns *)
  env_cast : f64 -> Z;       (* double -> int64 where C++ leaves it undefined *)
  env_f64_string : f64 -> string (* std::to_string(double) *)
}.

(** ** Keys of the flow table and of the batching index *)

Record FlowKey := mkFlowKey {
  fk_tenant : Z;
  fk_latency : Z;
  fk_phase : Z;
  fk_priority : Z
}.

#[export] Instance FlowKey_eq_dec : EqDecision FlowKey.
Proof. solve_decision. Defined.
#[export] Instance FlowKey_countable : Countable FlowKey :=
  inj_countable' (fun k => (fk_tenant k, fk_latency k, fk_phase k, fk_priority k))
    (fun t => mkFlowKey t.1.1.1 t.1.1.2 t.1.2 t.2) ltac:(by intros []).

(** [FlowKey::operator<]. *)
Definition flowkey_ltb (a b : FlowKey) : bool :=
  if negb (fk_tenant a =? fk_tenant b) then fk_tenant a <? fk_tenant b
  else if negb (fk_latency a =? fk_latency b) then fk_latency a <? fk_latency b
  else if negb (fk_phase a =? fk_phase b) then fk_phase a <? fk_phase b
  else fk_priority a <? fk_priority b.

Record CompatKey := mkCompatKey {
  ck_model : Z;
  ck_revision : Z;
  ck_adapter : Z;
  ck_phase : Z;
  ck_latency : Z
}.

#[export] Instance CompatKey_eq_dec : EqDecision CompatKey.
Proof. solve_decision. Defined.
#[export] Instance CompatKey_countable : Countable CompatKey :=
  inj_countable' (fun k => (ck_model k, ck_revision k, ck_adapter k, ck_phase k, ck_latency k))
    (fun t => mkCompatKey t.1.1.1.1 t.1.1.1.2 t.1.1.2 t.1.2 t.2) ltac:(by intros []).

(** ** Ready entries and flows *)

Record ReadyEntry := mkReadyEntry {
  re_id : Z;
  re_generation : Z;
  re_slack : Z;
  re_prio : Z;
  re_idv : Z
}.

(** [ReadyLess]: [a] comes after [b] in the queue. *)
Definition ready_less (a b : ReadyEntry) : bool :=
  if negb (re_slack a =? re_slack b) then re_slack b <? re_slack a
  else if negb (re_prio a =? re_prio b) then re_prio a <? re_prio b
  else re_idv b <? re_idv a.

(** [std::priority_queue::push]: behind every entry that is not after [e]. *)
Fixpoint pq_push (e : ReadyEntry) (q : list ReadyEntry) : list ReadyEntry :=
  match q with
  | [] => [e]
  | x :: q' => if ready_less x e then e :: q else x :: pq_push e q'
  end.

Record Flow := mkFlow {
  fl_weight : f64;
  fl_virtual_finish : f64;
  fl_pending : list ReadyEntry
}.

#[export] Instance Flow_eta : Eta Flow :=
  fun r => mkFlow (fl_weight r) (fl_virtual_finish r) (fl_pending r).
#[export] Instance upd_fl_weight : Update fl_weight. Proof. derive_update. Defined.
#[export] Instance upd_fl_virtual_finish : Update fl_virtual_finish. Proof. derive_update. Defined.
#[export] Instance upd_fl_pending : Update fl_pending. Proof. derive_update. Defined.

Definition default_flow : Flow := {|
  fl_weight := fone;
  fl_virtual_finish := fzero;
  fl_pending := []
|}.

(** ** Attempts, requests, tenants, workers *)

Record AttemptRecord := mkAttemptRecord {
  att_attempt_id : Z;
  att_generation : Z;
  att_state : AttemptState;
  att_worker : Z;
  att_batch : Z;
  att_final_status : CompletionStatus;
  att_failure_class : FailureClass;
  att_error_message : string;
  att_created_at : Z;
  att_output_tokens : Z;
  att_work_units : Z;
  att_duration_us : Z
}.

#[export] Instance AttemptRecord_eta : Eta AttemptRecord :=
  fun r => mkAttemptRecord (att_attempt_id r) (att_generation r) (att_state r) (att_worker r) (att_batch r) (att_final_status r) (att_failure_class r) (att_error_message r) (att_created_at r) (att_output_tokens r) (att_work_units r) (att_duration_us r).
#[export] Instance upd_att_attempt_id : Update att_attempt_id. Proof. derive_update. Defined.
#[export] Instance upd_att_generation : Update att_generation. Proof. derive_update. Defined.
#[export] Instance upd_att_state : Update att_state. Proof. derive_update. Defined.
#[export] Instance upd_att_worker : Update att_worker. Proof. derive_update. Defined.
#[export] Instance upd_att_batch : Update att_batch. Proof. derive_update. Defined.
#[export] Instance upd_att_final_status : Update att_final_status. Proof. derive_update. Defined.
#[export] Instance upd_att_failure_class : Update att_failure_class. Proof. derive_update. Defined.
#[export] Instance upd_att_error_message : Update att_error_message. Proof. derive_update. Defined.
#[export] Instance upd_att_created_at : Update att_created_at. Proof. derive_update. Defined.
#[export] Instance upd_att_output_tokens : Update att_output_tokens. Proof. derive_update. Defined.
#[export] Instance upd_att_work_units : Update att_work_units. Proof. derive_update. Defined.
#[export] Instance upd_att_duration_us : Update att_duration_us. Proof. derive_update. Defined.

Definition default_attempt : AttemptRecord := {|
  att_attempt_id := invalid_id;
  att_generation := invalid_id;
  att_state := AS_Created;
  att_worker := invalid_id;
  att_batch := invalid_id;
  att_final_status := CS_Succeeded;
  att_failure_class := FC_Internal;
  att_error_message := EmptyString;
  att_created_at := 0;
  att_output_tokens := 0;
  att_work_units := 0;
  att_duration_us := 0
|}.

Record RequestRecord := mkRequestRecord {
  rec_spec : RequestSpec;
  rec_request_id : Z;
  rec_state : RequestState;
  rec_current_attempt : Z;
  rec_generation : Z;
  rec_history : list AttemptRecord;
  rec_created_at : Z;
  rec_admitted_at : Z;
  rec_queued_at : Z;
  rec_reserved_at : Z;
  rec_started_at : Z;
  rec_completed_at : Z;
  rec_queue_delay_ms : Z;
  rec_schedule_delay_ms : Z;
  rec_dispatch_delay_ms : Z;
  rec_cancellation_requested : bool;
  rec_cancellation_committed : bool;
  rec_cancel_reason : CancellationReason;
  rec_terminal_reason : string;
  rec_in_batch : bool;
  rec_batch_id : Z;
  rec_attempts_used : Z;
  rec_last_attempt_order : Z
}.

#[export] Instance RequestRecord_eta : Eta RequestRecord :=
  fun r => mkRequestRecord (rec_spec r) (rec_request_id r) (rec_state r) (rec_current_attempt r) (rec_generation r) (rec_history r) (rec_created_at r) (rec_admitted_at r) (rec_queued_at r) (rec_reserved_at r) (rec_started_at r) (rec_completed_at r) (rec_queue_delay_ms r) (rec_schedule_delay_ms r) (rec_dispatch_delay_ms r) (rec_cancellation_requested r) (rec_cancellation_committed r) (rec_cancel_reason r) (rec_terminal_reason r) (rec_in_batch r) (rec_batch_id r) (rec_attempts_used r) (rec_last_attempt_order r).
#[export] Instance upd_rec_spec : Update rec_spec. Proof. derive_update. Defined.
#[export] Instance upd_rec_request_id : Update rec_request_id. Proof. derive_update. Defined.
#[export] Instance upd_rec_state : Update rec_state. Proof. derive_update. Defined.
#[export] Instance upd_rec_current_attempt : Update rec_current_attempt. Proof. derive_update. Defined.
#[export] Instance upd_rec_generation : Update rec_generation. Proof. derive_update. Defined.
#[export] Instance upd_rec_history : Update rec_history. Proof. derive_update. Defined.
#[export] Instance upd_rec_created_at : Update rec_created_at. Proof. derive_update. Defined.
#[export] Instance upd_rec_admitted_at : Update rec_admitted_at. Proof. derive_update. Defined.
#[export] Instance upd_rec_queued_at : Update rec_queued_at. Proof. derive_update. Defined.
#[export] Instance upd_rec_reserved_at : Update rec_reserved_at. Proof. derive_update. Defined.
#[export] Instance upd_rec_started_at : Update rec_started_at. Proof. derive_update. Defined.
#[export] Instance upd_rec_completed_at : Update rec_completed_at. Proof. derive_update. Defined.
#[export] Instance upd_rec_queue_delay_ms : Update rec_queue_delay_ms. Proof. derive_update. Defined.
#[export] Instance upd_rec_schedule_delay_ms : Update rec_schedule_delay_ms. Proof. derive_update. Defined.
#[export] Instance upd_rec_dispatch_delay_ms : Update rec_dispatch_delay_ms. Proof. derive_update. Defined.
#[export] Instance upd_rec_cancellation_requested : Update rec_cancellation_requested. Proof. derive_update. Defined.
#[export] Instance upd_rec_cancellation_committed : Update rec_cancellation_committed. Proof. derive_update. Defined.
#[export] Instance upd_rec_cancel_reason : Update rec_cancel_reason. Proof. derive_update. Defined.
#[export] Instance upd_rec_terminal_reason : Update rec_terminal_reason. Proof. derive_update. Defined.
#[export] Instance upd_rec_in_batch : Update rec_in_batch. Proof. derive_update. Defined.
#[export] Instance upd_rec_batch_id : Update rec_batch_id. Proof. derive_update. Defined.
#[export] Instance upd_rec_attempts_used : Update rec_attempts_used. Proof. derive_update. Defined.
#[export] Instance upd_rec_last_attempt_order : Update rec_last_attempt_order. Proof. derive_update. Defined.

Definition default_request : RequestRecord := {|
  rec_spec := default_spec;
  rec_request_id := invalid_id;
  rec_state := RS_Created;
  rec_current_attempt := invalid_id;
  rec_generation := invalid_id;
  rec_history := [];
  rec_created_at := 0;
  rec_admitted_at := 0;
  rec_queued_at := 0;
  rec_reserved_at := 0;
  rec_started_at := 0;
  rec_completed_at := 0;
  rec_queue_delay_ms := 0;
  rec_schedule_delay_ms := 0;
  rec_dispatch_delay_ms := 0;
  rec_cancellation_requested := false;
  rec_cancellation_committed := false;
  rec_cancel_reason := CR_ClientRequested;
  rec_terminal_reason := EmptyString;
  rec_in_batch := false;
  rec_batch_id := invalid_id;
  rec_attempts_used := 0;
  rec_last_attempt_order := 0
|}.

Record TenantRecord := mkTenantRecord {
  ten_tenant : Z;
  ten_weight : f64;
  ten_admitted : Z;
  ten_queued : Z;
  ten_running : Z;
  ten_services_consumed : Z;
  ten_service_debt : Z
}.

#[export] Instance TenantRecord_eta : Eta TenantRecord :=
  fun r => mkTenantRecord (ten_tenant r) (ten_weight r) (ten_admitted r) (ten_queued r) (ten_running r) (ten_services_consumed r) (ten_service_debt r).
#[export] Instance upd_ten_tenant : Update ten_tenant. Proof. derive_update. Defined.
#[export] Instance upd_ten_weight : Update ten_weight. Proof. derive_update. Defined.
#[export] Instance upd_ten_admitted : Update ten_admitted. Proof. derive_update. Defined.
#[export] Instance upd_ten_queued : Update ten_queued. Proof. derive_update. Defined.
#[export] Instance upd_ten_running : Update ten_running. Proof. derive_update. Defined.
#[export] Instance upd_ten_services_consumed : Update ten_services_consumed. Proof. derive_update. Defined.
#[export] Instance upd_ten_service_debt : Update ten_service_debt. Proof. derive_update. Defined.

Definition default_tenant : TenantRecord := {|
  ten_tenant := invalid_id;
  ten_weight := fone;
  ten_admitted := 0;
  ten_queued := 0;
  ten_running := 0;
  ten_services_consumed := 0;
  ten_service_debt := 0
|}.

Record WorkerRecord := mkWorkerRecord {
  wr_registration : WorkerRegistration;
  wr_state : WorkerState;
  wr_resource : ResourceSnapshot;
  wr_reserved_units : Z;
  wr_running_units : Z;
  wr_batch_units : gmap Z Z;
  wr_batch_pending : gmap Z Z;
  wr_batch_members : gmap Z (list Z);
  wr_started_batches : gset Z;
  wr_in_flight : gmap Z Z
}.

#[export] Instance WorkerRecord_eta : Eta WorkerRecord :=
  fun r => mkWorkerRecord (wr_registration r) (wr_state r) (wr_resource r) (wr_reserved_units r) (wr_running_units r) (wr_batch_units r) (wr_batch_pending r) (wr_batch_members r) (wr_started_batches r) (wr_in_flight r).
#[export] Instance upd_wr_registration : Update wr_registration. Proof. derive_update. Defined.
#[export] Instance upd_wr_state : Update wr_state. Proof. derive_update. Defined.
#[export] Instance upd_wr_resource : Update wr_resource. Proof. derive_update. Defined.
#[export] Instance upd_wr_reserved_units : Update wr_reserved_units. Proof. derive_update. Defined.
#[export] Instance upd_wr_running_units : Update wr_running_units. Proof. derive_update. Defined.
#[export] Instance upd_wr_batch_units : Update wr_batch_units. Proof. derive_update. Defined.
#[export] Instance upd_wr_batch_pending : Update wr_batch_pending. Proof. derive_update. Defined.
#[export] Instance upd_wr_batch_members : Update wr_batch_members. Proof. derive_update. Defined.
#[export] Instance upd_wr_started_batches : Update wr_started_batches. Proof. derive_update. Defined.
#[export] Instance upd_wr_in_flight : Update wr_in_flight. Proof. derive_update. Defined.

Definition default_worker : WorkerRecord := {|
  wr_registration := default_registration;
  wr_state := WS_Unknown;
  wr_resource := default_resource;
  wr_reserved_units := 0;
  wr_running_units := 0;
  wr_batch_units := ∅;
  wr_batch_pending := ∅;
  wr_batch_members := ∅;
  wr_started_batches := ∅;
  wr_in_flight := ∅
|}.

(** ** [Scheduler::Impl] *)

Record Impl := mkImpl {
  cfg : SchedulerConfig;
  epoch : Z;
  ids : IdFactory;
  virtual_time : f64;
  requests : gmap Z RequestRecord;
  workers : gmap Z WorkerRecord;
  tenants : gmap Z TenantRecord;
  flows : gmap FlowKey Flow;
  compat : gmap CompatKey (gset Z);
  active_flows : gset FlowKey;
  queued : gset Z;
  global_admitted : Z;
  global_queued : Z;
  global_reserved_units : Z;
  global_running_units : Z;
  global_tokens : Z;
  draining : bool;
  drain_reason : string;
  recovery_mode : Z;
  event_log : list SchedulerEvent;
  has_handler : bool;
  event_stream_mode : bool;
  event_seq : Z;
  stats : SchedulerStats;
  clock_reads : nat
}.

#[export] Instance Impl_eta : Eta Impl :=
  fun r => mkImpl (cfg r) (epoch r) (ids r) (virtual_time r) (requests r) (workers r) (tenants r) (flows r) (compat r) (active_flows r) (queued r) (global_admitted r) (global_queued r) (global_reserved_units r) (global_running_units r) (global_tokens r) (draining r) (drain_reason r) (recovery_mode r) (event_log r) (has_handler r) (event_stream_mode r) (event_seq r) (stats r) (clock_reads r).
#[export] Instance upd_cfg : Update cfg. Proof. derive_update. Defined.
#[export] Instance upd_epoch : Update epoch. Proof. derive_update. Defined.
#[export] Instance upd_ids : Update ids. Proof. derive_update. Defined.
#[export] Instance upd_virtual_time : Update virtual_time. Proof. derive_update. Defined.
#[export] Instance upd_requests : Update requests. Proof. derive_update. Defined.
#[export] Instance upd_workers : Update workers. Proof. derive_update. Defined.
#[export] Instance upd_tenants : Update tenants. Proof. derive_update. Defined.
#[export] Instance upd_flows : Update flows. Proof. derive_update. Defined.
#[export] Instance upd_compat : Update compat. Proof. derive_update. Defined.
#[export] Instance upd_active_flows : Update active_flows. Proof. derive_update. Defined.
#[export] Instance upd_queued : Update queued. Proof. derive_update. Defined.
#[export] Instance upd_global_admitted : Update global_admitted. Proof. derive_update. Defined.
#[export] Instance upd_global_queued : Update global_queued. Proof. derive_update. Defined.
#[export] Instance upd_global_reserved_units : Update global_reserved_units. Proof. derive_update. Defined.
#[export] Instance upd_global_running_units : Update global_running_units. Proof. derive_update. Defined.
#[export] Instance upd_global_tokens : Update global_tokens. Proof. derive_update. Defined.
#[export] Instance upd_draining : Update draining. Proof. derive_update. Defined.
#[export] Instance upd_drain_reason : Update drain_reason. Proof. derive_update. Defined.
#[export] Instance upd_recovery_mode : Update recovery_mode. Proof. derive_update. Defined.
#[export] Instance upd_event_log : Update event_log. Proof. derive_update. Defined.
#[export] Instance upd_has_handler : Update has_handler. Proof. derive_update. Defined.
#[export] Instance upd_event_stream_mode : Update event_stream_mode. Proof. derive_update. Defined.
#[export] Instance upd_event_seq : Update event_seq. Proof. derive_update. Defined.
#[export] Instance upd_stats : Update stats. Proof. derive_update. Defined.
#[export] Instance upd_clock_reads : Update clock_reads. Proof. derive_update. Defined.

Abbreviation M := (ST Impl).

(** The constructor [Impl(cfg, clock, epoch)]; [salt] is the salt the
    [IdFactory] drew. *)
Definition init_impl (c : SchedulerConfig) (ep : option Z) (salt : Z) : Impl := {|
  cfg := if String.eqb (cfg_state_path c) EmptyString
         then c <| cfg_state_path := "inference_scheduler_state.bin" |> else c;
  epoch := match ep with Some e => if id_valid e then e else 1 | None => 1 end;
  ids := mkIdFactory salt 0;
  virtual_time := fzero;
  requests := ∅; workers := ∅; tenants := ∅; flows := ∅; compat := ∅;
  active_flows := ∅; queued := ∅;
  global_admitted := 0; global_queued := 0; global_reserved_units := 0;
  global_running_units := 0; global_tokens := 0;
  draining := false; drain_reason := EmptyString; recovery_mode := 0;
  event_log := []; has_handler := false; event_stream_mode := false;
  event_seq := 0; stats := default_stats; clock_reads := 0
|}.

(** ** Accessors used throughout the methods *)

Definition modify_rec (id : Z) (f : RequestRecord -> RequestRecord) : M unit :=
  modify (fun s => s <| requests ::= alter f id |>).
Definition modify_worker (w : Z) (f : WorkerRecord -> WorkerRecord) : M unit :=
  modify (fun s => s <| workers ::= alter f w |>).
Definition modify_tenant (t : Z) (f : TenantRecord -> TenantRecord) : M unit :=
  modify (fun s => s <| tenants ::= alter f t |>).
Definition modify_stats (f : SchedulerStats -> SchedulerStats) : M unit :=
  modify (fun s => s <| stats ::= f |>).

(** [rec(id)], a reference into [requests_]. *)
Definition request_of (s : Impl) (id : Z) : RequestRecord :=
  default default_request (requests s !! id).
Definition worker_of (s : Impl) (w : Z) : WorkerRecord :=
  default default_worker (workers s !! w).

(** [history.back() = f(history.back())]. *)
Fixpoint alter_back (f : AttemptRecord -> AttemptRecord) (h : list AttemptRecord)
    : list AttemptRecord :=
  match h with
  | [] => []
  | [a] => [f a]
  | a :: h' => a :: alter_back f h'
  end.

Definition history_back (h : list AttemptRecord) : AttemptRecord :=
  List.last h default_attempt.

Definition next_id : M Z :=
  i ← gets ids;
  modify (fun s => s <| ids := (id_next i).2 |>) ;;
  mret (id_next i).1.

Section Clocked.
  Context `{Env}.

Definition clock_now : M Z :=
  n ← gets clock_reads;
  modify (fun s => s <| clock_reads := Datatypes.S n |>) ;;
  mret (env_clock n).

(** The bound of the event log. *)
Definition event_log_cap : Z := 65536.

(** [event_log_.push_back(e); if (size > 65536) pop_front()]. *)
Definition push_event (e : SchedulerEvent) (l : list SchedulerEvent) : list SchedulerEvent :=
  let l' := l ++ [e] in
  if event_log_cap <? Z.of_nat (length l') then tail l' else l'.

Definition emit_event (type : string) (rid aid wid bid : Z) (detail : string) : M unit :=
  ep ← gets epoch;
  t ← clock_now;
  seq ← gets event_seq;
  let e := {| ev_sequence := u64 (seq + 1); ev_epoch := ep; ev_type := type;
              ev_request_id := rid; ev_attempt_id := aid; ev_worker_id := wid;
              ev_batch_id := bid; ev_timestamp_ns := t; ev_detail := detail;
              ev_reason_code := EmptyString |} in
  modify (fun s => s <| event_seq := u64 (seq + 1) |>
                     <| event_log ::= push_event e |>).

(** [ms_between], [clamp01], [ceil_cost] and the enumerator integers. *)
Definition ms_between (a b : Z) : Z := Z.quot (i64 (b - a)) ns_per_ms.

Definition clamp01 (v : f64) : f64 :=
  if fltb v fzero then fzero else if fltb fone v then fone else v.

Definition ceil_cost (c : f64) : Z :=
  if fleb c fzero then 1
  else match f64_ceil c with
       | Some z => if in_int64 z then z else env_cast (f64_of_Z z)
       | None => env_cast c
       end.

End Clocked.
