(* ===== verification/Admission.v ===== *)
(** * Admission control

    [validate_spec], [compatible] and [make_admission] of
    [src/scheduler.cpp], with the weights and keys computed from a
    specification. *)

From S2P Require Import Prelude Enums Ids Float64 Types State.
Open Scope Z_scope.

(** ** Weights and keys of a specification *)

Fixpoint find_tenant_weight (l : list TenantWeight) (t : Z) (dflt : f64) : f64 :=
  match l with
  | [] => dflt
  | c :: l' => if tw_tenant c =? t then tw_weight c else find_tenant_weight l' t dflt
  end.

Definition tenant_weight (c : SchedulerConfig) (t : Z) : f64 :=
  find_tenant_weight (fair_tenant_weights (cfg_fairness c)) t
    (fair_default_weight (cfg_fairness c)).

Definition phase_index (p : RequestPhase) : nat := Z.to_nat (RequestPhase_int p).

Definition flow_weight (c : SchedulerConfig) (sp : RequestSpec) : f64 :=
  let p := cfg_scheduling c in
  fmul (fmul (fmul (tenant_weight c (spec_tenant sp))
    (nth (latency_index (spec_latency_class sp)) (pol_latency_weight p) fzero))
    (nth (priority_index (spec_priority sp)) (pol_priority_weight p) fzero))
    (nth (phase_index (spec_phase sp)) (pol_phase_weight p) fzero).

Definition flow_key (sp : RequestSpec) : FlowKey := {|
  fk_tenant := spec_tenant sp;
  fk_latency := LatencyClass_int (spec_latency_class sp);
  fk_phase := RequestPhase_int (spec_phase sp);
  fk_priority := PriorityClass_int (spec_priority sp)
|}.

Definition compat_key (c : SchedulerConfig) (sp : RequestSpec) : CompatKey := {|
  ck_model := spec_model sp;
  ck_revision := spec_revision sp;
  ck_adapter := if id_valid (spec_adapter sp) then spec_adapter sp else 0;
  ck_phase := if bc_allow_phase_mix (cfg_batch c) then 256
              else RequestPhase_int (spec_phase sp);
  ck_latency := LatencyClass_int (spec_latency_class sp)
|}.

(** ** Validation *)

Definition validate_spec (sp : RequestSpec) : Result unit :=
  if negb (id_valid (spec_tenant sp)) then fail EC_InvalidArgument "tenant id required"
  else if negb (id_valid (spec_model sp)) then fail EC_InvalidArgument "model identity required"
  else if (te_input (spec_tokens sp) <? 0) || (te_output (spec_tokens sp) <? 0)
          || (te_decoded (spec_tokens sp) <? 0)
       then fail EC_InvalidArgument "negative token estimate"
  else if fltb (rd_cost_units (spec_demand sp)) fzero
       then fail EC_InvalidArgument "negative cost units"
  else if spec_estimated_memory_bytes sp <? 0
       then fail EC_InvalidArgument "negative memory estimate"
  else if spec_max_batch_size sp <? 0
       then fail EC_InvalidArgument "negative max batch size"
  else Ok tt.

(** ** Worker compatibility *)

(** A list of supported values: empty supports any. *)
Definition supports {A} `{EqDecision A} (l : list A) (x : A) : bool :=
  match l with [] => true | _ => bool_decide (x ∈ l) end.

Definition compatible (sp : RequestSpec) (cap : WorkerCapability) : bool :=
  if cap_total_capacity_units cap <=? 0 then false
  else if negb (supports (cap_models cap) (spec_model sp)) then false
  else if negb (supports (cap_revisions cap) (spec_revision sp)) then false
  else if id_valid (spec_adapter sp) && negb (supports (cap_adapters cap) (spec_adapter sp))
       then false
  else if negb (supports (cap_phases cap) (spec_phase sp)) then false
  else true.

(** ** The admission decision *)

Section Admission.
  Context `{Env}.

(** The deadline-feasibility gate: [None] when it does not decide. *)
Definition deadline_gate (c : SchedulerConfig) (sp : RequestSpec) (now : Z)
    : option (AdmissionDecision * string) :=
  if al_enforce_deadline_feasibility (cfg_admission c) && dl_valid (spec_deadline sp) then
    let rem := remaining (spec_deadline sp) now in
    let cost := ceil_cost (rd_cost_units (spec_demand sp)) in
    if rem <? 0 then Some (AD_Reject, "deadline_impossible")
    else if (0 <? rem) && (rem <? cost) then
      if cfg_strict_deadline_rejection c then Some (AD_Reject, "deadline_infeasible")
      else Some (AD_Defer, "deadline_infeasible")
    else None
  else None.

Definition make_admission (s : Impl) (sp : RequestSpec) (now : Z)
    : AdmissionDecision * string :=
  let a := cfg_admission (cfg s) in
  if draining s then (AD_Reject, "scheduler_draining")
  else if recovery_mode s =? 1 then (AD_Reject, "recovering")
  else if dl_valid (spec_deadline sp) && expired (spec_deadline sp) now
       then (AD_Reject, "deadline_expired_at_submit")
  else match deadline_gate (cfg s) sp now with
  | Some d => d
  | None =>
  if al_max_global_admitted a <=? global_admitted s
       then (AD_Defer, "global_admission_saturated")
  else if al_max_global_queued a <=? global_queued s
       then (AD_Defer, "global_queue_saturated")
  else if (0 <? al_max_global_token_budget a)
          && (al_max_global_token_budget a <? i64 (global_tokens s + tokens_total (spec_tokens sp)))
       then (AD_Defer, "token_budget_exhausted")
  else
  let t := tenants s !! spec_tenant sp in
  if from_option (fun t => al_default_tenant_concurrency a <=? ten_admitted t) false t
       then (AD_Defer, "tenant_concurrency_saturated")
  else if from_option (fun t => al_default_tenant_queue_depth a <=? ten_queued t) false t
       then (AD_Defer, "tenant_queue_depth_saturated")
  else if bool_decide (workers s = ∅) then (AD_Admit, "admitted")
  else if existsb (fun p => compatible sp (reg_capability (wr_registration p.2)))
                  (map_to_list (workers s))
       then (AD_Admit, "admitted")
  else (AD_Defer, "no_compatible_worker")
  end.

End Admission.
