(* ===== verification/Queue.v ===== *)
(** * Queueing and fair selection

    The ready queues of [src/scheduler.cpp]: [tenant_of], [enqueue_request],
    [dequeue_request], [expire_request], [expire_scan], [effective_finish],
    [pick_seed] and [account_flow]. *)

From S2P Require Import Prelude Enums Ids Float64 Types State Admission.
Open Scope Z_scope.

(** [tenant_of(t)]: the reference the code goes on to update. *)
Definition tenant_of (t : Z) : M unit :=
  modify (fun s =>
    match tenants s !! t with
    | Some _ => s
    | None => s <| tenants ::= <[t := default_tenant
                      <| ten_tenant := t |> <| ten_weight := tenant_weight (cfg s) t |>]> |>
    end).

(** [flows_[k]]: created on first use. *)
Definition flow_of (s : Impl) (k : FlowKey) : Flow := default default_flow (flows s !! k).

Definition put_flow (k : FlowKey) (f : Flow) : M unit :=
  modify (fun s => s <| flows ::= <[k := f]> |>).

(** The slack stored with a ready entry and used to order batch candidates. *)
Definition slack_of (sp : RequestSpec) (now : Z) : Z :=
  if dl_valid (spec_deadline sp) then remaining (spec_deadline sp) now else int64_max.

Definition is_expired (sp : RequestSpec) (now : Z) : bool :=
  dl_valid (spec_deadline sp) && expired (spec_deadline sp) now.

Definition compat_insert (k : CompatKey) (id : Z) (m : gmap CompatKey (gset Z))
    : gmap CompatKey (gset Z) :=
  <[k := {[id]} ∪ default ∅ (m !! k)]> m.

(** [it->second.erase(id); if (it->second.empty()) compat_.erase(it)]. *)
Definition compat_erase (k : CompatKey) (id : Z) (m : gmap CompatKey (gset Z))
    : gmap CompatKey (gset Z) :=
  match m !! k with
  | None => m
  | Some ids => let ids' := ids ∖ {[id]} in
                if bool_decide (ids' = ∅) then delete k m else <[k := ids']> m
  end.

(** [if (x > 0) x -= 1]. *)
Definition dec_pos (x : Z) : Z := if 0 <? x then x - 1 else x.

Section Queue.
  Context `{Env}.

Definition enqueue_request (id : Z) : M unit :=
  r ← gets (fun s => request_of s id);
  c ← gets cfg;
  let sp := rec_spec r in
  let k := flow_key sp in
  f0 ← gets (fun s => flow_of s k);
  let f := f0 <| fl_weight := flow_weight c sp |> in
  put_flow k f ;;
  now ← clock_now;
  let e := {| re_id := rec_request_id r; re_generation := rec_generation r;
              re_slack := slack_of sp now;
              re_prio := PriorityClass_int (spec_priority sp);
              re_idv := rec_request_id r |} in
  vt ← gets virtual_time;
  (if bool_decide (fl_pending f = [])
   then put_flow k (f <| fl_virtual_finish := fmax (fl_virtual_finish f) vt |>
                      <| fl_pending := [e] |>) ;;
        modify (fun s => s <| active_flows ::= fun a => {[k]} ∪ a |>)
   else put_flow k (f <| fl_pending ::= pq_push e |>)) ;;
  modify (fun s => s <| queued ::= fun q => {[rec_request_id r]} ∪ q |>) ;;
  modify (fun s => s <| compat ::= compat_insert (compat_key c sp) (rec_request_id r) |>) ;;
  now2 ← clock_now;
  modify_rec id (fun r => r <| rec_state := RS_Queued |> <| rec_queued_at := now2 |>) ;;
  modify (fun s => s <| global_queued ::= Z.succ |>) ;;
  tenant_of (spec_tenant sp) ;;
  modify_tenant (spec_tenant sp) (fun t => t <| ten_queued ::= Z.succ |>).

Definition dequeue_request (id : Z) : M unit :=
  r ← gets (fun s => request_of s id);
  c ← gets cfg;
  modify (fun s => if bool_decide (rec_request_id r ∈ queued s)
                   then s <| queued ::= fun q => q ∖ {[rec_request_id r]} |>
                          <| global_queued ::= Z.pred |>
                   else s) ;;
  modify (fun s => s <| compat ::= compat_erase (compat_key c (rec_spec r)) (rec_request_id r) |>) ;;
  modify_tenant (spec_tenant (rec_spec r)) (fun t => t <| ten_queued ::= dec_pos |>).

(** [if (global_admitted_ > 0) global_admitted_ -= 1;] and the same for the
    tenant's counter. *)
Definition release_admitted (t : Z) : M unit :=
  modify (fun s => s <| global_admitted ::= dec_pos |>) ;;
  tenant_of t ;;
  modify_tenant t (fun t => t <| ten_admitted ::= dec_pos |>).

Definition release_running (t : Z) : M unit :=
  tenant_of t ;;
  modify_tenant t (fun t => t <| ten_running ::= dec_pos |>).

Definition expire_request (id : Z) : M unit :=
  r ← gets (fun s => request_of s id);
  if negb (bool_decide (rec_state r = RS_Queued)) then mret tt else
  dequeue_request id ;;
  modify_rec id (fun r => r <| rec_state := RS_Expired |>
                            <| rec_terminal_reason := "deadline_expired" |>
                            <| rec_history ::= alter_back (fun a => a <| att_state := AS_Expired |>) |>) ;;
  release_admitted (spec_tenant (rec_spec r)) ;;
  modify_stats (fun st => st <| st_requests_expired ::= Z.succ |>) ;;
  c ← gets cfg;
  when ((0 <=? bc_max_wait (cfg_batch c)) && dl_valid (spec_deadline (rec_spec r)))
    (emit_event "expired" (rec_request_id r) (rec_current_attempt r)
       invalid_id invalid_id "deadline_expired").

Definition expirable (s : Impl) (now : Z) (id : Z) : bool :=
  match requests s !! id with
  | Some r => bool_decide (rec_state r = RS_Queued) && is_expired (rec_spec r) now
  | None => false
  end.

Definition expire_scan (now : Z) : M unit :=
  to ← gets (fun s => List.filter (expirable s now) (elements (queued s)));
  foreach to (fun id =>
    o ← gets (fun s => requests s !! id);
    match o with Some _ => expire_request id | None => mret tt end).

Definition effective_finish (c : SchedulerConfig) (f : Flow) (sp : RequestSpec) (now : Z) : f64 :=
  let v := fl_virtual_finish f in
  if pol_deadline_boost_enabled (cfg_scheduling c) then
    let slack := if dl_valid (spec_deadline sp) then remaining (spec_deadline sp) now else -1 in
    if (0 <=? slack) && (slack <=? pol_deadline_boost_threshold_ms (cfg_scheduling c))
    then fdiv v (pol_deadline_boost_max (cfg_scheduling c)) else v
  else v.

(** The inner loop of [pick_seed]: drop dead entries from the front of the
    flow's queue; [true] when an entry is left. *)
Fixpoint prune_pending (k : FlowKey) (now : Z) (q : list ReadyEntry) : M bool :=
  match q with
  | [] => mret false
  | top :: rest =>
      let pop := modify (fun s => s <| flows ::= alter (fun f => f <| fl_pending := rest |>) k |>) in
      o ← gets (fun s => requests s !! re_id top);
      inq ← gets (fun s => bool_decide (re_id top ∈ queued s));
      match o with
      | None => pop ;; prune_pending k now rest
      | Some r =>
          if negb inq || negb (rec_generation r =? re_generation top)
          then pop ;; prune_pending k now rest
          else if is_expired (rec_spec r) now
          then pop ;; expire_request (re_id top) ;; prune_pending k now rest
          else mret true
      end
  end.

(** [!found || eff < bf || (eff == bf && k < best)]. *)
Definition better_flow (eff : f64) (k : FlowKey) (best : option (f64 * FlowKey)) : bool :=
  match best with
  | None => true
  | Some (bf, bk) => fltb eff bf || (feqb eff bf && flowkey_ltb k bk)
  end.

(** The effective finish of a flow whose front entry is alive. *)
Definition flow_finish (s : Impl) (now : Z) (k : FlowKey) : f64 :=
  let f := flow_of s k in
  match fl_pending f with
  | [] => fl_virtual_finish f
  | top :: _ => effective_finish (cfg s) f (rec_spec (request_of s (re_id top))) now
  end.

(** The outer loop of [pick_seed], over the flow keys in the order of
    [std::set<FlowKey>]. *)
Fixpoint scan_flows (now : Z) (ks : list FlowKey) (best : option (f64 * FlowKey))
    : M (option (f64 * FlowKey)) :=
  match ks with
  | [] => mret best
  | k :: ks' =>
      f ← gets (fun s => flow_of s k);
      put_flow k f ;;
      alive ← prune_pending k now (fl_pending f);
      if negb alive
      then modify (fun s => s <| active_flows ::= fun a => a ∖ {[k]} |>) ;;
           scan_flows now ks' best
      else
        eff ← gets (fun s => flow_finish s now k);
        scan_flows now ks' (if better_flow eff k best then Some (eff, k) else best)
  end.

(** The iteration order of a [std::set<FlowKey>]. *)
Definition flowkey_le (a b : FlowKey) : Prop := flowkey_ltb b a = false.
#[global] Instance flowkey_le_dec a b : Decision (flowkey_le a b).
Proof. unfold flowkey_le. apply _. Defined.

Definition sorted_flows (fs : gset FlowKey) : list FlowKey :=
  merge_sort flowkey_le (elements fs).

Definition pick_seed (now : Z) : M (option Z) :=
  ks ← gets (fun s => sorted_flows (active_flows s));
  best ← scan_flows now ks None;
  match best with
  | None => mret None
  | Some (_, k) => gets (fun s => re_id <$> head (fl_pending (flow_of s k)))
  end.

Definition account_flow (sp : RequestSpec) (cost : f64) : M unit :=
  f ← gets (fun s => flow_of s (flow_key sp));
  let w := if fltb fzero (fl_weight f) then fl_weight f else fone in
  let vf := fadd (fl_virtual_finish f) (fdiv cost w) in
  put_flow (flow_key sp) (f <| fl_virtual_finish := vf |>) ;;
  modify (fun s => s <| virtual_time ::= fun v => fmax v vf |>).

End Queue.
