(* ===== verification/Batch.v ===== *)
(** * Batch formation

    [form_batch] of [src/scheduler.cpp]: the seed, then the compatible queued
    requests in the order (slack, priority, id), up to the size and token
    bounds. *)

From S2P Require Import Prelude Enums Ids Float64 Types State Admission Queue.
Open Scope Z_scope.

(** The request set of a batching key. *)
Definition compat_ids (s : Impl) (k : CompatKey) : list Z :=
  match compat s !! k with Some ids => elements ids | None => [] end.

(** The filter of the candidate loop. *)
Definition batch_candidate (s : Impl) (seed now id : Z) : bool :=
  negb (id =? seed) && bool_decide (id ∈ queued s) &&
  match requests s !! id with
  | None => false
  | Some c => bool_decide (rec_state c = RS_Queued) && negb (is_expired (rec_spec c) now)
  end.

(** The comparator given to [std::sort]. *)
Definition cand_ltb (s : Impl) (now a b : Z) : bool :=
  let ra := rec_spec (request_of s a) in
  let rb := rec_spec (request_of s b) in
  let sa := slack_of ra now in
  let sb := slack_of rb now in
  if negb (sa =? sb) then sa <? sb
  else
    let pa := PriorityClass_int (spec_priority ra) in
    let pb := PriorityClass_int (spec_priority rb) in
    if negb (pa =? pb) then pb <? pa else a <? b.

Definition cand_le (s : Impl) (now a b : Z) : Prop := cand_ltb s now b a = false.
#[global] Instance cand_le_dec s now a b : Decision (cand_le s now a b).
Proof. unfold cand_le. apply _. Defined.

Definition batch_candidates (s : Impl) (seed now : Z) : list Z :=
  let key := compat_key (cfg s) (rec_spec (request_of s seed)) in
  merge_sort (cand_le s now) (List.filter (batch_candidate s seed now) (compat_ids s key)).

(** The effective batch bound of a seed: its own limit, else the scheduler's,
    and never below one. *)
Definition batch_limit (s : Impl) (seed : Z) : Z :=
  let own := spec_max_batch_size (rec_spec (request_of s seed)) in
  let maxb := if 0 <? own then own else bc_max_batch_size (cfg_batch (cfg s)) in
  if maxb <? 1 then 1 else maxb.

Definition request_tokens (s : Impl) (id : Z) : Z :=
  tokens_total (spec_tokens (rec_spec (request_of s id))).

(** The greedy loop: stop at the size bound, and at the first request that
    would exceed the token bound. *)
Fixpoint fill_batch (s : Impl) (maxb tok : Z) (acc cands : list Z) : list Z :=
  match cands with
  | [] => acc
  | id :: cands' =>
      if maxb <=? i32 (Z.of_nat (length acc)) then acc
      else if 0 <? bc_max_tokens (cfg_batch (cfg s)) then
        let add := request_tokens s id in
        if bc_max_tokens (cfg_batch (cfg s)) <? i64 (tok + add) then acc
        else fill_batch s maxb (i64 (tok + add)) (acc ++ [id]) cands'
      else fill_batch s maxb tok (acc ++ [id]) cands'
  end.

Definition form_batch (s : Impl) (seed now : Z) : list Z :=
  match requests s !! seed with
  | None => []
  | Some _ => fill_batch s (batch_limit s seed) (request_tokens s seed) [seed]
                (batch_candidates s seed now)
  end.
