(* ===== verification/Dispatch.v ===== *)
(** * Dispatch: scoring, selection and reservation

    [score_worker], [select_worker], [do_plan_dispatch] and [do_plan_next] of
    [src/scheduler.cpp]. *)

From S2P Require Import Prelude Enums Ids Float64 Types State Admission Queue Batch.
Open Scope Z_scope.

Section Dispatch.
  Context `{Env}.

(** [wr.resource.available_capacity_units - wr.reserved_units]. *)
Definition avail_units (wr : WorkerRecord) : Z :=
  i64 (res_available_capacity_units (wr_resource wr) - wr_reserved_units wr).

Definition worker_online (w : WorkerState) : bool :=
  match w with WS_Online | WS_Busy => true | _ => false end.

(** The eligibility checks of [score_worker], in order: the reject reason, or
    [None] for an eligible worker. *)
Definition reject_reason (wr : WorkerRecord) (sp : RequestSpec) (batch_cost : f64) (now : Z)
    : option string :=
  let cap := reg_capability (wr_registration wr) in
  let cost := ceil_cost batch_cost in
  if negb (worker_online (wr_state wr)) then Some "worker_not_online"%string
  else if negb (compatible sp cap) then Some "incompatible"%string
  else if (0 <? cap_total_capacity_units cap) && (avail_units wr <? cost)
       then Some "no_capacity"%string
  else if (0 <? cap_total_capacity_units cap) && (cap_total_capacity_units cap <? cost)
       then Some "oversized"%string
  else if is_expired sp now then Some "deadline_expired"%string
  else None.

(** The score components of an eligible worker. *)
Definition capacity_fraction (wr : WorkerRecord) : f64 :=
  let total := cap_total_capacity_units (reg_capability (wr_registration wr)) in
  if 0 <? total then fdiv (f64_of_Z (avail_units wr)) (f64_of_Z total) else fone.

Definition load_score (wr : WorkerRecord) : f64 :=
  let total := cap_total_capacity_units (reg_capability (wr_registration wr)) in
  if 0 <? total
  then fsub fone (clamp01 (fdiv (f64_of_Z (i64 (total - avail_units wr))) (f64_of_Z total)))
  else fone.

Definition deadline_score (c : SchedulerConfig) (sp : RequestSpec) (now : Z) : f64 :=
  if dl_valid (spec_deadline sp) then
    let slack := remaining (spec_deadline sp) now in
    if slack <? 0 then fzero
    else clamp01 (fdiv (f64_of_Z slack)
                       (f64_of_Z (Z.max 1 (pol_deadline_boost_threshold_ms (cfg_scheduling c)))))
  else fone.

Definition locality_score (wr : WorkerRecord) (sp : RequestSpec) : f64 :=
  let l := spec_locality sp in
  if has_preference l then
    let a := if id_valid (lh_accelerator l)
                && (lh_accelerator l =? reg_accelerator (wr_registration wr))
             then fone else fzero in
    if id_valid (lh_node l) && (lh_node l =? reg_node (wr_registration wr))
    then fmax a (flit 8 10) else a
  else fone.

Definition warmth_score (wr : WorkerRecord) (sp : RequestSpec) : f64 :=
  let a := wh_model_warmth (spec_warmth sp) in
  let b := cap_model_warmth (reg_capability (wr_registration wr)) in
  clamp01 (fadd (f32_to_f64 (fmul32 a b))
                (fmul (fmul fhalf (f32_to_f64 (fadd32 a b))) fhalf)).

Definition state_score (wr : WorkerRecord) (sp : RequestSpec) : f64 :=
  clamp01 (fadd (f32_to_f64 (fmul32 (wh_state_warmth (spec_warmth sp))
                  (cap_state_warmth (reg_capability (wr_registration wr))))) fhalf).

Definition score_components (c : SchedulerConfig) (wr : WorkerRecord) (sp : RequestSpec) (now : Z)
    : list ScoreComponent :=
  let dw := pol_dispatch (cfg_scheduling c) in
  [ mkScoreComponent "capability" fone (dw_capability dw);
    mkScoreComponent "capacity" (capacity_fraction wr) (dw_capacity dw);
    mkScoreComponent "load" (load_score wr) (dw_load dw);
    mkScoreComponent "deadline" (deadline_score c sp now) (dw_deadline dw);
    mkScoreComponent "latency_class" fone (dw_latency_class dw);
    mkScoreComponent "phase" fone (dw_phase dw);
    mkScoreComponent "locality" (locality_score wr sp) (dw_locality dw);
    mkScoreComponent "model_warmth" (warmth_score wr sp) (dw_model_warmth dw);
    mkScoreComponent "state_warmth" (state_score wr sp) (dw_state_warmth dw);
    mkScoreComponent "batch" fone (dw_batch dw);
    mkScoreComponent "fairness" fone (dw_fairness dw) ].

(** The weighted mean over the components with a positive weight. *)
Definition score_total (cs : list ScoreComponent) : f64 :=
  let '(num, den) := fold_left (fun acc c =>
      if fltb fzero (sc_weight c)
      then (fadd acc.1 (fmul (sc_value c) (sc_weight c)), fadd acc.2 (sc_weight c))
      else acc) cs (fzero, fzero) in
  if fltb fzero den then fdiv num den else fzero.

Definition score_worker (c : SchedulerConfig) (wr : WorkerRecord) (sp : RequestSpec)
    (batch_cost : f64) (now : Z) : WorkerScore :=
  let s := default_score <| ws_worker := reg_worker (wr_registration wr) |> in
  match reject_reason wr sp batch_cost now with
  | Some code => s <| ws_reject_reason_code := code |>
  | None =>
      let cs := score_components c wr sp now in
      s <| ws_eligible := true |> <| ws_components := cs |> <| ws_total := score_total cs |>
  end.

(** [!found || sc.total > bestv || (sc.total == bestv && sc.worker < best)]. *)
Definition better_score (sc best : WorkerScore) : bool :=
  fltb (ws_total best) (ws_total sc)
  || (feqb (ws_total sc) (ws_total best) && (ws_worker sc <? ws_worker best)).

Definition select_best (scores : list WorkerScore) : option WorkerScore :=
  fold_left (fun best sc =>
      if ws_eligible sc then
        match best with
        | None => Some sc
        | Some b => if better_score sc b then Some sc else Some b
        end
      else best) scores None.

Definition select_worker (s : Impl) (members : list Z) (batch_cost : f64) (now : Z)
    : Z * list WorkerScore :=
  match members with
  | [] => (invalid_id, [])
  | m :: _ =>
      let sp := rec_spec (request_of s m) in
      let scores := (fun p => score_worker (cfg s) p.2 sp batch_cost now) <$> map_to_list (workers s) in
      (from_option ws_worker invalid_id (select_best scores), scores)
  end.

(** The two sums over the members: the cost offered to the workers and the
    capacity units reserved. *)
Definition batch_cost (s : Impl) (members : list Z) : f64 :=
  fold_left (fun acc id => fadd acc (fmax fone (rd_cost_units (spec_demand (rec_spec (request_of s id))))))
    members fzero.

Definition batch_units_of (s : Impl) (members : list Z) : Z :=
  fold_left (fun acc id => i64 (acc + ceil_cost (rd_cost_units (spec_demand (rec_spec (request_of s id))))))
    members 0.

(** The body of the loop over the members after the reservation. *)
Definition reserve_member (w bid now id : Z) : M unit :=
  dequeue_request id ;;
  r ← gets (fun s => request_of s id);
  account_flow (rec_spec r) (fmax fone (rd_cost_units (spec_demand (rec_spec r)))) ;;
  modify_rec id (fun r => r <| rec_state := RS_Reserved |> <| rec_reserved_at := now |>
                            <| rec_in_batch := true |> <| rec_batch_id := bid |>
                            <| rec_history ::= alter_back (fun a => a <| att_state := AS_Reserved |>) |>) ;;
  emit_event "reserved" (rec_request_id r) (rec_current_attempt r) w bid (rec_terminal_reason r).

(** [workers_[w]]: created on first use. *)
Definition worker_slot (w : Z) : M unit :=
  modify (fun s => match workers s !! w with
                   | Some _ => s
                   | None => s <| workers ::= <[w := default_worker]> |>
                   end).

(** The reservation on the worker's record. *)
Definition reserve_on (w bid units : Z) (members : list Z) : M unit :=
  modify_worker w (fun wr =>
    wr <| wr_reserved_units ::= fun u => i64 (u + units) |>
       <| wr_batch_units ::= <[bid := units]> |>
       <| wr_batch_pending ::= <[bid := i32 (Z.of_nat (length members))]> |>
       <| wr_batch_members ::= <[bid := members]> |>) ;;
  modify (fun s => s <| global_reserved_units ::= fun u => i64 (u + units) |>).

Definition hold (out : DispatchOutcome) (d : DispatchDecision) (reason : string)
    : DispatchOutcome :=
  out <| dout_decision := d |> <| dout_reason_code := reason |>.

Definition do_plan_dispatch (request : Z) (explain : bool) : M (Result DispatchOutcome) :=
  now ← clock_now;
  expire_scan now ;;
  o ← gets (fun s => requests s !! request);
  match o with
  | None => mret (fail EC_NotFound "request not found")
  | Some r =>
    let out := default_dispatch_outcome <| dout_request_id := request |>
                 <| dout_attempt_id := rec_current_attempt r |> in
    if is_expired (rec_spec r) now then
      (if bool_decide (rec_state r = RS_Queued) then expire_request request else mret tt) ;;
      mret (Ok (hold out DD_Hold "deadline_expired"))
    else if negb (bool_decide (rec_state r = RS_Queued)) && negb (bool_decide (rec_state r = RS_Admitted))
    then mret (Ok (hold out DD_Hold "not_runnable"))
    else
      members ← gets (fun s => match form_batch s request now with
                               | [] => [request] | l => l end);
      cost ← gets (fun s => batch_cost s members);
      units ← gets (fun s => batch_units_of s members);
      sel ← gets (fun s => select_worker s members cost now);
      let out := out <| dout_candidates := sel.2 |> in
      if negb (id_valid sel.1) then
        mret (Ok ((hold out DD_NoEligibleWorker "no_eligible_worker")
               <| dout_explanation := if explain
                    then "no eligible worker with capacity/compatibility" else EmptyString |>))
      else
        worker_slot sel.1 ;;
        wr ← gets (fun s => worker_of s sel.1);
        if (0 <? cap_total_capacity_units (reg_capability (wr_registration wr)))
           && (avail_units wr <? units)
        then mret (Ok (hold out DD_Hold "reservation_capacity_exceeded"))
        else
          bid ← next_id;
          reserve_on sel.1 bid units members ;;
          foreach members (reserve_member sel.1 bid now) ;;
          gen ← gets (fun s => rec_generation (request_of s request));
          modify_stats (fun st => st <| st_dispatches ::= Z.succ |>
             <| st_batches_formed ::= fun n => if (1 <? Z.of_nat (length members)) then n + 1 else n |>
             <| st_batch_members ::= fun n => n + Z.of_nat (length members) |>) ;;
          mret (Ok ((hold out DD_Dispatch "dispatched")
                 <| dout_worker_id := sel.1 |> <| dout_batch_id := bid |>
                 <| dout_estimated_cost_units := units |> <| dout_batch_members := members |>
                 <| dout_generation := gen |>
                 <| dout_explanation := if explain && existsb (fun sc => ws_worker sc =? sel.1) sel.2
                      then "selected worker by weighted score" else EmptyString |>))
  end.

Definition do_plan_next (explain : bool) : M (Result DispatchOutcome) :=
  now ← clock_now;
  expire_scan now ;;
  seed ← pick_seed now;
  match seed with
  | None => mret (Ok (hold default_dispatch_outcome DD_Hold "no_runnable"))
  | Some id => do_plan_dispatch id explain
  end.

End Dispatch.
