(* ===== verification/Completion.v ===== *)
(** * Completion: release, success, failure, retry, cancellation

    [release_batch], [release_batch_member], [finish_success],
    [finish_failed], [finish_cancelled], [can_retry], [make_retry],
    [do_confirm_start] and [do_complete] of [src/scheduler.cpp]. *)

From S2P Require Import Prelude Enums Ids Float64 Types State Admission Queue.
Open Scope Z_scope.

(** [if (x < 0) x = 0]. *)
Definition clamp0 (x : Z) : Z := if x <? 0 then 0 else x.

Definition worker_busy (w : WorkerState) : bool :=
  match w with WS_Busy => true | _ => false end.

(** The worker's record after [release_batch]. *)
Definition release_on_worker (bid : Z) (wr : WorkerRecord) : WorkerRecord :=
  let units := default 0 (wr_batch_units wr !! bid) in
  let started := bool_decide (bid ∈ wr_started_batches wr) in
  let run := clamp0 (if started then i64 (wr_running_units wr - units) else wr_running_units wr) in
  let res := clamp0 (if started then wr_reserved_units wr else i64 (wr_reserved_units wr - units)) in
  wr <| wr_running_units := run |>
     <| wr_reserved_units := res |>
     <| wr_batch_units ::= delete bid |>
     <| wr_batch_pending ::= delete bid |>
     <| wr_batch_members ::= delete bid |>
     <| wr_started_batches ::= fun b => b ∖ {[bid]} |>
     <| wr_state ::= fun w => if (run =? 0) && (res =? 0) && worker_busy w then WS_Online else w |>.

Definition release_batch (w bid : Z) : M unit :=
  o ← gets (fun s => workers s !! w);
  match o with
  | None => mret tt
  | Some wr =>
      let units := default 0 (wr_batch_units wr !! bid) in
      let started := bool_decide (bid ∈ wr_started_batches wr) in
      modify_worker w (release_on_worker bid) ;;
      modify (fun s => s
        <| global_running_units ::= fun u => clamp0 (if started then i64 (u - units) else u) |>
        <| global_reserved_units ::= fun u => clamp0 (if started then u else i64 (u - units)) |>)
  end.

Definition release_batch_member (id w : Z) : M unit :=
  r ← gets (fun s => request_of s id);
  o ← gets (fun s => workers s !! w);
  match o with
  | None => mret tt
  | Some wr =>
      modify_worker w (fun wr => wr <| wr_in_flight ::= delete (rec_request_id r) |>) ;;
      when (rec_in_batch r && id_valid (rec_batch_id r))
        (match wr_batch_pending wr !! rec_batch_id r with
         | None => mret tt
         | Some p =>
             modify_worker w (fun wr => wr <| wr_batch_pending ::= <[rec_batch_id r := p - 1]> |>) ;;
             when (p - 1 <=? 0) (release_batch w (rec_batch_id r))
         end) ;;
      modify_rec id (fun r => r <| rec_in_batch := false |> <| rec_batch_id := invalid_id |>)
  end.

(** [by_latency[i]], updated in place. *)
Definition bump_latency (i : nat) (f : LatencyClassStats -> LatencyClassStats)
    (l : list LatencyClassStats) : list LatencyClassStats := alter f i l.

Section Completion.
  Context `{Env}.

Definition finish_success (id : Z) (rp : CompletionReport) : M unit :=
  now ← clock_now;
  modify_rec id (fun r => r
    <| rec_state := RS_Completing |> <| rec_completed_at := now |>
    <| rec_history ::= alter_back (fun a => a
         <| att_state := AS_Succeeded |> <| att_final_status := CS_Succeeded |>
         <| att_output_tokens := cr_output_tokens_produced rp |>
         <| att_work_units := cr_work_units rp |> <| att_duration_us := cr_duration_us rp |>) |>) ;;
  modify_rec id (fun r => r <| rec_state := RS_Completed |> <| rec_terminal_reason := EmptyString |>) ;;
  release_batch_member id (cr_worker rp) ;;
  r ← gets (fun s => request_of s id);
  release_admitted (spec_tenant (rec_spec r)) ;;
  release_running (spec_tenant (rec_spec r)) ;;
  modify_stats (fun st => st <| st_requests_completed ::= Z.succ |> <| st_completions ::= Z.succ |>
    <| st_by_latency ::= bump_latency (latency_index (spec_latency_class (rec_spec r)))
                           (fun l => l <| lcs_completed ::= Z.succ |>) |>) ;;
  emit_event "completed" (rec_request_id r) (rec_current_attempt r) (cr_worker rp)
    (rec_batch_id r) (rec_terminal_reason r).

(** The bookkeeping of a failed attempt, shared by [finish_failed] and
    [make_retry]. *)
Definition fail_attempt (rp : CompletionReport) (a : AttemptRecord) : AttemptRecord :=
  a <| att_state := AS_Failed |> <| att_final_status := CS_Failed |>
    <| att_failure_class := cr_failure_class rp |> <| att_error_message := cr_error_message rp |>.

Definition finish_failed (id : Z) (rp : CompletionReport) : M unit :=
  modify_rec id (fun r => r <| rec_history ::= alter_back (fail_attempt rp) |>) ;;
  release_batch_member id (cr_worker rp) ;;
  modify_rec id (fun r => r <| rec_state := RS_Failed |>
                            <| rec_terminal_reason := FailureClass_name (cr_failure_class rp) |>) ;;
  r ← gets (fun s => request_of s id);
  release_admitted (spec_tenant (rec_spec r)) ;;
  release_running (spec_tenant (rec_spec r)) ;;
  modify_stats (fun st => st <| st_requests_failed ::= Z.succ |> <| st_completions ::= Z.succ |>) ;;
  emit_event "failed" (rec_request_id r) (rec_current_attempt r) (cr_worker rp)
    (rec_batch_id r) (rec_terminal_reason r).

Definition occupies_worker (st : RequestState) : bool :=
  match st with RS_Reserved | RS_Dispatched | RS_Running => true | _ => false end.

Definition finish_cancelled (id w : Z) (reason : string) : M unit :=
  r0 ← gets (fun s => request_of s id);
  if is_terminal (rec_state r0) then mret tt else
  when (occupies_worker (rec_state r0))
    (release_batch_member id w ;; release_running (spec_tenant (rec_spec r0))) ;;
  dequeue_request id ;;
  modify_rec id (fun r => r
    <| rec_cancellation_committed := true |> <| rec_state := RS_Cancelled |>
    <| rec_terminal_reason := reason |>
    <| rec_history ::= alter_back (fun a => a <| att_state := AS_Cancelled |>
                                              <| att_final_status := CS_Cancelled |>) |>) ;;
  release_admitted (spec_tenant (rec_spec r0)) ;;
  modify_stats (fun st => st <| st_requests_cancelled ::= Z.succ |>) ;;
  r ← gets (fun s => request_of s id);
  emit_event "cancelled" (rec_request_id r) (rec_current_attempt r) w (rec_batch_id r)
    (rec_terminal_reason r).

Definition can_retry (c : SchedulerConfig) (r : RequestRecord) (now : Z) : bool :=
  if rec_cancellation_requested r || rec_cancellation_committed r then false
  else if ret_max_attempts (cfg_retry c) <=? Z.of_nat (length (rec_history r)) then false
  else if is_expired (rec_spec r) now then false
  else true.

Definition make_retry (id : Z) (rp : CompletionReport) : M unit :=
  modify_rec id (fun r => r <| rec_history ::= alter_back (fail_attempt rp) |>) ;;
  release_batch_member id (cr_worker rp) ;;
  r0 ← gets (fun s => request_of s id);
  release_running (spec_tenant (rec_spec r0)) ;;
  gen ← next_id;
  att ← next_id;
  t ← clock_now;
  let a := default_attempt <| att_attempt_id := att |> <| att_generation := gen |>
             <| att_state := AS_Created |> <| att_created_at := t |> in
  modify_rec id (fun r => r <| rec_generation := gen |> <| rec_current_attempt := att |>
                            <| rec_history ::= fun h => h ++ [a] |>) ;;
  modify_stats (fun st => st <| st_attempts_created ::= Z.succ |> <| st_retries ::= Z.succ |>) ;;
  t2 ← clock_now;
  modify_rec id (fun r => r <| rec_state := RS_Queued |> <| rec_queued_at := t2 |>
                            <| rec_in_batch := false |> <| rec_batch_id := invalid_id |>) ;;
  enqueue_request id ;;
  r ← gets (fun s => request_of s id);
  emit_event "retry" (rec_request_id r) (rec_current_attempt r) (cr_worker rp) invalid_id
    (rec_terminal_reason r).

(** ** Start of an attempt *)

Definition worker_not_ready (w : WorkerState) : bool :=
  match w with WS_Offline | WS_Unhealthy | WS_Drained => true | _ => false end.

(** The units of a batch move from reserved to running when its first member
    starts. *)
Definition start_batch (w bid : Z) : M unit :=
  wr ← gets (fun s => worker_of s w);
  when (negb (bool_decide (bid ∈ wr_started_batches wr)))
    (let units := default 0 (wr_batch_units wr !! bid) in
     modify_worker w (fun wr => wr
       <| wr_reserved_units ::= fun u => i64 (u - units) |>
       <| wr_running_units ::= fun u => i64 (u + units) |>
       <| wr_started_batches ::= fun b => {[bid]} ∪ b |>) ;;
     modify (fun s => s <| global_reserved_units ::= fun u => i64 (u - units) |>
                        <| global_running_units ::= fun u => i64 (u + units) |>)).

(** [wit == end() || wit->second.registration.boot_id != r.boot_id]. *)
Definition boot_matches (s : Impl) (rp : CompletionReport) : bool :=
  match workers s !! cr_worker rp with
  | None => false
  | Some wr => reg_boot_id (wr_registration wr) =? cr_boot_id rp
  end.

Definition attempt_matches (r : RequestRecord) (rp : CompletionReport) : bool :=
  (rec_current_attempt r =? cr_attempt_id rp) && (rec_generation r =? cr_generation rp).

Definition do_confirm_start (rp : CompletionReport) : M (Result unit) :=
  ep ← gets epoch;
  if negb (cr_epoch rp =? ep) then mret (fail EC_StaleEpoch "stale epoch") else
  o ← gets (fun s => requests s !! cr_request_id rp);
  match o with
  | None => mret (fail EC_NotFound "request not found")
  | Some r =>
    if negb (attempt_matches r rp) then mret (fail EC_StaleAttempt "stale attempt")
    else if negb (bool_decide (rec_state r = RS_Reserved))
    then mret (fail EC_InvalidState "not reserved") else
    boot ← gets (fun s => boot_matches s rp);
    if negb boot then mret (fail EC_StaleWorker "stale worker") else
    wr ← gets (fun s => worker_of s (cr_worker rp));
    if worker_not_ready (wr_state wr) then mret (fail EC_InvalidState "worker not ready")
    else if negb (id_valid (rec_batch_id r)) then mret (fail EC_InvalidState "no batch")
    else
    let id := cr_request_id rp in
    let w := cr_worker rp in
    start_batch w (rec_batch_id r) ;;
    now ← clock_now;
    modify_rec id (fun r => r <| rec_state := RS_Running |> <| rec_started_at := now |>
      <| rec_schedule_delay_ms := ms_between (rec_queued_at r) now |>
      <| rec_history ::= alter_back (fun a => a <| att_state := AS_Running |> <| att_worker := w |>
                                                <| att_batch := rec_batch_id r |>) |>) ;;
    modify_worker w (fun wr => wr <| wr_in_flight ::= <[rec_request_id r := rec_current_attempt r]> |>) ;;
    tenant_of (spec_tenant (rec_spec r)) ;;
    modify_tenant (spec_tenant (rec_spec r)) (fun t => t <| ten_running ::= Z.succ |>) ;;
    modify_worker w (fun wr => wr <| wr_state ::= fun st => match st with WS_Online => WS_Busy | x => x end |>) ;;
    when (0 <=? res_available_capacity_units (cr_worker_snapshot rp))
      (modify_worker w (fun wr => wr <| wr_resource ::= fun x => x
         <| res_available_capacity_units := res_available_capacity_units (cr_worker_snapshot rp) |>
         <| res_queue_depth := res_queue_depth (cr_worker_snapshot rp) |> |>)) ;;
    modify_stats (fun st => st <| st_dispatches ::= Z.succ |>) ;;
    emit_event "running" (rec_request_id r) (rec_current_attempt r) w (rec_batch_id r) "running" ;;
    mret (Ok tt)
  end.

(** ** Completion of an attempt *)

Definition outcome (a : CompletionAcceptance) (reason : string) : CompletionOutcome :=
  default_outcome <| co_acceptance := a |> <| co_reason_code := reason |>.

Definition bump_stale : M unit :=
  modify_stats (fun st => st <| st_stale_rejected ::= Z.succ |>).

(** The branch of a worker that reports its deadline passed. *)
Definition complete_expired (id : Z) (rp : CompletionReport) : M unit :=
  modify_rec id (fun r => r <| rec_history ::= alter_back (fun a => a <| att_state := AS_Expired |>) |>) ;;
  release_batch_member id (cr_worker rp) ;;
  modify_rec id (fun r => r <| rec_state := RS_Expired |>
                            <| rec_terminal_reason := "deadline_expired" |>) ;;
  r ← gets (fun s => request_of s id);
  release_admitted (spec_tenant (rec_spec r)) ;;
  release_running (spec_tenant (rec_spec r)) ;;
  modify_stats (fun st => st <| st_requests_expired ::= Z.succ |>) ;;
  emit_event "expired" (rec_request_id r) (rec_current_attempt r) (cr_worker rp)
    (rec_batch_id r) (rec_terminal_reason r).

Definition retryable (c : SchedulerConfig) (f : FailureClass) : bool :=
  match f with
  | FC_RetryableTransport | FC_RetryableWorker => true
  | FC_AmbiguousDispatch => ret_retry_on_ambiguous (cfg_retry c)
  | _ => false
  end.

(** The branches after the authority checks. *)
Definition settle (id : Z) (rp : CompletionReport) (now : Z) : M (Result CompletionOutcome) :=
  r ← gets (fun s => request_of s id);
  c ← gets cfg;
  match cr_status rp with
  | CS_Succeeded =>
      if rec_cancellation_requested r
      then finish_cancelled id (cr_worker rp) "cancelled" ;;
           mret (Ok (outcome CA_CancelledOutcome "cancelled"))
      else finish_success id rp ;; mret (Ok (outcome CA_Accepted "success"))
  | CS_Cancelled =>
      finish_cancelled id (cr_worker rp) "cancelled" ;;
      mret (Ok (outcome CA_Accepted "cancelled"))
  | CS_Expired =>
      complete_expired id rp ;; mret (Ok (outcome CA_Accepted "expired"))
  | CS_Stale =>
      release_batch_member id (cr_worker rp) ;;
      modify_rec id (fun r => r <| rec_history ::= alter_back (fun a => a <| att_state := AS_Stale |>) |>) ;;
      bump_stale ;; mret (Ok (outcome CA_StaleAttempt "stale"))
  | CS_Failed | CS_Ambiguous =>
      if retryable c (cr_failure_class rp) && can_retry c r now
      then make_retry id rp ;;
           att ← gets (fun s => rec_current_attempt (request_of s id));
           mret (Ok ((outcome CA_Accepted "retry") <| co_retried := true |> <| co_retry_attempt := att |>))
      else finish_failed id rp ;; mret (Ok (outcome CA_Accepted "failed"))
  end.

Definition do_complete (rp : CompletionReport) : M (Result CompletionOutcome) :=
  ep ← gets epoch;
  if negb (cr_epoch rp =? ep)
  then bump_stale ;; mret (Ok (outcome CA_StaleEpoch "stale_epoch")) else
  boot ← gets (fun s => boot_matches s rp);
  if negb boot then bump_stale ;; mret (Ok (outcome CA_StaleWorker "stale_worker")) else
  o ← gets (fun s => requests s !! cr_request_id rp);
  match o with
  | None => mret (Ok (outcome CA_Invalid "unknown_request"))
  | Some r =>
    if negb (attempt_matches r rp)
    then bump_stale ;; mret (Ok (outcome CA_StaleAttempt "stale_attempt"))
    else if is_terminal (rec_state r)
    then mret (Ok (outcome CA_Duplicate "duplicate_completion"))
    else if rec_cancellation_committed r
    then mret (Ok (outcome CA_CancelledOutcome "cancelled"))
    else now ← clock_now; settle (cr_request_id rp) rp now
  end.

End Completion.
