(* ===== verification/Control.v ===== *)
(** * Submission, cancellation, workers, drain and inspection

    [do_submit], [do_cancel], the worker operations with [recover_in_flight],
    drain, epoch rollover, the event log and the read-only views of
    [src/scheduler.cpp]. *)

From S2P Require Import Prelude Enums Ids Float64 Types State Admission Queue Batch Dispatch Completion.
From stdpp Require Import pretty.
Open Scope Z_scope.

Section Control.
  Context `{Env}.

(** ** Submission *)

(** [std::unordered_map::insert] leaves an existing entry alone. *)
Definition insert_if_absent (id : Z) (r : RequestRecord) : M unit :=
  modify (fun s => match requests s !! id with
                   | Some _ => s
                   | None => s <| requests ::= <[id := r]> |>
                   end).

Definition submit_admitted (sp : RequestSpec) (rid now : Z) (reason : string)
    : M (Result AdmissionOutput) :=
  gen ← next_id;
  let r0 := default_request <| rec_spec := sp |> <| rec_request_id := rid |>
      <| rec_state := RS_Admitted |> <| rec_generation := gen |>
      <| rec_created_at := now |> <| rec_admitted_at := now |> in
  modify_stats (fun st => st <| st_requests_submitted ::= Z.succ |> <| st_requests_admitted ::= Z.succ |>
    <| st_by_latency ::= bump_latency (latency_index (spec_latency_class sp))
                           (fun l => l <| lcs_admitted ::= Z.succ |>) |>) ;;
  if is_expired sp now then
    insert_if_absent rid (r0 <| rec_state := RS_Expired |>
                             <| rec_terminal_reason := "deadline_expired_at_admit" |>) ;;
    modify_stats (fun st => st <| st_requests_expired ::= Z.succ |>) ;;
    emit_event "expired" rid invalid_id invalid_id invalid_id EmptyString ;;
    mret (Ok (default_admission_output <| ao_decision := AD_Reject |>
                <| ao_reason_code := "deadline_expired_at_submit" |>
                <| ao_explanation := "request deadline already expired at admission" |>))
  else
    att ← next_id;
    let a0 := default_attempt <| att_attempt_id := att |> <| att_generation := gen |>
                <| att_state := AS_Created |> <| att_created_at := now |> in
    modify_stats (fun st => st <| st_attempts_created ::= Z.succ |>) ;;
    insert_if_absent rid (r0 <| rec_current_attempt := att |> <| rec_state := RS_Queued |>
                             <| rec_queued_at := now |> <| rec_history := [a0] |>) ;;
    enqueue_request rid ;;
    modify (fun s => s <| global_admitted ::= Z.succ |>) ;;
    tenant_of (spec_tenant sp) ;;
    modify_tenant (spec_tenant sp) (fun t => t <| ten_admitted ::= Z.succ |>) ;;
    r ← gets (fun s => request_of s rid);
    emit_event "admitted" rid (rec_current_attempt r) invalid_id invalid_id "admitted" ;;
    emit_event "queued" rid (rec_current_attempt r) invalid_id invalid_id "queued" ;;
    mret (Ok (default_admission_output <| ao_decision := AD_Admit |> <| ao_reason_code := reason |>
                <| ao_request_id := rid |> <| ao_attempt_id := rec_current_attempt r |>
                <| ao_generation := rec_generation r |>
                <| ao_explanation := "admitted; queued for scheduling" |>)).

Definition do_submit (sp : RequestSpec) (pre : option Z) : M (Result AdmissionOutput) :=
  match validate_spec sp with
  | Err e => mret (result_err e)
  | Ok _ =>
    rid ← match pre with Some p => mret p | None => next_id end;
    now ← clock_now;
    ad ← gets (fun s => make_admission s sp now);
    match ad.1 with
    | AD_Admit => submit_admitted sp rid now ad.2
    | AD_Defer =>
        modify_stats (fun st => st <| st_requests_submitted ::= Z.succ |>
                                   <| st_requests_deferred ::= Z.succ |>) ;;
        mret (Ok (default_admission_output <| ao_decision := AD_Defer |> <| ao_reason_code := ad.2 |>
                    <| ao_defer_after := 25 |> <| ao_explanation := ad.2 |>))
    | AD_Reject =>
        modify_stats (fun st => st <| st_requests_submitted ::= Z.succ |>
                                   <| st_requests_rejected ::= Z.succ |>) ;;
        gen ← next_id;
        insert_if_absent rid (default_request <| rec_spec := sp |> <| rec_request_id := rid |>
          <| rec_state := RS_Rejected |> <| rec_terminal_reason := ad.2 |>
          <| rec_created_at := now |> <| rec_generation := gen |>) ;;
        emit_event "rejected" rid invalid_id invalid_id invalid_id ad.2 ;;
        mret (Ok (default_admission_output <| ao_decision := AD_Reject |> <| ao_reason_code := ad.2 |>
                    <| ao_explanation := ad.2 |>))
    end
  end.

(** ** Cancellation *)

Definition do_cancel (id : Z) (reason : CancellationReason) (detail : string) : M (Result unit) :=
  o ← gets (fun s => requests s !! id);
  match o with
  | None => mret (fail EC_NotFound "request not found")
  | Some r =>
    if is_terminal (rec_state r) then mret (fail EC_InvalidState "already terminal") else
    modify_rec id (fun r => r <| rec_cancel_reason := reason |>) ;;
    match rec_state r with
    | RS_Reserved =>
        finish_cancelled id (match rec_history r with
                             | [] => invalid_id
                             | h => att_worker (history_back h) end) "cancelled" ;;
        mret (Ok tt)
    | RS_Dispatched | RS_Running =>
        modify_rec id (fun r => r <| rec_cancellation_requested := true |>) ;;
        emit_event "cancel_requested" id (rec_current_attempt r)
          (att_worker (history_back (rec_history r))) (rec_batch_id r) detail ;;
        mret (Ok tt)
    | _ => finish_cancelled id invalid_id "cancelled" ;; mret (Ok tt)
    end
  end.

(** ** Workers *)

(** The report [recover_in_flight] fabricates for an attempt of a worker that
    restarted or left. *)
Definition restart_report (w boot id : Z) (r : RequestRecord) : CompletionReport :=
  default_report <| cr_worker := w |> <| cr_boot_id := boot |> <| cr_request_id := id |>
    <| cr_attempt_id := rec_current_attempt r |> <| cr_generation := rec_generation r |>
    <| cr_status := CS_Failed |> <| cr_failure_class := FC_RetryableWorker |>
    <| cr_error_message := "worker_restart" |>.

Definition recover_one (w boot id : Z) : M unit :=
  o ← gets (fun s => requests s !! id);
  match o with
  | None => mret tt
  | Some r =>
    if is_terminal (rec_state r) then mret tt else
    let rp := restart_report w boot id r in
    modify_tenant (spec_tenant (rec_spec r)) (fun t => t <| ten_running ::= dec_pos |>) ;;
    now ← clock_now;
    c ← gets cfg;
    if can_retry c r now then make_retry id rp else finish_failed id rp
  end.

(** [for (bid, u) in batch_units: total -= u]. *)
Definition sub_units (us : list (Z * Z)) (total : Z) : Z :=
  fold_left (fun t p => i64 (t - p.2)) us total.

Definition recover_in_flight (w : Z) : M unit :=
  o ← gets (fun s => workers s !! w);
  match o with
  | None => mret tt
  | Some wr =>
    foreach (merge_sort Z.le (map_to_list (wr_in_flight wr)).*1)
      (recover_one w (reg_boot_id (wr_registration wr))) ;;
    wr' ← gets (fun s => worker_of s w);
    let us := map_to_list (wr_batch_units wr') in
    modify_worker w (fun x => x
      <| wr_in_flight := ∅ |>
      <| wr_reserved_units ::= fun u => clamp0 (sub_units us u) |>
      <| wr_running_units ::= clamp0 |>
      <| wr_batch_units := ∅ |> <| wr_batch_pending := ∅ |>
      <| wr_batch_members := ∅ |> <| wr_started_batches := ∅ |>) ;;
    modify (fun s => s
      <| global_reserved_units ::= fun u => clamp0 (sub_units us u) |>
      <| global_running_units ::= clamp0 |>)
  end.

(** The four capacity fields a capability announces. *)
Definition apply_capability (cap : WorkerCapability) (res : ResourceSnapshot) : ResourceSnapshot :=
  res <| res_total_capacity_units := cap_total_capacity_units cap |>
      <| res_available_capacity_units := cap_available_capacity_units cap |>
      <| res_memory_bytes_total := cap_memory_bytes_total cap |>
      <| res_memory_bytes_available := cap_memory_bytes_available cap |>.

Definition registered_state (w : WorkerState) : WorkerState :=
  match w with WS_Unknown | WS_Booted => WS_Online | x => x end.

Definition do_register_worker (reg : WorkerRegistration) : M unit :=
  let w := reg_worker reg in
  worker_slot w ;;
  wr ← gets (fun s => worker_of s w);
  when (id_valid (reg_worker (wr_registration wr))
        && negb (reg_boot_id (wr_registration wr) =? reg_boot_id reg))
    (recover_in_flight w) ;;
  modify_worker w (fun wr => wr
    <| wr_registration := reg |>
    <| wr_state := registered_state (reg_state reg) |>
    <| wr_resource ::= apply_capability (reg_capability reg) |>
    <| wr_reserved_units ::= clamp0 |>) ;;
  emit_event "worker_registered" invalid_id invalid_id w invalid_id (cap_backend (reg_capability reg)).

Definition do_update_capability (w : Z) (cap : WorkerCapability) : M (Result unit) :=
  o ← gets (fun s => workers s !! w);
  match o with
  | None => mret (fail EC_NotFound "worker not found")
  | Some _ =>
    modify_worker w (fun wr => wr
      <| wr_registration ::= fun r => r <| reg_capability := cap |> |>
      <| wr_resource ::= apply_capability cap |>) ;;
    emit_event "worker_updated" invalid_id invalid_id w invalid_id "capability" ;;
    mret (Ok tt)
  end.

Definition do_set_worker_state (w : Z) (st : WorkerState) (snap : option ResourceSnapshot)
    : M (Result unit) :=
  o ← gets (fun s => workers s !! w);
  match o with
  | None => mret (fail EC_NotFound "worker not found")
  | Some _ =>
    modify_worker w (fun wr => wr <| wr_state := st |>
                                  <| wr_resource ::= fun x => default x snap |>) ;;
    emit_event "worker_state" invalid_id invalid_id w invalid_id (WorkerState_name st) ;;
    mret (Ok tt)
  end.

Definition do_unregister_worker (w : Z) : M (Result unit) :=
  o ← gets (fun s => workers s !! w);
  match o with
  | None => mret (fail EC_NotFound "worker not found")
  | Some _ =>
    recover_in_flight w ;;
    modify (fun s => s <| workers ::= delete w |>) ;;
    emit_event "worker_unregistered" invalid_id invalid_id w invalid_id "unregistered" ;;
    mret (Ok tt)
  end.

(** ** Drain and epochs *)

Definition do_begin_drain (reason : string) : M (Result unit) :=
  modify (fun s => s <| draining := true |> <| drain_reason := reason |>) ;;
  emit_event "drain_started" invalid_id invalid_id invalid_id invalid_id reason ;;
  mret (Ok tt).

Definition cancel_queued_one (detail : string) (id : Z) : M unit :=
  o ← gets (fun s => requests s !! id);
  match o with
  | None => mret tt
  | Some r =>
    if is_terminal (rec_state r) then mret tt else
    modify_rec id (fun r => r <| rec_cancel_reason := CR_SchedulerDrain |>) ;;
    finish_cancelled id invalid_id
      (if String.eqb detail EmptyString then "scheduler_drain" else detail)
  end.

Definition do_cancel_all_queued (detail : string) : M (Result unit) :=
  q ← gets (fun s => elements (queued s));
  foreach q (cancel_queued_one detail) ;;
  mret (Ok tt).

Definition do_roll_epoch : M unit :=
  modify (fun s => s <| epoch ::= fun e => u64 (e + 1) |>) ;;
  e ← gets epoch;
  emit_event "epoch_rollover" invalid_id invalid_id invalid_id invalid_id
    ("epoch=" +:+ pretty e).

(** ** The event log *)

Definition drain_events : M (list SchedulerEvent) :=
  l ← gets event_log;
  modify (fun s => s <| event_log := [] |>) ;;
  mret l.

(** [set_event_handler]: [h] tells whether the callable is non-empty. *)
Definition set_event_handler (h : bool) : M unit :=
  modify (fun s => s <| has_handler := h |> <| event_stream_mode := h |>).

(** [flush_events]: the events handed to the handler. *)
Definition flush_events : M (list SchedulerEvent) :=
  stream ← gets event_stream_mode;
  if negb stream then mret [] else
  h ← gets has_handler;
  l ← gets event_log;
  modify (fun s => s <| event_log := [] |>) ;;
  mret (if h : bool then l else []).

(** ** Read-only views *)

Definition worker_view (wr : WorkerRecord) : WorkerSnapshot := {|
  wsn_worker := reg_worker (wr_registration wr); wsn_node := reg_node (wr_registration wr);
  wsn_boot_id := reg_boot_id (wr_registration wr); wsn_state := wr_state wr;
  wsn_backend := cap_backend (reg_capability (wr_registration wr));
  wsn_device_name := cap_device_name (reg_capability (wr_registration wr));
  wsn_total_capacity_units := cap_total_capacity_units (reg_capability (wr_registration wr));
  wsn_available_capacity_units := res_available_capacity_units (wr_resource wr);
  wsn_reserved_units := i32 (wr_reserved_units wr); wsn_running := i32 (wr_running_units wr);
  wsn_memory_bytes_total := res_memory_bytes_total (wr_resource wr);
  wsn_memory_bytes_available := res_memory_bytes_available (wr_resource wr)
|}.

Definition do_worker_snapshot (s : Impl) (w : Z) : Result WorkerSnapshot :=
  match workers s !! w with
  | None => fail EC_NotFound "worker not found"
  | Some wr => Ok (worker_view wr)
  end.

Definition request_view (id : Z) (r : RequestRecord) : RequestSnapshot := {|
  rsn_request_id := id; rsn_tenant := spec_tenant (rec_spec r);
  rsn_state := rec_state r; rsn_phase := spec_phase (rec_spec r);
  rsn_latency_class := spec_latency_class (rec_spec r); rsn_priority := spec_priority (rec_spec r);
  rsn_model := spec_model (rec_spec r); rsn_revision := spec_revision (rec_spec r);
  rsn_attempt_id := rec_current_attempt r; rsn_generation := rec_generation r;
  rsn_worker_id := match rec_history r with [] => invalid_id | h => att_worker (history_back h) end;
  rsn_deadline := spec_deadline (rec_spec r); rsn_queue_delay_ms := rec_queue_delay_ms r
|}.

Definition do_request_snapshot (s : Impl) (id : Z) : Result RequestSnapshot :=
  match requests s !! id with
  | None => fail EC_NotFound "request not found"
  | Some r => Ok (request_view (rec_request_id r) r)
  end.

Definition do_request_spec (s : Impl) (id : Z) : Result RequestSpec :=
  match requests s !! id with
  | None => fail EC_NotFound "request not found"
  | Some r => Ok (rec_spec r)
  end.

Definition in_reserved (r : RequestRecord) : bool :=
  match rec_state r with RS_Reserved | RS_Dispatched => true | _ => false end.
Definition in_running (r : RequestRecord) : bool :=
  match rec_state r with RS_Running => true | _ => false end.

Definition count_requests (f : RequestRecord -> bool) (s : Impl) : Z :=
  Z.of_nat (length (List.filter (fun p => f p.2) (map_to_list (requests s)))).

Definition do_stats (s : Impl) : SchedulerStats :=
  (stats s) <| st_current_admitted := i32 (global_admitted s) |>
    <| st_current_queued := i32 (global_queued s) |>
    <| st_current_reserved := i32 (count_requests in_reserved s) |>
    <| st_current_running := i32 (count_requests in_running s) |>
    <| st_current_capacity_units := i32 (i64 (global_reserved_units s + global_running_units s)) |>
    <| st_current_reserved_units := i32 (global_reserved_units s) |>.

(** The same for a caller that already holds the mutex. *)
Definition do_stats_locked (s : Impl) : SchedulerStats :=
  (stats s) <| st_current_admitted := i32 (global_admitted s) |>
    <| st_current_queued := i32 (global_queued s) |>
    <| st_current_reserved := i32 (count_requests in_reserved s) |>
    <| st_current_running := i32 (count_requests in_running s) |>
    <| st_current_capacity_units := i32 (i64 (global_reserved_units s + global_running_units s)) |>
    <| st_current_reserved_units := i32 (global_reserved_units s) |>.

Definition tenant_view (p : Z * TenantRecord) : TenantSnapshot := {|
  tsn_tenant := p.1; tsn_weight := ten_weight p.2; tsn_virtual_time := fzero;
  tsn_queued := ten_queued p.2; tsn_admitted := ten_admitted p.2;
  tsn_services_consumed := ten_services_consumed p.2; tsn_service_debt := ten_service_debt p.2
|}.

(** The ids of the requests that are not terminal, in increasing order. *)
Definition live_ids (s : Impl) : list Z :=
  merge_sort Z.le (List.filter (fun p => negb (is_terminal (rec_state p.2)))
                    (map_to_list (requests s))).*1.

Definition do_snapshot : M SchedulerSnapshot :=
  t ← clock_now;
  gets (fun s => {|
    ssn_epoch := epoch s; ssn_generated_ns := t; ssn_stats := do_stats_locked s;
    ssn_tenants := tenant_view <$> map_to_list (tenants s);
    ssn_workers := (fun p => worker_view p.2) <$> map_to_list (workers s);
    ssn_requests := (fun id => request_view id (request_of s id)) <$> live_ids s
  |}).

Definition do_queued_count (s : Impl) : Z := if global_queued s <? 0 then 0 else global_queued s.
Definition do_reserved_count (s : Impl) : Z := count_requests in_reserved s.

Definition do_available_capacity (s : Impl) : Z :=
  let total := fold_left (fun acc p => i64 (acc + avail_units p.2)) (map_to_list (workers s)) 0 in
  i32 (if total <? 0 then 0 else total).

Definition do_explain (id : Z) : M ExplainResult :=
  ep ← gets epoch;
  let ex := default_explain <| ex_epoch := ep |> in
  o ← gets (fun s => requests s !! id);
  match o with
  | None => mret (ex <| ex_notes := ["unknown request"%string] |>)
  | Some r =>
    let ex := ex <| ex_request_id := id |> <| ex_attempt_id := rec_current_attempt r |> in
    now ← clock_now;
    if is_terminal (rec_state r) then
      mret (ex <| ex_admission := if bool_decide (rec_state r = RS_Rejected) then AD_Reject else AD_Admit |>
               <| ex_admission_reason_code := "terminal:" +:+ RequestState_name (rec_state r) |>
               <| ex_notes := [("request is terminal: " +:+ RequestState_name (rec_state r))%string] |>)
    else
      gets (fun s =>
        let sp := rec_spec r in
        let adm := make_admission s sp now in
        let flow_factors := match flows s !! flow_key sp with
          | None => []
          | Some f => ["flow_weight=" +:+ env_f64_string (fl_weight f);
                       "virtual_finish=" +:+ env_f64_string (fl_virtual_finish f)]
          end in
        let slack := if dl_valid (spec_deadline sp) then remaining (spec_deadline sp) now else -1 in
        let cost := fmax fone (rd_cost_units (spec_demand sp)) in
        let sel := select_worker s [id] cost now in
        ex <| ex_admission := adm.1 |> <| ex_admission_reason_code := adm.2 |>
           <| ex_admitted := bool_decide (adm.1 = AD_Admit) |>
           <| ex_admission_explanation := adm.2 |>
           <| ex_ordering_factors := flow_factors ++
               ["deadline_slack_ms=" +:+ pretty slack;
                "latency_class=" +:+ LatencyClass_name (spec_latency_class sp);
                "priority=" +:+ PriorityClass_name (spec_priority sp);
                "phase=" +:+ RequestPhase_name (spec_phase sp);
                "kept_at_deadline=1"%string] |>
           <| ex_candidates := (fun p => score_worker (cfg s) p.2 sp cost now) <$> map_to_list (workers s) |>
           <| ex_selected_worker := sel.1 |>
           <| ex_notes := (fun _ => ("selected worker " +:+ pretty sel.1)%string)
                 <$> List.filter (fun sc => (ws_worker sc =? sel.1) && ws_eligible sc) sel.2 |>)
  end.

End Control.
