(* ===== verification/Frames.v ===== *)
(** * What the methods leave alone

    Frame lemmas: which part of the scheduler's state each internal method can
    change.  [same_index] relates states with the same requests and the same
    queueing index, [same_queue] states with the same index only, [same_req]
    states with the same requests. *)

From S2P Require Import Prelude Enums Ids Float64 Types State Admission Queue Batch Dispatch Completion Control.
Open Scope Z_scope.

(** The [queued] counter of a tenant, zero for an unknown tenant. *)
Definition tenant_queued (s : Impl) (t : Z) : Z :=
  from_option ten_queued 0 (tenants s !! t).

Record same_index (s s' : Impl) : Prop := {
  si_cfg : cfg s' = cfg s;
  si_requests : requests s' = requests s;
  si_queued : queued s' = queued s;
  si_global_queued : global_queued s' = global_queued s;
  si_compat : compat s' = compat s;
  si_flows : flows s' = flows s;
  si_active : active_flows s' = active_flows s;
  si_tenants : forall t, tenant_queued s' t = tenant_queued s t
}.

(** The index without the requests. *)
Record same_queue (s s' : Impl) : Prop := {
  sq_cfg : cfg s' = cfg s;
  sq_queued : queued s' = queued s;
  sq_global_queued : global_queued s' = global_queued s;
  sq_compat : compat s' = compat s;
  sq_pending : forall k, fl_pending (flow_of s' k) = fl_pending (flow_of s k);
  sq_active : active_flows s' = active_flows s;
  sq_tenants : forall t, tenant_queued s' t = tenant_queued s t
}.

#[export] Instance same_index_preorder : PreOrder same_index.
Proof.
  split.
  - intros s. by constructor.
  - intros s1 s2 s3 [] []. constructor; [congruence..|]. intros t. congruence.
Qed.

#[export] Instance same_queue_preorder : PreOrder same_queue.
Proof.
  split.
  - intros s. by constructor.
  - intros s1 s2 s3 [] []. constructor; congruence.
Qed.

Lemma same_index_queue s s' : same_index s s' -> same_queue s s'.
Proof. intros []. constructor; try done. intros k. unfold flow_of. congruence. Qed.

Lemma steps_same_queue {A} s (m : M A) : steps same_index s m -> steps same_queue s m.
Proof. apply same_index_queue. Qed.

#[export] Hint Extern 2 (steps same_queue _ _) =>
  (apply steps_same_queue; solve [auto 2 with frame nocore]) : frame.

(** Tenant updates that keep the [queued] counter. *)
Lemma same_index_alter_tenant s t f :
  (forall x, ten_queued (f x) = ten_queued x) ->
  same_index s (s <| tenants ::= alter f t |>).
Proof.
  intros Hf. constructor; try done. intros t'. unfold tenant_queued. simpl.
  rewrite lookup_alter. case_decide; [|done]. subst. destruct (tenants s !! t'); simpl; auto.
Qed.

Lemma tenant_of_same_index t s : steps same_index s (tenant_of t).
Proof.
  apply steps_modify. destruct (tenants s !! t) eqn:E; [done|].
  constructor; try done. intros t'. unfold tenant_queued. simpl.
  rewrite lookup_insert. case_decide; [|done]. subst. by rewrite E.
Qed.

Ltac frame_base :=
  first [ by constructor | apply same_index_alter_tenant; intros; reflexivity | reflexivity ].

Section Frames.
  Context `{Env}.

Lemma clock_now_same_index s : steps same_index s clock_now.
Proof. unfold clock_now. mwalk frame_base. Qed.
Lemma next_id_same_index s : steps same_index s next_id.
Proof. unfold next_id. mwalk frame_base. Qed.
Lemma modify_stats_same_index f s : steps same_index s (modify_stats f).
Proof. unfold modify_stats. mwalk frame_base. Qed.
Lemma modify_worker_same_index w f s : steps same_index s (modify_worker w f).
Proof. unfold modify_worker. mwalk frame_base. Qed.
#[local] Hint Resolve clock_now_same_index next_id_same_index modify_stats_same_index
  modify_worker_same_index tenant_of_same_index : frame.

Lemma emit_event_same_index ty r a w b d s : steps same_index s (emit_event ty r a w b d).
Proof. unfold emit_event. mwalk frame_base. Qed.
Lemma release_admitted_same_index t s : steps same_index s (release_admitted t).
Proof. unfold release_admitted, modify_tenant. mwalk frame_base. Qed.
Lemma release_running_same_index t s : steps same_index s (release_running t).
Proof. unfold release_running, modify_tenant. mwalk frame_base. Qed.
Lemma release_batch_same_index w b s : steps same_index s (release_batch w b).
Proof. unfold release_batch. mwalk frame_base. Qed.
Lemma start_batch_same_index w b s : steps same_index s (start_batch w b).
Proof. unfold start_batch. mwalk frame_base. Qed.

End Frames.

#[export] Hint Resolve clock_now_same_index next_id_same_index modify_stats_same_index
  modify_worker_same_index tenant_of_same_index emit_event_same_index
  release_admitted_same_index release_running_same_index release_batch_same_index
  start_batch_same_index : frame.

(** ** Methods that leave the requests alone *)

Definition same_req : relation Impl := same (fun s => (cfg s, requests s)).

#[export] Instance same_req_preorder : PreOrder same_req.
Proof. apply same_preorder. Qed.

Ltac same_base := unfold same_req, same; by simpl.

Lemma same_index_req s s' : same_index s s' -> same_req s s'.
Proof. intros []. unfold same_req, same. congruence. Qed.

Lemma steps_same_req {A} s (m : M A) : steps same_index s m -> steps same_req s m.
Proof. apply same_index_req. Qed.

#[export] Hint Extern 2 (steps same_req _ _) =>
  (apply steps_same_req; solve [auto 2 with frame nocore]) : frame.

Section SameReq.
  Context `{Env}.

Lemma put_flow_same_req k f s : steps same_req s (put_flow k f).
Proof. unfold put_flow. mwalk same_base. Qed.
Lemma dequeue_same_req id s : steps same_req s (dequeue_request id).
Proof.
  unfold dequeue_request, modify_tenant. mwalk same_base. by destruct (bool_decide _).
Qed.
Lemma account_flow_same_req sp c s : steps same_req s (account_flow sp c).
Proof. unfold account_flow, put_flow. mwalk same_base. Qed.

End SameReq.

#[export] Hint Resolve put_flow_same_req dequeue_same_req account_flow_same_req : frame.

(** ** Methods that leave the queueing index alone *)

Ltac queue_base :=
  first [ by constructor | apply same_index_queue; frame_base | reflexivity ].

Section SameQueue.
  Context `{Env}.

Lemma modify_rec_same_queue id f s : steps same_queue s (modify_rec id f).
Proof. unfold modify_rec. mwalk queue_base. Qed.
#[local] Hint Resolve modify_rec_same_queue : frame.

Lemma release_batch_member_same_queue id w s :
  steps same_queue s (release_batch_member id w).
Proof. unfold release_batch_member. mwalk queue_base. Qed.
#[local] Hint Resolve release_batch_member_same_queue : frame.

Lemma account_flow_same_queue sp c s : steps same_queue s (account_flow sp c).
Proof.
  unfold account_flow, put_flow. apply steps_gets_bind.
  apply steps_bind; [exact _ | apply steps_modify | mwalk queue_base].
  constructor; try done. intros k. unfold flow_of. simpl. rewrite lookup_insert.
  case_decide; by subst.
Qed.

Lemma finish_success_same_queue id rp s : steps same_queue s (finish_success id rp).
Proof. unfold finish_success. mwalk queue_base. Qed.
Lemma finish_failed_same_queue id rp s : steps same_queue s (finish_failed id rp).
Proof. unfold finish_failed. mwalk queue_base. Qed.
Lemma complete_expired_same_queue id rp s : steps same_queue s (complete_expired id rp).
Proof. unfold complete_expired. mwalk queue_base. Qed.

End SameQueue.

#[export] Hint Resolve modify_rec_same_queue account_flow_same_queue release_batch_member_same_queue
  finish_success_same_queue finish_failed_same_queue complete_expired_same_queue : frame.
