(* ===== verification/Lifecycle.v ===== *)
(** * What each method does to a request

    The effect of the internal methods on [requests_], as an explicit update
    of the one record they work on. *)

From S2P Require Import Prelude Enums Ids Float64 Types State Admission Queue Batch Dispatch Completion Control Frames.
Open Scope Z_scope.

(** ** Updates of a record *)

Definition clear_batch (r : RequestRecord) : RequestRecord :=
  r <| rec_in_batch := false |> <| rec_batch_id := invalid_id |>.
Definition clear_if (b : bool) (r : RequestRecord) : RequestRecord :=
  if b then clear_batch r else r.

Definition set_queued (t : Z) (r : RequestRecord) : RequestRecord :=
  r <| rec_state := RS_Queued |> <| rec_queued_at := t |>.

Definition set_expired (r : RequestRecord) : RequestRecord :=
  r <| rec_state := RS_Expired |> <| rec_terminal_reason := "deadline_expired" |>
    <| rec_history ::= alter_back (fun a => a <| att_state := AS_Expired |>) |>.

Definition set_reserved (bid now : Z) (r : RequestRecord) : RequestRecord :=
  r <| rec_state := RS_Reserved |> <| rec_reserved_at := now |>
    <| rec_in_batch := true |> <| rec_batch_id := bid |>
    <| rec_history ::= alter_back (fun a => a <| att_state := AS_Reserved |>) |>.

Definition set_completed (rp : CompletionReport) (now : Z) (b : bool) (r : RequestRecord)
    : RequestRecord :=
  clear_if b (r <| rec_completed_at := now |>
    <| rec_history ::= alter_back (fun a => a
         <| att_state := AS_Succeeded |> <| att_final_status := CS_Succeeded |>
         <| att_output_tokens := cr_output_tokens_produced rp |>
         <| att_work_units := cr_work_units rp |> <| att_duration_us := cr_duration_us rp |>) |>
    <| rec_state := RS_Completed |> <| rec_terminal_reason := EmptyString |>).

Definition set_failed (rp : CompletionReport) (b : bool) (r : RequestRecord) : RequestRecord :=
  (clear_if b (r <| rec_history ::= alter_back (fail_attempt rp) |>))
    <| rec_state := RS_Failed |>
    <| rec_terminal_reason := FailureClass_name (cr_failure_class rp) |>.

Definition set_late (b : bool) (r : RequestRecord) : RequestRecord :=
  (clear_if b (r <| rec_history ::= alter_back (fun a => a <| att_state := AS_Expired |>) |>))
    <| rec_state := RS_Expired |> <| rec_terminal_reason := "deadline_expired" |>.

Definition set_cancelled (reason : string) (b : bool) (r : RequestRecord) : RequestRecord :=
  (clear_if b r)
    <| rec_cancellation_committed := true |> <| rec_state := RS_Cancelled |>
    <| rec_terminal_reason := reason |>
    <| rec_history ::= alter_back (fun a => a <| att_state := AS_Cancelled |>
                                              <| att_final_status := CS_Cancelled |>) |>.

(** The record a retry puts back in the queue. *)
Definition pre_retry (rp : CompletionReport) (b : bool) (gen att t t2 : Z) (r : RequestRecord)
    : RequestRecord :=
  (clear_if b (r <| rec_history ::= alter_back (fail_attempt rp) |>))
    <| rec_generation := gen |> <| rec_current_attempt := att |>
    <| rec_history ::= fun h => h ++ [default_attempt <| att_attempt_id := att |>
          <| att_generation := gen |> <| att_state := AS_Created |> <| att_created_at := t |>] |>
    <| rec_state := RS_Queued |> <| rec_queued_at := t2 |>
    <| rec_in_batch := false |> <| rec_batch_id := invalid_id |>.

Definition set_retry (rp : CompletionReport) (b : bool) (gen att t t2 t3 : Z) (r : RequestRecord)
    : RequestRecord := set_queued t3 (pre_retry rp b gen att t t2 r).

Definition set_running (w bid now : Z) (r : RequestRecord) : RequestRecord :=
  r <| rec_state := RS_Running |> <| rec_started_at := now |>
    <| rec_schedule_delay_ms := ms_between (rec_queued_at r) now |>
    <| rec_history ::= alter_back (fun a => a <| att_state := AS_Running |> <| att_worker := w |>
                                              <| att_batch := bid |>) |>.

(** ** The methods, on the table of requests *)

Lemma alter_Some {A} (f : A -> A) (m : gmap Z A) i x :
  m !! i = Some x -> alter f i m = <[i := f x]> m.
Proof.
  intros Hx. apply map_eq. intros j. rewrite lookup_insert. case_decide.
  - subst. by rewrite lookup_alter_eq, Hx.
  - by rewrite lookup_alter_ne.
Qed.

Lemma alter_twice {A} (f g : A -> A) (m : gmap Z A) i :
  alter f i (alter g i m) = alter (fun x => f (g x)) i m.
Proof.
  apply map_eq. intros j. destruct (decide (i = j)) as [<-|].
  - rewrite !lookup_alter_eq. by destruct (m !! i).
  - by rewrite !lookup_alter_ne.
Qed.

Lemma alter_ext_all {A} (f g : A -> A) (m : gmap Z A) i :
  (forall x, f x = g x) -> alter f i m = alter g i m.
Proof. intros Hfg. apply alter_ext. auto. Qed.

Lemma req_eq {A} s (m : M A) : steps same_req s m -> requests (exec m s) = requests s.
Proof. by intros [=]. Qed.

Lemma cfg_eq {A} s (m : M A) : steps same_req s m -> cfg (exec m s) = cfg s.
Proof. by intros [=]. Qed.

Lemma modify_rec_requests id f s :
  requests (exec (modify_rec id f) s) = alter f id (requests s).
Proof. done. Qed.

(** Compute [requests (exec m s)]: split [m] into its parts, drop those that
    leave the requests alone. *)
Ltac req_step :=
  match goal with
  | |- context [exec (_ ≫= _) _] => rewrite exec_bind; cbv beta
  | |- context [exec (gets _) _] => rewrite exec_gets
  | |- context [result (gets _) _] => rewrite result_gets
  | |- context [exec (mret _) _] => rewrite exec_ret
  | |- context [requests (exec (modify_rec ?id ?f) ?s)] => rewrite (modify_rec_requests id f s)
  | |- context [requests (exec (when ?b ?m) ?s)] =>
      rewrite (req_eq s (when b m)) by solve [mwalk same_base]
  | |- context [requests (exec (modify ?f) ?s)] =>
      rewrite (req_eq s (modify f)) by solve [mwalk same_base]
  | |- context [requests (exec (if ?b then ?m1 else ?m2) ?s)] =>
      rewrite (req_eq s (if b then m1 else m2)) by solve [mwalk same_base]
  | |- context [requests (exec ?m ?s)] => rewrite (req_eq s m) by solve [auto 3 with frame nocore]
  end.

Ltac reqs := repeat req_step; rewrite ?alter_twice.

Section Effects.
  Context `{Env}.

Lemma modify_tenant_same_req t f s : steps same_req s (modify_tenant t f).
Proof. unfold modify_tenant. mwalk same_base. Qed.
Lemma modify_worker_same_req w f s : steps same_req s (modify_worker w f).
Proof. unfold modify_worker. mwalk same_base. Qed.
#[local] Hint Resolve modify_tenant_same_req modify_worker_same_req : frame.

Lemma expire_requests id s r :
  requests s !! id = Some r ->
  requests (exec (expire_request id) s) =
    if bool_decide (rec_state r = RS_Queued) then <[id := set_expired r]> (requests s)
    else requests s.
Proof.
  intros Hr. unfold expire_request. reqs. unfold request_of. rewrite Hr. simpl.
  destruct (bool_decide _) eqn:E; simpl; [|done].
  reqs. by apply alter_Some.
Qed.

Lemma reserve_member_requests w bid now id s :
  requests (exec (reserve_member w bid now id) s) = alter (set_reserved bid now) id (requests s).
Proof. unfold reserve_member. reqs. done. Qed.

Lemma release_batch_member_requests id w s :
  exists b, requests (exec (release_batch_member id w) s) = alter (clear_if b) id (requests s).
Proof.
  unfold release_batch_member. reqs. destruct (workers s !! w) eqn:E.
  - exists true. reqs. done.
  - exists false. reqs. simpl. symmetry. by apply alter_id.
Qed.

Lemma enqueue_requests id s :
  exists t, requests (exec (enqueue_request id) s) = alter (set_queued t) id (requests s).
Proof.
  eexists. unfold enqueue_request. reqs.
  reflexivity.
Qed.

Lemma finish_success_requests id rp s :
  exists b t, requests (exec (finish_success id rp) s) = alter (set_completed rp t b) id (requests s).
Proof.
  unfold finish_success. reqs.
  edestruct release_batch_member_requests as [b ->]. reqs.
  exists b. eexists. by apply alter_ext_all.
Qed.

Lemma finish_failed_requests id rp s :
  exists b, requests (exec (finish_failed id rp) s) = alter (set_failed rp b) id (requests s).
Proof.
  unfold finish_failed. reqs.
  edestruct release_batch_member_requests as [b ->]. reqs.
  exists b. by apply alter_ext_all.
Qed.

Lemma complete_expired_requests id rp s :
  exists b, requests (exec (complete_expired id rp) s) = alter (set_late b) id (requests s).
Proof.
  unfold complete_expired. reqs.
  edestruct release_batch_member_requests as [b ->]. reqs.
  exists b. by apply alter_ext_all.
Qed.

Lemma finish_cancelled_requests id w reason s r :
  requests s !! id = Some r ->
  exists b, requests (exec (finish_cancelled id w reason) s) =
    if is_terminal (rec_state r) then requests s
    else <[id := set_cancelled reason b r]> (requests s).
Proof.
  intros Hr. unfold finish_cancelled. reqs. unfold request_of. rewrite Hr. simpl.
  destruct (is_terminal _); [by exists true|]. reqs.
  destruct (occupies_worker _); simpl.
  - reqs. edestruct release_batch_member_requests as [b ->]. reqs.
    exists b. erewrite alter_Some by done. done.
  - reqs. exists false. erewrite alter_Some by done. done.
Qed.

Lemma make_retry_requests id rp s :
  exists b gen att t t2 t3,
    requests (exec (make_retry id rp) s) = alter (set_retry rp b gen att t t2 t3) id (requests s).
Proof.
  unfold make_retry. reqs.
  edestruct enqueue_requests as [t3 ->]. reqs.
  edestruct release_batch_member_requests as [b ->]. reqs.
  repeat match goal with |- context [result ?m ?s] => generalize (result m s); intros ? end.
  by eexists b, _, _, _, _, t3.
Qed.

End Effects.

#[export] Hint Resolve modify_tenant_same_req modify_worker_same_req : frame.
