(* ===== verification/Index.v ===== *)
(** * The queueing index

    [QInv] says that the structures [enqueue_request] and [dequeue_request]
    maintain agree with the states of the requests: the set [queued_], the
    counter [global_queued_], the batching index [compat_], the ready entries
    of the flows and the tenants' counters.  The micro-steps of this file are
    the three ways a request's record changes: it leaves the queue, it enters
    it, or it changes outside of it. *)

From S2P Require Import Prelude Enums Ids Float64 Types State Admission Queue Batch Dispatch Completion Control Frames Lifecycle.
Open Scope Z_scope.

Definition is_queued (r : RequestRecord) : bool := bool_decide (rec_state r = RS_Queued).
Definition of_tenant (t : Z) (r : RequestRecord) : bool := spec_tenant (rec_spec r) =? t.
Definition queued_of (t : Z) (r : RequestRecord) : bool := is_queued r && of_tenant t r.

(** A ready entry of the request's flow that [pick_seed] will accept. *)
Definition has_entry (s : Impl) (id : Z) (r : RequestRecord) : Prop :=
  exists e, e ∈ fl_pending (flow_of s (flow_key (rec_spec r))) /\
            re_id e = id /\ re_generation e = rec_generation r.

Record QInv (s : Impl) : Prop := {
  q_key : forall id r, requests s !! id = Some r -> rec_request_id r = id;
  q_queued : forall id, id ∈ queued s <->
    exists r, requests s !! id = Some r /\ rec_state r = RS_Queued;
  q_count : global_queued s = mcount is_queued (requests s);
  q_compat : forall k id, id ∈ default ∅ (compat s !! k) <->
    exists r, requests s !! id = Some r /\ rec_state r = RS_Queued
              /\ compat_key (cfg s) (rec_spec r) = k;
  q_entry : forall id r, requests s !! id = Some r -> rec_state r = RS_Queued ->
    has_entry s id r;
  q_active : forall k, fl_pending (flow_of s k) <> [] -> k ∈ active_flows s;
  q_tenant : forall t, 0 <= tenant_queued s t <= mcount (queued_of t) (requests s)
}.

(** ** The two queue operations, on the index *)

Record dequeued (id : Z) (r : RequestRecord) (s s' : Impl) : Prop := {
  dq_cfg : cfg s' = cfg s;
  dq_queued : queued s' = queued s ∖ {[id]};
  dq_global : global_queued s' = if bool_decide (id ∈ queued s) then global_queued s - 1
                                 else global_queued s;
  dq_compat : compat s' = compat_erase (compat_key (cfg s) (rec_spec r)) id (compat s);
  dq_pending : forall k, fl_pending (flow_of s' k) = fl_pending (flow_of s k);
  dq_active : active_flows s' = active_flows s;
  dq_tenant : forall t, tenant_queued s' t =
    if of_tenant t r then dec_pos (tenant_queued s t) else tenant_queued s t
}.

Record enqueued (id : Z) (r : RequestRecord) (s s' : Impl) : Prop := {
  eq_cfg : cfg s' = cfg s;
  eq_queued : queued s' = {[id]} ∪ queued s;
  eq_global : global_queued s' = global_queued s + 1;
  eq_compat : compat s' = compat_insert (compat_key (cfg s) (rec_spec r)) id (compat s);
  eq_pending : exists e, re_id e = id /\ re_generation e = rec_generation r /\ forall k,
    fl_pending (flow_of s' k) =
      if bool_decide (k = flow_key (rec_spec r)) then pq_push e (fl_pending (flow_of s k))
      else fl_pending (flow_of s k);
  eq_active : active_flows s' =
    if bool_decide (fl_pending (flow_of s (flow_key (rec_spec r))) = [])
    then {[flow_key (rec_spec r)]} ∪ active_flows s else active_flows s;
  eq_tenant : forall t, tenant_queued s' t =
    if of_tenant t r then tenant_queued s t + 1 else tenant_queued s t
}.

#[export] Instance absorbs_dequeued id r : Absorbs same_queue (dequeued id r).
Proof.
  split.
  - intros s s1 s2 [E1 E2 E3 E4 P E5 T] [? ? D ? P' ? T']. constructor; intros;
      rewrite ?D, ?P', ?P, ?T', ?T, ?E2, ?E3; congruence.
  - intros s s1 s2 [? ? ? ? P ? T] [? ? ? ? P' ? T'].
    constructor; intros; rewrite ?P', ?P, ?T', ?T; congruence.
Qed.

#[export] Instance absorbs_enqueued id r : Absorbs same_queue (enqueued id r).
Proof.
  split.
  - intros s s1 s2 [E1 E2 E3 E4 P E5 T] [? ? D ? (e & ? & ? & P') A T'].
    constructor; intros; rewrite ?A, ?T', ?T, ?E2, ?E5, ?P; try congruence.
    exists e. repeat split; try done. intros k. by rewrite P', P.
  - intros s s1 s2 [? ? ? ? (e & ? & ? & P) ? T] [? ? ? ? P' ? T'].
    constructor; intros; rewrite ?T', ?T; try congruence.
    exists e. repeat split; try done. intros k. by rewrite P', P.
Qed.

Lemma elem_of_pq_push e q x : x ∈ pq_push e q <-> x = e \/ x ∈ q.
Proof.
  induction q as [|y q IH]; simpl; [set_solver|].
  destruct (ready_less y e); rewrite !elem_of_cons, ?IH; tauto.
Qed.

Lemma tenant_queued_alter s t f t' :
  tenant_queued (s <| tenants ::= alter f t |>) t' =
    if bool_decide (t' = t) then from_option (fun x => ten_queued (f x)) 0 (tenants s !! t)
    else tenant_queued s t'.
Proof.
  unfold tenant_queued. simpl. rewrite lookup_alter. case_bool_decide; case_decide; subst; try done.
  by destruct (tenants s !! t).
Qed.

Lemma tenant_of_exists t s : is_Some (tenants (exec (tenant_of t) s) !! t).
Proof.
  unfold tenant_of. rewrite exec_modify. destruct (tenants s !! t) eqn:E; [by rewrite E|].
  simpl. rewrite lookup_insert_eq. eauto.
Qed.

Section Ops.
  Context `{Env}.

Lemma dequeue_dequeued id r s :
  requests s !! id = Some r -> rec_request_id r = id ->
  dequeued id r s (exec (dequeue_request id) s).
Proof.
  intros Hr Hid. unfold dequeue_request. rewrite !exec_bind, !result_gets, !exec_gets.
  unfold request_of. rewrite Hr. simpl default. rewrite Hid.
  unfold modify_tenant. rewrite !exec_modify.
  assert (forall s0, tenant_queued s0 (spec_tenant (rec_spec r)) =
    from_option ten_queued 0 (tenants s0 !! spec_tenant (rec_spec r))) as HT by done.
  constructor; try (by case_bool_decide); simpl.
  - case_bool_decide as Hq; simpl; [done|]. clear -Hq. set_solver.
  - intros t. rewrite tenant_queued_alter. unfold of_tenant, tenant_queued.
    replace (tenants (_ <| compat ::= _ |>)) with (tenants s) by (by case_bool_decide).
    case_bool_decide; subst; [rewrite Z.eqb_refl|].
    + by destruct (tenants s !! _).
    + by destruct (Z.eqb_spec (spec_tenant (rec_spec r)) t).
Qed.

(** The entry goes into the request's flow. *)
Lemma push_entry k w vt e s s1 :
  flows s1 = flows s -> active_flows s1 = active_flows s ->
  let f := (flow_of s k) <| fl_weight := w |> in
  let s2 := exec (if bool_decide (fl_pending f = [])
      then put_flow k (f <| fl_virtual_finish := vt |> <| fl_pending := [e] |>) ;;
           modify (fun s => s <| active_flows ::= fun a => {[k]} ∪ a |>)
      else put_flow k (f <| fl_pending ::= pq_push e |>)) (exec (put_flow k f) s1) in
  (forall k', fl_pending (flow_of s2 k') =
     if bool_decide (k' = k) then pq_push e (fl_pending (flow_of s k'))
     else fl_pending (flow_of s k')) /\
  active_flows s2 = if bool_decide (fl_pending (flow_of s k) = [])
                    then {[k]} ∪ active_flows s else active_flows s.
Proof.
  intros Hf Ha f s2. subst s2. replace (fl_pending f) with (fl_pending (flow_of s k)) by done.
  assert (forall k' f', fl_pending (flow_of ((s1 <| flows ::= <[k := f]> |>) <| flows ::= <[k := f']> |>) k') =
    if bool_decide (k' = k) then fl_pending f' else fl_pending (flow_of s k')) as Hput.
  { intros k' f'. unfold flow_of. simpl. rewrite insert_insert_eq, Hf, lookup_insert.
    case_bool_decide; case_decide; by subst. }
  case_bool_decide as E; (split; [intros k'|by simpl; rewrite Ha]).
  - etrans; [apply (Hput k')|]. case_bool_decide; [|done]. subst. by rewrite E.
  - etrans; [apply (Hput k')|]. case_bool_decide; [|done]. by subst.
Qed.

(** [tenant_of(t).queued += 1]. *)
Lemma tenant_bump t s t' :
  tenant_queued (exec (modify_tenant t (fun x => x <| ten_queued ::= Z.succ |>)) (exec (tenant_of t) s)) t' =
    if t =? t' then tenant_queued s t' + 1 else tenant_queued s t'.
Proof.
  unfold modify_tenant. rewrite exec_modify, tenant_queued_alter.
  pose proof (si_tenants _ _ (tenant_of_same_index t s) t') as E.
  destruct (tenant_of_exists t s) as [x Hx]. unfold tenant_queued in *.
  case_bool_decide; subst.
  - rewrite Z.eqb_refl, Hx in *. simpl in *. lia.
  - by destruct (Z.eqb_spec t t').
Qed.

Lemma enqueue_enqueued id r s :
  requests s !! id = Some r -> rec_request_id r = id ->
  enqueued id r s (exec (enqueue_request id) s).
Proof.
  intros Hr Hid. unfold enqueue_request. rewrite !exec_bind, !result_gets, !exec_gets.
  unfold request_of. rewrite Hr. simpl default. rewrite Hid.
  set (k := flow_key (rec_spec r)).
  set (e := mkReadyEntry _ _ _ _ _).
  set (m := if bool_decide _ then _ else _).
  set (f := (flow_of s k) <| fl_weight := _ |>) in *.
  pose proof (push_entry k (flow_weight (cfg s) (rec_spec r))
    (fmax (fl_virtual_finish f) (virtual_time (exec clock_now (exec (put_flow k f) s)))) e s
    (exec clock_now s) eq_refl eq_refl) as [HP HA].
  cbv zeta in HP, HA. fold f m in HP, HA.
  change (exec (put_flow k f) (exec clock_now s)) with (exec clock_now (exec (put_flow k f) s)) in HP, HA.
  assert (same (fun s => (cfg s, queued s, global_queued s, compat s, tenants s)) s
            (exec m (exec clock_now (exec (put_flow k f) s)))) as HS.
  { subst m. destruct (bool_decide _); reflexivity. }
  revert HP HA HS. generalize (exec m (exec clock_now (exec (put_flow k f) s))).
  intros s3 HP HA [= E1 E2 E3 E4 E5].
  match goal with |- enqueued _ _ _ (exec _ (exec _ ?s4)) => set (s4' := s4) end.
  assert (same_queue s4' (exec (tenant_of (spec_tenant (rec_spec r))) s4')) as [F1 F2 F3 F4 FP F5 FT].
  { apply same_index_queue, tenant_of_same_index. }
  constructor.
  - by etrans; [exact F1|].
  - etrans; [exact F2|]. change (queued s4') with ({[id]} ∪ queued s3). by rewrite E2.
  - etrans; [exact F3|]. change (global_queued s4') with (Z.succ (global_queued s3)). lia.
  - etrans; [exact F4|]. change (compat s4') with
      (compat_insert (compat_key (cfg s) (rec_spec r)) id (compat s3)). by rewrite E4.
  - exists e. repeat split. intros k'. etrans; [exact (FP k')|]. apply HP.
  - by etrans; [exact F5|].
  - intros t. rewrite tenant_bump. replace (tenant_queued s4' t) with (tenant_queued s t); [done|].
    unfold tenant_queued. by rewrite <- E5.
Qed.

End Ops.

(** ** The micro-steps *)

Lemma elem_compat_insert k id m k' id' :
  id' ∈ default ∅ (compat_insert k id m !! k') <->
  (k' = k /\ id' = id) \/ id' ∈ default ∅ (m !! k').
Proof.
  unfold compat_insert. rewrite lookup_insert. case_decide as E; simpl.
  - subst. set_solver.
  - naive_solver.
Qed.

Lemma elem_compat_erase k id m k' id' :
  id' ∈ default ∅ (compat_erase k id m !! k') <->
  ~ (k' = k /\ id' = id) /\ id' ∈ default ∅ (m !! k').
Proof.
  unfold compat_erase. destruct (decide (k = k')) as [<-|Hk].
  - destruct (m !! k) as [ids|] eqn:E; [|rewrite E; set_solver].
    case_bool_decide as Hn.
    + rewrite lookup_delete_eq. simpl. set_solver.
    + rewrite lookup_insert_eq. simpl. set_solver.
  - destruct (m !! k) as [ids|] eqn:E; [|naive_solver].
    case_bool_decide.
    + rewrite lookup_delete_ne by done. naive_solver.
    + rewrite lookup_insert_ne by done. naive_solver.
Qed.

Lemma insert_key (m : gmap Z RequestRecord) id r' id' r :
  (forall id r, m !! id = Some r -> rec_request_id r = id) -> rec_request_id r' = id ->
  <[id := r']> m !! id' = Some r -> rec_request_id r = id'.
Proof. intros K Hid. rewrite lookup_insert. case_decide; [|apply K]. intros [= <-]. congruence. Qed.

Lemma QInv_same s s' :
  QInv s -> same_queue s s' -> requests s' = requests s -> QInv s'.
Proof.
  intros [K Q C I E A T] [E1 E2 E3 E4 EP E5 ET] ER.
  constructor; intros; rewrite ?ER, ?E1, ?E2, ?E3, ?E4, ?ET in *; auto.
  - unfold has_entry. rewrite EP. by apply E.
  - rewrite E5. apply A. by rewrite <- EP.
Qed.

(** The index is left alone, but for a tenant's counter that may lose a unit:
    what [dequeue_request] does for a request that is not queued. *)
Record loose_queue (s s' : Impl) : Prop := {
  lq_cfg : cfg s' = cfg s;
  lq_queued : queued s' = queued s;
  lq_global : global_queued s' = global_queued s;
  lq_compat : forall k id, id ∈ default ∅ (compat s' !! k) <-> id ∈ default ∅ (compat s !! k);
  lq_pending : forall k, fl_pending (flow_of s' k) = fl_pending (flow_of s k);
  lq_active : active_flows s' = active_flows s;
  lq_tenants : forall t, 0 <= tenant_queued s t -> 0 <= tenant_queued s' t <= tenant_queued s t
}.

Lemma same_loose s s' : same_queue s s' -> loose_queue s s'.
Proof.
  intros [? ? ? E ? ? T]. constructor; try done; intros *; [by rewrite E|]. rewrite T. lia.
Qed.

Lemma dec_pos_range x : 0 <= x -> 0 <= dec_pos x <= x.
Proof. unfold dec_pos. destruct (Z.ltb_spec 0 x); lia. Qed.

Lemma dequeued_loose id r s s' :
  QInv s -> requests s !! id = Some r -> rec_state r <> RS_Queued ->
  dequeued id r s s' -> loose_queue s s'.
Proof.
  intros [K Q C I E A T] Hr Hs [E1 E2 E3 E4 EP E5 ET].
  assert (id ∉ queued s) as Hn by (rewrite Q; intros (? & ? & ?); congruence).
  constructor; try done.
  - rewrite E2. clear -Hn. set_solver.
  - rewrite E3. by rewrite bool_decide_eq_false_2.
  - intros k id'. rewrite E4, elem_compat_erase. split; [tauto|]. intros Hc. split; [|done].
    intros [-> ->]. apply I in Hc as (? & ? & ? & ?). congruence.
  - intros t Ht. rewrite ET. destruct (of_tenant t r); [by apply dec_pos_range|lia].
Qed.

Lemma mcount_put P (m : gmap Z RequestRecord) id r' :
  (forall r, m !! id = Some r -> P r = false) ->
  mcount P (<[id := r']> m) = mcount P m + Z.b2z (P r').
Proof.
  intros HP. destruct (m !! id) as [r|] eqn:Er.
  - rewrite (mcount_update _ _ _ r), (HP r) by done. simpl. lia.
  - by apply mcount_insert.
Qed.

Lemma not_queued r : rec_state r <> RS_Queued -> is_queued r = false.
Proof. intros. unfold is_queued. by rewrite bool_decide_eq_false. Qed.

Lemma not_queued_of t r : rec_state r <> RS_Queued -> queued_of t r = false.
Proof. intros. unfold queued_of. by rewrite not_queued. Qed.

(** A request changes, or appears, outside the queue. *)
Lemma QInv_outside id r' s s' :
  QInv s -> loose_queue s s' ->
  (forall r, requests s !! id = Some r -> rec_state r <> RS_Queued) ->
  requests s' = <[id := r']> (requests s) -> rec_request_id r' = id ->
  rec_state r' <> RS_Queued -> QInv s'.
Proof.
  intros [K Q C I E A T] [E1 E2 E3 E4 EP E5 ET] Hr ER Hid Hs'.
  constructor; intros *; rewrite ?ER, ?E1, ?E2, ?E3, ?E4.
  - by apply insert_key.
  - rewrite Q, lookup_insert. clear -Hr Hs'. case_decide; naive_solver.
  - rewrite mcount_put, (not_queued r') by auto using not_queued. simpl. lia.
  - rewrite I, lookup_insert. clear -Hr Hs'. case_decide; naive_solver.
  - rewrite lookup_insert. destruct (decide (id = id0)); [by intros [= <-]|]. unfold has_entry. rewrite EP. apply E.
  - rewrite E5, EP. apply A.
  - rewrite mcount_put, (not_queued_of t r') by auto using not_queued_of. simpl.
    specialize (T t). specialize (ET t). lia.
Qed.

(** A request changes in a part the index does not depend on. *)
Lemma QInv_touch id r r' s s' :
  QInv s -> same_queue s s' -> requests s !! id = Some r ->
  requests s' = <[id := r']> (requests s) ->
  rec_request_id r' = rec_request_id r -> rec_spec r' = rec_spec r ->
  rec_state r' = rec_state r -> rec_generation r' = rec_generation r -> QInv s'.
Proof.
  intros [K Q C I E A T] [E1 E2 E3 E4 EP E5 ET] Hr ER Hid Hsp Hst Hg.
  constructor; intros *; rewrite ?ER, ?E1, ?E2, ?E3, ?E4, ?ET.
  - apply insert_key; [done|]. rewrite Hid. auto.
  - rewrite Q, lookup_insert. clear -Hr Hst. case_decide; [subst|done].
    split; intros (x & Hx & Hq); simplify_eq; [exists r'|exists r]; split; congruence.
  - rewrite (mcount_update _ _ _ r) by done. unfold is_queued at 2 3. rewrite Hst. lia.
  - rewrite I, lookup_insert. clear -Hr Hst Hsp. case_decide; [subst|done].
    split; intros (x & Hx & Hq & Hk); simplify_eq; [exists r'|exists r]; split_and!; congruence.
  - rewrite lookup_insert. unfold has_entry. rewrite EP. destruct (decide (id = id0)) as [<-|]; [|apply E].
    intros [= <-]. rewrite Hst, Hsp, Hg. by apply E.
  - rewrite E5, EP. apply A.
  - rewrite (mcount_update _ _ _ r) by done. unfold queued_of at 2 3, is_queued, of_tenant at 1 2.
    rewrite Hst, Hsp. specialize (T t). lia.
Qed.

(** A request leaves the queue. *)
Lemma QInv_dequeue id r r' s s' :
  QInv s -> dequeued id r s s' -> requests s !! id = Some r ->
  requests s' = <[id := r']> (requests s) -> rec_request_id r' = id ->
  rec_state r = RS_Queued -> rec_state r' <> RS_Queued -> QInv s'.
Proof.
  intros [K Q C I E A T] [E1 E2 E3 E4 EP E5 ET] Hr ER Hid Hs Hs'.
  assert (is_queued r = true /\ is_queued r' = false) as [N N'].
  { unfold is_queued. by rewrite bool_decide_eq_true, bool_decide_eq_false. }
  constructor; intros *; rewrite ?ER, ?E1, ?E2, ?E3, ?E4, ?ET.
  - by apply insert_key.
  - rewrite elem_of_difference, Q, lookup_insert, elem_of_singleton. clear -Hr Hs Hs'. case_decide; naive_solver.
  - rewrite (mcount_update _ _ _ r), N, N' by done. rewrite bool_decide_eq_true_2; [simpl; lia|].
    apply Q. eauto.
  - rewrite elem_compat_erase, I, lookup_insert. clear -Hr Hs Hs'. case_decide; naive_solver.
  - rewrite lookup_insert. destruct (decide (id = id0)); [by intros [= <-]|]. unfold has_entry. rewrite EP. apply E.
  - rewrite E5, EP. apply A.
  - rewrite (mcount_update _ _ _ r) by done. unfold queued_of at 2 3. rewrite N, N'. simpl.
    specialize (T t). unfold dec_pos. pose proof (mcount_pos (queued_of t) _ _ _ Hr) as P.
    unfold queued_of in P at 1. rewrite N in P. simpl in P.
    destruct (of_tenant t r); simpl; [specialize (P eq_refl)|]; destruct (Z.ltb_spec 0 (tenant_queued s t)); lia.
Qed.

(** A request, new or outside the queue, enters it. *)
Lemma QInv_enqueue id r' s s' :
  QInv s -> enqueued id r' s s' ->
  (forall r, requests s !! id = Some r -> rec_state r <> RS_Queued) ->
  requests s' = <[id := r']> (requests s) -> rec_request_id r' = id ->
  rec_state r' = RS_Queued -> QInv s'.
Proof.
  intros [K Q C I E A T] [E1 E2 E3 E4 (e & He & Hg & EP) E5 ET] Hr ER Hid Hs'.
  assert (is_queued r' = true) as N' by (unfold is_queued; by rewrite bool_decide_eq_true).
  constructor; intros *; rewrite ?ER, ?E1, ?E2, ?E3, ?E4, ?ET.
  - by apply insert_key.
  - rewrite elem_of_union, Q, lookup_insert, elem_of_singleton. clear -Hr Hs'. case_decide; naive_solver.
  - rewrite mcount_put, N' by auto using not_queued. simpl. lia.
  - rewrite elem_compat_insert, I, lookup_insert. clear -Hr Hs'. case_decide; naive_solver.
  - rewrite lookup_insert. intros Hl Hq. unfold has_entry. rewrite EP. destruct (decide (id = id0)).
    + simplify_eq. rewrite bool_decide_eq_true_2 by done. exists e. rewrite elem_of_pq_push. auto.
    + destruct (E _ _ Hl Hq) as (e' & ? & ? & ?).
      exists e'. split; [|done]. destruct (bool_decide (_ = flow_key (rec_spec r'))); [|done].
      rewrite elem_of_pq_push. auto.
  - rewrite E5, EP. intros Hk. specialize (A k).
    destruct (decide (k = flow_key (rec_spec r'))) as [->|Hk'].
    + destruct (decide (fl_pending (flow_of s (flow_key (rec_spec r'))) = [])) as [Hp|Hp].
      * rewrite (bool_decide_eq_true_2 _ Hp). clear. set_solver.
      * rewrite (bool_decide_eq_false_2 _ Hp). auto.
    + rewrite bool_decide_eq_false_2 in Hk by done. apply A in Hk.
      destruct (bool_decide _); [clear -Hk; set_solver|done].
  - rewrite mcount_put by auto using not_queued_of. unfold queued_of at 2. rewrite N'. specialize (T t). destruct (of_tenant t r'); simpl; lia.
Qed.

(** ** Cleaning the ready queues *)

(** An entry [pick_seed] throws away. *)
Definition dead_entry (s : Impl) (e : ReadyEntry) : Prop :=
  forall r, requests s !! re_id e = Some r -> rec_state r = RS_Queued ->
    rec_generation r <> re_generation e.

(** The front entry [e] of the flow [k] is popped. *)
Record popped (k : FlowKey) (e : ReadyEntry) (s s' : Impl) : Prop := {
  po_cfg : cfg s' = cfg s;
  po_queued : queued s' = queued s;
  po_global : global_queued s' = global_queued s;
  po_compat : compat s' = compat s;
  po_front : fl_pending (flow_of s k) = e :: fl_pending (flow_of s' k);
  po_pending : forall k', k' <> k -> fl_pending (flow_of s' k') = fl_pending (flow_of s k');
  po_active : active_flows s' = active_flows s;
  po_tenants : forall t, tenant_queued s' t = tenant_queued s t
}.

(** The flow [k] has no entry left and stops being active. *)
Record retired (k : FlowKey) (s s' : Impl) : Prop := {
  rt_cfg : cfg s' = cfg s;
  rt_queued : queued s' = queued s;
  rt_global : global_queued s' = global_queued s;
  rt_compat : compat s' = compat s;
  rt_empty : fl_pending (flow_of s k) = [];
  rt_pending : forall k, fl_pending (flow_of s' k) = fl_pending (flow_of s k);
  rt_active : active_flows s' = active_flows s ∖ {[k]};
  rt_tenants : forall t, tenant_queued s' t = tenant_queued s t
}.

Lemma QInv_pop k e s s' :
  QInv s -> popped k e s s' -> requests s' = requests s -> dead_entry s e -> QInv s'.
Proof.
  intros [K Q C I E A T] [E1 E2 E3 E4 EF EP E5 ET] ER HD.
  constructor; intros *; rewrite ?ER, ?E1, ?E2, ?E3, ?E4, ?ET; auto.
  - intros Hr Hs. destruct (E _ _ Hr Hs) as (e' & He & Hid & Hg). exists e'. split; [|done].
    destruct (decide (flow_key (rec_spec r) = k)) as [Hk|Hk]; [|by rewrite EP].
    rewrite Hk in *. rewrite EF in He. apply elem_of_cons in He as [->|]; [|done].
    subst. by destruct (HD r).
  - rewrite E5. intros Hk. apply A. destruct (decide (k0 = k)) as [->|]; [by rewrite EF|].
    by rewrite <- EP.
Qed.

Lemma QInv_retire k s s' :
  QInv s -> retired k s s' -> requests s' = requests s -> QInv s'.
Proof.
  intros [K Q C I E A T] [E1 E2 E3 E4 EE EP E5 ET] ER.
  constructor; intros *; rewrite ?ER, ?E1, ?E2, ?E3, ?E4, ?ET; auto.
  - unfold has_entry. rewrite EP. apply E.
  - rewrite E5, EP. intros Hk. specialize (A k0 Hk).
    assert (k0 <> k) by (intros ->; contradiction). clear -A H. set_solver.
Qed.
