(* ===== verification/Accounts.v ===== *)
(** * Admission accounting and in-flight attempts

    Frames for the counters of admitted requests ([global_admitted_] and the
    tenants' [admitted]) and for the attempts recorded in the workers'
    [in_flight] maps. *)

From S2P Require Import Prelude Enums Ids Float64 Types State Admission Queue Batch Dispatch Completion Control Frames Lifecycle Index.
Open Scope Z_scope.

Definition tenant_admitted (s : Impl) (t : Z) : Z :=
  from_option ten_admitted 0 (tenants s !! t).

(** The worker [w] runs an attempt of the request [id]. *)
Definition flight (s : Impl) (w id : Z) : Prop :=
  exists wr, workers s !! w = Some wr /\ is_Some (wr_in_flight wr !! id).

(** The counters stay; no attempt goes in flight. *)
Record acct (s s' : Impl) : Prop := {
  ac_global : global_admitted s' = global_admitted s;
  ac_tenant : forall t, tenant_admitted s' t = tenant_admitted s t;
  ac_flight : forall w id, flight s' w id -> flight s w id
}.

#[export] Instance acct_preorder : PreOrder acct.
Proof.
  split.
  - intros s. by constructor.
  - intros s1 s2 s3 [] []. constructor; try congruence. auto.
Qed.

(** One admitted request of the tenant [t] is given back. *)
Record released (t : Z) (s s' : Impl) : Prop := {
  rl_global : global_admitted s' = dec_pos (global_admitted s);
  rl_tenant : forall t', tenant_admitted s' t' =
    if t =? t' then dec_pos (tenant_admitted s t') else tenant_admitted s t';
  rl_flight : forall w id, flight s' w id -> flight s w id
}.

#[export] Instance absorbs_released t : Absorbs acct (released t).
Proof.
  split.
  - intros s s1 s2 [E1 E2 E3] [F1 F2 F3]. constructor; intros; rewrite ?F1, ?F2, ?E1, ?E2; auto.
  - intros s s1 s2 [F1 F2 F3] [E1 E2 E3]. constructor; intros; rewrite ?E1, ?E2, ?F1, ?F2; auto.
Qed.

Lemma acct_alter_tenant s t f :
  (forall x, ten_admitted (f x) = ten_admitted x) -> acct s (s <| tenants ::= alter f t |>).
Proof.
  intros Hf. constructor; try done. intros t'. unfold tenant_admitted. simpl.
  rewrite lookup_alter. case_decide; [|done]. subst. destruct (tenants s !! t'); simpl; auto.
Qed.

Lemma acct_alter_worker s w f :
  (forall x id, is_Some (wr_in_flight (f x) !! id) -> is_Some (wr_in_flight x !! id)) ->
  acct s (s <| workers ::= alter f w |>).
Proof.
  intros Hf. constructor; try done. intros w' id (wr & Hw & Hi). simpl in Hw.
  rewrite lookup_alter in Hw. case_decide; subst; [|by exists wr].
  destruct (workers s !! w') as [x|] eqn:E; simplify_eq/=. exists x. eauto.
Qed.

Lemma is_Some_delete (m : gmap Z Z) i j : is_Some (delete i m !! j) -> is_Some (m !! j).
Proof. rewrite lookup_delete. case_decide; [by intros []|done]. Qed.

Ltac acct_base :=
  first [ by constructor
        | apply acct_alter_tenant; intros; reflexivity
        | apply acct_alter_worker; intros ??; simpl;
            first [ solve [eauto using is_Some_delete] | rewrite lookup_empty; by intros [] ]
        | reflexivity ].

Lemma tenant_of_acct t s : steps acct s (tenant_of t).
Proof.
  apply steps_modify. destruct (tenants s !! t) eqn:E; [done|].
  constructor; try done. intros t'. unfold tenant_admitted. simpl.
  rewrite lookup_insert. case_decide; [|done]. subst. by rewrite E.
Qed.

Section Acct.
  Context `{Env}.

Lemma clock_now_acct s : steps acct s clock_now.
Proof. unfold clock_now. mwalk acct_base. Qed.
Lemma next_id_acct s : steps acct s next_id.
Proof. unfold next_id. mwalk acct_base. Qed.
Lemma modify_stats_acct f s : steps acct s (modify_stats f).
Proof. unfold modify_stats. mwalk acct_base. Qed.
Lemma modify_rec_acct id f s : steps acct s (modify_rec id f).
Proof. unfold modify_rec. mwalk acct_base. Qed.
Lemma put_flow_acct k f s : steps acct s (put_flow k f).
Proof. unfold put_flow. mwalk acct_base. Qed.
#[local] Hint Resolve clock_now_acct next_id_acct modify_stats_acct modify_rec_acct
  put_flow_acct tenant_of_acct : frame.

Lemma emit_event_acct ty r a w b d s : steps acct s (emit_event ty r a w b d).
Proof. unfold emit_event. mwalk acct_base. Qed.
Lemma release_running_acct t s : steps acct s (release_running t).
Proof. unfold release_running, modify_tenant. mwalk acct_base. Qed.
Lemma release_batch_acct w b s : steps acct s (release_batch w b).
Proof. unfold release_batch, modify_worker. mwalk acct_base. Qed.
#[local] Hint Resolve emit_event_acct release_running_acct release_batch_acct : frame.
Lemma release_batch_member_acct id w s : steps acct s (release_batch_member id w).
Proof. unfold release_batch_member, modify_worker. mwalk acct_base. Qed.
Lemma start_batch_acct w b s : steps acct s (start_batch w b).
Proof. unfold start_batch, modify_worker. mwalk acct_base. Qed.
Lemma dequeue_acct id s : steps acct s (dequeue_request id).
Proof.
  unfold dequeue_request, modify_tenant. mwalk acct_base. by destruct (bool_decide _); constructor.
Qed.
Lemma enqueue_acct id s : steps acct s (enqueue_request id).
Proof. unfold enqueue_request, modify_tenant. mwalk acct_base. Qed.
Lemma account_flow_acct sp c s : steps acct s (account_flow sp c).
Proof. unfold account_flow. mwalk acct_base. Qed.

Lemma release_admitted_released t s : steps (released t) s (release_admitted t).
Proof.
  unfold release_admitted, steps. rewrite !exec_bind.
  set (s1 := exec (modify _) s).
  destruct (tenant_of_acct t s1) as [E1 E2 E3].
  destruct (tenant_of_exists t s1) as [x Hx].
  unfold modify_tenant. rewrite exec_modify. constructor.
  - etrans; [exact E1|]. done.
  - intros t'. change (tenant_admitted s t') with (tenant_admitted s1 t').
    rewrite <- E2. unfold tenant_admitted. simpl. rewrite lookup_alter.
    case_decide; [subst t'; by rewrite Z.eqb_refl, Hx|]. by destruct (Z.eqb_spec t t').
  - intros w id Hf. by apply E3 in Hf.
Qed.

(** After a release the attempt is not in flight on the worker. *)
Lemma release_batch_member_lands id w s r :
  requests s !! id = Some r -> rec_request_id r = id ->
  ~ flight (exec (release_batch_member id w) s) w id.
Proof.
  intros Hr Hid. unfold release_batch_member. rewrite !exec_bind, !result_gets, !exec_gets.
  unfold request_of. rewrite Hr. simpl default. rewrite Hid.
  destruct (workers s !! w) as [wr|] eqn:Ew.
  - rewrite exec_bind. set (s1 := exec (modify_worker w _) s). intros Hf.
    assert (flight s1 w id) as (x & Hx & Hi).
    { revert Hf. apply ac_flight. clearbody s1.
      change (acct s1 (exec ?m s1)) with (steps acct s1 m). unfold modify_worker. mwalk acct_base. }
    unfold s1, modify_worker in Hx. simpl in Hx. rewrite lookup_alter_eq, Ew in Hx.
    simplify_eq/=. rewrite lookup_delete_eq in Hi. by destruct Hi.
  - rewrite exec_ret. intros (x & Hx & _). congruence.
Qed.

End Acct.

#[export] Hint Resolve tenant_of_acct clock_now_acct next_id_acct modify_stats_acct modify_rec_acct
  put_flow_acct emit_event_acct release_running_acct release_batch_acct release_batch_member_acct
  start_batch_acct dequeue_acct enqueue_acct account_flow_acct : frame.
