(* ===== verification/Micro.v ===== *)
(** * The request lifecycle as a transition system

    [micro] is the abstract machine the scheduler's methods implement: each
    step changes the record of at most one request, in one of the ways the
    lifecycle allows, and keeps the queueing index and the admission counters
    in step with it.  The invariant [Inv] is proved here by cases on the
    steps; [Machine.v] shows that every operation is a sequence of steps. *)

From S2P Require Import Prelude Enums Ids Float64 Types State Admission Queue Batch Dispatch Completion Control Frames Lifecycle Index Accounts.
Open Scope Z_scope.

Definition live (r : RequestRecord) : bool := negb (is_terminal (rec_state r)).
Definition live_of (t : Z) (r : RequestRecord) : bool := live r && of_tenant t r.

(** ** Steps of one record *)

(** An update that is not a transition. *)
Record touch (r r' : RequestRecord) : Prop := {
  to_spec : rec_spec r' = rec_spec r;
  to_id : rec_request_id r' = rec_request_id r;
  to_state : rec_state r' = rec_state r;
  to_attempt : rec_current_attempt r' = rec_current_attempt r;
  to_generation : rec_generation r' = rec_generation r;
  to_history : att_attempt_id <$> rec_history r' = att_attempt_id <$> rec_history r;
  to_cancel : rec_cancellation_committed r' = rec_cancellation_committed r;
  to_requested : rec_cancellation_requested r = true -> rec_cancellation_requested r' = true
}.

(** The records [do_submit] creates. *)
Definition new_queued (id : Z) (r : RequestRecord) : Prop :=
  rec_request_id r = id /\ rec_state r = RS_Queued /\
  att_attempt_id <$> rec_history r = [rec_current_attempt r] /\
  rec_cancellation_requested r = false /\ rec_cancellation_committed r = false.

Definition new_rejected (id : Z) (r : RequestRecord) : Prop :=
  rec_request_id r = id /\ rec_state r = RS_Rejected /\ rec_history r = [].

(** A request that holds a worker ends. *)
Inductive ended (r : RequestRecord) : RequestRecord -> Prop :=
| ended_completed rp t b : rec_cancellation_requested r = false -> ended r (set_completed rp t b r)
| ended_failed rp b : ended r (set_failed rp b r)
| ended_late b : ended r (set_late b r)
| ended_cancelled reason b : ended r (set_cancelled reason b r).

(** A queued request ends. *)
Inductive dropped (r : RequestRecord) : RequestRecord -> Prop :=
| dropped_expired : dropped r (set_expired r)
| dropped_cancelled reason : dropped r (set_cancelled reason false r).

Definition retry_allowed (s : Impl) (r : RequestRecord) : Prop :=
  rec_cancellation_requested r = false /\ rec_cancellation_committed r = false /\
  Z.of_nat (length (rec_history r)) < ret_max_attempts (cfg_retry (cfg s)).

(** The bounds [make_admission] checks before it admits. *)
Record admissible (s : Impl) (sp : RequestSpec) : Prop := {
  am_draining : draining s = false;
  am_global : global_admitted s < al_max_global_admitted (cfg_admission (cfg s));
  am_queued : global_queued s < al_max_global_queued (cfg_admission (cfg s));
  am_tenant : forall x, tenants s !! spec_tenant sp = Some x ->
    ten_admitted x < al_default_tenant_concurrency (cfg_admission (cfg s)) /\
    ten_queued x < al_default_tenant_queue_depth (cfg_admission (cfg s))
}.

(** One request of the tenant more is admitted. *)
Record admitted_one (t : Z) (s s' : Impl) : Prop := {
  ad_global : global_admitted s' = global_admitted s + 1;
  ad_tenant : forall t', tenant_admitted s' t' =
    if t =? t' then tenant_admitted s t' + 1 else tenant_admitted s t';
  ad_flight : forall w id, flight s' w id -> flight s w id
}.

Record starts (w id : Z) (s s' : Impl) : Prop := {
  sa_global : global_admitted s' = global_admitted s;
  sa_tenant : forall t, tenant_admitted s' t = tenant_admitted s t;
  sa_flight : forall w' id', flight s' w' id' -> flight s w' id' \/ (w' = w /\ id' = id)
}.

#[export] Instance absorbs_admitted t : Absorbs acct (admitted_one t).
Proof.
  split.
  - intros s s1 s2 [E1 E2 E3] [F1 F2 F3]. constructor; intros; rewrite ?F1, ?F2, ?E1, ?E2; auto.
  - intros s s1 s2 [F1 F2 F3] [E1 E2 E3]. constructor; intros; rewrite ?E1, ?E2, ?F1, ?F2; auto.
Qed.

#[export] Instance absorbs_starts w id : Absorbs acct (starts w id).
Proof.
  split.
  - intros s s1 s2 [E1 E2 E3] [F1 F2 F3]. constructor; intros *; rewrite ?F1, ?F2, ?E1, ?E2; auto.
    intros [|]%F3; auto.
  - intros s s1 s2 [F1 F2 F3] [E1 E2 E3]. constructor; intros; rewrite ?E1, ?E2, ?F1, ?F2; auto.
Qed.

(** ** The machine *)

Inductive micro (s s' : Impl) : Prop :=
| mi_frame :
    requests s' = requests s -> same_queue s s' -> acct s s' -> micro s s'
| mi_touch id r r' :
    requests s !! id = Some r -> live r = true -> touch r r' ->
    requests s' = <[id := r']> (requests s) -> same_queue s s' -> acct s s' -> micro s s'
| mi_admit id r :
    requests s !! id = None -> new_queued id r -> admissible s (rec_spec r) ->
    requests s' = <[id := r]> (requests s) -> enqueued id r s s' ->
    admitted_one (spec_tenant (rec_spec r)) s s' -> micro s s'
| mi_reject id r :
    requests s !! id = None -> new_rejected id r ->
    requests s' = <[id := r]> (requests s) -> same_queue s s' -> acct s s' -> micro s s'
| mi_reserve id r bid now :
    requests s !! id = Some r -> rec_state r = RS_Queued ->
    requests s' = <[id := set_reserved bid now r]> (requests s) ->
    dequeued id r s s' -> acct s s' -> micro s s'
| mi_drop id r r' :
    requests s !! id = Some r -> rec_state r = RS_Queued -> dropped r r' ->
    requests s' = <[id := r']> (requests s) -> dequeued id r s s' ->
    released (spec_tenant (rec_spec r)) s s' -> micro s s'
| mi_start id r w bid now :
    requests s !! id = Some r -> rec_state r = RS_Reserved ->
    requests s' = <[id := set_running w bid now r]> (requests s) ->
    same_queue s s' -> starts w id s s' -> micro s s'
| mi_finish id r r' :
    requests s !! id = Some r -> occupies_worker (rec_state r) = true -> ended r r' ->
    requests s' = <[id := r']> (requests s) -> loose_queue s s' ->
    released (spec_tenant (rec_spec r)) s s' -> (forall w, ~ flight s' w id) -> micro s s'
| mi_retry id r r' rp b gen att t t2 t3 :
    requests s !! id = Some r -> occupies_worker (rec_state r) = true -> retry_allowed s r ->
    r' = set_retry rp b gen att t t2 t3 r ->
    requests s' = <[id := r']> (requests s) -> enqueued id r' s s' -> acct s s' ->
    (forall w, ~ flight s' w id) -> micro s s'
| mi_pop k e :
    requests s' = requests s -> popped k e s s' -> dead_entry s e -> acct s s' -> micro s s'
| mi_retire k :
    requests s' = requests s -> retired k s s' -> acct s s' -> micro s s'.

(** ** The invariant *)

Record AInv (s : Impl) : Prop := {
  a_global : global_admitted s = mcount live (requests s);
  a_tenant : forall t, tenant_admitted s t = mcount (live_of t) (requests s)
}.

(** A request that is in flight runs, and on one worker only. *)
Record FInv (s : Impl) : Prop := {
  f_running : forall w id, flight s w id ->
    exists r, requests s !! id = Some r /\ rec_state r = RS_Running;
  f_unique : forall w1 w2 id, flight s w1 id -> flight s w2 id -> w1 = w2
}.

(** The states a request rests in between two operations. *)
Definition resting (st : RequestState) : bool :=
  match st with
  | RS_Queued | RS_Reserved | RS_Running => true
  | _ => is_terminal st
  end.

Record rec_ok (c : SchedulerConfig) (r : RequestRecord) : Prop := {
  ro_resting : resting (rec_state r) = true;
  ro_last : live r = true -> last (att_attempt_id <$> rec_history r) = Some (rec_current_attempt r);
  ro_attempts : Z.of_nat (length (rec_history r)) <= Z.max 1 (ret_max_attempts (cfg_retry c));
  ro_cancelled : live r = true -> rec_cancellation_committed r = false
}.

(** The admission limits hold. *)
Record LInv (s : Impl) : Prop := {
  l_global : global_admitted s <= Z.max 0 (al_max_global_admitted (cfg_admission (cfg s)));
  l_tenant : forall t, tenant_admitted s t <=
    Z.max 1 (al_default_tenant_concurrency (cfg_admission (cfg s)))
}.

Record Inv (s : Impl) : Prop := {
  i_queue : QInv s;
  i_admitted : AInv s;
  i_limits : LInv s;
  i_flight : FInv s;
  i_records : map_Forall (fun _ r => rec_ok (cfg s) r) (requests s)
}.

(** ** The steps preserve it *)

Lemma alter_back_ids f h :
  (forall a, att_attempt_id (f a) = att_attempt_id a) ->
  att_attempt_id <$> alter_back f h = att_attempt_id <$> h.
Proof.
  intros Hf. induction h as [|a [|b h] IH]; [done|simpl; by rewrite Hf|].
  change (alter_back f (a :: b :: h)) with (a :: alter_back f (b :: h)).
  cbn [fmap list_fmap]. f_equal. exact IH.
Qed.

(** The parts of a record every transition keeps. *)
Definition same_id (r r' : RequestRecord) : Prop :=
  rec_spec r' = rec_spec r /\ rec_request_id r' = rec_request_id r.

Lemma ended_spec r r' :
  ended r r' -> same_id r r' /\ is_terminal (rec_state r') = true /\
  att_attempt_id <$> rec_history r' = att_attempt_id <$> rec_history r.
Proof.
  intros [rp t b ?|rp b|b|reason b]; destruct b; (split_and!; [done|done|]); by apply alter_back_ids.
Qed.

Lemma dropped_spec r r' :
  dropped r r' -> same_id r r' /\ is_terminal (rec_state r') = true /\
  att_attempt_id <$> rec_history r' = att_attempt_id <$> rec_history r.
Proof. intros [|reason]; (split_and!; [done|done|]); by apply alter_back_ids. Qed.

Lemma terminal_not_queued r : is_terminal (rec_state r) = true -> rec_state r <> RS_Queued.
Proof. by destruct (rec_state r). Qed.

Lemma occupies_not_queued r : occupies_worker (rec_state r) = true -> rec_state r <> RS_Queued.
Proof. by destruct (rec_state r). Qed.

Lemma occupies_live r : occupies_worker (rec_state r) = true -> live r = true.
Proof. unfold live. by destruct (rec_state r). Qed.

Lemma QInv_micro s s' : QInv s -> micro s s' -> QInv s'.
Proof.
  intros I [ER SQ AC|id r r' Hr L [] ER SQ AC|id r Hr (Hid & Hs & _) AM ER EQ _|id r Hr (Hid & Hs & _) ER SQ _
    |id r bid now Hr Hs ER DQ _|id r r' Hr Hs D ER DQ _|id r w bid now Hr Hs ER SQ _
    |id r r' Hr O E ER LQ _ _|id r r' rp b gen att t t2 t3 Hr O _ -> ER EQ _ _|k e ER PO DE _|k ER RT _].
  - by eapply QInv_same.
  - by eapply QInv_touch.
  - eapply QInv_enqueue; [done|done|by rewrite Hr|done..].
  - eapply QInv_outside; [done|by apply same_loose|by rewrite Hr|done..|congruence].
  - eapply QInv_dequeue; [done..|by eapply (q_key _ I id r)|done|done].
  - destruct (dropped_spec _ _ D) as ([_ Hid] & T & _).
    eapply QInv_dequeue; [done|done|done|done| |done|by apply terminal_not_queued].
    rewrite Hid. by eapply q_key.
  - eapply QInv_outside; [done|by apply same_loose| |done|by eapply (q_key _ I id r)|done].
    intros ? ?. congruence.
  - destruct (ended_spec _ _ E) as ([_ Hid] & T & _).
    eapply QInv_outside; [done|done| |done| |by apply terminal_not_queued].
    + intros ? ?. simplify_eq. by apply occupies_not_queued.
    + rewrite Hid. by eapply q_key.
  - eapply QInv_enqueue; [done|done| |done| |].
    + intros ? ?. simplify_eq. by apply occupies_not_queued.
    + destruct b; by eapply (q_key _ I id r).
    + done.
  - by eapply QInv_pop.
  - by eapply QInv_retire.
Qed.

(** What a step does to the record of a request: how [live] changes. *)
Lemma AInv_put id r' s s' :
  AInv s -> requests s' = <[id := r']> (requests s) ->
  (forall r, requests s !! id = Some r -> live r = live r' /\ rec_spec r' = rec_spec r) ->
  (requests s !! id = None -> live r' = false) ->
  global_admitted s' = global_admitted s ->
  (forall t, tenant_admitted s' t = tenant_admitted s t) -> AInv s'.
Proof.
  intros [G T] ER HS HN EG ET.
  assert (forall P, (forall r r', live r = live r' -> rec_spec r' = rec_spec r -> P r = P r') ->
    (live r' = false -> P r' = false) ->
    mcount P (<[id := r']> (requests s)) = mcount P (requests s)) as HC.
  { intros P HP HP'. destruct (requests s !! id) as [r|] eqn:E.
    - destruct (HS r eq_refl). rewrite (mcount_update _ _ _ r), (HP r r') by done. lia.
    - rewrite mcount_insert, HP' by auto. simpl. lia. }
  constructor; intros; rewrite ER, ?EG, ?ET, ?G, ?T, HC; try done.
  - intros r1 r2 L Sp. unfold live_of, of_tenant. by rewrite L, Sp.
  - unfold live_of. by intros ->.
Qed.

Lemma AInv_same s s' : AInv s -> requests s' = requests s -> acct s s' -> AInv s'.
Proof. intros [] ER []. constructor; intros; rewrite ER; congruence. Qed.

Lemma AInv_release id r r' s s' :
  AInv s -> requests s !! id = Some r -> live r = true -> live r' = false ->
  requests s' = <[id := r']> (requests s) ->
  released (spec_tenant (rec_spec r)) s s' -> AInv s'.
Proof.
  intros [G T] Hr L L' ER [EG ET _].
  assert (forall x, 0 < x -> dec_pos x = x - 1) as Hdec.
  { intros x Hx. unfold dec_pos. destruct (Z.ltb_spec 0 x); lia. }
  constructor; intros; rewrite ER, (mcount_update _ _ _ r) by done.
  - rewrite EG, G, L, L', Hdec; [simpl; lia|]. by eapply mcount_pos.
  - rewrite ET, T. unfold live_of at 4 5. rewrite L, L'. unfold of_tenant. simpl.
    destruct (Z.eqb_spec (spec_tenant (rec_spec r)) t); simpl; [|lia]. rewrite Hdec; [lia|].
    eapply mcount_pos; [done|]. unfold live_of, of_tenant. rewrite L. simpl. by apply Z.eqb_eq.
Qed.

Lemma AInv_admit id r s s' :
  AInv s -> requests s !! id = None -> live r = true ->
  requests s' = <[id := r]> (requests s) ->
  admitted_one (spec_tenant (rec_spec r)) s s' -> AInv s'.
Proof.
  intros [G T] Hr L ER [EG ET _].
  constructor; intros; rewrite ER, mcount_insert by done.
  - rewrite EG, G, L. done.
  - rewrite ET, T. unfold live_of at 4. rewrite L. unfold of_tenant. simpl.
    destruct (_ =? t); simpl; lia.
Qed.

Lemma terminal_dead r : is_terminal (rec_state r) = true -> live r = false.
Proof. unfold live. by intros ->. Qed.

Lemma AInv_micro s s' : AInv s -> micro s s' -> AInv s'.
Proof.
  intros I [ER SQ AC|id r r' Hr L [] ER SQ AC|id r Hr (Hid & Hs & _) AM ER EQ AD|id r Hr (Hid & Hs & _) ER SQ AC
    |id r bid now Hr Hs ER DQ AC|id r r' Hr Hs D ER DQ RL|id r w bid now Hr Hs ER SQ SA
    |id r r' Hr O E ER LQ RL _|id r r' rp b gen att t t2 t3 Hr O _ -> ER EQ AC _|k e ER PO DE AC|k ER RT AC].
  - by eapply AInv_same.
  - destruct AC. eapply AInv_put; try done; [|by rewrite Hr].
    intros ? ?. simplify_eq. unfold live. by rewrite to_state0.
  - eapply AInv_admit; try done. unfold live. by rewrite Hs.
  - destruct AC. eapply AInv_put; try done; [by rewrite Hr|]. unfold live. by rewrite Hs.
  - destruct AC. eapply AInv_put; try done; [|by rewrite Hr].
    intros ? ?. simplify_eq. unfold live. by rewrite Hs.
  - destruct (dropped_spec _ _ D) as (_ & T & _).
    eapply AInv_release; try done; [|by apply terminal_dead]. unfold live. by rewrite Hs.
  - destruct SA. eapply AInv_put; try done; [|by rewrite Hr].
    intros ? ?. simplify_eq. unfold live. by rewrite Hs.
  - destruct (ended_spec _ _ E) as (_ & T & _).
    eapply AInv_release; try done; [by apply occupies_live|by apply terminal_dead].
  - destruct AC. eapply AInv_put; try done; [|by rewrite Hr].
    intros ? ?. simplify_eq. rewrite (occupies_live _ O). by destruct b.
  - by eapply AInv_same.
  - by eapply AInv_same.
Qed.

(** ** Attempts in flight *)

Lemma FInv_put id r' s s' :
  FInv s -> requests s' = <[id := r']> (requests s) ->
  (forall w i, flight s' w i -> flight s w i) ->
  (forall r, requests s !! id = Some r -> rec_state r = RS_Running ->
     rec_state r' = RS_Running \/ forall w, ~ flight s' w id) -> FInv s'.
Proof.
  intros [R U] ER HF HS. constructor; [|naive_solver].
  intros w i Hf. destruct (R w i (HF _ _ Hf)) as (r & Hr & Hs). rewrite ER, lookup_insert.
  destruct (decide (id = i)) as [<-|]; [|eauto].
  destruct (HS r Hr Hs) as [?|Hn]; [eauto|]. by apply Hn in Hf.
Qed.

Lemma FInv_same s s' : FInv s -> requests s' = requests s -> acct s s' -> FInv s'.
Proof. intros [R U] ER [_ _ F]. constructor; [|by eauto]. intros w i Hf. rewrite ER. eauto. Qed.

Lemma FInv_micro s s' : FInv s -> micro s s' -> FInv s'.
Proof.
  intros I [ER SQ AC|id r r' Hr L [] ER SQ AC|id r Hr (Hid & Hs & _) AM ER EQ AD|id r Hr (Hid & Hs & _) ER SQ AC
    |id r bid now Hr Hs ER DQ AC|id r r' Hr Hs D ER DQ RL|id r w bid now Hr Hs ER SQ SA
    |id r r' Hr O E ER LQ RL NF|id r r' rp b gen att t t2 t3 Hr O _ -> ER EQ AC NF|k e ER PO DE AC|k ER RT AC].
  - by eapply FInv_same.
  - destruct AC. eapply FInv_put; try done. intros ? ? ?. simplify_eq. left. congruence.
  - destruct AD. eapply FInv_put; try done. by rewrite Hr.
  - destruct AC. eapply FInv_put; try done. by rewrite Hr.
  - destruct AC. eapply FInv_put; try done. congruence.
  - destruct RL. eapply FInv_put; try done. congruence.
  - destruct I as [R U], SA as [_ _ F].
    assert (forall w', ~ flight s w' id) as Hno.
    { intros w' Hf. destruct (R _ _ Hf) as (? & ? & ?). congruence. }
    constructor.
    + intros w' i Hf. rewrite ER, lookup_insert. destruct (decide (id = i)) as [|Hn]; [eauto|].
      destruct (F _ _ Hf) as [|[_ ?]]; [eauto|congruence].
    + intros w1 w2 i [H1|[-> ->]]%F [H2|[? ?]]%F; subst; [eauto|by apply Hno in H1|by apply Hno in H2|done].
  - destruct RL. eapply FInv_put; eauto.
  - destruct AC. eapply FInv_put; eauto.
  - by eapply FInv_same.
  - by eapply FInv_same.
Qed.

(** ** The records *)

Lemma micro_cfg s s' : micro s s' -> cfg s' = cfg s.
Proof. by intros [? []|? ? ? ? ? ? ? []|? ? ? ? ? ? []|? ? ? ? ? []|? ? ? ? ? ? ? []
  |? ? ? ? ? ? ? []|? ? ? ? ? ? ? ? []|? ? ? ? ? ? ? []|? ? ? ? ? ? ? ? ? ? ? ? ? ? ? []
  |? ? ? []|? ? []]. Qed.

Lemma length_ids (h h' : list AttemptRecord) :
  att_attempt_id <$> h' = att_attempt_id <$> h -> length h' = length h.
Proof. intros E. by rewrite <- (length_fmap att_attempt_id h'), E, length_fmap. Qed.

(** A transition that keeps the attempts. *)
Lemma rec_ok_move c r r' :
  rec_ok c r -> resting (rec_state r') = true -> (live r' = true -> live r = true) ->
  att_attempt_id <$> rec_history r' = att_attempt_id <$> rec_history r ->
  (live r' = true -> rec_current_attempt r' = rec_current_attempt r /\
     rec_cancellation_committed r' = rec_cancellation_committed r) -> rec_ok c r'.
Proof.
  intros [R L A C] HR HL HH HC. constructor; [done| | |].
  - intros Hl. rewrite HH. destruct (HC Hl) as [-> _]. auto.
  - by rewrite (length_ids _ _ HH).
  - intros Hl. destruct (HC Hl) as [_ ->]. auto.
Qed.

Lemma resting_terminal st : is_terminal st = true -> resting st = true.
Proof. by destruct st. Qed.

Lemma rec_ok_dead c r r' :
  rec_ok c r -> is_terminal (rec_state r') = true ->
  att_attempt_id <$> rec_history r' = att_attempt_id <$> rec_history r -> rec_ok c r'.
Proof.
  intros Hok HT HH. assert (live r' = false) as HL by by apply terminal_dead.
  apply (rec_ok_move c r r'); try done; [by apply resting_terminal|congruence..].
Qed.

Lemma rec_ok_retry c r rp b gen att t t2 t3 :
  rec_ok c r -> rec_cancellation_committed r = false ->
  Z.of_nat (length (rec_history r)) < ret_max_attempts (cfg_retry c) ->
  rec_ok c (set_retry rp b gen att t t2 t3 r).
Proof.
  intros Hok HC HL.
  assert (att_attempt_id <$> alter_back (fail_attempt rp) (rec_history r) =
          att_attempt_id <$> rec_history r) as E by by apply alter_back_ids.
  pose proof (length_ids _ _ E) as EL. constructor.
  - done.
  - intros _. destruct b; simpl; rewrite fmap_app; apply last_snoc.
  - destruct b; simpl; rewrite length_app, EL; simpl; lia.
  - intros _. by destruct b.
Qed.

Lemma records_micro s s' :
  map_Forall (fun _ r => rec_ok (cfg s) r) (requests s) -> micro s s' ->
  map_Forall (fun _ r => rec_ok (cfg s') r) (requests s').
Proof.
  intros I Hm. rewrite (micro_cfg _ _ Hm).
  destruct Hm as [ER SQ AC|id r r' Hr L [] ER SQ AC|id r Hr (Hid & Hs & Hh & _ & Hc) AM ER EQ AD
    |id r Hr (Hid & Hs & Hh) ER SQ AC
    |id r bid now Hr Hs ER DQ AC|id r r' Hr Hs D ER DQ RL|id r w bid now Hr Hs ER SQ SA
    |id r r' Hr O E ER LQ RL NF|id r r' rp b gen att t t2 t3 Hr O (_ & Hc & Hl) -> ER EQ AC NF|k e ER PO DE AC|k ER RT AC];
    rewrite ER; try done; apply map_Forall_insert_2; try done;
    try (assert (rec_ok (cfg s) r) as Hok by (by eapply I)).
  - eapply (rec_ok_move _ r); eauto. rewrite to_state0. by destruct Hok.
  - constructor; try done; [by rewrite Hs| |].
    + intros _. by rewrite Hh.
    + (rewrite <- (length_fmap att_attempt_id), Hh; simpl; lia).
  - constructor; [by rewrite Hs|unfold live; by rewrite Hs|rewrite Hh; simpl; lia|unfold live; by rewrite Hs].
  - apply (rec_ok_move _ r); try done; [unfold live; by rewrite Hs|by apply alter_back_ids].
  - destruct (dropped_spec _ _ D) as (_ & T & HH). by eapply rec_ok_dead.
  - apply (rec_ok_move _ r); try done; [unfold live; by rewrite Hs|by apply alter_back_ids].
  - destruct (ended_spec _ _ E) as (_ & T & HH). by eapply rec_ok_dead.
  - by apply rec_ok_retry.
Qed.

(** ** The admission limits *)

Lemma LInv_le s s' :
  LInv s -> cfg s' = cfg s -> global_admitted s' <= global_admitted s ->
  (forall t, tenant_admitted s' t <= tenant_admitted s t) -> LInv s'.
Proof.
  intros [G T] EC HG HT. constructor; intros; rewrite EC; [lia|]. specialize (T t). specialize (HT t). lia.
Qed.

Lemma dec_pos_le x : dec_pos x <= x.
Proof. unfold dec_pos. destruct (Z.ltb_spec 0 x); lia. Qed.

Lemma LInv_released t s s' : LInv s -> cfg s' = cfg s -> released t s s' -> LInv s'.
Proof.
  intros L EC [G T _]. eapply LInv_le; [done..|rewrite G; apply dec_pos_le|].
  intros t'. rewrite T. destruct (t =? t'); [apply dec_pos_le|lia].
Qed.

Lemma LInv_micro s s' : LInv s -> micro s s' -> LInv s'.
Proof.
  intros L Hm. pose proof (micro_cfg _ _ Hm) as EC.
  assert (acct s s' -> LInv s') as Hacct.
  { intros [G T _]. eapply LInv_le; [done..|lia|]. intros t. rewrite T. lia. }
  destruct Hm as [? ? AC|id r r' ? ? ? ? ? AC|id r Hr HN AM ER EQ [G T _]|id r ? ? ? ? AC
    |id r bid now ? ? ? ? AC|id r r' ? ? ? ? ? RL|id r w bid now ? ? ? ? [G T _]
    |id r r' ? ? ? ? ? RL ?|id r r' rp b gen att t t2 t3 ? ? ? ? ? ? AC ?|k e ? ? ? AC|k ? ? AC];
    try (by apply Hacct); try (by eapply LInv_released).
  - destruct AM as [_ AG _ AT], L as [LG LT]. constructor; intros; rewrite EC; [lia|].
    rewrite T. destruct (Z.eqb_spec (spec_tenant (rec_spec r)) t) as [<-|]; [|apply LT].
    unfold tenant_admitted. destruct (tenants s !! _) as [x|]; simpl; [|lia].
    destruct (AT x eq_refl). lia.
  - eapply LInv_le; [done..|lia|]. intros t. rewrite T. lia.
Qed.

Lemma Inv_micro s s' : Inv s -> micro s s' -> Inv s'.
Proof.
  intros [Q A L F R] Hm.
  constructor; eauto using QInv_micro, AInv_micro, LInv_micro, FInv_micro, records_micro.
Qed.

(** ** The history of a request *)

Record evolves (r r' : RequestRecord) : Prop := {
  e_id : same_id r r';
  e_frozen : is_terminal (rec_state r) = true -> r' = r;
  e_attempts : (att_attempt_id <$> rec_history r) `prefix_of` (att_attempt_id <$> rec_history r');
  e_cancel : rec_cancellation_requested r = true ->
    rec_cancellation_requested r' = true /\ (rec_state r' = RS_Completed -> rec_state r = RS_Completed)
}.

#[export] Instance evolves_preorder : PreOrder evolves.
Proof.
  split.
  - intros r. by constructor.
  - intros r1 r2 r3 [[I1 I2] F P C] [[I1' I2'] F' P' C']. constructor.
    + split; congruence.
    + intros T. rewrite <- (F T). apply F'. by rewrite (F T).
    + by etrans.
    + intros [C1 D1]%C. destruct (C' C1) as [C2 D2]. auto.
Qed.

Lemma evolves_live r r' :
  same_id r r' -> live r = true ->
  (att_attempt_id <$> rec_history r) `prefix_of` (att_attempt_id <$> rec_history r') ->
  (rec_cancellation_requested r = true ->
    rec_cancellation_requested r' = true /\ rec_state r' <> RS_Completed) ->
  evolves r r'.
Proof.
  intros HI HV HP HC. constructor; [done| |done|].
  2:{ intros HR. destruct (HC HR). by split. }
  unfold live in HV. intros T. by rewrite T in HV.
Qed.

Definition evolution (s s' : Impl) : Prop :=
  forall id r, requests s !! id = Some r ->
    exists r', requests s' !! id = Some r' /\ evolves r r'.

Lemma evolution_same s s' : requests s' = requests s -> evolution s s'.
Proof. intros ER i r Hr. exists r. rewrite ER. split; [done|reflexivity]. Qed.

Lemma evolution_put id r' s s' :
  requests s' = <[id := r']> (requests s) ->
  (forall r, requests s !! id = Some r -> evolves r r') -> evolution s s'.
Proof.
  intros ER He i r Hr. rewrite ER, lookup_insert.
  destruct (decide (id = i)) as [<-|]; [eauto|]. exists r. split; [done|reflexivity].
Qed.

Lemma evolution_micro s s' : micro s s' -> evolution s s'.
Proof.
  intros [ER SQ AC|id r r' Hr L [] ER SQ AC|id r Hr _ AM ER EQ AD|id r Hr _ ER SQ AC
    |id r bid now Hr Hs ER DQ AC|id r r' Hr Hs D ER DQ RL|id r w bid now Hr Hs ER SQ SA
    |id r r' Hr O E ER LQ RL NF|id r r' rp b gen att t t2 t3 Hr O _ -> ER EQ AC NF|k e ER PO DE AC|k ER RT AC];
    [|eapply evolution_put; [exact ER|]; intros ? ?; simplify_eq..| |].
  - by apply evolution_same.
  - constructor; [done| |by rewrite to_history0|by rewrite to_state0; auto].
    intros T. unfold live in L. by rewrite T in L.
  - apply evolves_live; [done|unfold live; by rewrite Hs| |done].
    simpl. by rewrite alter_back_ids.
  - destruct (dropped_spec _ _ D) as (HI & T & HH).
    apply evolves_live; [done|unfold live; by rewrite Hs|by rewrite HH|by destruct D].
  - apply evolves_live; [done|unfold live; by rewrite Hs| |done].
    simpl. by rewrite alter_back_ids.
  - destruct (ended_spec _ _ E) as (HI & T & HH).
    apply evolves_live; [done|by apply occupies_live|by rewrite HH|].
    by destruct E as [rp t b HC|rp b|b|reason b]; intros HC'; [congruence|destruct b..].
  - apply evolves_live; [by destruct b|by apply occupies_live| |by destruct b].
    destruct b; simpl; rewrite fmap_app, alter_back_ids by done; by eexists.
  - by apply evolution_same.
  - by apply evolution_same.
Qed.
