(* ===== verification/Refine.v ===== *)
(** * The methods implement the lifecycle machine

    Each internal method of [src/scheduler.cpp] runs as a sequence of [micro]
    steps. *)

From S2P Require Import Prelude Enums Ids Float64 Types State Admission Queue Batch Dispatch Completion Control Frames Lifecycle Index Accounts Micro.
Open Scope Z_scope.

Abbreviation refines := (steps (rtc micro)).

#[export] Instance rtc_micro_preorder : PreOrder (rtc micro).
Proof. split; apply _. Qed.

Lemma Inv_rtc s s' : rtc micro s s' -> Inv s -> Inv s'.
Proof. induction 1; eauto using Inv_micro. Qed.

Lemma evolution_rtc s s' : rtc micro s s' -> evolution s s'.
Proof.
  induction 1 as [s|s1 s2 s3 Hm _ IH]; [by apply evolution_same|].
  intros id r (r' & Hr' & He)%(evolution_micro _ _ Hm).
  destruct (IH _ _ Hr') as (r'' & ? & ?). exists r''. split; [done|]. by etrans.
Qed.

Lemma refine_frame {A} s (m : M A) : steps same_index s m -> steps acct s m -> refines s m.
Proof.
  intros Hi Ha. apply rtc_once, mi_frame; [by apply si_requests|by apply same_index_queue|done].
Qed.

(** Compose under the invariant. *)
Lemma refine_bind {A B} (m : M A) (k : A -> M B) s :
  Inv s -> refines s m ->
  (Inv (exec m s) -> rtc micro s (exec m s) -> refines (exec m s) (k (result m s))) ->
  refines s (m ≫= k).
Proof.
  intros HI Hm Hk. apply steps_bind; [exact _|done|]. apply Hk; [|done]. by eapply Inv_rtc.
Qed.

Lemma refine_foreach {A} (l : list A) (body : A -> M unit) s :
  Inv s -> (forall x s', x ∈ l -> rtc micro s s' -> Inv s' -> refines s' (body x)) ->
  refines s (foreach l body).
Proof.
  intros HI Hb. apply steps_foreach; [exact _|]. intros x s' Hx Hs. apply Hb; [done..|].
  by eapply Inv_rtc.
Qed.

#[export] Hint Extern 4 (steps (rtc micro) _ _) =>
  (apply refine_frame; solve [auto 2 with frame nocore]) : frame.

(** [m] ends in a state that [R] relates to its start. *)
Ltac as_steps := match goal with |- ?R ?s (exec ?m ?s) => change (steps R s m) end.

(** Find the change in a method's body: skip the frames before it, check the
    frames after it. *)
Ltac mskip base := eapply steps_skip; [exact _|solve [mwalk base]|cbv beta].
Ltac mhit base := eapply steps_hit; [exact _| |intros; solve [mwalk base]].

Ltac find_released :=
  repeat mskip acct_base; mhit acct_base; apply release_admitted_released.

Section Methods.
  Context `{Env}.

(** The state of a method that starts by reading its request. *)
Lemma at_request {A} (R : relation Impl) id r s (k : RequestRecord -> M A) :
  requests s !! id = Some r -> steps R s (k r) -> steps R s (gets (fun s => request_of s id) ≫= k).
Proof. intros Hr Hk. apply steps_gets_bind. unfold request_of. by rewrite Hr. Qed.

Lemma dequeue_changes id r s :
  requests s !! id = Some r -> rec_request_id r = id -> steps (dequeued id r) s (dequeue_request id).
Proof. apply dequeue_dequeued. Qed.

Lemma dequeue_spec id r1 r s :
  rec_spec r1 = rec_spec r -> requests s !! id = Some r1 -> rec_request_id r1 = id ->
  steps (dequeued id r) s (dequeue_request id).
Proof.
  intros Es Hr Hid. destruct (dequeue_changes _ _ _ Hr Hid) as [? ? ? E ? ? T].
  constructor; try done; [by rewrite <- Es|].
  intros t. rewrite T. unfold of_tenant. by rewrite Es.
Qed.

Lemma expire_refines id s : QInv s -> refines s (expire_request id).
Proof.
  intros I. destruct (requests s !! id) as [r|] eqn:Hr.
  2:{ unfold expire_request. apply steps_gets_bind. unfold request_of. rewrite Hr. simpl. apply steps_ret, _. }
  pose proof (q_key _ I _ _ Hr) as Hid. pose proof (expire_requests id s r Hr) as ER.
  case_bool_decide as Hs.
  2:{ unfold expire_request. apply (at_request _ id r); [done|].
      rewrite bool_decide_eq_false_2 by done. apply steps_ret, _. }
  apply rtc_once. eapply mi_drop; [done..|apply dropped_expired|done| |]; as_steps;
    unfold expire_request; (eapply at_request; [done|]);
    rewrite bool_decide_eq_true_2 by done; simpl.
  - mhit queue_base. by apply dequeue_changes.
  - find_released.
Qed.

Lemma enqueue_spec id r1 r s :
  rec_spec r1 = rec_spec r -> rec_generation r1 = rec_generation r ->
  requests s !! id = Some r1 -> rec_request_id r1 = id ->
  steps (enqueued id r) s (enqueue_request id).
Proof.
  intros Es Eg Hr Hid. destruct (enqueue_enqueued _ _ _ Hr Hid) as [? ? ? E P A T].
  rewrite Es, ?Eg in *. constructor; try done.
  intros t. rewrite T. unfold of_tenant. by rewrite Es.
Qed.

(** [make_retry] up to its [enqueue_request], and after it. *)
Lemma make_retry_split id rp s r :
  requests s !! id = Some r ->
  exists b gen att t t2 s1,
    requests s1 = <[id := pre_retry rp b gen att t t2 r]> (requests s) /\ same_queue s s1 /\
    requests (exec (make_retry id rp) s) = requests (exec (enqueue_request id) s1) /\
    same_queue (exec (enqueue_request id) s1) (exec (make_retry id rp) s).
Proof.
  intros Hr. unfold make_retry. rewrite !exec_bind.
  match goal with |- context [release_batch_member id ?w] => 
    match goal with |- context [exec (release_batch_member id w) ?s1] =>
      destruct (release_batch_member_requests id w s1) as [b Eb] end end.
  match goal with |- context [exec (enqueue_request id) ?s1] => set (S1 := s1) end.
  exists b. do 4 eexists. exists S1. split_and!.
  - subst S1. reqs. rewrite Eb. reqs. erewrite alter_Some by done. reflexivity.
  - subst S1. repeat (apply steps_after; [exact _| |solve [mwalk queue_base]]). reflexivity.
  - reqs. done.
  - rewrite exec_gets. as_steps. mwalk queue_base.
Qed.

Lemma make_retry_effect id rp s r :
  requests s !! id = Some r -> rec_request_id r = id ->
  exists b gen att t t2 t3,
    requests (exec (make_retry id rp) s) = <[id := set_retry rp b gen att t t2 t3 r]> (requests s) /\
    enqueued id (set_retry rp b gen att t t2 t3 r) s (exec (make_retry id rp) s).
Proof.
  intros Hr Hid. destruct (make_retry_split id rp s r Hr) as (b & gen & att & t & t2 & s1 & E1 & Q1 & E2 & Q2).
  destruct (enqueue_requests id s1) as [t3 E3].
  assert (requests s1 !! id = Some (pre_retry rp b gen att t t2 r)) as H1 by (rewrite E1; apply lookup_insert_eq).
  exists b, gen, att, t, t2, t3. split.
  - rewrite E2, E3, (alter_Some _ _ _ _ H1), E1. apply insert_insert_eq.
  - eapply absorb_l; [done|]. eapply absorb_r; [|done].
    eapply (enqueue_spec id (pre_retry rp b gen att t t2 r)); [done..|]. by destruct b.
Qed.

(** ** The end of a request that holds a worker *)

(** The attempt is not in flight on [w] any more. *)
Definition lands (w id : Z) : relation Impl := fun _ s' => ~ flight s' w id.

(** No attempt goes in flight. *)
Definition fewer : relation Impl := fun s s' => forall w id, flight s' w id -> flight s w id.

#[export] Instance fewer_preorder : PreOrder fewer.
Proof. unfold fewer. split; repeat intro; auto. Qed.

#[export] Instance absorbs_lands w id : Absorbs fewer (lands w id).
Proof. split; unfold lands, fewer; [done|]. intros s s1 s2 Hn F Hf. by apply Hn, F. Qed.

Lemma acct_fewer s s' : acct s s' -> fewer s s'.
Proof. by intros []. Qed.
Lemma steps_fewer {A} s (m : M A) : steps acct s m -> steps fewer s m.
Proof. apply acct_fewer. Qed.
Lemma release_admitted_fewer t s : steps fewer s (release_admitted t).
Proof. intros w id. by apply release_admitted_released. Qed.
#[local] Hint Resolve release_admitted_fewer : frame.
#[local] Hint Extern 3 (steps fewer _ _) => (apply steps_fewer; solve [auto 2 with frame nocore]) : frame.
Ltac fewer_base := apply acct_fewer; acct_base.

Lemma release_lands id w s :
  (exists r, requests s !! id = Some r /\ rec_request_id r = id) ->
  steps (lands w id) s (release_batch_member id w).
Proof. intros (r & Hr & Hid). by eapply release_batch_member_lands. Qed.

(** The specification read after the release is the request's. *)
Ltac read_spec :=
  rewrite ?result_gets; f_equal; unfold request_of; reqs;
  repeat (edestruct release_batch_member_requests as [? ->]; reqs);
  erewrite ?alter_Some by eassumption; rewrite ?lookup_insert_eq; simpl; unfold clear_if; repeat case_match; reflexivity.

Ltac find_released_of :=
  repeat mskip acct_base; mhit acct_base;
  match goal with |- steps (released ?t) _ (release_admitted ?t') =>
    replace t' with t; [apply release_admitted_released|read_spec]
  end.

(** The request is still there after the updates that precede the release. *)
Ltac still_there :=
  reqs; erewrite ?alter_Some by eassumption; rewrite ?lookup_insert_eq; eexists; split; [reflexivity|done].

Lemma flight_gone w id s s' :
  (forall w', w' <> w -> ~ flight s w' id) -> ~ flight s' w id ->
  (forall w i, flight s' w i -> flight s w i) -> forall w', ~ flight s' w' id.
Proof. intros Ho Hw HF w' Hf. destruct (decide (w' = w)) as [->|Hn]; [done|]. by eapply Ho, HF. Qed.

Section Finish.
  Context (s : Impl) (id : Z) (r : RequestRecord) (w : Z).
  Context (HI : Inv s) (Hr : requests s !! id = Some r)
          (HO : occupies_worker (rec_state r) = true)
          (Hw : forall w', w' <> w -> ~ flight s w' id).

Let Hid : rec_request_id r = id.
Proof. by eapply q_key; [apply i_queue|]. Qed.

(** The common shape of the four endings. *)
Lemma finish_refines (m : M unit) r' :
  requests (exec m s) = <[id := r']> (requests s) -> ended r r' ->
  steps loose_queue s m -> steps (released (spec_tenant (rec_spec r))) s m ->
  steps (lands w id) s m -> refines s m.
Proof.
  intros ER E LQ RL LA. apply rtc_once. eapply mi_finish; [done..|].
  eapply flight_gone; [done|exact LA|]. apply (rl_flight _ _ _ RL).
Qed.

Lemma finish_success_refines rp :
  cr_worker rp = w -> rec_cancellation_requested r = false -> refines s (finish_success id rp).
Proof.
  intros Hrp HC. destruct (finish_success_requests id rp s) as (b & t & ER).
  erewrite alter_Some in ER by done.
  eapply finish_refines; [done|by apply ended_completed|apply same_loose, finish_success_same_queue| |];
    unfold finish_success; rewrite ?Hrp.
  - find_released_of.
  - do 3 mskip fewer_base. mhit fewer_base. apply release_lands. still_there.
Qed.

Lemma finish_failed_refines rp : cr_worker rp = w -> refines s (finish_failed id rp).
Proof.
  intros Hrp. destruct (finish_failed_requests id rp s) as (b & ER).
  erewrite alter_Some in ER by done.
  eapply finish_refines; [done|by apply ended_failed|apply same_loose, finish_failed_same_queue| |];
    unfold finish_failed; rewrite ?Hrp.
  - find_released_of.
  - mskip fewer_base. mhit fewer_base. apply release_lands. still_there.
Qed.

Lemma complete_expired_refines rp : cr_worker rp = w -> refines s (complete_expired id rp).
Proof.
  intros Hrp. destruct (complete_expired_requests id rp s) as (b & ER).
  erewrite alter_Some in ER by done.
  eapply finish_refines; [done|by apply ended_late|apply same_loose, complete_expired_same_queue| |];
    unfold complete_expired; rewrite ?Hrp.
  - find_released_of.
  - mskip fewer_base. mhit fewer_base. apply release_lands. still_there.
Qed.

Lemma finish_cancelled_refines reason : refines s (finish_cancelled id w reason).
Proof.
  destruct (finish_cancelled_requests id w reason s r Hr) as (b & ER).
  pose proof (occupies_live _ HO) as HL. unfold live in HL. apply negb_true_iff in HL. rewrite HL in ER.
  eapply finish_refines; [done|by apply ended_cancelled| | |]; unfold finish_cancelled;
    (eapply at_request; [done|]); rewrite HL, HO; simpl.
  - eapply dequeued_loose; [by apply i_queue|done|by apply occupies_not_queued|].
    as_steps. mskip queue_base. mhit queue_base.
    edestruct (release_batch_member_requests id w s) as [b' Eb].
    apply (dequeue_spec id (clear_if b' r)); [by destruct b'| |by destruct b'].
    reqs. rewrite Eb. erewrite alter_Some by done. apply lookup_insert_eq.
  - find_released.
  - mhit fewer_base. mhit fewer_base. apply release_lands. eauto.
Qed.

Lemma make_retry_refines rp :
  cr_worker rp = w -> retry_allowed s r -> refines s (make_retry id rp).
Proof.
  intros Hrp HA.
  destruct (make_retry_effect id rp s r Hr Hid) as (b & gen & att & t & t2 & t3 & ER & EQ).
  assert (steps acct s (make_retry id rp)) as AC by (unfold make_retry; mwalk acct_base).
  apply rtc_once. eapply mi_retry; [done..|]. eapply flight_gone; [done| |apply (ac_flight _ _ AC)].
  change (steps (lands w id) s (make_retry id rp)). unfold make_retry. rewrite Hrp.
  mskip fewer_base. mhit fewer_base. apply release_lands. still_there.
Qed.

End Finish.

(** ** Leaving the queue *)

Lemma cancel_queued_refines id w reason r s :
  QInv s -> requests s !! id = Some r -> rec_state r = RS_Queued ->
  refines s (finish_cancelled id w reason).
Proof.
  intros I Hr Hs. pose proof (q_key _ I _ _ Hr) as Hid.
  assert (requests (exec (finish_cancelled id w reason) s) =
          <[id := set_cancelled reason false r]> (requests s)) as ER.
  { unfold finish_cancelled. reqs. unfold request_of. rewrite Hr. simpl default. rewrite Hs. cbn [is_terminal occupies_worker when].
    reqs. by apply alter_Some. }
  apply rtc_once. eapply mi_drop; [done..|apply dropped_cancelled|done| |]; as_steps;
    unfold finish_cancelled; (eapply at_request; [done|]); rewrite Hs; simpl.
  - mskip queue_base. mhit queue_base. by apply dequeue_changes.
  - find_released.
Qed.

Lemma reserve_member_refines w bid now id r s :
  QInv s -> requests s !! id = Some r -> rec_state r = RS_Queued ->
  refines s (reserve_member w bid now id).
Proof.
  intros I Hr Hs. pose proof (q_key _ I _ _ Hr) as Hid.
  pose proof (reserve_member_requests w bid now id s) as ER. erewrite alter_Some in ER by done.
  apply rtc_once. eapply mi_reserve; [done..| |]; as_steps; unfold reserve_member.
  - mhit queue_base. by apply dequeue_changes.
  - mwalk acct_base.
Qed.

Lemma expire_scan_refines now s : Inv s -> refines s (expire_scan now).
Proof.
  intros I. unfold expire_scan. apply steps_gets_bind. apply refine_foreach; [done|].
  intros id s' _ _ I'. apply steps_gets_bind. destruct (requests s' !! id).
  - apply expire_refines, I'.
  - apply steps_ret, _.
Qed.

(** ** Cleaning the ready queues *)

(** [m] neither reads nor writes the flows. *)
Definition flow_blind {A} (m : M A) : Prop :=
  forall s g, m (s <| flows ::= g |>) = let '(a, s') := m s in (a, s' <| flows ::= g |>).

Lemma flow_blind_bind {A B} (m : M A) (k : A -> M B) :
  flow_blind m -> (forall a, flow_blind (k a)) -> flow_blind (m ≫= k).
Proof.
  intros Hm Hk s g. unfold mbind, ST_bind. rewrite Hm. destruct (m s). apply Hk.
Qed.

Ltac blind :=
  repeat first
    [ apply flow_blind_bind; [|intros ?]
    | progress cbv beta zeta
    | match goal with
      | |- flow_blind (when ?b _) => destruct b; simpl
      | |- flow_blind (if ?b then _ else _) => destruct b
      | |- flow_blind (match ?x with _ => _ end) => destruct x
      end
    | solve [intros ??; reflexivity] ].

Lemma tenant_of_blind t : flow_blind (tenant_of t).
Proof. intros s g. unfold tenant_of, modify. simpl. by destruct (tenants s !! t). Qed.

Lemma expire_blind id : flow_blind (expire_request id).
Proof.
  unfold expire_request, dequeue_request, release_admitted, emit_event, modify_tenant, modify_rec,
    modify_stats, clock_now. blind; try apply tenant_of_blind.
  all: intros s g; unfold modify; simpl; by destruct (bool_decide _).
Qed.

End Methods.

#[export] Hint Resolve release_admitted_fewer : frame.
#[export] Hint Extern 3 (steps fewer _ _) => (apply steps_fewer; solve [auto 2 with frame nocore]) : frame.
Ltac fewer_base := apply acct_fewer; acct_base.
