(* ===== verification/Seed.v ===== *)
(** * Seed selection

    [pick_seed] of [src/scheduler.cpp]: it only pops dead or expired entries,
    it finds a request whenever an unexpired one is queued, and it picks the
    flow with the least effective virtual finish. *)

From S2P Require Import Prelude Enums Ids Float64 Types State Admission Queue Batch Dispatch Completion Control Frames Lifecycle Index Accounts Micro Refine.
Open Scope Z_scope.

(** The unexpired requests are left alone. *)
Record calm (now : Z) (s s' : Impl) : Prop := {
  cm_cfg : cfg s' = cfg s;
  cm_keep : forall id r, requests s !! id = Some r -> is_expired (rec_spec r) now = false ->
    requests s' !! id = Some r
}.

#[export] Instance calm_preorder now : PreOrder (calm now).
Proof.
  split.
  - intros s. by constructor.
  - intros s1 s2 s3 [C1 K1] [C2 K2]. constructor; [congruence|]. intros id r Hr He.
    apply K2; [|done]. by apply K1.
Qed.

(** The front entry of the flow [k] stands for a request that can run. *)
Definition good (s : Impl) (now : Z) (k : FlowKey) : Prop :=
  exists e q r, fl_pending (flow_of s k) = e :: q /\ requests s !! re_id e = Some r /\
    rec_state r = RS_Queued /\ is_expired (rec_spec r) now = false.

Lemma good_calm now k s s' :
  good s now k -> calm now s s' -> flows s' !! k = flows s !! k -> good s' now k.
Proof.
  intros (e & q & r & Hp & Hr & Hs & He) [_ K] Hf. exists e, q, r. split_and!; auto.
  unfold flow_of in *. by rewrite Hf.
Qed.

Section Seed.
  Context `{Env}.

Lemma rtc_micro_cfg s s' : rtc micro s s' -> cfg s' = cfg s.
Proof. induction 1 as [|? ? ? Hm _ IH]; [done|]. by rewrite IH, (micro_cfg _ _ Hm). Qed.

Lemma expire_calm now id r s :
  QInv s -> requests s !! id = Some r -> is_expired (rec_spec r) now = true ->
  calm now s (exec (expire_request id) s).
Proof.
  intros I Hr He. pose proof (expire_requests id s r Hr) as ER. constructor.
  - by apply rtc_micro_cfg, expire_refines.
  - intros i x Hx Hn. rewrite ER. destruct (bool_decide _); [|done].
    rewrite lookup_insert_ne; [done|]. congruence.
Qed.

Ltac flows_base := reflexivity.

Lemma expire_flows id s : flows (exec (expire_request id) s) = flows s.
Proof.
  change (steps (same flows) s (expire_request id)).
  unfold expire_request, dequeue_request, release_admitted, tenant_of, emit_event, modify_tenant,
    modify_rec, modify_stats, clock_now. mwalk flows_base.
  - unfold same. by case_match.
  - unfold same. by case_match.
Qed.

(** What cleaning the flows of [ks] does to the state. *)
Record cleaned (ks : list FlowKey) (now : Z) (s s' : Impl) : Prop := {
  cl_micro : rtc micro s s';
  cl_calm : calm now s s';
  cl_flows : forall k, k ∉ ks -> flows s' !! k = flows s !! k
}.

Lemma cleaned_trans ks ks1 ks2 now s s1 s2 :
  cleaned ks1 now s s1 -> cleaned ks2 now s1 s2 -> ks1 ⊆ ks -> ks2 ⊆ ks -> cleaned ks now s s2.
Proof.
  intros [M1 C1 F1] [M2 C2 F2] H1 H2. constructor; [by etrans|by etrans|].
  intros k Hk. rewrite F2, F1; [done|set_solver..].
Qed.

(** The pop of [prune_pending]. *)
Definition pop_entry (k : FlowKey) (rest : list ReadyEntry) (s : Impl) : Impl :=
  s <| flows ::= alter (fun f => f <| fl_pending := rest |>) k |>.

Lemma pop_micro k e rest f s :
  flows s !! k = Some f -> fl_pending f = e :: rest -> dead_entry s e ->
  micro s (pop_entry k rest s).
Proof.
  intros Hf Hp HD. apply (mi_pop _ _ k e); [done| |done|by constructor].
  constructor; try done; unfold flow_of, pop_entry; simpl.
  - by rewrite lookup_alter_eq, Hf.
  - intros k' Hk. by rewrite lookup_alter_ne.
Qed.

Lemma pop_cleaned k e rest f now s :
  flows s !! k = Some f -> fl_pending f = e :: rest -> dead_entry s e ->
  cleaned [k] now s (pop_entry k rest s).
Proof.
  intros. constructor; [apply rtc_once; by eapply pop_micro|by constructor|].
  intros k' Hk. unfold pop_entry. simpl. rewrite lookup_alter_ne; [done|set_solver].
Qed.

Lemma dead_entry_skip s e r :
  QInv s -> requests s !! re_id e = Some r ->
  negb (bool_decide (re_id e ∈ queued s)) || negb (rec_generation r =? re_generation e) = true ->
  dead_entry s e.
Proof.
  intros I Hr HB r' Hr' Hs. simplify_eq. apply orb_true_iff in HB as [HB|HB].
  - apply negb_true_iff, bool_decide_eq_false in HB. destruct HB. apply I. eauto.
  - by apply negb_true_iff, Z.eqb_neq in HB.
Qed.

(** The expired entry at the front: popped and expired in one go. *)
Lemma pop_expire_cleaned k e rest f now r s :
  Inv s -> flows s !! k = Some f -> fl_pending f = e :: rest ->
  requests s !! re_id e = Some r -> rec_state r = RS_Queued ->
  is_expired (rec_spec r) now = true ->
  cleaned [k] now s (exec (expire_request (re_id e)) (pop_entry k rest s)).
Proof.
  intros I Hf Hp Hr Hs He.
  assert (exec (expire_request (re_id e)) (pop_entry k rest s) =
          pop_entry k rest (exec (expire_request (re_id e)) s)) as ->.
  { unfold exec, pop_entry. rewrite expire_blind. by destruct (expire_request _ s). }
  eapply (cleaned_trans _ [] [k]); [| |set_solver..].
  - constructor; [by apply expire_refines, I|eapply expire_calm; [apply I|done..]|].
    intros. by rewrite expire_flows.
  - eapply pop_cleaned; [by rewrite expire_flows|done|].
    intros r' Hr' Hs'. rewrite (expire_requests _ _ _ Hr), bool_decide_eq_true_2 in Hr' by done.
    rewrite lookup_insert_eq in Hr'. simplify_eq.
Qed.

Definition prune_post (k : FlowKey) (now : Z) (alive : bool) (s : Impl) : Prop :=
  if alive then good s now k else fl_pending (flow_of s k) = [].

Lemma prune_spec k now q s f :
  Inv s -> flows s !! k = Some f -> fl_pending f = q ->
  cleaned [k] now s (exec (prune_pending k now q) s) /\
  prune_post k now (result (prune_pending k now q) s) (exec (prune_pending k now q) s).
Proof.
  revert s f. induction q as [|e rest IH]; intros s f I Hf Hp; cbn [prune_pending].
  - rewrite exec_ret, result_ret. split; [by constructor|]. simpl. unfold flow_of. by rewrite Hf.
  - assert (forall s1, cleaned [k] now s s1 -> flows s1 !! k = Some (f <| fl_pending := rest |>) ->
      cleaned [k] now s (exec (prune_pending k now rest) s1) /\
      prune_post k now (result (prune_pending k now rest) s1) (exec (prune_pending k now rest) s1)) as Hnext.
    { intros s1 C1 Hf1. destruct (IH s1 _ (Inv_rtc _ _ (cl_micro _ _ _ _ C1) I) Hf1 eq_refl) as [C2 P2].
      split; [|done]. by eapply cleaned_trans. }
    assert (flows (pop_entry k rest s) !! k = Some (f <| fl_pending := rest |>)) as Hf1.
    { simpl. by rewrite lookup_alter_eq, Hf. }
    rewrite !exec_bind, !result_bind, !result_gets, !exec_gets.
    destruct (requests s !! re_id e) as [r|] eqn:Hr.
    2:{ rewrite exec_bind, result_bind. apply (Hnext (pop_entry k rest s)); [|done].
        eapply pop_cleaned; [done..|]. intros ? ?. congruence. }
    destruct (_ || _) eqn:HB.
    { rewrite exec_bind, result_bind. apply (Hnext (pop_entry k rest s)); [|done].
      eapply pop_cleaned; [done..|]. by eapply dead_entry_skip; [apply I| |]. }
    assert (rec_state r = RS_Queued) as Hs.
    { apply orb_false_iff in HB as [HB _]. apply negb_false_iff, bool_decide_eq_true in HB.
      apply I in HB as (? & ? & ?). congruence. }
    destruct (is_expired (rec_spec r) now) eqn:He.
    + rewrite !exec_bind, !result_bind.
      apply (Hnext (exec (expire_request (re_id e)) (pop_entry k rest s))).
      * by eapply pop_expire_cleaned.
      * by rewrite expire_flows.
    + rewrite exec_ret, result_ret. split; [by constructor|]. exists e, rest, r.
      unfold flow_of. rewrite Hf. done.
Qed.

(** ** The scan of the active flows *)

Definition has_pending (s : Impl) (k : FlowKey) : bool :=
  negb (bool_decide (fl_pending (flow_of s k) = [])).

(** The reference selection: the best flow of a list, on one state. *)
Definition choose (s : Impl) (now : Z) (best : option (f64 * FlowKey)) (k : FlowKey)
    : option (f64 * FlowKey) :=
  if better_flow (flow_finish s now k) k best then Some (flow_finish s now k, k) else best.

Lemma flow_finish_calm now k s s' :
  good s now k -> calm now s s' -> flows s' !! k = flows s !! k ->
  flow_finish s' now k = flow_finish s now k.
Proof.
  intros (e & q & r & Hp & Hr & Hs & He) [C K] Hf. unfold flow_finish, flow_of in *.
  rewrite Hf, Hp, C. unfold request_of. by rewrite Hr, (K _ _ Hr He).
Qed.

Lemma good_pending now k s : good s now k -> has_pending s k = true.
Proof. intros (e & q & r & Hp & _). unfold has_pending. by rewrite Hp. Qed.

Lemma has_pending_flows k s s' : flows s' !! k = flows s !! k -> has_pending s' k = has_pending s k.
Proof. unfold has_pending, flow_of. by intros ->. Qed.

Lemma touch_flow_cleaned k now s : cleaned [k] now s (exec (put_flow k (flow_of s k)) s).
Proof.
  constructor; [apply rtc_once, mi_frame; [done| |by constructor]| by constructor|].
  - constructor; try done. intros k'. unfold flow_of. simpl. rewrite lookup_insert.
    case_decide; by subst.
  - intros k' Hk. simpl. rewrite lookup_insert_ne; [done|set_solver].
Qed.

Lemma retire_cleaned k now s :
  fl_pending (flow_of s k) = [] ->
  cleaned [] now s (exec (modify (fun s => s <| active_flows ::= fun a => a ∖ {[k]} |>)) s).
Proof.
  intros Hp. constructor; [|by constructor|done].
  apply rtc_once, (mi_retire _ _ k); [done| |by constructor]. by constructor.
Qed.

Lemma scan_spec now ks best s :
  Inv s -> NoDup ks ->
  let s' := exec (scan_flows now ks best) s in
  cleaned ks now s s' /\
  (forall k, k ∈ ks -> good s' now k \/ fl_pending (flow_of s' k) = []) /\
  result (scan_flows now ks best) s = fold_left (choose s' now) (List.filter (has_pending s') ks) best.
Proof.
  revert best s. induction ks as [|k ks IH]; intros best s I ND; cbn [scan_flows].
  { split_and!; [by constructor|set_solver|done]. }
  apply NoDup_cons in ND as [Hk ND]. rewrite !exec_bind, !result_bind, !result_gets, !exec_gets.
  set (s1 := exec (put_flow k (flow_of s k)) s).
  assert (cleaned [k] now s s1) as C1 by apply touch_flow_cleaned.
  assert (Inv s1) as I1 by (eapply Inv_rtc; [apply (cl_micro _ _ _ _ C1)|done]).
  destruct (prune_spec k now (fl_pending (flow_of s k)) s1 (flow_of s k) I1) as [C2 P2];
    [by simpl; rewrite lookup_insert_eq|done|].
  set (s2 := exec (prune_pending _ _ _) s1) in *.
  assert (cleaned [k] now s s2) as C12 by (by eapply cleaned_trans).
  assert (Inv s2) as I2 by (eapply Inv_rtc; [apply (cl_micro _ _ _ _ C12)|done]).
  destruct (result (prune_pending _ _ _) s1); simpl in P2; cbn [negb].
  - rewrite exec_bind, result_bind, result_gets, exec_gets.
    destruct (IH (if better_flow (flow_finish s2 now k) k best then Some (flow_finish s2 now k, k) else best)
      s2 I2 ND) as (C3 & G3 & R3).
    set (s3 := exec (scan_flows _ _ _) s2) in *.
    assert (flows s3 !! k = flows s2 !! k) as Hf by by apply C3.
    assert (good s3 now k) as Gk by (eapply good_calm; [done|apply C3|done]).
    split_and!.
    + eapply cleaned_trans; [done..|set_solver|set_solver].
    + intros k' [->|Hk']%elem_of_cons; auto.
    + rewrite R3. simpl. rewrite (good_pending _ _ _ Gk). simpl. f_equal. unfold choose.
      by rewrite (flow_finish_calm now k s2 s3 P2 (cl_calm _ _ _ _ C3) Hf).
  - rewrite exec_bind, result_bind.
    pose proof (retire_cleaned k now s2 P2) as C3. set (s3 := exec (modify _) s2) in *.
    destruct (IH best s3 (Inv_rtc _ _ (cl_micro _ _ _ _ C3) I2) ND) as (C4 & G4 & R4).
    set (s4 := exec (scan_flows _ _ _) s3) in *.
    assert (flows s4 !! k = flows s2 !! k) as Hf by by rewrite (cl_flows _ _ _ _ C4).
    assert (fl_pending (flow_of s4 k) = []) as Hp by (unfold flow_of in *; by rewrite Hf).
    split_and!.
    + eapply cleaned_trans; [exact C12| |set_solver|reflexivity].
      eapply cleaned_trans; [exact C3|exact C4|set_solver|set_solver].
    + intros k' [->|Hk']%elem_of_cons; auto.
    + rewrite R4. simpl. unfold has_pending at 2. by rewrite Hp.
Qed.

Lemma sorted_flows_perm fs : sorted_flows fs ≡ₚ elements fs.
Proof. apply merge_sort_Permutation. Qed.

Lemma elem_of_sorted_flows k fs : k ∈ sorted_flows fs <-> k ∈ fs.
Proof. by rewrite sorted_flows_perm, elem_of_elements. Qed.

Lemma NoDup_sorted_flows fs : NoDup (sorted_flows fs).
Proof. rewrite sorted_flows_perm. apply NoDup_elements. Qed.

Lemma fold_choose_some s now ks b :
  b <> None -> fold_left (choose s now) ks b <> None.
Proof.
  revert b. induction ks as [|k ks IH]; intros b Hb; simpl; [done|].
  apply IH. unfold choose. by case_match.
Qed.

Lemma fold_choose_none s now ks : fold_left (choose s now) ks None = None -> ks = [].
Proof. destruct ks; [done|]. simpl. intros Hn. by apply fold_choose_some in Hn. Qed.

Lemma fold_choose_in s now ks b e k :
  fold_left (choose s now) ks b = Some (e, k) ->
  b = Some (e, k) \/ (k ∈ ks /\ e = flow_finish s now k).
Proof.
  revert b. induction ks as [|k' ks IH]; intros b; simpl; [by left|].
  intros [Hc|[? ?]]%IH; [|right; set_solver].
  unfold choose in Hc. case_match; simplify_eq; [right; set_solver|by left].
Qed.

Lemma pick_spec now s :
  Inv s ->
  let ks := sorted_flows (active_flows s) in
  let s' := exec (pick_seed now) s in
  cleaned ks now s s' /\
  (forall k, k ∈ ks -> good s' now k \/ fl_pending (flow_of s' k) = []) /\
  result (pick_seed now) s =
    (best ← fold_left (choose s' now) (List.filter (has_pending s') ks) None;
     re_id <$> head (fl_pending (flow_of s' best.2))).
Proof.
  intros I. unfold pick_seed. rewrite !exec_bind, !result_bind, !result_gets, !exec_gets.
  destruct (scan_spec now (sorted_flows (active_flows s)) None s I (NoDup_sorted_flows _)) as (C & G & R).
  set (s1 := exec (scan_flows _ _ _) s) in *. rewrite R.
  destruct (fold_left _ _ None) as [[e k]|] eqn:E;
    rewrite ?exec_gets, ?exec_ret, ?result_gets, ?result_ret; cbv zeta; by rewrite E.
Qed.

(** A seed is a queued request that has not expired. *)
Lemma pick_runnable now s id :
  Inv s -> result (pick_seed now) s = Some id ->
  exists r, requests (exec (pick_seed now) s) !! id = Some r /\ rec_state r = RS_Queued /\
    is_expired (rec_spec r) now = false.
Proof.
  intros I Hp. destruct (pick_spec now s I) as (C & G & R). rewrite R in Hp. clear R.
  destruct (fold_left _ _ None) as [[e k]|] eqn:E; [|done]. simpl in Hp.
  apply fold_choose_in in E as [|[Hk _]]; [done|].
  apply list_elem_of_In, filter_In in Hk as [Hk Hn]. apply list_elem_of_In in Hk.
  destruct (G k Hk) as [(e' & q & r & Hq & Hr & Hs & He)|Hn'].
  - rewrite Hq in Hp. simpl in Hp. simplify_eq. eauto.
  - unfold has_pending in Hn. by rewrite Hn' in Hn.
Qed.

(** No seed is found only when nothing runnable is queued. *)
Lemma pick_none now s id r :
  Inv s -> result (pick_seed now) s = None ->
  requests s !! id = Some r -> rec_state r = RS_Queued -> is_expired (rec_spec r) now = true.
Proof.
  intros I Hp Hr Hs. destruct (is_expired _ _) eqn:He; [done|]. exfalso.
  destruct (pick_spec now s I) as (C & G & R). rewrite Hp in R. set (s' := exec (pick_seed now) s) in *.
  assert (Inv s') as I' by (eapply Inv_rtc; [apply (cl_micro _ _ _ _ C)|done]).
  pose proof (cm_keep _ _ _ (cl_calm _ _ _ _ C) _ _ Hr He) as Hr'.
  set (k := flow_key (rec_spec r)).
  assert (has_pending s' k = true) as Hk.
  { destruct (q_entry _ (i_queue _ I') _ _ Hr' Hs) as (e & Hin & _). fold k in Hin.
    unfold has_pending. destruct (fl_pending (flow_of s' k)); [set_solver|done]. }
  assert (k ∈ sorted_flows (active_flows s)) as Hin.
  { apply elem_of_sorted_flows, (q_active _ (i_queue _ I)).
    destruct (q_entry _ (i_queue _ I) _ _ Hr Hs) as (e & Hin & _). fold k in Hin.
    intros E. rewrite E in Hin. set_solver. }
  assert (In k (List.filter (has_pending s') (sorted_flows (active_flows s)))) as HF.
  { apply filter_In. by rewrite <- list_elem_of_In. }
  destruct (fold_left _ _ None) as [[e k']|] eqn:E.
  - apply fold_choose_in in E as [|[Hk' _]]; [done|].
    apply list_elem_of_In, filter_In in Hk' as [_ Hn]. simpl in R. unfold has_pending in Hn.
    by destruct (fl_pending (flow_of s' k')).
  - apply fold_choose_none in E. by rewrite E in HF.
Qed.

End Seed.
