(* ===== verification/BatchSpec.v ===== *)
(** * Batches

    What [form_batch] of [src/scheduler.cpp] returns. *)

From S2P Require Import Prelude Enums Ids Float64 Types State Admission Queue Batch Index.
Open Scope Z_scope.

(** ** The greedy loop *)

(** The running token sum, with the wrap-around of [std::int64_t]. *)
Definition token_sum (s : Impl) (tok : Z) (l : list Z) : Z :=
  fold_left (fun t id => i64 (t + request_tokens s id)) l tok.

Lemma fill_batch_prefix s maxb tok acc cands :
  exists n, fill_batch s maxb tok acc cands = acc ++ take n cands.
Proof.
  revert tok acc. induction cands as [|id cands IH]; intros tok acc; simpl.
  { exists O. by rewrite app_nil_r. }
  assert (exists n, acc = acc ++ take n (id :: cands)) as Hstop.
  { exists O. by rewrite app_nil_r. }
  destruct (_ <=? _); [done|]. destruct (0 <? _).
  - destruct (_ <? _); [done|]. destruct (IH (i64 (tok + request_tokens s id)) (acc ++ [id])) as [n ->].
    exists (Datatypes.S n). by rewrite <- app_assoc.
  - destruct (IH tok (acc ++ [id])) as [n ->]. exists (Datatypes.S n). by rewrite <- app_assoc.
Qed.

Lemma i32_id z : - 2 ^ 31 <= z < 2 ^ 31 -> i32 z = z.
Proof. intros. unfold i32. rewrite Z.mod_small; lia. Qed.

Lemma fill_batch_length s maxb tok acc cands :
  Z.of_nat (length acc) <= maxb < 2 ^ 31 ->
  Z.of_nat (length (fill_batch s maxb tok acc cands)) <= maxb.
Proof.
  revert tok acc. induction cands as [|id cands IH]; intros tok acc Hl; simpl; [lia|].
  rewrite i32_id by lia. destruct (Z.leb_spec maxb (Z.of_nat (length acc))); [lia|].
  assert (Z.of_nat (length (acc ++ [id])) <= maxb < 2 ^ 31) by (rewrite length_app; simpl; lia).
  repeat case_match; auto; lia.
Qed.

(** The token bound holds for every member the loop adds. *)
Lemma fill_batch_tokens s maxb tok acc cands rest :
  0 < bc_max_tokens (cfg_batch (cfg s)) ->
  fill_batch s maxb tok acc cands = acc ++ rest -> rest <> [] ->
  token_sum s tok rest <= bc_max_tokens (cfg_batch (cfg s)).
Proof.
  intros Hpos. revert tok acc rest. induction cands as [|id cands IH]; intros tok acc rest; simpl.
  { intros E Hr. destruct Hr. apply (app_inv_head acc). by rewrite app_nil_r. }
  assert (acc = acc ++ rest -> rest <> [] ->
    token_sum s tok rest <= bc_max_tokens (cfg_batch (cfg s))) as Hstop.
  { intros E Hr. destruct Hr. apply (app_inv_head acc). by rewrite app_nil_r. }
  destruct (_ <=? _); [done|]. rewrite (proj2 (Z.ltb_lt _ _) Hpos).
  destruct (Z.ltb_spec (bc_max_tokens (cfg_batch (cfg s))) (i64 (tok + request_tokens s id))); [done|].
  intros E _. destruct (fill_batch_prefix s maxb (i64 (tok + request_tokens s id)) (acc ++ [id]) cands) as [n En].
  assert (rest = id :: take n cands) as ->.
  { rewrite En, <- app_assoc in E. by apply app_inv_head in E. }
  simpl. destruct (decide (take n cands = [])) as [->|Hn]; [done|].
  apply (IH _ (acc ++ [id])); [done|done].
Qed.

(** The loop stops early only at one of its bounds. *)
Lemma fill_batch_greedy s maxb tok acc cands rest id more :
  fill_batch s maxb tok acc cands = acc ++ rest -> cands = rest ++ id :: more ->
  Z.of_nat (length cands) + Z.of_nat (length acc) < 2 ^ 31 ->
  maxb <= Z.of_nat (length (acc ++ rest)) \/
  (0 < bc_max_tokens (cfg_batch (cfg s)) /\
   bc_max_tokens (cfg_batch (cfg s)) < token_sum s tok (rest ++ [id])).
Proof.
  revert tok acc rest. induction cands as [|c cands IH]; intros tok acc rest E Hc Hl; simpl in *.
  { by destruct rest. }
  rewrite i32_id in E by lia.
  destruct rest as [|x rest]; simplify_eq/=.
  - rewrite app_nil_r in *. destruct (Z.leb_spec maxb (Z.of_nat (length acc))); [lia|].
    assert (forall t, fill_batch s maxb t (acc ++ [id]) more <> acc) as Hgrow.
    { intros t Hf. destruct (fill_batch_prefix s maxb t (acc ++ [id]) more) as [n Hn].
      rewrite Hf in Hn. apply (f_equal length) in Hn. rewrite !length_app in Hn. simpl in Hn. lia. }
    destruct (Z.ltb_spec 0 (bc_max_tokens (cfg_batch (cfg s)))); [|by apply Hgrow in E].
    destruct (Z.ltb_spec (bc_max_tokens (cfg_batch (cfg s))) (i64 (tok + request_tokens s id))).
    + right. done.
    + by apply Hgrow in E.
  - assert (forall t, fill_batch s maxb t (acc ++ [x]) (rest ++ id :: more) = acc ++ x :: rest ->
      maxb <= Z.of_nat (length (acc ++ x :: rest)) \/
      0 < bc_max_tokens (cfg_batch (cfg s)) /\
      bc_max_tokens (cfg_batch (cfg s)) < token_sum s t (rest ++ [id])) as Hnext.
    { intros t Ht. rewrite (app_assoc acc [x] rest : acc ++ x :: rest = _) in Ht |- *.
      apply (IH t (acc ++ [x]) rest); [done|done|]. rewrite !length_app in *. simpl in *. lia. }
    assert (acc = acc ++ x :: rest -> False) as Hstop.
    { intros Ht. apply (f_equal length) in Ht. rewrite length_app in Ht. simpl in Ht. lia. }
    destruct (_ <=? _); [by apply Hstop in E|].
    destruct (Z.ltb_spec 0 (bc_max_tokens (cfg_batch (cfg s)))).
    + destruct (_ <? _); [by apply Hstop in E|]. by apply Hnext in E.
    + apply Hnext in E as [|[? _]]; [by left|lia].
Qed.

(** ** The order of the candidates *)

Lemma cand_le_spec s now a b :
  cand_le s now a b <->
  let sa := slack_of (rec_spec (request_of s a)) now in
  let sb := slack_of (rec_spec (request_of s b)) now in
  let pa := PriorityClass_int (spec_priority (rec_spec (request_of s a))) in
  let pb := PriorityClass_int (spec_priority (rec_spec (request_of s b))) in
  sa < sb \/ (sa = sb /\ (pb < pa \/ (pa = pb /\ a <= b))).
Proof.
  unfold cand_le, cand_ltb. cbv zeta.
  repeat match goal with |- context [if negb (?x =? ?y) then _ else _] => destruct (Z.eqb_spec x y); simpl end;
    rewrite Z.ltb_ge; lia.
Qed.

#[export] Instance cand_le_trans s now : Transitive (cand_le s now).
Proof. intros a b c. rewrite !cand_le_spec. cbv zeta. lia. Qed.

#[export] Instance cand_le_total s now : Total (cand_le s now).
Proof. intros a b. rewrite !cand_le_spec. cbv zeta. lia. Qed.

Lemma batch_candidates_sorted s seed now :
  StronglySorted (cand_le s now) (batch_candidates s seed now).
Proof. apply (StronglySorted_merge_sort _). Qed.

Lemma elem_of_batch_candidates s seed now id :
  id ∈ batch_candidates s seed now <->
  batch_candidate s seed now id = true /\
  id ∈ compat_ids s (compat_key (cfg s) (rec_spec (request_of s seed))).
Proof.
  unfold batch_candidates. rewrite merge_sort_Permutation, list_elem_of_In, filter_In.
  rewrite list_elem_of_In. tauto.
Qed.

Lemma elem_of_compat_ids s k id : id ∈ compat_ids s k <-> id ∈ default ∅ (compat s !! k).
Proof. unfold compat_ids. destruct (compat s !! k); simpl; [apply elem_of_elements|set_solver]. Qed.

Lemma NoDup_batch_candidates s seed now : NoDup (batch_candidates s seed now).
Proof.
  unfold batch_candidates. rewrite merge_sort_Permutation.
  apply NoDup_ListNoDup, List.NoDup_filter, NoDup_ListNoDup.
  unfold compat_ids. destruct (compat s !! _); [apply NoDup_elements|constructor].
Qed.

Lemma batch_candidate_spec s seed now id :
  batch_candidate s seed now id = true <->
  id <> seed /\ id ∈ queued s /\
  exists r, requests s !! id = Some r /\ rec_state r = RS_Queued /\ is_expired (rec_spec r) now = false.
Proof.
  unfold batch_candidate. rewrite !andb_true_iff, negb_true_iff, Z.eqb_neq, bool_decide_eq_true.
  destruct (requests s !! id) as [r|].
  - rewrite andb_true_iff, bool_decide_eq_true, negb_true_iff. naive_solver.
  - naive_solver.
Qed.

Lemma StronglySorted_take {A} (R : relation A) n l : StronglySorted R l -> StronglySorted R (take n l).
Proof.
  intros Hs. revert n. induction Hs as [|x l Hs IH Hx]; intros [|n]; simpl; constructor; auto.
  by apply Forall_take.
Qed.

Lemma elem_of_take_in {A} (x : A) n l : x ∈ take n l -> x ∈ l.
Proof. rewrite <- (take_drop n l) at 2. intros. apply elem_of_app. by left. Qed.

(** The members that follow the seed. *)
Lemma form_batch_members s seed now r :
  requests s !! seed = Some r ->
  exists n, form_batch s seed now = seed :: take n (batch_candidates s seed now).
Proof.
  intros Hr. unfold form_batch. rewrite Hr.
  destruct (fill_batch_prefix s (batch_limit s seed) (request_tokens s seed) [seed]
    (batch_candidates s seed now)) as [n ->]. by exists n.
Qed.

Lemma form_batch_NoDup s seed now : NoDup (form_batch s seed now).
Proof.
  unfold form_batch. destruct (requests s !! seed) as [r|] eqn:Hr; [|constructor].
  destruct (fill_batch_prefix s (batch_limit s seed) (request_tokens s seed) [seed]
    (batch_candidates s seed now)) as [n ->]. simpl. apply NoDup_cons. split.
  - intros Hin%elem_of_take_in. apply elem_of_batch_candidates in Hin as [Hc _].
    by apply batch_candidate_spec in Hc as [? _].
  - eapply sublist_NoDup; [apply NoDup_batch_candidates|]. apply sublist_take.
Qed.

(** Every member but the seed is a queued request of the seed's batching key
    that has not expired. *)
Lemma form_batch_member s seed now id :
  QInv s -> id ∈ form_batch s seed now -> id <> seed ->
  exists r, requests s !! id = Some r /\ rec_state r = RS_Queued /\
    is_expired (rec_spec r) now = false /\
    compat_key (cfg s) (rec_spec r) = compat_key (cfg s) (rec_spec (request_of s seed)).
Proof.
  intros I Hin Hne. destruct (requests s !! seed) as [r0|] eqn:Hr0.
  2:{ unfold form_batch in Hin. rewrite Hr0 in Hin. set_solver. }
  destruct (form_batch_members s seed now r0 Hr0) as [n E]. rewrite E in Hin.
  apply elem_of_cons in Hin as [|Hin]; [done|].
  apply elem_of_take_in, elem_of_batch_candidates in Hin as [Hc Hk].
  apply batch_candidate_spec in Hc as (_ & _ & r & Hr & Hs & He).
  exists r. split_and!; try done.
  apply elem_of_compat_ids, I in Hk as (? & ? & _ & ?). congruence.
Qed.
