(* ===== verification/Handlers.v ===== *)
(** * The operations implement the lifecycle machine

    Every public operation of the scheduler runs as a sequence of [micro]
    steps, from a state that satisfies the invariant. *)

From S2P Require Import Prelude Enums Ids Float64 Types State Admission Queue Batch Dispatch Completion Control Frames Lifecycle Index Accounts Micro Refine Seed BatchSpec.
Open Scope Z_scope.

Section Handlers.
  Context `{Env}.

(** Frames of the dispatcher. *)
Lemma worker_slot_same_index w s : steps same_index s (worker_slot w).
Proof. unfold worker_slot. mwalk idtac. by case_match; constructor. Qed.
Lemma worker_slot_acct w s : steps acct s (worker_slot w).
Proof.
  unfold worker_slot. apply steps_modify. destruct (workers s !! w) eqn:E; [done|].
  constructor; try done. intros w' id (wr & Hw & Hi). simpl in Hw.
  rewrite lookup_insert in Hw. case_decide; [|by exists wr]. simplify_eq. simpl in Hi.
  rewrite lookup_empty in Hi. by destruct Hi.
Qed.
Lemma reserve_on_same_index w bid u ms s : steps same_index s (reserve_on w bid u ms).
Proof. unfold reserve_on. mwalk frame_base. Qed.
Lemma reserve_on_acct w bid u ms s : steps acct s (reserve_on w bid u ms).
Proof. unfold reserve_on, modify_worker. mwalk acct_base. Qed.
#[local] Hint Resolve worker_slot_same_index worker_slot_acct reserve_on_same_index
  reserve_on_acct : frame.

Ltac frames := solve [auto 3 with frame nocore].

(** One more statement of the body, under the invariant. *)
Ltac rbind I :=
  apply refine_bind;
  [exact I | try frames | let J := fresh in intros J _; clear I; rename J into I; cbv beta].

(** A loop over distinct requests whose body keeps what the others need. *)
Lemma refine_distinct (P : Impl -> Z -> Prop) (body : Z -> M unit) l s :
  (forall id s, Inv s -> P s id -> refines s (body id)) ->
  (forall id i s, Inv s -> P s id -> P s i -> i <> id -> P (exec (body id) s) i) ->
  Inv s -> NoDup l -> (forall id, id ∈ l -> P s id) -> refines s (foreach l body).
Proof.
  intros HB HK. revert s. induction l as [|id l IH]; intros s I ND HP; simpl; [apply steps_ret, _|].
  apply NoDup_cons in ND as [Hni ND].
  apply refine_bind; [done|apply HB; [done|apply HP; set_solver]|].
  intros I' _. apply IH; [done..|]. intros i Hi.
  apply HK; [done|apply HP; set_solver..|set_solver].
Qed.

(** ** Dispatch *)

Definition is_queued_at (s : Impl) (id : Z) : Prop :=
  exists r, requests s !! id = Some r /\ rec_state r = RS_Queued.

Definition all_queued (s : Impl) (l : list Z) : Prop :=
  forall id, id ∈ l -> is_queued_at s id.

Lemma reserve_all_refines w bid now members s :
  Inv s -> NoDup members -> all_queued s members ->
  refines s (foreach members (reserve_member w bid now)).
Proof.
  intros I ND HQ. apply (refine_distinct is_queued_at); [| |done..].
  - intros id s' I' (r & Hr & Hs). eapply reserve_member_refines; [apply I'|done..].
  - intros id i s' _ _ (r & Hr & Hs) Hne. exists r. rewrite reserve_member_requests.
    by rewrite lookup_alter_ne.
Qed.

(** The members [do_plan_dispatch] reserves. *)
Definition plan_members (s : Impl) (request now : Z) : list Z :=
  match form_batch s request now with [] => [request] | l => l end.

Lemma plan_members_queued s request now r :
  Inv s -> requests s !! request = Some r -> rec_state r = RS_Queued ->
  NoDup (plan_members s request now) /\ all_queued s (plan_members s request now).
Proof.
  intros I Hr Hs. destruct (form_batch_members s request now r Hr) as [n E].
  unfold plan_members. rewrite E, <- E. split; [apply form_batch_NoDup|].
  intros id Hid. destruct (decide (id = request)) as [->|Hne]; [by exists r|].
  destruct (form_batch_member s request now id (i_queue _ I) Hid Hne) as (r' & ? & ? & _). by exists r'.
Qed.

Lemma resting_runnable c r :
  rec_ok c r -> negb (bool_decide (rec_state r = RS_Queued)) &&
                negb (bool_decide (rec_state r = RS_Admitted)) = false -> rec_state r = RS_Queued.
Proof. intros [R _ _ _]. by destruct (rec_state r). Qed.

Lemma plan_dispatch_refines request explain s :
  Inv s -> refines s (do_plan_dispatch request explain).
Proof.
  intros I. unfold do_plan_dispatch. rbind I. rbind I; [by apply expire_scan_refines|].
  set (s1 := exec (expire_scan _) _) in *. apply steps_gets_bind.
  destruct (requests s1 !! request) as [r|] eqn:Hr; [|apply steps_ret, _].
  destruct (is_expired _ _).
  { apply refine_bind; [done| |intros; apply steps_ret, _].
    destruct (bool_decide _); [apply expire_refines; by apply i_queue|apply steps_ret, _]. }
  destruct (negb _ && _) eqn:HB; [apply steps_ret, _|].
  assert (rec_state r = RS_Queued) as Hs by (eapply resting_runnable; [by eapply i_records|done]).
  do 4 apply steps_gets_bind. cbv zeta. fold (plan_members s1 request (result clock_now s)).
  destruct (plan_members_queued s1 request (result clock_now s) r) as [ND HQ]; [done..|].
  clear HB. destruct (negb (id_valid _)); [apply steps_ret, _|].
  rbind I. apply steps_gets_bind. destruct (_ && _); [apply steps_ret, _|].
  do 2 (rbind I). rbind I; [|mwalk idtac].
  apply reserve_all_refines; [done..|]. intros id Hid. unfold is_queued_at. reqs. by apply HQ.
Qed.

Lemma pick_refines now s : Inv s -> refines s (pick_seed now).
Proof. intros I. destruct (pick_spec now s I) as [[HM _ _] _]. exact HM. Qed.

(** The first critical section of [do_plan_next]. *)
Definition pick_next : M (option Z) :=
  now ← clock_now; expire_scan now ;; pick_seed now.

Lemma pick_next_refines s : Inv s -> refines s pick_next.
Proof.
  intros I. unfold pick_next. rbind I. rbind I; [by apply expire_scan_refines|]. by apply pick_refines.
Qed.

Lemma plan_next_refines explain s : Inv s -> refines s (do_plan_next explain).
Proof.
  intros I. unfold do_plan_next. rbind I. rbind I; [by apply expire_scan_refines|].
  rbind I; [by apply pick_refines|]. case_match; [by apply plan_dispatch_refines|apply steps_ret, _].
Qed.

(** ** Start *)

Lemma put_flight_starts w id a s :
  steps (starts w id) s (modify_worker w (fun wr => wr <| wr_in_flight ::= <[id := a]> |>)).
Proof.
  constructor; try done. intros w' id' (wr & Hw & Hi). simpl in Hw. rewrite lookup_alter in Hw.
  case_decide as Hd; [subst w'|left; by exists wr].
  destruct (workers s !! w) as [x|] eqn:E; simplify_eq/=.
  rewrite lookup_insert in Hi. destruct (decide (id = id')) as [->|]; [by right|]. left. by exists x.
Qed.

(** A start is refused and changes nothing, or the reserved request runs on the
    reporting worker. *)
Lemma confirm_start_case rp s :
  Inv s ->
  exec (do_confirm_start rp) s = s \/
  exists r now, requests s !! cr_request_id rp = Some r /\ rec_state r = RS_Reserved /\
    attempt_matches r rp = true /\ boot_matches s rp = true /\
    requests (exec (do_confirm_start rp) s) =
      <[cr_request_id rp := set_running (cr_worker rp) (rec_batch_id r) now r]> (requests s) /\
    steps same_queue s (do_confirm_start rp) /\
    steps (starts (cr_worker rp) (cr_request_id rp)) s (do_confirm_start rp).
Proof.
  intros I. unfold do_confirm_start, steps. rewrite exec_bind, result_gets, exec_gets. case_match; [by left|].
  rewrite exec_bind, result_gets, exec_gets.
  destruct (requests s !! cr_request_id rp) as [r|] eqn:Hr; [|by left].
  destruct (attempt_matches r rp) eqn:HA; cbn [negb]; [|by left].
  destruct (bool_decide (rec_state r = RS_Reserved)) eqn:Hs; cbn [negb]; [|by left].
  apply bool_decide_eq_true in Hs. rewrite exec_bind, result_gets, exec_gets.
  destruct (boot_matches s rp) eqn:HB; cbn [negb]; [|by left].
  rewrite exec_bind, result_gets, exec_gets. destruct (worker_not_ready _); [by left|].
  destruct (negb (id_valid _)); [by left|]. cbv zeta. right.
  pose proof (q_key _ (i_queue _ I) _ _ Hr) as Hid.
  eexists r, _. split_and!; [done..| | |].
  - reqs. erewrite alter_Some by done. reflexivity.
  - as_steps. unfold modify_tenant. mwalk queue_base.
  - as_steps. rewrite <- Hid. unfold modify_tenant.
    do 3 mskip acct_base. mhit acct_base. apply put_flight_starts.
Qed.

Lemma confirm_start_refines rp s : Inv s -> refines s (do_confirm_start rp).
Proof.
  intros I. unfold steps.
  destruct (confirm_start_case rp s I) as [->|(r & now & Hr & Hs & _ & _ & ER & HQ & HS)]; [done|].
  apply rtc_once. by eapply mi_start.
Qed.

(** ** Completion *)

(** A report of the worker that runs the attempt: where it matches the
    current attempt of an unfinished request, that request holds a worker, and
    no other worker has the attempt in flight. *)
Definition honest (s : Impl) (rp : CompletionReport) : Prop :=
  forall r, requests s !! cr_request_id rp = Some r -> attempt_matches r rp = true ->
    live r = true ->
    occupies_worker (rec_state r) = true /\
    forall w, w <> cr_worker rp -> ~ flight s w (cr_request_id rp).

Lemma can_retry_allowed s r now : can_retry (cfg s) r now = true -> retry_allowed s r.
Proof.
  unfold can_retry, retry_allowed. destruct (_ || _) eqn:E; [done|].
  apply orb_false_iff in E as [-> ->]. destruct (Z.leb_spec (ret_max_attempts (cfg_retry (cfg s)))
    (Z.of_nat (length (rec_history r)))); [done|]. done.
Qed.

(** The report of a stale attempt only gives the worker's share back. *)
Lemma stale_refines id w r s (m : M (Result CompletionOutcome)) :
  Inv s -> requests s !! id = Some r -> live r = true ->
  (forall s', refines s' m) ->
  refines s (release_batch_member id w ;;
    modify_rec id (fun r => r <| rec_history ::= alter_back (fun a => a <| att_state := AS_Stale |>) |>) ;; m).
Proof.
  intros I Hr HL Hm. destruct (release_batch_member_requests id w s) as [b Eb].
  unfold steps. rewrite !exec_bind. etrans; [|apply Hm]. apply rtc_once.
  eapply (mi_touch _ _ id r); [done..| | | |].
  - instantiate (1 := (clear_if b r) <| rec_history ::= alter_back (fun a => a <| att_state := AS_Stale |>) |>).
    destruct b; constructor; try done; by apply alter_back_ids.
  - reqs. rewrite Eb. reqs. by erewrite alter_Some by done.
  - apply steps_after; [exact _| |mwalk queue_base]. by apply release_batch_member_same_queue.
  - apply steps_after; [exact _| |mwalk acct_base]. by apply release_batch_member_acct.
Qed.

Lemma settle_refines id rp r now s :
  Inv s -> requests s !! id = Some r -> occupies_worker (rec_state r) = true ->
  (forall w, w <> cr_worker rp -> ~ flight s w id) -> refines s (settle id rp now).
Proof.
  intros I Hr HO Hw. unfold settle. apply (at_request _ id r); [done|]. apply steps_gets_bind.
  destruct (cr_status rp).
  - destruct (rec_cancellation_requested r) eqn:HC; (apply refine_bind; [done| |intros; apply steps_ret, _]).
    + by eapply finish_cancelled_refines.
    + by eapply finish_success_refines.
  - destruct (_ && _) eqn:HB.
    + apply andb_true_iff in HB as [_ HB].
      apply refine_bind; [done| |intros; mwalk idtac].
      eapply make_retry_refines; try done. by eapply can_retry_allowed.
    + apply refine_bind; [done|by eapply finish_failed_refines|intros; apply steps_ret, _].
  - apply refine_bind; [done|by eapply finish_cancelled_refines|intros; apply steps_ret, _].
  - apply refine_bind; [done|by eapply complete_expired_refines|intros; apply steps_ret, _].
  - eapply stale_refines; [done..|by apply occupies_live|]. intros s'. unfold bump_stale. mwalk idtac.
  - destruct (_ && _) eqn:HB.
    + apply andb_true_iff in HB as [_ HB].
      apply refine_bind; [done| |intros; mwalk idtac].
      eapply make_retry_refines; try done. by eapply can_retry_allowed.
    + apply refine_bind; [done|by eapply finish_failed_refines|intros; apply steps_ret, _].
Qed.

Lemma complete_refines rp s : Inv s -> honest s rp -> refines s (do_complete rp).
Proof.
  intros I HH. unfold do_complete, bump_stale. apply steps_gets_bind. case_match; [mwalk idtac|].
  apply steps_gets_bind. case_match; [mwalk idtac|].
  apply steps_gets_bind. destruct (requests s !! cr_request_id rp) as [r|] eqn:Hr; [|apply steps_ret, _].
  destruct (attempt_matches r rp) eqn:HA; cbn [negb]; [|mwalk idtac].
  destruct (is_terminal (rec_state r)) eqn:HT; [apply steps_ret, _|].
  destruct (rec_cancellation_committed r); [apply steps_ret, _|].
  destruct (HH r Hr HA) as [HO HW]; [unfold live; by rewrite HT|].
  rbind I. eapply (settle_refines _ _ r); [done|by reqs|done|].
  intros w Hw Hf. apply (HW w Hw). by apply clock_now_acct in Hf.
Qed.

(** ** Submission *)

Lemma count_admitted {A} t (m : M A) s :
  (forall s', steps acct s' m) ->
  steps (admitted_one t) s
    (modify (fun s => s <| global_admitted ::= Z.succ |>) ;; tenant_of t ;;
     modify_tenant t (fun t => t <| ten_admitted ::= Z.succ |>) ;; m).
Proof.
  intros Hm. unfold steps. rewrite !exec_bind. eapply absorb_r; [|apply Hm].
  set (s1 := exec (modify _) s).
  destruct (tenant_of_acct t s1) as [E1 E2 E3]. destruct (tenant_of_exists t s1) as [x Hx].
  unfold modify_tenant. rewrite exec_modify. constructor.
  - etrans; [exact E1|]. change (global_admitted s1) with (Z.succ (global_admitted s)). lia.
  - intros t'. change (tenant_admitted s t') with (tenant_admitted s1 t').
    rewrite <- E2. unfold tenant_admitted. simpl. rewrite lookup_alter.
    case_decide; [subst t'; rewrite Z.eqb_refl, Hx; simpl; lia|]. by destruct (Z.eqb_spec t t').
  - intros w id Hf. by apply E3 in Hf.
Qed.

Lemma insert_if_absent_requests id r s :
  requests s !! id = None -> requests (exec (insert_if_absent id r) s) = <[id := r]> (requests s).
Proof. intros Hn. unfold insert_if_absent. rewrite exec_modify, Hn. done. Qed.
Lemma insert_if_absent_same_queue id r s : steps same_queue s (insert_if_absent id r).
Proof. unfold insert_if_absent. mwalk idtac. by case_match; constructor. Qed.
Lemma insert_if_absent_acct id r s : steps acct s (insert_if_absent id r).
Proof. unfold insert_if_absent. mwalk idtac. by case_match; constructor. Qed.
#[local] Hint Resolve insert_if_absent_same_queue insert_if_absent_acct : frame.

(** An admitted request has not expired. *)
Lemma admitted_unexpired s sp now : (make_admission s sp now).1 = AD_Admit -> is_expired sp now = false.
Proof.
  unfold make_admission. fold (is_expired sp now).
  destruct (draining s); [done|]. destruct (_ =? _); [done|]. by destruct (is_expired sp now).
Qed.

Lemma admit_micro {A} rid r t (m : M A) s :
  t = spec_tenant (rec_spec r) -> requests s !! rid = None -> new_queued rid r ->
  admissible s (rec_spec r) ->
  (forall s', steps same_index s' m) -> (forall s', steps acct s' m) ->
  micro s (exec (insert_if_absent rid r ;; enqueue_request rid ;;
     modify (fun s => s <| global_admitted ::= Z.succ |>) ;; tenant_of t ;;
     modify_tenant t (fun t => t <| ten_admitted ::= Z.succ |>) ;; m) s).
Proof.
  intros -> Hn HR HM HI HA. set (s1 := exec (insert_if_absent rid r) s).
  destruct (enqueue_requests rid s1) as [t1 E1].
  assert (requests s1 = <[rid := r]> (requests s)) as Es1 by (by apply insert_if_absent_requests).
  assert (requests s1 !! rid = Some r) as Hr1 by (rewrite Es1; apply lookup_insert_eq).
  apply (mi_admit _ _ rid (set_queued t1 r)); [done| |done| | |].
  - destruct HR as (? & ? & ? & ? & ?). by split_and!.
  - rewrite !exec_bind. rewrite (req_eq _ m) by (apply steps_same_req, HI). reqs. fold s1.
    rewrite E1, (alter_Some _ _ _ _ Hr1), Es1. apply insert_insert_eq.
  - as_steps. eapply steps_skip; [exact _|frames|]. eapply steps_hit; [exact _| |].
    + apply (enqueue_spec rid r); [done..|]. by destruct HR.
    + intros _ s'. assert (forall s', steps same_queue s' m) by (intros; by apply steps_same_queue).
      unfold modify_tenant. mwalk queue_base.
  - as_steps. do 2 mskip acct_base. by apply count_admitted.
Qed.

(** What an admission decision checked. *)
Lemma admitted_admissible s sp now : (make_admission s sp now).1 = AD_Admit -> admissible s sp.
Proof.
  unfold make_admission. destruct (draining s) eqn:HD; [done|]. destruct (_ =? 1); [done|].
  destruct (_ && expired _ _); [done|]. 
  destruct (deadline_gate _ _ _) as [[d ?]|] eqn:HG.
  { simpl. intros ->. revert HG. unfold deadline_gate. repeat case_match; congruence. }
  destruct (Z.leb_spec (al_max_global_admitted (cfg_admission (cfg s))) (global_admitted s)); [done|].
  destruct (Z.leb_spec (al_max_global_queued (cfg_admission (cfg s))) (global_queued s)); [done|].
  destruct (_ && (_ <? _)); [done|]. cbv zeta.
  destruct (tenants s !! spec_tenant sp) as [x|] eqn:HT; simpl.
  - destruct (Z.leb_spec (al_default_tenant_concurrency (cfg_admission (cfg s))) (ten_admitted x)); [done|].
    destruct (Z.leb_spec (al_default_tenant_queue_depth (cfg_admission (cfg s))) (ten_queued x)); [done|].
    intros _. constructor; try done. rewrite HT. intros y [= <-]. done.
  - intros _. constructor; try done. by rewrite HT.
Qed.

Lemma admissible_same s s' sp :
  same (fun s => (cfg s, draining s, global_admitted s, global_queued s, tenants s)) s s' ->
  admissible s sp -> admissible s' sp.
Proof. intros [= E1 E2 E3 E4 E5] []. constructor; by rewrite ?E1, ?E2, ?E3, ?E4, ?E5. Qed.

Lemma submit_admitted_refines sp rid now reason s :
  requests s !! rid = None -> is_expired sp now = false -> admissible s sp ->
  refines s (submit_admitted sp rid now reason).
Proof.
  intros Hn He HA. unfold submit_admitted. rewrite He. cbv zeta.
  do 4 (apply steps_bind; [exact _|frames|cbv beta]).
  apply rtc_once.
  lazymatch goal with
  | |- micro ?s0 (exec (insert_if_absent _ ?r ≫= (fun _ => _ ≫= (fun _ => _ ≫= (fun _ => _ ≫=
         (fun _ => _ ≫= (fun _ => ?m)))))) _) =>
      apply (admit_micro rid r (spec_tenant sp) m s0);
        [reflexivity|by reqs|done|change (admissible s0 sp); apply (admissible_same s); [reflexivity|done]| |]
  end.
  - intros s'. mwalk frame_base.
  - intros s'. mwalk acct_base.
Qed.

(** The id a submission uses. *)
Definition submit_id (s : Impl) (pre : option Z) : Z :=
  match pre with Some p => p | None => (id_next (ids s)).1 end.

Lemma submit_refines sp pre s :
  Inv s -> requests s !! submit_id s pre = None -> refines s (do_submit sp pre).
Proof.
  intros I Hn. unfold do_submit. destruct (validate_spec sp); [|apply steps_ret, _].
  apply steps_bind; [exact _|destruct pre; [apply steps_ret, _|frames]|].
  set (s1 := exec _ s).
  assert (result (match pre with Some p => mret p | None => next_id end) s = submit_id s pre) as ->
    by (by destruct pre).
  assert (requests s1 !! submit_id s pre = None) as Hn1 by (unfold s1; destruct pre; by reqs).
  apply steps_bind; [exact _|frames|]. apply steps_gets_bind.
  destruct (make_admission _ sp _) as [[] reason] eqn:HM; cbn [fst snd].
  - apply submit_admitted_refines; [by reqs| |].
    + eapply admitted_unexpired. by rewrite HM.
    + eapply admitted_admissible. by rewrite HM.
  - mwalk idtac.
  - do 2 (apply steps_bind; [exact _|frames|cbv beta]).
    apply steps_bind; [exact _| |mwalk idtac]. apply rtc_once.
    eapply (mi_reject _ _ (submit_id s pre)); [by reqs| |apply insert_if_absent_requests; by reqs| |].
    + done.
    + apply insert_if_absent_same_queue.
    + apply insert_if_absent_acct.
Qed.

(** ** Cancellation *)

Lemma touch_refines id r f s :
  requests s !! id = Some r -> live r = true -> touch r (f r) -> refines s (modify_rec id f).
Proof.
  intros Hr HL HT. apply rtc_once. eapply (mi_touch _ _ id r); [done..| | |].
  - by apply alter_Some.
  - apply modify_rec_same_queue.
  - apply modify_rec_acct.
Qed.

Lemma not_running_lands s id r :
  FInv s -> requests s !! id = Some r -> rec_state r <> RS_Running -> forall w, ~ flight s w id.
Proof. intros [R _] Hr Hn w Hf. destruct (R w id Hf) as (? & ? & ?). congruence. Qed.

Lemma cancel_refines id reason detail s : Inv s -> refines s (do_cancel id reason detail).
Proof.
  intros I. unfold do_cancel. apply steps_gets_bind.
  destruct (requests s !! id) as [r|] eqn:Hr; [|apply steps_ret, _].
  destruct (is_terminal (rec_state r)) eqn:HT; [apply steps_ret, _|].
  assert (live r = true) as HL by (unfold live; by rewrite HT).
  pose proof (ro_resting _ _ (i_records _ I _ _ Hr)) as HR.
  apply refine_bind; [done|eapply touch_refines; [done..|by constructor]|]. intros I1 _.
  set (f := fun r : RequestRecord => _) in *. set (s1 := exec (modify_rec id f) s) in *.
  assert (requests s1 !! id = Some (f r)) as Hr1.
  { unfold s1. reqs. by rewrite lookup_alter_eq, Hr. }
  destruct (rec_state r) eqn:Hs; try done; cbv zeta.
  - apply refine_bind; [done| |intros; apply steps_ret, _].
    eapply cancel_queued_refines; [apply I1|done|done].
  - apply refine_bind; [done| |intros; apply steps_ret, _].
    eapply (finish_cancelled_refines _ _ (f r)); [done|done|by simpl; rewrite Hs|].
    intros w' _. eapply not_running_lands; [apply I1|done|]. simpl. by rewrite Hs.
  - apply refine_bind; [done| |intros; mwalk idtac].
    eapply touch_refines; [done|done|by constructor].
Qed.

Lemma cancel_queued_one_refines detail id s :
  Inv s -> is_queued_at s id -> refines s (cancel_queued_one detail id).
Proof.
  intros I (r & Hr & Hs). unfold cancel_queued_one. apply steps_gets_bind. rewrite Hr, Hs. cbn [is_terminal].
  apply refine_bind; [done|eapply touch_refines; [done|unfold live; by rewrite Hs|by constructor]|].
  intros I1 _. eapply cancel_queued_refines; [apply I1| |].
  - reqs. by rewrite lookup_alter_eq, Hr.
  - done.
Qed.

(** A request found queued ends cancelled or stays as it was. *)
Lemma cancel_queued_one_requests detail id i s : i <> id ->
  requests (exec (cancel_queued_one detail id) s) !! i = requests s !! i.
Proof.
  intros Hi. unfold cancel_queued_one. reqs. destruct (requests s !! id) as [r|] eqn:Hr; [|by reqs].
  destruct (is_terminal _); [by reqs|]. rewrite exec_bind.
  set (f := fun r : RequestRecord => _).
  destruct (finish_cancelled_requests id invalid_id
    (if String.eqb detail EmptyString then "scheduler_drain" else detail)%string
    (exec (modify_rec id f) s) (f r)) as [b E].
  { reqs. by rewrite lookup_alter_eq, Hr. }
  rewrite E. destruct (is_terminal _); reqs; rewrite ?lookup_insert_ne by done; by rewrite lookup_alter_ne.
Qed.

Lemma cancel_all_queued_refines detail s : Inv s -> refines s (do_cancel_all_queued detail).
Proof.
  intros I. unfold do_cancel_all_queued. apply steps_gets_bind.
  apply refine_bind; [done| |intros; apply steps_ret, _].
  apply (refine_distinct is_queued_at); [| |done|apply NoDup_elements|].
  - intros id s' I' HQ. by apply cancel_queued_one_refines.
  - intros id i s' _ _ (r & Hr & Hs) Hne. exists r. by rewrite cancel_queued_one_requests.
  - intros id Hid%elem_of_elements. by apply I in Hid.
Qed.

(** ** Workers *)

(** The request runs, and on no other worker than [w]. *)
Definition runs_on (w : Z) (s : Impl) (id : Z) : Prop :=
  (exists r, requests s !! id = Some r /\ rec_state r = RS_Running) /\
  forall w', w' <> w -> ~ flight s w' id.

Lemma modify_running_acct t f s :
  steps acct s (modify_tenant t (fun t => t <| ten_running ::= f |>)).
Proof. unfold modify_tenant. mwalk acct_base. Qed.
Lemma modify_running_same_index t f s :
  steps same_index s (modify_tenant t (fun t => t <| ten_running ::= f |>)).
Proof. unfold modify_tenant. mwalk frame_base. Qed.
#[local] Hint Resolve modify_running_acct modify_running_same_index : frame.

Lemma recover_one_refines w boot id s : Inv s -> runs_on w s id -> refines s (recover_one w boot id).
Proof.
  intros I [(r & Hr & Hs) Hw]. unfold recover_one. apply steps_gets_bind. rewrite Hr.
  destruct (is_terminal (rec_state r)) eqn:HT; [apply steps_ret, _|]. cbv zeta.
  do 2 (rbind I). apply steps_gets_bind.
  set (s2 := exec clock_now _) in *.
  assert (requests s2 !! id = Some r) as Hr2 by (unfold s2; by reqs).
  assert (forall w', w' <> w -> ~ flight s2 w' id) as Hw2.
  { intros w' Hne Hf. apply (Hw w' Hne). unfold s2 in Hf. apply clock_now_acct in Hf.
    by apply modify_running_acct in Hf. }
  assert (occupies_worker (rec_state r) = true) as HO by by rewrite Hs.
  destruct (can_retry _ _ _) eqn:HC.
  - eapply make_retry_refines; [done..|]. by eapply can_retry_allowed.
  - by eapply finish_failed_refines.
Qed.

Lemma recover_one_other w boot id i s : i <> id ->
  requests (exec (recover_one w boot id) s) !! i = requests s !! i.
Proof.
  intros Hi. unfold recover_one. reqs. destruct (requests s !! id) as [r|]; [|by reqs].
  destruct (is_terminal _); [by reqs|]. reqs. destruct (can_retry _ _ _).
  - destruct (make_retry_requests id (restart_report w boot id r)
      (exec clock_now (exec (modify_tenant (spec_tenant (rec_spec r))
         (fun t => t <| ten_running ::= dec_pos |>)) s))) as (b & gen & att & t & t2 & t3 & ->).
    rewrite lookup_alter_ne by done. by reqs.
  - destruct (finish_failed_requests id (restart_report w boot id r)
      (exec clock_now (exec (modify_tenant (spec_tenant (rec_spec r))
         (fun t => t <| ten_running ::= dec_pos |>)) s))) as (b & ->).
    rewrite lookup_alter_ne by done. by reqs.
Qed.

Lemma recover_one_fewer w boot id s : steps fewer s (recover_one w boot id).
Proof.
  unfold recover_one, make_retry, finish_failed. mwalk fewer_base.
Qed.

Lemma recover_in_flight_refines w s : Inv s -> refines s (recover_in_flight w).
Proof.
  intros I. unfold recover_in_flight. apply steps_gets_bind.
  destruct (workers s !! w) as [wr|] eqn:Hw; [|apply steps_ret, _].
  apply refine_bind; [done| |].
  - apply (refine_distinct (runs_on w)); [| |done| |].
    + intros id s' I' HR. by apply recover_one_refines.
    + intros id i s' _ _ [HR HF] Hne. split.
      * destruct HR as (r & Hr & Hs). exists r. by rewrite recover_one_other.
      * intros w' Hw' Hf. apply (HF w' Hw'). by apply recover_one_fewer in Hf.
    + rewrite merge_sort_Permutation. apply NoDup_fst_map_to_list.
    + intros id Hid. rewrite merge_sort_Permutation in Hid.
      apply list_elem_of_fmap in Hid as ([i a] & -> & Hin). apply elem_of_map_to_list in Hin.
      assert (flight s w i) as Hf by (exists wr; eauto). split.
      * by eapply f_running; [apply I|].
      * intros w' Hne Hf'. apply Hne. by eapply f_unique; [apply I| |].
  - intros I' _. apply steps_gets_bind.
    apply refine_frame; [mwalk frame_base|unfold modify_worker; mwalk acct_base].
Qed.

Lemma register_refines reg s : Inv s -> refines s (do_register_worker reg).
Proof.
  intros I. unfold do_register_worker. cbv zeta. rbind I. apply steps_gets_bind.
  rbind I; [apply steps_when; [exact _|]; intros _; by apply recover_in_flight_refines|].
  apply refine_frame; [mwalk frame_base|unfold modify_worker; mwalk acct_base].
Qed.

Lemma update_capability_refines w cap s : refines s (do_update_capability w cap).
Proof.
  unfold do_update_capability. apply refine_frame; [mwalk frame_base|unfold modify_worker; mwalk acct_base].
Qed.

Lemma set_worker_state_refines w st snap s : refines s (do_set_worker_state w st snap).
Proof.
  unfold do_set_worker_state. apply refine_frame; [mwalk frame_base|unfold modify_worker; mwalk acct_base].
Qed.

Lemma unregister_refines w s : Inv s -> refines s (do_unregister_worker w).
Proof.
  intros I. unfold do_unregister_worker. apply steps_gets_bind. case_match; [|apply steps_ret, _].
  rbind I; [by apply recover_in_flight_refines|]. apply refine_frame; [mwalk frame_base|].
  mwalk acct_base. constructor; try done. intros w' id (wr & Hw & Hi). simpl in Hw.
  rewrite lookup_delete in Hw. case_decide; [done|]. by exists wr.
Qed.

(** ** Drain, epochs, events *)

Lemma begin_drain_refines reason s : refines s (do_begin_drain reason).
Proof. unfold do_begin_drain. apply refine_frame; [mwalk frame_base|mwalk acct_base]. Qed.
Lemma roll_epoch_refines s : refines s do_roll_epoch.
Proof. unfold do_roll_epoch. apply refine_frame; [mwalk frame_base|mwalk acct_base]. Qed.
Lemma drain_events_refines s : refines s drain_events.
Proof. unfold drain_events. apply refine_frame; [mwalk frame_base|mwalk acct_base]. Qed.
Lemma set_event_handler_refines h s : refines s (set_event_handler h).
Proof. unfold set_event_handler. apply refine_frame; [mwalk frame_base|mwalk acct_base]. Qed.
Lemma flush_events_refines s : refines s flush_events.
Proof. unfold flush_events. apply refine_frame; [mwalk frame_base|mwalk acct_base]. Qed.
Lemma snapshot_refines s : refines s do_snapshot.
Proof. unfold do_snapshot. apply refine_frame; [mwalk frame_base|mwalk acct_base]. Qed.
Lemma explain_refines id s : refines s (do_explain id).
Proof. unfold do_explain. apply refine_frame; [mwalk frame_base|mwalk acct_base]. Qed.

End Handlers.

#[export] Hint Resolve worker_slot_same_index worker_slot_acct reserve_on_same_index
  reserve_on_acct : frame.
