(* ===== verification/Machine.v ===== *)
(** * The scheduler as a state machine

    The operations of [Scheduler] on its state in memory as atomic steps (each
    takes the mutex once; [plan_next] takes it twice and is two steps), and the
    states they reach from a fresh scheduler.  [persist] and [recover], which
    work on files as well, are added in [Public]. *)

From S2P Require Import Prelude Enums Ids Float64 Types State Admission Queue Batch Dispatch Completion Control Frames Lifecycle Index Accounts Micro Refine Seed BatchSpec Handlers.
Open Scope Z_scope.

Inductive Op :=
| OpSubmit (sp : RequestSpec) (pre : option Z)
| OpPick
| OpPlan (request : Z) (explain : bool)
| OpStart (rp : CompletionReport)
| OpComplete (rp : CompletionReport)
| OpCancel (request : Z) (reason : CancellationReason) (detail : string)
| OpRegister (reg : WorkerRegistration)
| OpCapability (w : Z) (cap : WorkerCapability)
| OpWorkerState (w : Z) (st : WorkerState) (snap : option ResourceSnapshot)
| OpUnregister (w : Z)
| OpDrain (reason : string)
| OpCancelAll (detail : string)
| OpRollEpoch
| OpExplain (request : Z)
| OpSnapshot
| OpDrainEvents
| OpSetHandler (h : bool)
| OpFlush.

Section Machine.
  Context `{Env}.

Definition run_op (o : Op) : M unit :=
  match o with
  | OpSubmit sp pre => do_submit sp pre ;; mret tt
  | OpPick => pick_next ;; mret tt
  | OpPlan id ex => do_plan_dispatch id ex ;; mret tt
  | OpStart rp => do_confirm_start rp ;; mret tt
  | OpComplete rp => do_complete rp ;; mret tt
  | OpCancel id reason detail => do_cancel id reason detail ;; mret tt
  | OpRegister reg => do_register_worker reg
  | OpCapability w cap => do_update_capability w cap ;; mret tt
  | OpWorkerState w st snap => do_set_worker_state w st snap ;; mret tt
  | OpUnregister w => do_unregister_worker w ;; mret tt
  | OpDrain reason => do_begin_drain reason ;; mret tt
  | OpCancelAll detail => do_cancel_all_queued detail ;; mret tt
  | OpRollEpoch => do_roll_epoch
  | OpExplain id => do_explain id ;; mret tt
  | OpSnapshot => do_snapshot ;; mret tt
  | OpDrainEvents => drain_events ;; mret tt
  | OpSetHandler h => set_event_handler h
  | OpFlush => flush_events ;; mret tt
  end.

(** What the scheduler expects of its callers: a request id is not submitted
    twice, and completions are reported by the worker that runs the attempt. *)
Definition guard (s : Impl) (o : Op) : Prop :=
  match o with
  | OpSubmit _ pre => requests s !! submit_id s pre = None
  | OpComplete rp => honest s rp
  | _ => True
  end.

Lemma exec_unit {A} (m : M A) s : exec (m ;; mret tt) s = exec m s.
Proof. by rewrite exec_bind. Qed.

Lemma op_refines o s : Inv s -> guard s o -> rtc micro s (exec (run_op o) s).
Proof.
  intros I G. destruct o; simpl in G |- *; rewrite ?exec_unit.
  - by apply submit_refines.
  - by apply pick_next_refines.
  - by apply plan_dispatch_refines.
  - by apply confirm_start_refines.
  - by apply complete_refines.
  - by apply cancel_refines.
  - by apply register_refines.
  - by apply update_capability_refines.
  - by apply set_worker_state_refines.
  - by apply unregister_refines.
  - by apply begin_drain_refines.
  - by apply cancel_all_queued_refines.
  - by apply roll_epoch_refines.
  - by apply explain_refines.
  - by apply snapshot_refines.
  - by apply drain_events_refines.
  - by apply set_event_handler_refines.
  - by apply flush_events_refines.
Qed.

(** ** Reachable states *)

Inductive step : Impl -> Op -> Impl -> Prop :=
| step_op s o : guard s o -> step s o (exec (run_op o) s).

Inductive reachable (c : SchedulerConfig) (ep : option Z) (salt : Z) : Impl -> Prop :=
| reach_init : reachable c ep salt (init_impl c ep salt)
| reach_step s o s' : reachable c ep salt s -> step s o s' -> reachable c ep salt s'.

Lemma init_Inv c ep salt : Inv (init_impl c ep salt).
Proof.
  constructor.
  - constructor; simpl; try done.
    + intros id. split; [set_solver|]. intros (r & Hr & _). by rewrite lookup_empty in Hr.
    + intros k id. rewrite lookup_empty. simpl. split; [set_solver|]. intros (r & Hr & _).
      by rewrite lookup_empty in Hr.
  - constructor; simpl; intros; rewrite ?mcount_empty; try done.
  - constructor; simpl; intros; [lia|]. unfold tenant_admitted. simpl. rewrite lookup_empty. simpl. lia.
  - assert (forall w id, ~ flight (init_impl c ep salt) w id) as Hf.
    { intros w id (wr & Hw & _). simpl in Hw. by rewrite lookup_empty in Hw. }
    constructor; [intros w id F|intros w1 w2 id F]; by apply Hf in F.
  - apply map_Forall_empty.
Qed.

Lemma reachable_Inv c ep salt s : reachable c ep salt s -> Inv s.
Proof.
  induction 1 as [|s o s' _ I Hs]; [apply init_Inv|]. destruct Hs as [s o G].
  eapply Inv_rtc; [by apply op_refines|done].
Qed.

End Machine.
