(* ===== verification/Demo.v ===== *)
(** * A concrete run

    A small scenario on which the theorems are exercised: one worker of four
    units, three requests of one tenant (two of one model, one of another), a
    dispatch of the first two as a batch, and their start. *)

From S2P Require Import Prelude Enums Ids Float64 Types State Admission Queue Batch Dispatch Completion Control Handlers Machine.
Open Scope Z_scope.

(** A clock that advances a millisecond per reading. *)
#[export] Instance demo_env : Env := {|
  env_clock n := Z.of_nat n * 1000000;
  env_cast _ := - 2 ^ 63;
  env_f64_string _ := EmptyString
|}.

Definition demo_cap : WorkerCapability :=
  default_capability <| cap_total_capacity_units := 4 |> <| cap_available_capacity_units := 4 |>.
Definition demo_reg : WorkerRegistration :=
  default_registration <| reg_worker := 1 |> <| reg_boot_id := 9 |> <| reg_capability := demo_cap |>.

Definition demo_spec (model : Z) : RequestSpec :=
  default_spec <| spec_tenant := 7 |> <| spec_model := model |>.

(** A report of worker 1 on the current attempt of a request. *)
Definition demo_report (s : Impl) (id : Z) (st : CompletionStatus) (fc : FailureClass)
    : CompletionReport :=
  default_report <| cr_epoch := epoch s |> <| cr_worker := 1 |> <| cr_boot_id := 9 |>
    <| cr_request_id := id |> <| cr_attempt_id := rec_current_attempt (request_of s id) |>
    <| cr_generation := rec_generation (request_of s id) |>
    <| cr_status := st |> <| cr_failure_class := fc |>
    <| cr_worker_snapshot := default_resource <| res_available_capacity_units := -1 |> |>.

Definition demo_init : Impl := init_impl default_scheduler_config None 5.
Definition demo_idle : Impl := exec (run_op (OpRegister demo_reg)) demo_init.
Definition demo_queued : Impl :=
  exec (run_op (OpSubmit (demo_spec 4) (Some 102)))
    (exec (run_op (OpSubmit (demo_spec 3) (Some 101)))
      (exec (run_op (OpSubmit (demo_spec 3) (Some 100))) demo_idle)).
Definition demo_reserved : Impl := exec (run_op (OpPlan 100 false)) demo_queued.
Definition demo_running : Impl :=
  exec (run_op (OpStart (demo_report demo_reserved 100 CS_Succeeded FC_Internal))) demo_reserved.
Definition demo_done : Impl :=
  exec (run_op (OpComplete (demo_report demo_running 100 CS_Succeeded FC_Internal))) demo_running.

Definition demo_reachable := reachable default_scheduler_config None 5.

Lemma reach_next o s : demo_reachable s -> guard s o -> demo_reachable (exec (run_op o) s).
Proof. intros Hs G. eapply reach_step; [exact Hs|]. by constructor. Qed.

Lemma demo_queued_reachable : demo_reachable demo_queued.
Proof.
  do 4 (apply reach_next; [|by vm_compute]). apply reach_init.
Qed.

Lemma demo_running_reachable : demo_reachable demo_running.
Proof. do 2 (apply reach_next; [|done]). apply demo_queued_reachable. Qed.
