(* ===== verification/Safety.v ===== *)
(** * Theorems on the reachable states

    The scheduler's counters, its index and its limits agree with the requests in
    every reachable state; finished requests never change again; acknowledged
    cancellations win. *)

From S2P Require Import Prelude Enums Ids Float64 Types State Admission Queue Batch Dispatch Completion Control Frames Lifecycle Index Accounts Micro Refine Seed BatchSpec Handlers Machine Demo.
Open Scope Z_scope.

(** ** Several operations in a row *)

Section Runs.
  Context `{Env}.

Definition some_step (s s' : Impl) : Prop := exists o, step s o s'.

Lemma run_reachable c ep salt s s' :
  reachable c ep salt s -> rtc some_step s s' -> reachable c ep salt s'.
Proof. intros Hr. induction 1 as [|s1 s2 s3 [o Ho] _ IH]; [done|]. apply IH. by eapply reach_step. Qed.

Lemma run_evolution s s' : Inv s -> rtc some_step s s' -> evolution s s'.
Proof.
  intros I Hrun. revert I. induction Hrun as [s|s1 s2 s3 [o [s o' G]] _ IH]; intros I.
  { by apply evolution_same. }
  pose proof (op_refines _ _ I G) as Hm. pose proof (Inv_rtc _ _ Hm I) as I2.
  intros id r (r' & Hr' & He)%(evolution_rtc _ _ Hm).
  destruct (IH I2 _ _ Hr') as (r'' & ? & ?). exists r''. split; [done|]. by etrans.
Qed.

(** The configuration never changes. *)
Lemma reachable_cfg c ep salt s : reachable c ep salt s -> cfg s = cfg (init_impl c ep salt).
Proof.
  induction 1 as [|s o s' Hr IH Hs]; [reflexivity|]. destruct Hs as [s o G]. rewrite <- IH.
  assert (forall s1 s2, rtc micro s1 s2 -> cfg s2 = cfg s1) as HC.
  { induction 1 as [|s1 s2 s3 Hm _ E]; [reflexivity|]. by rewrite E, (micro_cfg _ _ Hm). }
  apply HC, op_refines; [by eapply reachable_Inv|done].
Qed.

(** ** Finished requests, whatever is reported *)

Lemma alter_other {A} (f : A -> A) (m m' : gmap Z A) id i :
  m' = alter f id m -> i <> id -> m' !! i = m !! i.
Proof. intros -> Hi. by apply lookup_alter_ne. Qed.

Lemma settle_other id rp now s i r :
  requests s !! id = Some r -> i <> id ->
  requests (exec (settle id rp now) s) !! i = requests s !! i.
Proof.
  intros Hr Hi. unfold settle. rewrite !exec_bind, !result_gets, !exec_gets.
  assert (forall w reason, requests (exec (finish_cancelled id w reason) s) !! i = requests s !! i) as HC.
  { intros w reason. destruct (finish_cancelled_requests id w reason s r Hr) as [b ->].
    case_match; [done|]. by rewrite lookup_insert_ne. }
  destruct (cr_status rp); repeat case_match; rewrite ?exec_bind, ?exec_ret, ?exec_gets; auto.
  - destruct (finish_success_requests id rp s) as (b & t & E). by eapply alter_other.
  - destruct (make_retry_requests id rp s) as (b & g & a & t & t2 & t3 & E). by eapply alter_other.
  - destruct (finish_failed_requests id rp s) as (b & E). by eapply alter_other.
  - destruct (complete_expired_requests id rp s) as (b & E). by eapply alter_other.
  - unfold bump_stale. reqs. destruct (release_batch_member_requests id (cr_worker rp) s) as [b ->].
    rewrite alter_twice. by rewrite lookup_alter_ne.
  - destruct (make_retry_requests id rp s) as (b & g & a & t & t2 & t3 & E). by eapply alter_other.
  - destruct (finish_failed_requests id rp s) as (b & E). by eapply alter_other.
Qed.

Lemma complete_frozen rp s id r :
  requests s !! id = Some r -> is_terminal (rec_state r) = true ->
  requests (exec (do_complete rp) s) !! id = Some r.
Proof.
  intros Hr HT. unfold do_complete, bump_stale. rewrite exec_bind, result_gets, exec_gets.
  case_match; [by reqs|]. rewrite exec_bind, result_gets, exec_gets. case_match; [by reqs|].
  rewrite exec_bind, result_gets, exec_gets.
  destruct (requests s !! cr_request_id rp) as [r'|] eqn:Hr'; [|by reqs].
  destruct (negb (attempt_matches r' rp)); [by reqs|].
  destruct (is_terminal (rec_state r')) eqn:HT'; [by reqs|].
  destruct (rec_cancellation_committed r'); [by reqs|].
  rewrite exec_bind. rewrite (settle_other _ _ _ _ _ r'); [by reqs|by reqs|].
  intros ->. congruence.
Qed.

End Runs.

(** ** The theorems *)

(** C2: Conservation.  In every reachable state the number of admitted requests
    is the number of queued, reserved and running ones: nothing is leaked and
    nothing is released twice. *)
Theorem admitted_is_conserved `{Env} c ep salt s :
  reachable c ep salt s ->
  global_admitted s = do_queued_count s + do_reserved_count s + count_requests in_running s.
Proof.
  intros [Q A _ _ R]%reachable_Inv. rewrite (a_global _ A). unfold do_queued_count, do_reserved_count.
  rewrite (q_count _ Q). destruct (Z.ltb_spec (mcount is_queued (requests s)) 0) as [Hn|_].
  { pose proof (mcount_nonneg is_queued (requests s)). lia. }
  change (count_requests in_reserved s) with (mcount in_reserved (requests s)).
  change (count_requests in_running s) with (mcount in_running (requests s)).
  rewrite (mcount_split live (fun r => is_queued r || in_reserved r) (requests s) in_running).
  - f_equal. apply mcount_split. intros id r _. unfold is_queued, in_reserved. by destruct (rec_state r).
  - intros id r Hr. pose proof (ro_resting _ _ (R _ _ Hr)) as HR.
    unfold live, is_queued, in_reserved, in_running. by destruct (rec_state r).
Qed.

Lemma admitted_is_conserved_witness :
  global_admitted demo_running =
    do_queued_count demo_running + do_reserved_count demo_running + count_requests in_running demo_running.
Proof. exact (admitted_is_conserved _ _ _ _ demo_running_reachable). Defined.

(** C3: The queueing index.  In every reachable state the set of queued ids, its
    counter, the batching index and the ready entries of the flows agree with
    the states of the requests, and no tenant's queue counter exceeds the
    number of its queued requests. *)
Theorem queue_index_agrees `{Env} c ep salt s : reachable c ep salt s -> QInv s.
Proof. intros Hr%reachable_Inv. apply Hr. Qed.

Lemma queue_index_agrees_witness : QInv demo_queued.
Proof. exact (queue_index_agrees _ _ _ _ demo_queued_reachable). Defined.

(** C29: Admission limits.  In every reachable state the number of admitted
    requests is within [max_global_admitted], and that of each tenant within
    its concurrency limit, when these are limits the checks can enforce: at
    least 0 for the whole scheduler and at least 1 for a tenant.  The first
    request of a tenant is admitted without a check, so a tenant whose limit is
    below 1 still has at most one admitted request; a negative global limit
    admits nothing. *)
Theorem admission_limits_hold `{Env} c ep salt s t :
  reachable c ep salt s ->
  let a := cfg_admission c in
  (0 <= al_max_global_admitted a -> global_admitted s <= al_max_global_admitted a) /\
  (al_max_global_admitted a < 0 -> global_admitted s = 0) /\
  (1 <= al_default_tenant_concurrency a -> tenant_admitted s t <= al_default_tenant_concurrency a) /\
  (al_default_tenant_concurrency a < 1 -> tenant_admitted s t <= 1).
Proof.
  intros Hr a. assert (cfg_admission (cfg s) = a) as E 
    by (rewrite (reachable_cfg _ _ _ _ Hr); simpl; by case_match).
  apply reachable_Inv in Hr. pose proof (l_global _ (i_limits _ Hr)) as HG.
  pose proof (l_tenant _ (i_limits _ Hr) t) as HT. rewrite E in HG, HT.
  pose proof (mcount_nonneg live (requests s)) as H0. rewrite <- (a_global _ (i_admitted _ Hr)) in H0.
  split_and!; lia.
Qed.

Lemma admission_limits_hold_witness :
  global_admitted demo_queued <= 1024 /\ tenant_admitted demo_queued 7 <= 64.
Proof.
  destruct (admission_limits_hold _ _ _ _ 7 demo_queued_reachable) as (HG & _ & HT & _).
  split; [apply HG | apply HT]; simpl; lia.
Defined.

(** C30: Exclusive execution.  In every reachable state a request that some worker
    has in flight is running, and no second worker has it in flight. *)
Theorem in_flight_is_exclusive `{Env} c ep salt s w id :
  reachable c ep salt s -> flight s w id ->
  (exists r, requests s !! id = Some r /\ rec_state r = RS_Running) /\
  forall w', flight s w' id -> w' = w.
Proof.
  intros [_ _ _ [R U] _]%reachable_Inv Hf. split; [by eapply R|]. intros w' Hf'. by eapply U.
Qed.

Lemma in_flight_is_exclusive_witness :
  flight demo_running 1 100 /\ forall w', flight demo_running w' 100 -> w' = 1.
Proof.
  assert (flight demo_running 1 100) as Hf.
  { exists (worker_of demo_running 1). split; [by vm_compute|]. eexists. by vm_compute. }
  split; [exact Hf|]. exact (proj2 (in_flight_is_exclusive _ _ _ _ 1 100 demo_running_reachable Hf)).
Defined.

(** C31: Attempts.  In every reachable state the history of a request holds at
    most [max_attempts] attempts (one is always allowed), and the last entry of
    an unfinished request is its current attempt. *)
Theorem attempts_are_bounded `{Env} c ep salt s id r :
  reachable c ep salt s -> requests s !! id = Some r ->
  Z.of_nat (length (rec_history r)) <= Z.max 1 (ret_max_attempts (cfg_retry (cfg s))) /\
  (is_terminal (rec_state r) = false ->
   last (att_attempt_id <$> rec_history r) = Some (rec_current_attempt r)).
Proof.
  intros [_ _ _ _ R]%reachable_Inv Hr. destruct (R _ _ Hr) as [_ L A _]. split; [done|].
  intros HT. apply L. unfold live. by rewrite HT.
Qed.

Lemma attempts_are_bounded_witness :
  last (att_attempt_id <$> rec_history (request_of demo_running 100)) =
  Some (rec_current_attempt (request_of demo_running 100)).
Proof.
  refine (proj2 (attempts_are_bounded _ _ _ _ 100 (request_of demo_running 100) demo_running_reachable _) _);
    by vm_compute.
Defined.

(** Finished requests never change.  No operation, whatever a worker reports,
    alters the record of a request in a terminal state; only the submission of
    an id that already exists is excluded. *)
Theorem finished_requests_are_frozen `{Env} s o id r :
  Inv s -> match o with OpSubmit _ pre => requests s !! submit_id s pre = None | _ => True end ->
  requests s !! id = Some r -> is_terminal (rec_state r) = true ->
  requests (exec (run_op o) s) !! id = Some r.
Proof.
  intros I G Hr HT.
  assert (guard s o -> requests (exec (run_op o) s) !! id = Some r) as Hg.
  { intros G'. pose proof (evolution_rtc _ _ (op_refines _ _ I G')) as He.
    destruct (He _ _ Hr) as (r' & Hr' & E). by rewrite Hr', (e_frozen _ _ E HT). }
  destruct o; try (by apply Hg). simpl. rewrite exec_unit. by apply complete_frozen.
Qed.

Lemma demo_done_honest : honest demo_running (demo_report demo_running 100 CS_Succeeded FC_Internal).
Proof.
  intros r Hr _ _. split.
  - vm_compute in Hr. injection Hr as <-. reflexivity.
  - intros w Hw Hf. destruct (reachable_Inv _ _ _ _ demo_running_reachable) as [_ _ _ [_ U] _].
    apply Hw. apply (U w 1 100); [exact Hf|].
    exists (worker_of demo_running 1). split; [by vm_compute|]. eexists. by vm_compute.
Qed.

Lemma demo_done_reachable : demo_reachable demo_done.
Proof. apply reach_next; [exact demo_running_reachable|exact demo_done_honest]. Qed.

Lemma finished_requests_are_frozen_witness :
  requests (exec (run_op (OpComplete (demo_report demo_done 100 CS_Failed FC_RetryableWorker))) demo_done) !! 100
  = Some (request_of demo_done 100).
Proof.
  apply (finished_requests_are_frozen demo_done (OpComplete _) 100 (request_of demo_done 100)).
  - exact (reachable_Inv _ _ _ _ demo_done_reachable).
  - exact I.
  - by vm_compute.
  - by vm_compute.
Defined.

(** C32: Acknowledged cancellations win.  Once a cancellation of a running request
    is recorded, no later run of operations completes it: its state is never
    [Completed] unless it already was. *)
Theorem cancellation_wins `{Env} c ep salt s s' id r r' :
  reachable c ep salt s -> rtc some_step s s' ->
  requests s !! id = Some r -> rec_cancellation_requested r = true -> rec_state r <> RS_Completed ->
  requests s' !! id = Some r' -> rec_state r' <> RS_Completed.
Proof.
  intros I%reachable_Inv Hrun Hr HC Hn Hr'.
  destruct (run_evolution _ _ I Hrun _ _ Hr) as (r2 & Hr2 & He). simplify_eq.
  destruct (e_cancel _ _ He HC) as [_ Hc]. auto.
Qed.

Definition demo_cancelling : Impl :=
  exec (run_op (OpCancel 100 CR_ClientRequested "user")) demo_running.
Definition demo_cancelled : Impl :=
  exec (run_op (OpComplete (demo_report demo_cancelling 100 CS_Succeeded FC_Internal))) demo_cancelling.

Lemma demo_cancelling_reachable : demo_reachable demo_cancelling.
Proof. apply reach_next; [exact demo_running_reachable|exact I]. Qed.

Lemma demo_cancelling_step : some_step demo_cancelling demo_cancelled.
Proof.
  exists (OpComplete (demo_report demo_cancelling 100 CS_Succeeded FC_Internal)).
  refine (step_op demo_cancelling (OpComplete (demo_report demo_cancelling 100 CS_Succeeded FC_Internal)) _).
  intros r Hr _ _. split.
  - vm_compute in Hr. injection Hr as <-. reflexivity.
  - intros w Hw Hf. destruct (reachable_Inv _ _ _ _ demo_cancelling_reachable) as [_ _ _ [_ U] _].
    apply Hw. apply (U w 1 100); [exact Hf|].
    exists (worker_of demo_cancelling 1). split; [by vm_compute|]. eexists. by vm_compute.
Qed.

Lemma cancellation_wins_witness : rec_state (request_of demo_cancelled 100) <> RS_Completed.
Proof.
  apply (cancellation_wins _ _ _ demo_cancelling demo_cancelled 100 (request_of demo_cancelling 100) _
    demo_cancelling_reachable (rtc_once _ _ demo_cancelling_step)).
  - by vm_compute.
  - by vm_compute.
  - by vm_compute.
  - by vm_compute.
Defined.
