(* ===== verification/Selection.v ===== *)
(** * Selection

    [select_worker] and [pick_seed] of [src/scheduler.cpp] keep the best
    element seen so far.  On scores that are numbers the result is the best of
    all, and it does not depend on the order of iteration. *)

From S2P Require Import Prelude Enums Ids Float64 Types State Admission Queue Batch Dispatch Completion Control Frames Lifecycle Index Accounts Micro Refine Seed BatchSpec Handlers Machine Demo.
Open Scope Z_scope.

(** ** Keeping the best *)

Section Best.
  Context {A : Type} (better : A -> A -> bool) (ok : A -> Prop).
  Context (better_trans : forall x y z, ok x -> ok y -> ok z ->
             better x y = true -> better y z = true -> better x z = true).
  Context (better_split : forall x y z, ok x -> ok y -> ok z ->
             better x z = true -> better x y = true \/ better y z = true).
  Context (better_irrefl : forall x, ok x -> better x x = false).

Definition keep_best (best : option A) (x : A) : option A :=
  match best with
  | None => Some x
  | Some b => if better x b then Some x else Some b
  end.

Lemma keep_best_from l b :
  ok b -> Forall ok l ->
  exists b', fold_left keep_best l (Some b) = Some b' /\ ok b' /\ b' ∈ b :: l /\
    forall x, x ∈ b :: l -> better x b' = false.
Proof.
  revert b. induction l as [|y l IH]; intros b Hb Hl; simpl.
  { exists b. split_and!; [done|done|set_solver|]. intros x [->|Hx]%elem_of_cons; [auto|set_solver]. }
  apply Forall_cons in Hl as [Hy Hl].
  assert (exists b1, (if better y b then Some y else Some b) = Some b1 /\ ok b1 /\ (b1 = b \/ b1 = y) /\
    forall x, ok x -> (x = b \/ x = y) -> better x b1 = false) as (b1 & -> & Hb1 & Hor & Hmax).
  { destruct (better y b) eqn:E.
    - exists y. split_and!; auto. intros x Hx [->| ->]; [|auto].
      destruct (better b y) eqn:E'; [|done]. by rewrite <- (better_irrefl b Hb), (better_trans b y b).
    - exists b. split_and!; auto. intros x Hx [->| ->]; auto. }
  destruct (IH b1 Hb1 Hl) as (b' & -> & Hb' & Hin & Hbest). exists b'. split_and!; [done|done| |].
  { clear -Hin Hor. set_solver. }
  intros x [Hx|[Hx|Hx]%elem_of_cons]%elem_of_cons; [| |apply Hbest; by right].
  all: assert (ok x) as Hox by congruence; destruct (better x b') eqn:E; [|done];
    destruct (better_split x b1 b' Hox Hb1 Hb' E) as [E1|E1];
    [rewrite (Hmax x) in E1; by auto | rewrite (Hbest b1) in E1; [done|by left]].
Qed.

Lemma keep_best_spec l :
  Forall ok l ->
  match fold_left keep_best l None with
  | None => l = []
  | Some b => b ∈ l /\ forall x, x ∈ l -> better x b = false
  end.
Proof.
  intros Hl. destruct l as [|x l]; simpl; [done|]. apply Forall_cons in Hl as [Hx Hl].
  destruct (keep_best_from l x Hx Hl) as (b & -> & _ & ? & ?). done.
Qed.

End Best.

Arguments keep_best {A} better best x.

(** ** Workers *)

Lemma select_best_fold scores :
  select_best scores = fold_left (keep_best better_score) (List.filter ws_eligible scores) None.
Proof.
  unfold select_best. generalize (@None WorkerScore).
  induction scores as [|sc scores IH]; intros best; simpl; [done|].
  rewrite IH. destruct (ws_eligible sc); [|done]. simpl. by destruct best.
Qed.

Definition score_ok (sc : WorkerScore) : Prop := is_nan (ws_total sc) = false.

Lemma better_score_spec a b :
  score_ok a -> score_ok b ->
  better_score a b = true <->
  key_lt (fkey (ws_total b)) (fkey (ws_total a)) \/
  (fkey (ws_total a) = fkey (ws_total b) /\ ws_worker a < ws_worker b).
Proof.
  intros Ha Hb. unfold better_score.
  by rewrite orb_true_iff, andb_true_iff, fltb_spec, feqb_spec, Z.ltb_lt by done.
Qed.

(** Lexicographic comparison of keys, for [lia]. *)
Ltac keys :=
  unfold key_lt in *;
  repeat match goal with
  | |- context [fkey ?x] => let p := fresh in destruct (fkey x) as [[? ?] ?] eqn:p; clear p
  | H : context [fkey ?x] |- _ => let p := fresh in destruct (fkey x) as [[? ?] ?] eqn:p; clear p
  end; simpl in *; rewrite ?pair_equal_spec in *; lia.

Lemma better_score_trans x y z : score_ok x -> score_ok y -> score_ok z ->
  better_score x y = true -> better_score y z = true -> better_score x z = true.
Proof. intros Hx Hy Hz. rewrite !better_score_spec by done. intros. keys. Qed.

Lemma better_score_split x y z : score_ok x -> score_ok y -> score_ok z ->
  better_score x z = true -> better_score x y = true \/ better_score y z = true.
Proof. intros Hx Hy Hz. rewrite !better_score_spec by done. intros. keys. Qed.

Lemma better_score_irrefl x : score_ok x -> better_score x x = false.
Proof.
  intros Hx. apply not_true_is_false. rewrite better_score_spec by done. intros. keys.
Qed.

Lemma select_best_spec scores :
  Forall score_ok scores ->
  match select_best scores with
  | None => forall sc, sc ∈ scores -> ws_eligible sc = false
  | Some b => b ∈ scores /\ ws_eligible b = true /\
      forall sc, sc ∈ scores -> ws_eligible sc = true -> better_score sc b = false
  end.
Proof.
  intros Hok. rewrite select_best_fold.
  assert (Forall score_ok (List.filter ws_eligible scores)) as Hf.
  { rewrite Forall_forall in Hok |- *. intros x Hx%list_elem_of_In%filter_In.
    apply Hok. apply list_elem_of_In. by destruct Hx. }
  pose proof (keep_best_spec better_score score_ok better_score_trans better_score_split
    better_score_irrefl _ Hf) as Hs.
  destruct (fold_left _ _ None) as [b|].
  - destruct Hs as [[Hb He]%list_elem_of_In%filter_In Hbest]. split_and!; [by apply list_elem_of_In|done|].
    intros sc Hsc Hel. apply Hbest. apply list_elem_of_In, filter_In. by rewrite <- list_elem_of_In.
  - intros sc Hsc. destruct (ws_eligible sc) eqn:E; [|done].
    assert (sc ∈ List.filter ws_eligible scores) as Hin.
    { apply list_elem_of_In, filter_In. by rewrite <- list_elem_of_In. }
    rewrite Hs in Hin. set_solver.
Qed.

(** ** Flows *)

Definition flow_better (a b : f64 * FlowKey) : bool :=
  fltb a.1 b.1 || (feqb a.1 b.1 && flowkey_ltb a.2 b.2).
Definition flow_ok (a : f64 * FlowKey) : Prop := is_nan a.1 = false.

Lemma flowkey_ltb_spec a b :
  flowkey_ltb a b = true <->
  fk_tenant a < fk_tenant b \/ (fk_tenant a = fk_tenant b /\
  (fk_latency a < fk_latency b \/ (fk_latency a = fk_latency b /\
  (fk_phase a < fk_phase b \/ (fk_phase a = fk_phase b /\ fk_priority a < fk_priority b))))).
Proof.
  unfold flowkey_ltb.
  repeat match goal with |- context [if negb (?x =? ?y) then _ else _] => destruct (Z.eqb_spec x y); simpl end;
    rewrite Z.ltb_lt; lia.
Qed.

Lemma flow_better_spec a b : flow_ok a -> flow_ok b ->
  flow_better a b = true <->
  key_lt (fkey a.1) (fkey b.1) \/ (fkey a.1 = fkey b.1 /\ flowkey_ltb a.2 b.2 = true).
Proof.
  intros Ha Hb. unfold flow_better.
  by rewrite orb_true_iff, andb_true_iff, fltb_spec, feqb_spec by done.
Qed.

Lemma flow_better_trans x y z : flow_ok x -> flow_ok y -> flow_ok z ->
  flow_better x y = true -> flow_better y z = true -> flow_better x z = true.
Proof. intros Hx Hy Hz. rewrite !flow_better_spec, !flowkey_ltb_spec by done. intros. keys. Qed.

Lemma flow_better_split x y z : flow_ok x -> flow_ok y -> flow_ok z ->
  flow_better x z = true -> flow_better x y = true \/ flow_better y z = true.
Proof. intros Hx Hy Hz. rewrite !flow_better_spec, !flowkey_ltb_spec by done. intros. keys. Qed.

Lemma flow_better_irrefl x : flow_ok x -> flow_better x x = false.
Proof.
  intros Hx. apply not_true_is_false. rewrite flow_better_spec, flowkey_ltb_spec by done. intros. keys.
Qed.

Lemma choose_fold s now ks best :
  fold_left (choose s now) ks best =
  fold_left (keep_best flow_better) ((fun k => (flow_finish s now k, k)) <$> ks) best.
Proof.
  revert best. induction ks as [|k ks IH]; intros best; simpl; [done|]. rewrite IH. f_equal.
  unfold choose. by destruct best as [[bf bk]|].
Qed.

(** ** The theorems *)

(** C28: Worker selection.  When no score is NaN, the worker [select_worker]
    returns is eligible for the batch and no other eligible worker has a
    higher score, or the same score and a smaller id; it returns the invalid
    id only when every worker is rejected. *)
Theorem worker_selection_is_optimal `{Env} s m ms cost now :
  let sp := rec_spec (request_of s m) in
  let score wr := score_worker (cfg s) wr sp cost now in
  let w := (select_worker s (m :: ms) cost now).1 in
  (forall k wr, workers s !! k = Some wr -> is_nan (ws_total (score wr)) = false) ->
  (w = invalid_id /\
   forall k wr, workers s !! k = Some wr -> reject_reason wr sp cost now <> None) \/
  (exists k wr, workers s !! k = Some wr /\ reg_worker (wr_registration wr) = w /\
     reject_reason wr sp cost now = None /\
     forall k' wr', workers s !! k' = Some wr' -> reject_reason wr' sp cost now = None ->
       fltb (ws_total (score wr)) (ws_total (score wr')) = false /\
       (feqb (ws_total (score wr')) (ws_total (score wr)) = true ->
        w <= reg_worker (wr_registration wr'))).
Proof.
  intros sp score w Hok.
  assert (forall wr, ws_worker (score wr) = reg_worker (wr_registration wr)) as Hw.
  { intros wr. unfold score, score_worker. by destruct (reject_reason _ _ _ _). }
  assert (forall wr, ws_eligible (score wr) = true <-> reject_reason wr sp cost now = None) as He.
  { intros wr. unfold score, score_worker. by destruct (reject_reason _ _ _ _). }
  set (scores := (fun p => score p.2) <$> map_to_list (workers s)).
  assert (forall sc, sc ∈ scores <-> exists k wr, sc = score wr /\ workers s !! k = Some wr) as Hin.
  { intros sc. unfold scores. rewrite list_elem_of_fmap. split.
    - intros ([k wr] & -> & Hp%elem_of_map_to_list). eauto.
    - intros (k & wr & -> & Hp%elem_of_map_to_list). by exists (k, wr). }
  assert (Forall score_ok scores) as Hall.
  { apply Forall_forall. intros sc (k & wr & -> & Hk)%Hin. by eapply Hok. }
  pose proof (select_best_spec scores Hall) as Hs.
  change w with (from_option ws_worker invalid_id (select_best scores)).
  destruct (select_best scores) as [b|]; simpl.
  - right. destruct Hs as ((k & wr & -> & Hk)%Hin & Hel & Hbest).
    exists k, wr. split_and!; [done|by rewrite Hw|by apply He|].
    intros k' wr' Hk' Hr'. assert (better_score (score wr') (score wr) = false) as HB.
    { apply Hbest; [apply Hin; eauto|by apply He]. }
    unfold better_score in HB. apply orb_false_iff in HB as [HB1 HB2]. split; [done|].
    intros Hq. rewrite Hq in HB2. simpl in HB2. apply Z.ltb_ge in HB2. by rewrite !Hw in *.
  - left. split; [done|]. intros k wr Hk Hn%He. rewrite (Hs (score wr)) in Hn; [done|]. apply Hin. eauto.
Qed.

Lemma worker_selection_is_optimal_witness :
  (select_worker demo_queued [100] fone 0).1 <> invalid_id.
Proof.
  destruct (worker_selection_is_optimal demo_queued 100 [] fone 0) as [[_ Hn]|(k & wr & _ & Hw & _)].
  - intros k wr Hk. apply elem_of_map_to_list in Hk. revert Hk.
    assert (map_to_list (workers demo_queued) = [(1, worker_of demo_queued 1)]) as -> by by vm_compute.
    intros [-> ->]%list_elem_of_singleton%pair_equal_spec. by vm_compute.
  - exfalso. apply (Hn 1 (worker_of demo_queued 1)); by vm_compute.
  - by vm_compute.
Defined.

(** The choice does not depend on the order in which the workers are visited
    (an unordered map's order is unspecified): two listings of the same scores
    select the same worker. *)
Theorem worker_selection_is_order_independent scores scores' :
  scores ≡ₚ scores' -> Forall score_ok scores ->
  from_option ws_worker invalid_id (select_best scores) =
  from_option ws_worker invalid_id (select_best scores').
Proof.
  intros HP Hok. assert (Forall score_ok scores') as Hok' by (by rewrite <- HP).
  pose proof (select_best_spec _ Hok) as Hs. pose proof (select_best_spec _ Hok') as Hs'.
  destruct (select_best scores) as [b|], (select_best scores') as [b'|]; simpl; [..|done].
  - destruct Hs as (Hb & He & Hbest), Hs' as (Hb' & He' & Hbest').
    assert (score_ok b /\ score_ok b') as [Kb Kb'].
    { rewrite Forall_forall in Hok, Hok'. auto. }
    assert (better_score b' b = false) as H1 by (apply Hbest; [by rewrite HP|done]).
    assert (better_score b b' = false) as H2 by (apply Hbest'; [by rewrite <- HP|done]).
    apply not_true_iff_false in H1, H2. rewrite better_score_spec in H1, H2 by done. keys.
  - destruct Hs as (Hb & He & _). rewrite (Hs' b) in He; [done|by rewrite <- HP].
  - destruct Hs' as (Hb & He & _). rewrite (Hs b') in He; [done|by rewrite HP].
Qed.

Definition demo_score (w : Z) (t : f64) : WorkerScore :=
  default_score <| ws_worker := w |> <| ws_eligible := true |> <| ws_total := t |>.

Lemma worker_selection_is_order_independent_witness :
  from_option ws_worker invalid_id (select_best [demo_score 2 fone; demo_score 1 fone]) =
  from_option ws_worker invalid_id (select_best [demo_score 1 fone; demo_score 2 fone]).
Proof.
  apply (worker_selection_is_order_independent
    [demo_score 2 fone; demo_score 1 fone] [demo_score 1 fone; demo_score 2 fone]).
  - apply perm_swap.
  - repeat constructor.
Defined.

(** C26: Work conservation.  In a reachable state [pick_seed] finds a request
    whenever one is queued that has not expired, and what it finds is queued
    and has not expired. *)
Theorem seed_selection_is_work_conserving `{Env} c ep salt s now id r :
  reachable c ep salt s -> requests s !! id = Some r -> rec_state r = RS_Queued ->
  is_expired (rec_spec r) now = false ->
  exists id' r', result (pick_seed now) s = Some id' /\
    requests (exec (pick_seed now) s) !! id' = Some r' /\ rec_state r' = RS_Queued /\
    is_expired (rec_spec r') now = false.
Proof.
  intros I%reachable_Inv Hr Hs He. destruct (result (pick_seed now) s) as [id'|] eqn:Hp.
  - destruct (pick_runnable now s id' I Hp) as (r' & ? & ? & ?). eauto 10.
  - pose proof (pick_none now s id r I Hp Hr Hs). congruence.
Qed.

Lemma seed_selection_is_work_conserving_witness :
  exists id' r', result (pick_seed 0) demo_queued = Some id' /\
    requests (exec (pick_seed 0) demo_queued) !! id' = Some r' /\ rec_state r' = RS_Queued /\
    is_expired (rec_spec r') 0 = false.
Proof.
  apply (seed_selection_is_work_conserving _ _ _ demo_queued 0 100 (request_of demo_queued 100)
    demo_queued_reachable); by vm_compute.
Defined.

(** C27: Fair selection.  In a reachable state, when no effective finish is NaN,
    the seed is the front request of a flow whose effective virtual finish is
    least among all flows that have a request waiting; ties go to the smaller
    flow key. *)
Theorem seed_selection_is_fair `{Env} c ep salt s now id :
  reachable c ep salt s ->
  let s' := exec (pick_seed now) s in
  (forall k, k ∈ active_flows s -> is_nan (flow_finish s' now k) = false) ->
  result (pick_seed now) s = Some id ->
  exists k, k ∈ active_flows s /\ re_id <$> head (fl_pending (flow_of s' k)) = Some id /\
    forall k', k' ∈ active_flows s -> fl_pending (flow_of s' k') <> [] ->
      fltb (flow_finish s' now k') (flow_finish s' now k) = false /\
      (feqb (flow_finish s' now k') (flow_finish s' now k) = true -> flowkey_ltb k' k = false).
Proof.
  intros I%reachable_Inv s' Hok Hp. destruct (pick_spec now s I) as (C & G & R).
  fold s' in C, G, R. rewrite R, choose_fold in Hp. clear R.
  set (ks := List.filter (has_pending s') (sorted_flows (active_flows s))) in *.
  assert (forall k, k ∈ ks <-> k ∈ active_flows s /\ fl_pending (flow_of s' k) <> []) as Hks.
  { intros k. unfold ks. rewrite list_elem_of_In, filter_In, <- list_elem_of_In, elem_of_sorted_flows.
    unfold has_pending. by rewrite negb_true_iff, bool_decide_eq_false. }
  set (l := (fun k => (flow_finish s' now k, k)) <$> ks) in *.
  assert (Forall flow_ok l) as Hl.
  { apply Forall_forall. intros x (k & -> & Hk)%list_elem_of_fmap. apply Hok. by apply Hks. }
  pose proof (keep_best_spec flow_better flow_ok flow_better_trans flow_better_split flow_better_irrefl
    _ Hl) as Hs.
  destruct (fold_left _ _ None) as [[e k]|]; [|done]. simpl in Hp.
  destruct Hs as [(k1 & [= -> ->] & Hk)%list_elem_of_fmap Hbest].
  exists k1. split_and!; [by apply Hks|done|]. intros k' Hk' Hne.
  assert (flow_better (flow_finish s' now k', k') (flow_finish s' now k1, k1) = false) as HB.
  { apply Hbest. apply list_elem_of_fmap. exists k'. split; [done|]. by apply Hks. }
  unfold flow_better in HB. simpl in HB. apply orb_false_iff in HB as [HB1 HB2]. split; [done|].
  intros Hq. by rewrite Hq in HB2.
Qed.

Lemma seed_selection_is_fair_witness :
  exists k, k ∈ active_flows demo_queued /\
    re_id <$> head (fl_pending (flow_of (exec (pick_seed 0) demo_queued) k)) = Some 100.
Proof.
  destruct (seed_selection_is_fair _ _ _ demo_queued 0 100 demo_queued_reachable) as (k & Hk & Hh & _).
  - intros k Hk. apply elem_of_elements in Hk. revert Hk.
    assert (elements (active_flows demo_queued) = [flow_key (demo_spec 3)]) as -> by by vm_compute.
    intros ->%list_elem_of_singleton. by vm_compute.
  - by vm_compute.
  - exists k. exact (conj Hk Hh).
Defined.
