(* ===== verification/CompletionSpec.v ===== *)
(** * Completion authority

    Which reports [do_complete] of [src/scheduler.cpp] acts on, and what a
    second copy of a report meets. *)

From S2P Require Import Prelude Enums Ids Float64 Types State Admission Queue Batch Dispatch Completion Control Frames Lifecycle Index Accounts Micro Refine Seed BatchSpec Handlers Machine Demo.
Open Scope Z_scope.

(** The report speaks for the current attempt of an unfinished request, in this
    epoch, from a worker that is registered under the boot it names. *)
Definition authorised (s : Impl) (rp : CompletionReport) : bool :=
  (cr_epoch rp =? epoch s) && boot_matches s rp &&
  match requests s !! cr_request_id rp with
  | Some r => attempt_matches r rp && negb (is_terminal (rec_state r))
  | None => false
  end.

(** The worker the report names is registered under the boot it names. *)
Definition from_boot (s : Impl) (rp : CompletionReport) : Prop :=
  exists wr, workers s !! cr_worker rp = Some wr /\ reg_boot_id (wr_registration wr) = cr_boot_id rp.

(** The report names the current attempt of the request and its generation. *)
Definition current_attempt_named (r : RequestRecord) (rp : CompletionReport) : Prop :=
  rec_current_attempt r = cr_attempt_id rp /\ rec_generation r = cr_generation rp.

(** What is wrong with a report, and the code and reason it is answered with.
    The first check it fails counts: the epoch, the worker's boot, the request,
    the attempt, and last whether the request is already over. *)
Inductive refused (s : Impl) (rp : CompletionReport) : CompletionAcceptance -> string -> Prop :=
| refused_epoch :
    cr_epoch rp <> epoch s -> refused s rp CA_StaleEpoch "stale_epoch"
| refused_worker :
    cr_epoch rp = epoch s -> ~ from_boot s rp -> refused s rp CA_StaleWorker "stale_worker"
| refused_unknown :
    cr_epoch rp = epoch s -> from_boot s rp -> requests s !! cr_request_id rp = None ->
    refused s rp CA_Invalid "unknown_request"
| refused_attempt r :
    cr_epoch rp = epoch s -> from_boot s rp -> requests s !! cr_request_id rp = Some r ->
    ~ current_attempt_named r rp -> refused s rp CA_StaleAttempt "stale_attempt"
| refused_duplicate r :
    cr_epoch rp = epoch s -> from_boot s rp -> requests s !! cr_request_id rp = Some r ->
    current_attempt_named r rp -> is_terminal (rec_state r) = true ->
    refused s rp CA_Duplicate "duplicate_completion".

(** The refusals that count as stale. *)
Definition counts_as_stale (a : CompletionAcceptance) : bool :=
  match a with CA_StaleEpoch | CA_StaleWorker | CA_StaleAttempt => true | _ => false end.

(** The state after a refusal. *)
Definition refusal_state (a : CompletionAcceptance) (s : Impl) : Impl :=
  if counts_as_stale a then s <| stats ::= fun st => st <| st_stale_rejected ::= Z.succ |> |> else s.

Lemma boot_matches_true s rp : boot_matches s rp = true <-> from_boot s rp.
Proof.
  unfold boot_matches, from_boot. split.
  - destruct (workers s !! cr_worker rp) as [wr|]; [|done]. intros E%Z.eqb_eq. by exists wr.
  - intros (wr & -> & E). by apply Z.eqb_eq.
Qed.

Lemma attempt_matches_true r rp : attempt_matches r rp = true <-> current_attempt_named r rp.
Proof. unfold attempt_matches, current_attempt_named. by rewrite andb_true_iff, !Z.eqb_eq. Qed.

Lemma boot_matches_false s rp : ~ from_boot s rp -> boot_matches s rp = false.
Proof. rewrite <- boot_matches_true. apply not_true_is_false. Qed.

Lemma attempt_matches_false r rp : ~ current_attempt_named r rp -> attempt_matches r rp = false.
Proof. rewrite <- attempt_matches_true. apply not_true_is_false. Qed.

(** ** What a completion leaves of the authority checks *)

Definition boot_of (s : Impl) (w : Z) : option Z :=
  (fun wr => reg_boot_id (wr_registration wr)) <$> workers s !! w.

Record same_auth (s s' : Impl) : Prop := {
  au_epoch : epoch s' = epoch s;
  au_boot : forall w, boot_of s' w = boot_of s w
}.

#[export] Instance same_auth_preorder : PreOrder same_auth.
Proof. split; [by constructor|]. intros s1 s2 s3 [] []. constructor; congruence. Qed.

Lemma same_auth_alter_worker s w f :
  (forall x, wr_registration (f x) = wr_registration x) ->
  same_auth s (s <| workers ::= alter f w |>).
Proof.
  intros Hf. constructor; [done|]. intros w'. unfold boot_of. simpl. rewrite lookup_alter.
  case_decide; [subst|done]. destruct (workers s !! w'); simpl; [|done]. by rewrite Hf.
Qed.

Ltac auth_base :=
  first [ by constructor | apply same_auth_alter_worker; intros; reflexivity | reflexivity ].

(** The identifier factory is only used for a retry. *)
Ltac ids_base := reflexivity.

Section Auth.
  Context `{Env}.

Lemma tenant_of_auth t s : steps same_auth s (tenant_of t).
Proof. unfold tenant_of. apply steps_modify. by case_match; constructor. Qed.
Lemma dequeue_auth id s : steps same_auth s (dequeue_request id).
Proof. unfold dequeue_request, modify_tenant. mwalk auth_base. by case_match; constructor. Qed.
Lemma emit_event_auth ty r a w b d s : steps same_auth s (emit_event ty r a w b d).
Proof. unfold emit_event, clock_now. mwalk auth_base. Qed.
#[local] Hint Resolve tenant_of_auth dequeue_auth emit_event_auth : frame.
Lemma release_batch_member_auth id w s : steps same_auth s (release_batch_member id w).
Proof. unfold release_batch_member, release_batch, modify_worker, modify_rec. mwalk auth_base. Qed.
Lemma release_admitted_auth t s : steps same_auth s (release_admitted t).
Proof. unfold release_admitted, modify_tenant. mwalk auth_base. Qed.
Lemma release_running_auth t s : steps same_auth s (release_running t).
Proof. unfold release_running, modify_tenant. mwalk auth_base. Qed.
Lemma enqueue_auth id s : steps same_auth s (enqueue_request id).
Proof. unfold enqueue_request, put_flow, modify_tenant, modify_rec, clock_now. mwalk auth_base. Qed.
#[local] Hint Resolve release_batch_member_auth release_admitted_auth release_running_auth
  enqueue_auth : frame.

Lemma settle_auth id rp now s : steps same_auth s (settle id rp now).
Proof.
  unfold settle, finish_success, finish_failed, finish_cancelled, complete_expired, make_retry,
    bump_stale, modify_rec, modify_stats, clock_now, next_id. mwalk auth_base.
Qed.

Lemma boot_matches_auth s s' rp : same_auth s s' -> boot_matches s' rp = boot_matches s rp.
Proof.
  intros [_ B]. specialize (B (cr_worker rp)). unfold boot_of in B. unfold boot_matches.
  destruct (workers s' !! _), (workers s !! _); simplify_eq/=; congruence.
Qed.

(** ** A retry takes fresh identifiers *)

Lemma release_batch_member_ids id w s : ids (exec (release_batch_member id w) s) = ids s.
Proof.
  change (steps (same ids) s (release_batch_member id w)).
  unfold release_batch_member, release_batch, modify_worker, modify_rec. mwalk ids_base.
Qed.
Lemma release_running_ids t s : ids (exec (release_running t) s) = ids s.
Proof.
  change (steps (same ids) s (release_running t)).
  unfold release_running, tenant_of, modify_tenant. mwalk ids_base. unfold same. by case_match.
Qed.

Lemma make_retry_fresh id rp s r :
  requests s !! id = Some r ->
  exists r', requests (exec (make_retry id rp) s) !! id = Some r' /\
    rec_generation r' = (id_next (ids s)).1 /\ rec_state r' = RS_Queued.
Proof.
  intros Hr. unfold make_retry. rewrite !exec_bind. reqs.
  edestruct enqueue_requests as [t3 ->]. reqs.
  edestruct release_batch_member_requests as [b ->]. reqs.
  rewrite lookup_alter_eq, Hr. eexists. split_and!; [reflexivity| |done].
  simpl. change (result next_id ?S) with (id_next (ids S)).1.
  rewrite ?exec_gets, release_running_ids, release_batch_member_ids. done.
Qed.

(** The record after a report that was acted on: the request is over, or, when
    the answer says it was retried, it has a fresh generation. *)
Definition settled (s : Impl) (o : CompletionOutcome) (r r' : RequestRecord) : Prop :=
  if co_retried o then rec_generation r' = (id_next (ids s)).1
  else is_terminal (rec_state r') = true /\ rec_current_attempt r' = rec_current_attempt r /\
       rec_generation r' = rec_generation r.

(** The report was acted on. *)
Definition acted_on (o : CompletionOutcome) : Prop :=
  co_acceptance o = CA_Accepted \/ co_acceptance o = CA_CancelledOutcome.

Lemma alter_here {A} (f : A -> A) (m m' : gmap Z A) id x :
  m' = alter f id m -> m !! id = Some x -> m' !! id = Some (f x).
Proof. intros -> Hx. by rewrite lookup_alter_eq, Hx. Qed.

Lemma settle_settled id rp now s r o :
  requests s !! id = Some r -> is_terminal (rec_state r) = false ->
  result (settle id rp now) s = Ok o -> acted_on o ->
  exists r', requests (exec (settle id rp now) s) !! id = Some r' /\ settled s o r r'.
Proof.
  intros Hr HT. unfold settle. rewrite !exec_bind, !result_bind, !result_gets, !exec_gets.
  assert (forall w reason, exists r', requests (exec (finish_cancelled id w reason) s) !! id = Some r' /\
    settled s default_outcome r r') as HC.
  { intros w reason. destruct (finish_cancelled_requests id w reason s r Hr) as [b E]. rewrite HT in E.
    rewrite E, lookup_insert_eq. eexists. split; [done|]. by destruct b. }
  assert (exists r', requests (exec (finish_failed id rp) s) !! id = Some r' /\
    settled s default_outcome r r') as HF.
  { destruct (finish_failed_requests id rp s) as [b E]. eexists.
    split; [by eapply alter_here|]. by destruct b. }
  destruct (make_retry_fresh id rp s r Hr) as (r' & Hr' & Hg & _).
  destruct (cr_status rp).
  - destruct (rec_cancellation_requested _); rewrite exec_bind, result_bind, exec_ret, result_ret;
      intros [= <-] _; [apply HC|]. destruct (finish_success_requests id rp s) as (b & t & E). eexists.
    split; [by eapply alter_here|]. by destruct b.
  - destruct (_ && _); rewrite ?exec_bind, ?result_bind, ?exec_gets, ?exec_ret, ?result_ret; intros [= <-] _;
      [by exists r'|apply HF].
  - rewrite exec_bind, exec_ret, result_bind, result_ret. intros [= <-] _. apply HC.
  - rewrite exec_bind, exec_ret, result_bind, result_ret. intros [= <-] _.
    destruct (complete_expired_requests id rp s) as (b & E). eexists.
    split; [by eapply alter_here|]. by destruct b.
  - rewrite !result_bind, result_ret. by intros [= <-] [?|?].
  - destruct (_ && _); rewrite ?exec_bind, ?result_bind, ?exec_gets, ?exec_ret, ?result_ret; intros [= <-] _;
      [by exists r'|apply HF].
Qed.

Lemma complete_authorised rp s r :
  authorised s rp = true -> requests s !! cr_request_id rp = Some r ->
  rec_cancellation_committed r = false ->
  do_complete rp s = settle (cr_request_id rp) rp (result clock_now s) (exec clock_now s).
Proof.
  unfold authorised. intros HA Hr HC. rewrite Hr in HA. apply andb_true_iff in HA as [[HE HB]%andb_true_iff HA].
  apply andb_true_iff in HA as [HM HT%negb_true_iff].
  unfold do_complete. rewrite run_bind. simpl. rewrite HE. simpl. rewrite run_bind. simpl. rewrite HB. simpl.
  rewrite run_bind. simpl. rewrite Hr, HM, HT, HC. simpl. done.
Qed.

Lemma complete_refused rp s a why :
  refused s rp a why ->
  result (do_complete rp) s = Ok (outcome a why) /\ exec (do_complete rp) s = refusal_state a s.
Proof.
  intros R. unfold do_complete. rewrite exec_bind, result_bind, result_gets, exec_gets.
  destruct R as [E|E B|E B N|r E B Hr M|r E B Hr M HT];
    [apply Z.eqb_neq in E|apply Z.eqb_eq in E..]; rewrite E; simpl; [by split|..];
    rewrite exec_bind, result_bind, result_gets, exec_gets;
    [apply boot_matches_false in B|apply boot_matches_true in B..]; rewrite B; simpl; [by split|..];
    rewrite exec_bind, result_bind, result_gets, exec_gets, ?N, ?Hr; [by split|..];
    [apply attempt_matches_false in M|apply attempt_matches_true in M]; rewrite M; simpl; [by split|].
  by rewrite HT.
Qed.

Lemma unauthorised_refused rp s : authorised s rp = false <-> exists a why, refused s rp a why.
Proof.
  unfold authorised. split.
  - intros HA. destruct (Z.eqb_spec (cr_epoch rp) (epoch s)) as [E|E]; [|by eexists _, _; constructor].
    destruct (boot_matches s rp) eqn:B; simpl in HA.
    2:{ eexists _, _. apply refused_worker; [done|]. rewrite <- boot_matches_true. by rewrite B. }
    apply boot_matches_true in B. destruct (requests s !! cr_request_id rp) as [r|] eqn:Hr.
    2:{ eexists _, _. by apply refused_unknown. }
    destruct (attempt_matches r rp) eqn:M; simpl in HA.
    2:{ eexists _, _. eapply refused_attempt; [done..|]. rewrite <- attempt_matches_true. by rewrite M. }
    apply attempt_matches_true in M. apply negb_false_iff in HA. eexists _, _. by eapply refused_duplicate.
  - intros (a & why & R). apply not_true_iff_false. rewrite !andb_true_iff, Z.eqb_eq, boot_matches_true.
    destruct R as [E|E B|E B N|r E B Hr M|r E B Hr M HT]; intros [[HE HB] HR];
      [done|done|by rewrite N in HR|..]; rewrite Hr in HR; apply andb_true_iff in HR as [HM HT'].
    + by apply attempt_matches_true in HM.
    + by rewrite HT in HT'.
Qed.

End Auth.

(** ** The theorems *)

(** C6: Completion authority.  The reports that do not speak for the current
    attempt of an unfinished request, in the current epoch and from the
    registered boot of its worker, are those with one of the five defects of
    [refused]; each is answered with the code and the reason of the first
    defect in that order, and changes nothing but, for a stale epoch, worker or
    attempt, the counter of stale reports. *)
Theorem unauthorised_reports_are_refused `{Env} s rp :
  (authorised s rp = false <-> exists a why, refused s rp a why) /\
  (forall a why, refused s rp a why ->
     result (do_complete rp) s = Ok (outcome a why) /\
     exec (do_complete rp) s =
       if counts_as_stale a then s <| stats ::= fun st => st <| st_stale_rejected ::= Z.succ |> |> else s).
Proof. split; [apply unauthorised_refused|apply complete_refused]. Qed.

(** A report of the previous epoch, and one that names another attempt. *)
Lemma unauthorised_reports_are_refused_witness :
  let rp := demo_report demo_running 100 CS_Succeeded FC_Internal in
  result (do_complete (rp <| cr_epoch := 2 |>)) demo_running = Ok (outcome CA_StaleEpoch "stale_epoch") /\
  result (do_complete (rp <| cr_attempt_id := 3 |>)) demo_running =
    Ok (outcome CA_StaleAttempt "stale_attempt").
Proof.
  intros rp. split.
  - apply (unauthorised_reports_are_refused demo_running (rp <| cr_epoch := 2 |>)).
    apply refused_epoch. by vm_compute.
  - apply (unauthorised_reports_are_refused demo_running (rp <| cr_attempt_id := 3 |>)).
    apply (refused_attempt _ _ (request_of demo_running 100)).
    + by vm_compute.
    + exists (worker_of demo_running 1). by vm_compute.
    + by vm_compute.
    + intros [E _]. by vm_compute in E.
Defined.

(** C5: At most once.  When a report has been acted on (accepted, or answered
    with the outcome of a cancellation), a second copy of it is answered as a
    duplicate and changes nothing; when the first one led to a retry, the copy
    is answered as a stale attempt and changes nothing but the counter of stale
    reports.  (The generation it names was issued by this scheduler, whose
    identifiers have not run out.) *)
Theorem reports_are_accepted_at_most_once `{Env} s rp o :
  Inv s -> factory_ok (ids s) -> idf_counter (ids s) + 1 < 2 ^ 32 -> issued (ids s) (cr_generation rp) ->
  result (do_complete rp) s = Ok o ->
  co_acceptance o = CA_Accepted \/ co_acceptance o = CA_CancelledOutcome ->
  let s' := exec (do_complete rp) s in
  if co_retried o
  then result (do_complete rp) s' = Ok (outcome CA_StaleAttempt "stale_attempt") /\
       exec (do_complete rp) s' = exec bump_stale s'
  else result (do_complete rp) s' = Ok (outcome CA_Duplicate "duplicate_completion") /\
       exec (do_complete rp) s' = s'.
Proof.
  intros I HF HL HG HA HO s'.
  destruct (authorised s rp) eqn:HS.
  2:{ apply unauthorised_refused in HS as (a & why & R). destruct (complete_refused rp s a why R) as [E _].
      rewrite E in HA. injection HA as <-. by destruct R, HO. }
  pose proof HS as HS'. unfold authorised in HS'.
  destruct (requests s !! cr_request_id rp) as [r|] eqn:Hr; [|by rewrite andb_false_r in HS'].
  apply andb_true_iff in HS' as [[HE%Z.eqb_eq HB]%andb_true_iff [HM HT%negb_true_iff]%andb_true_iff].
  assert (rec_cancellation_committed r = false) as HC.
  { apply (i_records _ I _ _ Hr). unfold live. by rewrite HT. }
  pose proof (complete_authorised rp s r HS Hr HC) as Hd. set (s1 := exec clock_now s) in Hd.
  assert (s' = exec (settle (cr_request_id rp) rp (result clock_now s)) s1) as Hs'.
  { unfold s', exec at 1. by rewrite Hd. }
  assert (result (settle (cr_request_id rp) rp (result clock_now s)) s1 = Ok o) as HA'
    by (unfold result at 1 in HA; by rewrite Hd in HA).
  destruct (settle_settled (cr_request_id rp) rp (result clock_now s) s1 r o) as (r' & Hr' & HD); [done..|].
  pose proof (settle_auth (cr_request_id rp) rp (result clock_now s) s1) as SA. unfold steps in SA.
  rewrite <- Hs' in Hr', SA.
  assert (cr_epoch rp = epoch s') as HE' by (by rewrite (au_epoch _ _ SA)).
  assert (from_boot s' rp) as HB'.
  { apply boot_matches_true. by rewrite (boot_matches_auth _ _ rp SA). }
  apply attempt_matches_true in HM as [Ha Hg]. unfold settled in HD. destruct (co_retried o).
  - apply (complete_refused rp s' CA_StaleAttempt "stale_attempt"). eapply refused_attempt; [done..|].
    intros [_ E]. apply (id_next_fresh (ids s)); [done..|]. change (ids s) with (ids s1). by rewrite <- HD, E.
  - apply (complete_refused rp s' CA_Duplicate "duplicate_completion").
    destruct HD as (HT' & Ha' & Hg'). eapply refused_duplicate; [done..| |done]. split; congruence.
Qed.

(** A report that ends its request, and one that leads to a retry. *)
Lemma reports_are_accepted_at_most_once_witness :
  let rp := demo_report demo_running 100 CS_Succeeded FC_Internal in
  let rf := demo_report demo_running 100 CS_Failed FC_RetryableWorker in
  result (do_complete rp) (exec (do_complete rp) demo_running) =
    Ok (outcome CA_Duplicate "duplicate_completion") /\
  result (do_complete rf) (exec (do_complete rf) demo_running) =
    Ok (outcome CA_StaleAttempt "stale_attempt").
Proof.
  intros rp rf. split.
  - refine (proj1 (reports_are_accepted_at_most_once demo_running rp (outcome CA_Accepted "success") _ _ _ _ _ _)).
    + exact (reachable_Inv _ _ _ _ demo_running_reachable).
    + by vm_compute.
    + by vm_compute.
    + exists 1. by vm_compute.
    + by vm_compute.
    + by left.
  - refine (proj1 (reports_are_accepted_at_most_once demo_running rf
      ((outcome CA_Accepted "retry") <| co_retried := true |>
         <| co_retry_attempt := rec_current_attempt (request_of (exec (do_complete rf) demo_running) 100) |>)
      _ _ _ _ _ _)).
    + exact (reachable_Inv _ _ _ _ demo_running_reachable).
    + by vm_compute.
    + by vm_compute.
    + exists 1. by vm_compute.
    + by vm_compute.
    + by left.
Defined.
