(* ===== verification/DispatchSpec.v ===== *)
(** * Dispatch

    What a planned dispatch reserves: [form_batch], [do_plan_dispatch] and
    [do_plan_next] of [src/scheduler.cpp]. *)

From S2P Require Import Prelude Enums Ids Float64 Types State Admission Queue Batch Dispatch Completion Control Frames Lifecycle Index Accounts Micro Refine Seed BatchSpec Handlers Machine Demo.
Open Scope Z_scope.

Definition same_workers : relation Impl :=
  same (fun s => (workers s, global_reserved_units s, global_running_units s)).

#[export] Instance same_workers_preorder : PreOrder same_workers.
Proof. apply same_preorder. Qed.

Ltac workers_base := unfold same_workers, same; first [reflexivity | by case_match].

Section Plan.
  Context `{Env}.

Lemma expire_workers id s : steps same_workers s (expire_request id).
Proof.
  unfold expire_request, dequeue_request, release_admitted, tenant_of, emit_event, modify_tenant,
    modify_rec, modify_stats, clock_now. mwalk workers_base.
Qed.
#[local] Hint Resolve expire_workers : frame.
Lemma expire_scan_workers now s : steps same_workers s (expire_scan now).
Proof. unfold expire_scan. mwalk workers_base. Qed.
Lemma reserve_member_workers w bid now id s : steps same_workers s (reserve_member w bid now id).
Proof.
  unfold reserve_member, dequeue_request, account_flow, put_flow, emit_event, modify_tenant,
    modify_rec, clock_now. mwalk workers_base.
Qed.
#[local] Hint Resolve expire_scan_workers reserve_member_workers : frame.

Lemma reserve_all_workers w bid now l s :
  steps same_workers s (foreach l (reserve_member w bid now)).
Proof. apply steps_foreach; [exact _|]. auto with frame nocore. Qed.

Lemma reserve_all_requests w bid now l s i :
  NoDup l ->
  requests (exec (foreach l (reserve_member w bid now)) s) !! i =
    if bool_decide (i ∈ l) then set_reserved bid now <$> requests s !! i else requests s !! i.
Proof.
  revert s. induction l as [|id l IH]; intros s ND; cbn [foreach].
  { rewrite bool_decide_eq_false_2; [done|set_solver]. }
  apply NoDup_cons in ND as [Hni ND]. rewrite exec_bind, IH, reserve_member_requests by done.
  destruct (decide (i = id)) as [->|Hne].
  - rewrite (bool_decide_eq_false_2 (id ∈ l)) by done.
    rewrite (bool_decide_eq_true_2 (id ∈ id :: l)) by set_solver. apply lookup_alter_eq.
  - rewrite lookup_alter_ne by done.
    assert (bool_decide (i ∈ l) = bool_decide (i ∈ id :: l)) as -> by (apply bool_decide_ext; set_solver).
    done.
Qed.

(** The state in which the dispatcher decides. *)
Definition plan_state (s : Impl) : Impl := exec (expire_scan (result clock_now s)) (exec clock_now s).

(** The reservation on the record of the chosen worker. *)
Definition reserved_on (bid units : Z) (members : list Z) (wr : WorkerRecord) : WorkerRecord :=
  wr <| wr_reserved_units ::= fun u => i64 (u + units) |>
     <| wr_batch_units ::= <[bid := units]> |>
     <| wr_batch_pending ::= <[bid := i32 (Z.of_nat (length members))]> |>
     <| wr_batch_members ::= <[bid := members]> |>.

Record dispatched (s s' : Impl) (request now : Z) (out : DispatchOutcome) : Prop := {
  d_seed : exists r, requests (plan_state s) !! request = Some r /\ rec_state r = RS_Queued /\
    is_expired (rec_spec r) now = false;
  d_members : dout_batch_members out = plan_members (plan_state s) request now;
  d_units : dout_estimated_cost_units out = batch_units_of (plan_state s) (dout_batch_members out);
  d_selected : dout_worker_id out =
    (select_worker (plan_state s) (dout_batch_members out)
       (batch_cost (plan_state s) (dout_batch_members out)) now).1;
  d_valid : id_valid (dout_worker_id out) = true;
  d_fits : let wr := worker_of s (dout_worker_id out) in
    0 < cap_total_capacity_units (reg_capability (wr_registration wr)) ->
    dout_estimated_cost_units out <= avail_units wr;
  d_bid : dout_batch_id out = (id_next (ids (plan_state s))).1;
  d_worker : worker_of s' (dout_worker_id out) =
    reserved_on (dout_batch_id out) (dout_estimated_cost_units out) (dout_batch_members out)
      (worker_of s (dout_worker_id out));
  d_others : forall w, w <> dout_worker_id out -> workers s' !! w = workers s !! w;
  d_global : global_reserved_units s' = i64 (global_reserved_units s + dout_estimated_cost_units out);
  d_requests : forall id, requests s' !! id =
    if bool_decide (id ∈ dout_batch_members out)
    then set_reserved (dout_batch_id out) now <$> requests (plan_state s) !! id
    else requests (plan_state s) !! id
}.

Lemma plan_state_workers s :
  workers (plan_state s) = workers s /\ global_reserved_units (plan_state s) = global_reserved_units s.
Proof.
  pose proof (expire_scan_workers (result clock_now s) (exec clock_now s)) as E.
  by injection E as E1 E2 _.
Qed.

Lemma worker_slot_of w s : worker_of (exec (worker_slot w) s) w = worker_of s w.
Proof.
  unfold worker_slot, worker_of. rewrite exec_modify. destruct (workers s !! w) eqn:E; [by rewrite E|].
  simpl. by rewrite lookup_insert_eq.
Qed.

Lemma worker_slot_exists w s : is_Some (workers (exec (worker_slot w) s) !! w).
Proof.
  unfold worker_slot. rewrite exec_modify. destruct (workers s !! w) eqn:E; [by rewrite E|].
  simpl. rewrite lookup_insert_eq. eauto.
Qed.

Lemma worker_slot_other w w' s : w' <> w -> workers (exec (worker_slot w) s) !! w' = workers s !! w'.
Proof.
  intros Hne. unfold worker_slot. rewrite exec_modify. destruct (workers s !! w); [done|].
  simpl. by rewrite lookup_insert_ne.
Qed.

Lemma reserve_on_workers w bid u ms s :
  workers (exec (reserve_on w bid u ms) s) = alter (reserved_on bid u ms) w (workers s) /\
  global_reserved_units (exec (reserve_on w bid u ms) s) = i64 (global_reserved_units s + u).
Proof. done. Qed.

Lemma plan_dispatch_dispatched request explain s out :
  Inv s -> result (do_plan_dispatch request explain) s = Ok out -> dout_decision out = DD_Dispatch ->
  dispatched s (exec (do_plan_dispatch request explain) s) request (result clock_now s) out.
Proof.
  intros I. unfold do_plan_dispatch.
  rewrite !exec_bind, !result_bind. fold (plan_state s). rewrite result_gets, exec_gets.
  set (now := result clock_now s). set (s1 := plan_state s).
  assert (Inv s1) as I1.
  { eapply Inv_rtc; [|exact I]. unfold s1, plan_state. etrans; [|apply expire_scan_refines].
    - change (refines s clock_now). auto with frame nocore.
    - eapply Inv_rtc; [|exact I]. change (refines s clock_now). auto with frame nocore. }
  destruct (requests s1 !! request) as [r|] eqn:Hr; [|done].
  destruct (is_expired (rec_spec r) now) eqn:He; [rewrite result_bind; by intros [= <-]|].
  destruct (negb _ && _) eqn:HB; [by intros [= <-]|].
  assert (rec_state r = RS_Queued) as Hs by (eapply resting_runnable; [by eapply i_records|done]).
  clear HB. rewrite !exec_bind, !result_bind, !result_gets, !exec_gets.
  fold (plan_members s1 request now).
  destruct (plan_members_queued s1 request now r I1 Hr Hs) as [ND HQ].
  set (members := plan_members s1 request now) in *.
  set (units := batch_units_of s1 members). set (sel := select_worker s1 members (batch_cost s1 members) now).
  destruct (id_valid sel.1) eqn:HV; cbn [negb]; [|by intros [= <-]].
  rewrite !exec_bind, !result_bind, result_gets, exec_gets, worker_slot_of.
  set (s2 := exec (worker_slot sel.1) s1).
  destruct (_ && (_ <? units)) eqn:HF; [by intros [= <-]|].
  rewrite !exec_bind, !result_bind, result_gets, exec_gets, result_ret, exec_ret.
  set (bid := result next_id s2). set (s3 := exec next_id s2).
  set (s4 := exec (reserve_on sel.1 bid units members) s3).
  set (s5 := exec (foreach members _) s4).
  intros [= <-] _. destruct (plan_state_workers s) as [EW EG]. fold s1 in EW, EG.
  pose proof (reserve_all_workers sel.1 bid now members s4) as E5. unfold steps in E5. fold s5 in E5.
  injection E5 as EW5 EG5 _.
  assert (ids s2 = ids s1 /\ global_reserved_units s2 = global_reserved_units s1) as [E2i E2g].
  { unfold s2, worker_slot. rewrite exec_modify. by destruct (workers s1 !! sel.1). }
  assert (forall w, worker_of s1 w = worker_of s w) as Eof by (intros w; unfold worker_of; by rewrite EW).
  constructor; cbn [dout_batch_members dout_estimated_cost_units dout_worker_id dout_batch_id hold]; try done.
  - by exists r.
  - change (0 < cap_total_capacity_units (reg_capability (wr_registration (worker_of s sel.1))) ->
            units <= avail_units (worker_of s sel.1)). intros Hc. rewrite Eof in HF.
    rewrite (proj2 (Z.ltb_lt _ _) Hc) in HF. by apply Z.ltb_ge in HF.
  - change ((id_next (ids s2)).1 = (id_next (ids s1)).1). by rewrite E2i.
  - change (worker_of s5 sel.1 = reserved_on bid units members (worker_of s sel.1)).
    rewrite <- Eof, <- (worker_slot_of sel.1 s1). unfold worker_of at 1. rewrite EW5.
    change (workers s4) with (alter (reserved_on bid units members) sel.1 (workers s2)).
    destruct (worker_slot_exists sel.1 s1) as [x Hx]. fold s2 in Hx. unfold worker_of. fold s2.
    by rewrite lookup_alter_eq, Hx.
  - intros w Hw. change (w <> sel.1) in Hw. change (workers s5 !! w = workers s !! w). rewrite EW5.
    change (workers s4) with (alter (reserved_on bid units members) sel.1 (workers s2)).
    rewrite lookup_alter_ne by done. unfold s2. by rewrite worker_slot_other, EW.
  - change (global_reserved_units s5 = i64 (global_reserved_units s + units)).
    rewrite EG5, <- EG. change (global_reserved_units s4) with (i64 (global_reserved_units s2 + units)).
    by rewrite E2g.
  - intros id. change (requests s5 !! id = if bool_decide (id ∈ members)
      then set_reserved bid now <$> requests s1 !! id else requests s1 !! id).
    unfold s5. rewrite reserve_all_requests by done. unfold s4, s3, s2. by reqs.
Qed.

Lemma clock_now_Inv s : Inv s -> Inv (exec clock_now s).
Proof. intros I. eapply Inv_rtc; [|exact I]. change (refines s clock_now). auto with frame nocore. Qed.

Lemma plan_state_Inv s : Inv s -> Inv (plan_state s).
Proof.
  intros I. eapply Inv_rtc; [|by apply clock_now_Inv]. apply expire_scan_refines. by apply clock_now_Inv.
Qed.

End Plan.

(** ** The theorems *)

(** C24: Batches.  In a reachable state [form_batch] returns the seed followed by
    distinct other requests that are queued, have not expired and share the
    seed's batching key, in the order (slack, priority, id), no more than the
    batch limit, and within the token budget when the batch is more than the
    seed. *)
Theorem batches_are_well_formed `{Env} c ep salt s seed now r :
  reachable c ep salt s -> requests s !! seed = Some r -> batch_limit s seed < 2 ^ 31 ->
  exists rest, form_batch s seed now = seed :: rest /\ NoDup (seed :: rest) /\
    (forall id, id ∈ rest -> exists r', requests s !! id = Some r' /\ rec_state r' = RS_Queued /\
       is_expired (rec_spec r') now = false /\
       compat_key (cfg s) (rec_spec r') = compat_key (cfg s) (rec_spec r)) /\
    StronglySorted (cand_le s now) rest /\
    Z.of_nat (length (seed :: rest)) <= batch_limit s seed /\
    (0 < bc_max_tokens (cfg_batch (cfg s)) -> rest <> [] ->
     token_sum s (request_tokens s seed) rest <= bc_max_tokens (cfg_batch (cfg s))).
Proof.
  intros I%reachable_Inv Hr HL. destruct (form_batch_members s seed now r Hr) as [n E].
  pose proof (form_batch_NoDup s seed now) as ND.
  exists (take n (batch_candidates s seed now)). rewrite E in ND. split_and!; [done|done| | | |].
  - intros id Hid. apply NoDup_cons in ND as [Hni _].
    destruct (form_batch_member s seed now id (i_queue _ I)) as (r' & ? & ? & ? & HK).
    { rewrite E. by right. }
    { intros ->. contradiction. }
    exists r'. unfold request_of in HK. by rewrite Hr in HK.
  - apply StronglySorted_take, batch_candidates_sorted.
  - rewrite <- E. unfold form_batch. rewrite Hr. apply fill_batch_length. simpl.
    unfold batch_limit in *. repeat case_match; lia.
  - intros Hpos Hne. unfold form_batch in E. rewrite Hr in E.
    by eapply (fill_batch_tokens _ _ _ [seed]).
Qed.

Lemma batches_are_well_formed_witness :
  exists rest, form_batch demo_queued 100 0 = 100 :: rest /\ NoDup (100 :: rest).
Proof.
  destruct (batches_are_well_formed _ _ _ demo_queued 100 0 (request_of demo_queued 100)
    demo_queued_reachable) as (rest & E & ND & _).
  - by vm_compute.
  - by vm_compute.
  - exists rest. exact (conj E ND).
Defined.

(** C25: Greedy batches.  A batch leaves out a candidate only at one of its
    bounds: it is full, or the next candidate in order would exceed the token
    budget. *)
Theorem batches_are_greedy s seed now r rest id more :
  requests s !! seed = Some r -> form_batch s seed now = seed :: rest ->
  batch_candidates s seed now = rest ++ id :: more ->
  Z.of_nat (length (batch_candidates s seed now)) < 2 ^ 30 ->
  batch_limit s seed <= Z.of_nat (length (seed :: rest)) \/
  (0 < bc_max_tokens (cfg_batch (cfg s)) /\
   bc_max_tokens (cfg_batch (cfg s)) < token_sum s (request_tokens s seed) (rest ++ [id])).
Proof.
  intros Hr E HC HL. unfold form_batch in E. rewrite Hr in E.
  apply (fill_batch_greedy s _ _ [seed] (batch_candidates s seed now) rest id more); [done|done|].
  simpl. lia.
Qed.

(** A seed that takes no companions. *)
Definition demo_alone : Impl :=
  demo_queued <| requests ::= alter (fun r => r <| rec_spec ::= fun sp => sp <| spec_max_batch_size := 1 |> |>) 100 |>.

Lemma batches_are_greedy_witness :
  batch_limit demo_alone 100 <= 1 \/
  (0 < bc_max_tokens (cfg_batch (cfg demo_alone)) /\
   bc_max_tokens (cfg_batch (cfg demo_alone)) < token_sum demo_alone (request_tokens demo_alone 100) [101]).
Proof.
  apply (batches_are_greedy demo_alone 100 0 (request_of demo_alone 100) [] 101 []); by vm_compute.
Defined.

(** C22: Dispatch.  When [do_plan_dispatch] answers [Dispatch], the chosen worker's
    record gains exactly one batch with the units of its members, no other
    worker changes, the units fit in what the worker has available, and exactly
    the members of the batch become reserved. *)
Theorem dispatch_reserves_its_batch `{Env} c ep salt s request explain out :
  reachable c ep salt s -> result (do_plan_dispatch request explain) s = Ok out ->
  dout_decision out = DD_Dispatch ->
  dispatched s (exec (do_plan_dispatch request explain) s) request (result clock_now s) out.
Proof. intros I%reachable_Inv. by apply plan_dispatch_dispatched. Qed.

Definition demo_outcome : DispatchOutcome :=
  match result (do_plan_dispatch 100 false) demo_queued with
  | Ok out => out
  | Err _ => default_dispatch_outcome
  end.

Lemma dispatch_reserves_its_batch_witness :
  dispatched demo_queued (exec (do_plan_dispatch 100 false) demo_queued) 100 (result clock_now demo_queued)
    demo_outcome.
Proof.
  apply (dispatch_reserves_its_batch _ _ _ demo_queued 100 false demo_outcome demo_queued_reachable); by vm_compute.
Defined.

(** Only runnable work is dispatched.  Every request of a dispatched batch was
    queued and had not expired when the dispatcher decided; none of them
    appears twice, and the requested one is among them. *)
Theorem dispatched_requests_are_runnable `{Env} c ep salt s request explain out :
  reachable c ep salt s -> result (do_plan_dispatch request explain) s = Ok out ->
  dout_decision out = DD_Dispatch ->
  let now := result clock_now s in
  request ∈ dout_batch_members out /\ NoDup (dout_batch_members out) /\
  forall id, id ∈ dout_batch_members out ->
    exists r, requests (plan_state s) !! id = Some r /\ rec_state r = RS_Queued /\
      is_expired (rec_spec r) now = false.
Proof.
  intros I%reachable_Inv Hres Hd now.
  destruct (plan_dispatch_dispatched request explain s out I Hres Hd) as [(r & Hr & Hs & He) Hm _ _ _ _ _ _ _ _ _].
  pose proof (plan_state_Inv s I) as I1. rewrite Hm. fold now in Hm.
  destruct (plan_members_queued (plan_state s) request now r I1 Hr Hs) as [ND _].
  destruct (form_batch_members (plan_state s) request now r Hr) as [n E].
  unfold plan_members in *. fold now. rewrite E in *. split_and!; [by left|done|].
  intros id Hid. rewrite <- E in Hid. destruct (decide (id = request)) as [->|Hne]; [by exists r|].
  destruct (form_batch_member (plan_state s) request now id (i_queue _ I1) Hid Hne) as (r' & ? & ? & ? & _).
  by exists r'.
Qed.

Lemma dispatched_requests_are_runnable_witness :
  100 ∈ dout_batch_members demo_outcome /\ NoDup (dout_batch_members demo_outcome).
Proof.
  destruct (dispatched_requests_are_runnable _ _ _ demo_queued 100 false demo_outcome demo_queued_reachable)
    as (H1 & H2 & _); [by vm_compute..|]. exact (conj H1 H2).
Defined.
