(* ===== verification/AdmissionSpec.v ===== *)
(** * What admission decides

    [make_admission] against a declarative description of its decisions, and
    the effect of draining on every later operation. *)

From S2P Require Import Prelude Enums Ids Float64 Types State Admission Queue Batch Dispatch Completion Control Frames Lifecycle Index Accounts Micro Refine Seed BatchSpec Handlers Machine Demo.
Open Scope Z_scope.

Section Decision.
  Context `{Env}.

(** The deadline leaves less time (in milliseconds) than the request costs. *)
Definition infeasible (c : SchedulerConfig) (sp : RequestSpec) (now : Z) : Prop :=
  al_enforce_deadline_feasibility (cfg_admission c) = true /\ dl_valid (spec_deadline sp) = true /\
  0 < remaining (spec_deadline sp) now < ceil_cost (rd_cost_units (spec_demand sp)).

(** The scheduler takes no request, or not this one. *)
Definition closed (s : Impl) (sp : RequestSpec) (now : Z) : Prop :=
  draining s = true \/ recovery_mode s = 1 \/ is_expired sp now = true.

(** There is room for one more request of the tenant. *)
Record has_room (s : Impl) (sp : RequestSpec) : Prop := {
  hr_global : global_admitted s < al_max_global_admitted (cfg_admission (cfg s));
  hr_queue : global_queued s < al_max_global_queued (cfg_admission (cfg s));
  hr_tokens : 0 < al_max_global_token_budget (cfg_admission (cfg s)) ->
    i64 (global_tokens s + tokens_total (spec_tokens sp)) <= al_max_global_token_budget (cfg_admission (cfg s));
  hr_tenant : forall x, tenants s !! spec_tenant sp = Some x ->
    ten_admitted x < al_default_tenant_concurrency (cfg_admission (cfg s)) /\
    ten_queued x < al_default_tenant_queue_depth (cfg_admission (cfg s))
}.

(** Some registered worker can serve it, or none is registered yet. *)
Definition servable (s : Impl) (sp : RequestSpec) : Prop :=
  workers s = ∅ \/
  exists w wr, workers s !! w = Some wr /\ compatible sp (reg_capability (wr_registration wr)) = true.

Lemma deadline_gate_spec c sp now :
  (deadline_gate c sp now = None /\ ~ infeasible c sp now) \/
  (infeasible c sp now /\ deadline_gate c sp now =
     Some (if cfg_strict_deadline_rejection c then AD_Reject else AD_Defer, "deadline_infeasible"%string)).
Proof.
  unfold deadline_gate, infeasible.
  destruct (al_enforce_deadline_feasibility _); [|left; split; [done|]; by intros (? & _)].
  destruct (dl_valid (spec_deadline sp)) eqn:Hd; [|left; split; [done|]; by intros (_ & ? & _)].
  cbn [andb]. pose proof (remaining_nonneg (spec_deadline sp) now).
  destruct (Z.ltb_spec (remaining (spec_deadline sp) now) 0); [lia|].
  destruct (Z.ltb_spec 0 (remaining (spec_deadline sp) now)),
    (Z.ltb_spec (remaining (spec_deadline sp) now) (ceil_cost (rd_cost_units (spec_demand sp))));
    cbn [andb]; try (left; split; [done|]; intros (_ & _ & ?); lia).
  right. split; [done|]. by destruct (cfg_strict_deadline_rejection c).
Qed.

Lemma tenant_room s sp (f : TenantRecord -> bool) :
  from_option f false (tenants s !! spec_tenant sp) = false <->
  forall x, tenants s !! spec_tenant sp = Some x -> f x = false.
Proof. destruct (tenants s !! spec_tenant sp); simpl; naive_solver. Qed.

Lemma servable_spec s sp :
  servable s sp <->
  (bool_decide (workers s = ∅) = true \/
   existsb (fun p => compatible sp (reg_capability (wr_registration p.2))) (map_to_list (workers s)) = true).
Proof.
  unfold servable. rewrite bool_decide_eq_true, existsb_exists. f_equiv. split.
  - intros (w & wr & Hw & Hc). exists (w, wr). split; [|done]. by apply list_elem_of_In, elem_of_map_to_list.
  - intros ([w wr] & Hin%list_elem_of_In%elem_of_map_to_list & Hc). eauto.
Qed.

Lemma admission_room s sp now :
  draining s = false -> recovery_mode s <> 1 -> is_expired sp now = false ->
  ~ infeasible (cfg s) sp now ->
  (make_admission s sp now = (AD_Admit, "admitted"%string) /\ has_room s sp /\ servable s sp) \/
  (exists reason, make_admission s sp now = (AD_Defer, reason) /\ ~ (has_room s sp /\ servable s sp)).
Proof.
  intros Hd Hm He Hi. unfold make_admission. rewrite Hd, (proj2 (Z.eqb_neq _ _) Hm).
  change (dl_valid (spec_deadline sp) && expired (spec_deadline sp) now) with (is_expired sp now).
  rewrite He. destruct (deadline_gate_spec (cfg s) sp now) as [[-> _]|[? _]]; [|done].
  set (a := cfg_admission (cfg s)).
  destruct (Z.leb_spec (al_max_global_admitted a) (global_admitted s)).
  { right. eexists. split; [done|]. intros [[? _ _ _] _]. subst a. lia. }
  destruct (Z.leb_spec (al_max_global_queued a) (global_queued s)).
  { right. eexists. split; [done|]. intros [[_ ? _ _] _]. subst a. lia. }
  destruct ((0 <? al_max_global_token_budget a) && _) eqn:Ht.
  { right. eexists. split; [done|]. intros [[_ _ T _] _]. fold a in T. lia. }
  destruct (from_option _ false _) eqn:E1.
  { right. eexists. split; [done|]. intros [[_ _ _ T] _]. fold a in T.
    destruct (tenants s !! spec_tenant sp) as [x|]; [|done]. simpl in E1. destruct (T x eq_refl). lia. }
  destruct (from_option (fun t => al_default_tenant_queue_depth a <=? ten_queued t) false _) eqn:E2.
  { right. eexists. split; [done|]. intros [[_ _ _ T] _]. fold a in T.
    destruct (tenants s !! spec_tenant sp) as [x|]; [|done]. simpl in E2. destruct (T x eq_refl). lia. }
  assert (has_room s sp) as HR.
  { split; fold a; try lia. intros x Hx. rewrite Hx in E1, E2. simpl in E1, E2. lia. }
  pose proof (servable_spec s sp) as HS.
  destruct (bool_decide (workers s = ∅)); [left; split_and!; [done..|]; tauto|].
  destruct (existsb _ _); [left; split_and!; [done..|]; tauto|].
  right. eexists. split; [done|]. intros [_ Hv%HS]. by destruct Hv.
Qed.

Lemma admission_cases s sp now :
  (closed s sp now /\ (make_admission s sp now).1 = AD_Reject) \/
  (~ closed s sp now /\ infeasible (cfg s) sp now /\ (make_admission s sp now).1 =
     if cfg_strict_deadline_rejection (cfg s) then AD_Reject else AD_Defer) \/
  (~ closed s sp now /\ ~ infeasible (cfg s) sp now /\
   ((make_admission s sp now).1 = AD_Admit /\ has_room s sp /\ servable s sp \/
    (make_admission s sp now).1 = AD_Defer /\ ~ (has_room s sp /\ servable s sp))).
Proof.
  unfold closed. destruct (draining s) eqn:Hd; [left; split; [auto|]; unfold make_admission; by rewrite Hd|].
  destruct (decide (recovery_mode s = 1)) as [Hm|Hm].
  { left. split; [auto|]. unfold make_admission. by rewrite Hd, Hm. }
  destruct (is_expired sp now) eqn:He.
  { left. split; [auto|]. unfold make_admission. rewrite Hd, (proj2 (Z.eqb_neq _ _) Hm).
    change (dl_valid (spec_deadline sp) && expired (spec_deadline sp) now) with (is_expired sp now).
    by rewrite He. }
  right. assert (~ (false = true \/ recovery_mode s = 1 \/ false = true)) as Hc by naive_solver.
  destruct (deadline_gate_spec (cfg s) sp now) as [[_ Hi]|[Hi Hg]]; [right|left].
  - split_and!; [done..|]. destruct (admission_room s sp now Hd Hm He Hi) as [(-> & ? & ?)|(reason & -> & ?)]; auto.
  - split_and!; [done..|]. unfold make_admission. rewrite Hd, (proj2 (Z.eqb_neq _ _) Hm).
    change (dl_valid (spec_deadline sp) && expired (spec_deadline sp) now) with (is_expired sp now).
    rewrite He, Hg. by destruct (cfg_strict_deadline_rejection (cfg s)).
Qed.

End Decision.

(** C20: Admission.  A request is admitted exactly when the scheduler is open, the
    deadline has not passed and leaves enough time, every global and tenant
    limit has room, and some registered worker (if any) can serve it; it is
    rejected exactly when the scheduler is closed to it or, under strict
    deadlines, the deadline is infeasible; otherwise it is deferred. *)
Theorem admission_decides_as_specified `{Env} s sp now :
  let d := (make_admission s sp now).1 in
  (d = AD_Admit <-> ~ closed s sp now /\ ~ infeasible (cfg s) sp now /\ has_room s sp /\ servable s sp) /\
  (d = AD_Reject <-> closed s sp now \/
     (infeasible (cfg s) sp now /\ cfg_strict_deadline_rejection (cfg s) = true)).
Proof.
  intros d. destruct (admission_cases s sp now) as [(Hc & E)|[(Hc & Hi & E)|(Hc & Hi & [(E & ? & ?)|(E & Hn)])]];
    fold d in E; rewrite E; destruct (cfg_strict_deadline_rejection (cfg s)); naive_solver.
Qed.
