(* ===== verification/Journal.v ===== *)
(** * What every method does to the event log and to the set of requests

    Apart from the events it emits, no method touches the event log, the drain
    flag or the set of known request ids, except the few operations that exist
    for that, and the identifier factory only moves forward.  One walk over all methods, for any preorder [R] that allows
    quiet steps and emitted events, yields the invariant of the log and the
    effect of draining. *)

From S2P Require Import Prelude Enums Ids Float64 Types State Admission Queue Batch Dispatch Completion Control Frames Lifecycle Index Accounts Micro Refine Seed BatchSpec Handlers Machine Demo Safety.
Open Scope Z_scope.

(** A step that emits nothing, adds no request and leaves the drain flag. *)
Record quiet (s s' : Impl) : Prop := {
  qu_log : event_log s' = event_log s;
  qu_seq : event_seq s' = event_seq s;
  qu_draining : draining s' = draining s;
  qu_requests : dom (requests s') = dom (requests s);
  qu_ids : issues (ids s) (ids s')
}.

Class Loud `{Env} (R : relation Impl) : Prop := {
  loud_preorder :: PreOrder R;
  loud_quiet s s' : quiet s s' -> R s s';
  loud_emit ty rid aid wid bid d s : steps R s (emit_event ty rid aid wid bid d)
}.

Ltac quiet_base :=
  apply loud_quiet; constructor; simpl; rewrite ?dom_alter_L;
    first [done | by exists 0%nat | by exists 1%nat | by case_match | by case_match; exists 0%nat].

Section Walk.
  Context `{Loud R}.

Lemma clock_now_loud s : steps R s clock_now.
Proof. unfold clock_now. mwalk quiet_base. Qed.
Lemma next_id_loud s : steps R s next_id.
Proof. unfold steps, next_id. rewrite !exec_bind, result_gets, exec_ret, exec_modify, exec_gets. quiet_base. Qed.
Lemma modify_rec_loud id f s : steps R s (modify_rec id f).
Proof. unfold modify_rec. mwalk quiet_base. Qed.
Lemma modify_worker_loud w f s : steps R s (modify_worker w f).
Proof. unfold modify_worker. mwalk quiet_base. Qed.
Lemma modify_tenant_loud t f s : steps R s (modify_tenant t f).
Proof. unfold modify_tenant. mwalk quiet_base. Qed.
Lemma modify_stats_loud f s : steps R s (modify_stats f).
Proof. unfold modify_stats. mwalk quiet_base. Qed.
Lemma tenant_of_loud t s : steps R s (tenant_of t).
Proof. unfold tenant_of. mwalk quiet_base. Qed.
Lemma put_flow_loud k f s : steps R s (put_flow k f).
Proof. unfold put_flow. mwalk quiet_base. Qed.
Lemma worker_slot_loud w s : steps R s (worker_slot w).
Proof. unfold worker_slot. mwalk quiet_base. Qed.
#[local] Hint Resolve loud_emit clock_now_loud next_id_loud modify_rec_loud modify_worker_loud
  modify_tenant_loud modify_stats_loud tenant_of_loud put_flow_loud worker_slot_loud : frame.

Lemma enqueue_loud id s : steps R s (enqueue_request id).
Proof. unfold enqueue_request. mwalk quiet_base. Qed.
Lemma dequeue_loud id s : steps R s (dequeue_request id).
Proof. unfold dequeue_request. mwalk quiet_base. Qed.
Lemma release_admitted_loud t s : steps R s (release_admitted t).
Proof. unfold release_admitted. mwalk quiet_base. Qed.
Lemma release_running_loud t s : steps R s (release_running t).
Proof. unfold release_running. mwalk quiet_base. Qed.
Lemma account_flow_loud sp c s : steps R s (account_flow sp c).
Proof. unfold account_flow. mwalk quiet_base. Qed.
Lemma release_batch_loud w b s : steps R s (release_batch w b).
Proof. unfold release_batch. mwalk quiet_base. Qed.
#[local] Hint Resolve enqueue_loud dequeue_loud release_admitted_loud release_running_loud
  account_flow_loud release_batch_loud : frame.

Lemma expire_request_loud id s : steps R s (expire_request id).
Proof. unfold expire_request. mwalk quiet_base. Qed.
Lemma release_batch_member_loud id w s : steps R s (release_batch_member id w).
Proof. unfold release_batch_member. mwalk quiet_base. Qed.
#[local] Hint Resolve expire_request_loud release_batch_member_loud : frame.

Lemma expire_scan_loud now s : steps R s (expire_scan now).
Proof. unfold expire_scan. mwalk quiet_base. Qed.
Lemma prune_pending_loud k now q s : steps R s (prune_pending k now q).
Proof.
  revert s. induction q as [|e q IH]; intros s; cbn [prune_pending]; [mwalk quiet_base|].
  mwalk ltac:(first [quiet_base | apply IH]).
Qed.
#[local] Hint Resolve expire_scan_loud prune_pending_loud : frame.
Lemma scan_flows_loud now ks best s : steps R s (scan_flows now ks best).
Proof.
  revert best s. induction ks as [|k ks IH]; intros best s; cbn [scan_flows]; [mwalk quiet_base|].
  mwalk ltac:(first [quiet_base | apply IH]).
Qed.
#[local] Hint Resolve scan_flows_loud : frame.
Lemma pick_seed_loud now s : steps R s (pick_seed now).
Proof. unfold pick_seed. mwalk quiet_base. Qed.
Lemma pick_next_loud s : steps R s pick_next.
Proof. unfold pick_next. pose proof pick_seed_loud. mwalk ltac:(first [quiet_base | auto]). Qed.

#[local] Hint Resolve pick_seed_loud pick_next_loud : frame.

Lemma finish_success_loud id rp s : steps R s (finish_success id rp).
Proof. unfold finish_success. mwalk quiet_base. Qed.
Lemma finish_failed_loud id rp s : steps R s (finish_failed id rp).
Proof. unfold finish_failed. mwalk quiet_base. Qed.
Lemma finish_cancelled_loud id w reason s : steps R s (finish_cancelled id w reason).
Proof. unfold finish_cancelled. mwalk quiet_base. Qed.
Lemma make_retry_loud id rp s : steps R s (make_retry id rp).
Proof. unfold make_retry. mwalk quiet_base. Qed.
Lemma complete_expired_loud id rp s : steps R s (complete_expired id rp).
Proof. unfold complete_expired. mwalk quiet_base. Qed.
Lemma start_batch_loud w b s : steps R s (start_batch w b).
Proof. unfold start_batch. mwalk quiet_base. Qed.
Lemma reserve_on_loud w b u ms s : steps R s (reserve_on w b u ms).
Proof. unfold reserve_on. mwalk quiet_base. Qed.
Lemma reserve_member_loud w b now id s : steps R s (reserve_member w b now id).
Proof. unfold reserve_member. mwalk quiet_base. Qed.
Lemma bump_stale_loud s : steps R s bump_stale.
Proof. unfold bump_stale. mwalk quiet_base. Qed.
#[local] Hint Resolve finish_success_loud finish_failed_loud finish_cancelled_loud make_retry_loud
  complete_expired_loud start_batch_loud reserve_on_loud reserve_member_loud bump_stale_loud : frame.

Lemma plan_dispatch_loud id ex s : steps R s (do_plan_dispatch id ex).
Proof. unfold do_plan_dispatch. mwalk quiet_base. Qed.
Lemma confirm_start_loud rp s : steps R s (do_confirm_start rp).
Proof. unfold do_confirm_start. mwalk quiet_base. Qed.
Lemma complete_loud rp s : steps R s (do_complete rp).
Proof. unfold do_complete, settle. mwalk quiet_base. Qed.
Lemma cancel_loud id reason d s : steps R s (do_cancel id reason d).
Proof. unfold do_cancel. mwalk quiet_base. Qed.
Lemma recover_one_loud w b id s : steps R s (recover_one w b id).
Proof. unfold recover_one. mwalk quiet_base. Qed.
#[local] Hint Resolve recover_one_loud : frame.
Lemma recover_in_flight_loud w s : steps R s (recover_in_flight w).
Proof. unfold recover_in_flight. mwalk quiet_base. Qed.
#[local] Hint Resolve recover_in_flight_loud : frame.
Lemma register_loud reg s : steps R s (do_register_worker reg).
Proof. unfold do_register_worker. mwalk quiet_base. Qed.
Lemma update_capability_loud w cap s : steps R s (do_update_capability w cap).
Proof. unfold do_update_capability. mwalk quiet_base. Qed.
Lemma set_worker_state_loud w st snap s : steps R s (do_set_worker_state w st snap).
Proof. unfold do_set_worker_state. mwalk quiet_base. Qed.
Lemma unregister_loud w s : steps R s (do_unregister_worker w).
Proof. unfold do_unregister_worker. mwalk quiet_base. Qed.
Lemma cancel_all_loud d s : steps R s (do_cancel_all_queued d).
Proof. unfold do_cancel_all_queued, cancel_queued_one. mwalk quiet_base. Qed.
Lemma roll_epoch_loud s : steps R s do_roll_epoch.
Proof. unfold do_roll_epoch. mwalk quiet_base. Qed.
Lemma explain_loud id s : steps R s (do_explain id).
Proof. unfold do_explain. mwalk quiet_base. Qed.
Lemma snapshot_loud s : steps R s do_snapshot.
Proof. unfold do_snapshot. mwalk quiet_base. Qed.
Lemma set_handler_loud h s : steps R s (set_event_handler h).
Proof. unfold set_event_handler. mwalk quiet_base. Qed.

(** Submission adds at most one request. *)
Lemma submit_loud_at sp pre s :
  (forall r s', steps R s' (insert_if_absent (submit_id s pre) r)) -> steps R s (do_submit sp pre).
Proof.
  intros Hi. unfold do_submit. destruct (validate_spec sp); [|apply steps_ret; exact _].
  apply steps_bind; [exact _|destruct pre; [apply steps_ret; exact _|apply next_id_loud]|].
  assert (result (match pre with Some p => mret p | None => next_id end) s = submit_id s pre) as -> by (by destruct pre).
  generalize (exec (match pre with Some p => mret p | None => next_id end) s). intros s1. revert Hi.
  generalize (submit_id s pre). intros rid Hi. unfold submit_admitted. mwalk ltac:(first [quiet_base | apply Hi]).
Qed.

Lemma submit_loud sp pre s :
  (forall id r s, steps R s (insert_if_absent id r)) -> steps R s (do_submit sp pre).
Proof. intros Hi. by apply submit_loud_at. Qed.

Lemma begin_drain_loud reason s :
  (forall s r, R s (s <| draining := true |> <| drain_reason := r |>)) -> steps R s (do_begin_drain reason).
Proof. intros Hd. unfold do_begin_drain. mwalk ltac:(first [apply Hd | quiet_base]). Qed.

(** The operations that neither submit, drain nor consume events. *)
Lemma op_loud o s :
  match o with OpSubmit _ _ | OpDrain _ | OpDrainEvents | OpFlush => False | _ => True end ->
  R s (exec (run_op o) s).
Proof.
  destruct o; intros Ho; try (destruct Ho); cbn [run_op]; rewrite ?exec_unit.
  - exact (pick_next_loud s).
  - exact (plan_dispatch_loud request explain s).
  - exact (confirm_start_loud rp s).
  - exact (complete_loud rp s).
  - exact (cancel_loud request reason detail s).
  - exact (register_loud reg s).
  - exact (update_capability_loud w cap s).
  - exact (set_worker_state_loud w st snap s).
  - exact (unregister_loud w s).
  - exact (cancel_all_loud detail s).
  - exact (roll_epoch_loud s).
  - exact (explain_loud request s).
  - exact (snapshot_loud s).
  - exact (set_handler_loud h s).
Qed.

End Walk.

(** ** The event log *)

(** The log holds the last events, numbered consecutively up to [event_seq_]
    (modulo the width of the counter). *)
Record LogInv (s : Impl) : Prop := {
  lg_seq : 0 <= event_seq s < 2 ^ 64;
  lg_cap : Z.of_nat (length (event_log s)) <= event_log_cap;
  lg_numbers : forall i e, event_log s !! i = Some e ->
    ev_sequence e = u64 (event_seq s - (Z.of_nat (length (event_log s)) - 1 - Z.of_nat i))
}.

Lemma LogInv_same s s' :
  LogInv s -> event_log s' = event_log s -> event_seq s' = event_seq s -> LogInv s'.
Proof. intros [A B C] E1 E2. split; rewrite ?E1, ?E2; done. Qed.

Lemma u64_pred a b : u64 (u64 a - b) = u64 (a - b).
Proof. unfold u64. by rewrite Zminus_mod_idemp_l. Qed.

(** Appending the next event, before the cap is applied. *)
Lemma numbers_snoc l n e :
  (forall i x, l !! i = Some x -> ev_sequence x = u64 (n - (Z.of_nat (length l) - 1 - Z.of_nat i))) ->
  ev_sequence e = u64 (n + 1) ->
  forall i x, (l ++ [e]) !! i = Some x ->
    ev_sequence x = u64 (u64 (n + 1) - (Z.of_nat (length (l ++ [e])) - 1 - Z.of_nat i)).
Proof.
  intros Hl He i x Hx. rewrite u64_pred, length_app. simpl.
  apply lookup_app_Some in Hx as [Hx|[Hi Hx]].
  - rewrite (Hl i x Hx). f_equal. lia.
  - apply list_lookup_singleton_Some in Hx as [Hi' <-]. rewrite He. f_equal. lia.
Qed.

Lemma push_numbers l n e :
  Z.of_nat (length l) <= event_log_cap ->
  (forall i x, l !! i = Some x -> ev_sequence x = u64 (n - (Z.of_nat (length l) - 1 - Z.of_nat i))) ->
  ev_sequence e = u64 (n + 1) ->
  Z.of_nat (length (push_event e l)) <= event_log_cap /\
  forall i x, push_event e l !! i = Some x ->
    ev_sequence x = u64 (u64 (n + 1) - (Z.of_nat (length (push_event e l)) - 1 - Z.of_nat i)).
Proof.
  intros Hc Hl He. pose proof (numbers_snoc l n e Hl He) as Hn. unfold push_event.
  destruct (Z.ltb_spec event_log_cap (Z.of_nat (length (l ++ [e])))) as [Hov|]; [|auto].
  assert (length (tail (l ++ [e])) = length l) as Ht by (destruct l; [done|simpl; rewrite length_app; simpl; lia]).
  rewrite Ht. split; [done|]. intros i x Hx.
  assert ((l ++ [e]) !! Datatypes.S i = Some x) as Hx' by (by destruct (l ++ [e])).
  rewrite (Hn _ _ Hx'), length_app. f_equal. simpl. lia.
Qed.

#[export] Instance LogInv_loud `{Env} : Loud (keeps LogInv).
Proof.
  split; [apply _|..].
  - intros s s' [E1 E2 _ _] I. by eapply LogInv_same.
  - intros ty rid aid wid bid d s [A B C]. unfold emit_event.
    rewrite !exec_bind, !exec_gets, !result_gets, exec_modify.
    match goal with |- context [push_event ?e] => set (ev := e) end.
    destruct (push_numbers (event_log s) (event_seq s) ev B C eq_refl) as [HB HC].
    split; [apply u64_range|exact HB|exact HC].
Qed.

Lemma op_log `{Env} o s : LogInv s -> LogInv (exec (run_op o) s).
Proof.
  intros I. assert (0 <= event_seq s < 2 ^ 64) as Hs by apply I.
  pose proof (fun Ho => op_loud (R := keeps LogInv) o s Ho I) as G.
  destruct o; try exact (G Logic.I); clear G.
  1: { cbn [run_op]. rewrite exec_unit. refine (submit_loud (R := keeps LogInv) sp pre s _ I).
       intros id r s1 I1. unfold insert_if_absent. rewrite exec_modify.
       destruct (requests s1 !! id); [done|]. by eapply LogInv_same. }
  - cbn [run_op]. rewrite exec_unit. refine (begin_drain_loud (R := keeps LogInv) reason s _ I).
    intros s1 r I1. by eapply LogInv_same.
  - cbn [run_op]. rewrite exec_unit. by split.
  - cbn [run_op]. rewrite exec_unit. unfold flush_events. rewrite exec_bind, exec_gets, result_gets.
    destruct (event_stream_mode s); [by split|done].
Qed.

(** C36: The event log.  In every reachable state the log holds at most 65536
    events; they are numbered consecutively without gaps, and the last one
    carries the scheduler's sequence number. *)
Theorem event_log_is_bounded_and_gapless `{Env} c ep salt s :
  reachable c ep salt s -> LogInv s.
Proof.
  induction 1 as [|s o s' _ IH Hst]; [by split|]. destruct Hst. by apply op_log.
Qed.

Lemma event_log_is_bounded_and_gapless_witness : LogInv demo_running.
Proof. exact (event_log_is_bounded_and_gapless _ _ _ _ demo_running_reachable). Defined.

(** ** Draining *)

(** No new request, and a drain is not revoked. *)
Definition shut (s s' : Impl) : Prop :=
  (draining s = true -> draining s' = true) /\ dom (requests s') = dom (requests s).

#[export] Instance shut_loud `{Env} : Loud shut.
Proof.
  split.
  - split; [by intros s|]. intros s1 s2 s3 [A B] [C D]. split; [auto|congruence].
  - intros s s' [_ _ E1 E2]. split; [by rewrite E1|done].
  - done.
Qed.

(** A submission to a draining scheduler is recorded as rejected, if at all. *)
Lemma draining_submit `{Env} sp pre s :
  draining s = true ->
  let s' := exec (do_submit sp pre) s in
  draining s' = true /\
  forall id r, requests s !! id = None -> requests s' !! id = Some r -> rec_state r = RS_Rejected.
Proof.
  intros Hd s'. subst s'. unfold do_submit. destruct (validate_spec sp); [|rewrite exec_ret; split; [done|congruence]].
  rewrite exec_bind. set (rid := result _ s). set (s1 := exec _ s).
  assert (draining s1 = true /\ requests s1 = requests s) as [Hd1 Hr1] by (subst s1; by destruct pre).
  clearbody rid s1. rewrite !exec_bind, !result_gets, !exec_gets.
  assert (forall now, make_admission (exec clock_now s1) sp now = (AD_Reject, "scheduler_draining"%string)) as ->.
  { intros now. unfold make_admission. by replace (draining (exec clock_now s1)) with true. }
  cbn [fst snd]. rewrite !exec_bind. unfold insert_if_absent. rewrite exec_modify.
  match goal with |- context [requests ?x !! rid] => set (s2 := x) end.
  assert (draining s2 = true /\ requests s2 = requests s) as [Hd2 Hr2] by (by subst s2).
  match goal with |- context [<[rid := ?x]>] => set (r0 := x) end.
  assert (rec_state r0 = RS_Rejected) as Hr0 by done. clearbody s2 r0.
  set (s3 := match requests s2 !! rid with Some _ => s2 | None => _ end).
  assert (draining s3 = true) as Hd3 by (subst s3; by destruct (requests s2 !! rid)).
  split; [exact Hd3|]. intros id r Hn Hs.
  change (requests s3 !! id = Some r) in Hs. subst s3. rewrite Hr2 in Hs.
  destruct (requests s !! rid); [congruence|]. simpl in Hs. rewrite Hr2, lookup_insert in Hs.
  case_decide; congruence.
Qed.

(** What a step of a draining scheduler may do. *)
Definition shutting (s s' : Impl) : Prop :=
  draining s' = true /\
  forall id r, requests s !! id = None -> requests s' !! id = Some r -> rec_state r = RS_Rejected.

Lemma shut_shutting s s' : draining s = true -> shut s s' -> shutting s s'.
Proof.
  intros Hd [Hk Hdom]. split; [auto|]. intros id r Hn Hs.
  apply not_elem_of_dom in Hn. rewrite <- Hdom in Hn. apply not_elem_of_dom in Hn. congruence.
Qed.

Lemma op_shutting `{Env} o s : draining s = true -> shutting s (exec (run_op o) s).
Proof.
  intros Hd. pose proof (fun Ho => op_loud (R := shut) o s Ho) as G.
  destruct o; try exact (shut_shutting _ _ Hd (G Logic.I)); clear G; cbn [run_op]; rewrite exec_unit.
  - by apply draining_submit.
  - apply shut_shutting; [done|]. apply begin_drain_loud. done.
  - split; [done|]. intros id r Hn Hs. change (requests s !! id = Some r) in Hs. congruence.
  - unfold flush_events. rewrite exec_bind, exec_gets, result_gets.
    destruct (event_stream_mode s); (split; [done|]); intros id r Hn Hs;
      change (requests s !! id = Some r) in Hs; congruence.
Qed.

Lemma run_shutting `{Env} c ep salt s s' :
  reachable c ep salt s -> rtc some_step s s' -> draining s = true -> shutting s s'.
Proof.
  intros Hr Hrun. induction Hrun as [s|s s1 s' [o Hst] Hrun IH]; intros Hd; [split; [done|congruence]|].
  assert (reachable c ep salt s1) as Hr1 by (by eapply reach_step).
  destruct Hst as [s o G]. destruct (op_shutting o s Hd) as [Hd1 Hn1].
  destruct (IH Hr1 Hd1) as [Hd' Hn']. split; [done|]. intros id r Hn Hs.
  destruct (requests (exec (run_op o) s) !! id) as [r1|] eqn:Hr2; [|by eapply Hn'].
  pose proof (Hn1 _ _ Hn Hr2) as Hrej.
  destruct (run_evolution _ _ (reachable_Inv _ _ _ _ Hr1) Hrun _ _ Hr2) as (r' & Hr' & He).
  assert (r' = r1) as -> by (apply (e_frozen _ _ He); by rewrite Hrej). congruence.
Qed.

(** C34: Draining.  Once a drain has begun it is never revoked, and along any
    later run no request enters the system: an id that was unknown is, if it
    is ever recorded, recorded as rejected. *)
Theorem draining_admits_nothing `{Env} c ep salt s s' :
  reachable c ep salt s -> draining s = true -> rtc some_step s s' ->
  draining s' = true /\
  forall id r, requests s !! id = None -> requests s' !! id = Some r -> rec_state r = RS_Rejected.
Proof. intros Hr Hd Hrun. exact (run_shutting _ _ _ _ _ Hr Hrun Hd). Qed.

Definition demo_draining : Impl := exec (run_op (OpDrain "maintenance")) demo_queued.
Definition demo_late : Impl := exec (run_op (OpSubmit (demo_spec 3) (Some 200))) demo_draining.

Lemma draining_admits_nothing_witness :
  draining demo_late = true /\
  forall id r, requests demo_draining !! id = None -> requests demo_late !! id = Some r -> rec_state r = RS_Rejected.
Proof.
  assert (requests demo_draining !! submit_id demo_draining (Some 200) = None) as G by (vm_compute; reflexivity).
  apply (draining_admits_nothing default_scheduler_config None 5 demo_draining demo_late).
  - exact (reach_next (OpDrain "maintenance") demo_queued demo_queued_reachable I).
  - vm_compute. reflexivity.
  - apply rtc_once. exists (OpSubmit (demo_spec 3) (Some 200)).
    exact (step_op demo_draining (OpSubmit (demo_spec 3) (Some 200)) G).
Defined.
