(* ===== verification/Ordering.v ===== *)
(** * Orders, identifiers and names

    The ready queue of a flow is a priority queue, and stays one along every
    run; identifiers are never issued twice; names and integers of the
    enumerations can be read back. *)

From S2P Require Import Prelude Enums Ids Float64 Types State Admission Queue Batch Dispatch Completion Control Frames Lifecycle Index Accounts Micro Refine Seed BatchSpec Handlers Machine Demo.
Open Scope Z_scope.

(** ** The ready queue *)

(** [a] may stand before [b]: [ReadyLess] does not put it after. *)
Definition ready_le (a b : ReadyEntry) : Prop := ready_less a b = false.

(** Least slack first, then highest priority, then least id. *)
Lemma ready_le_spec a b :
  ready_le a b <->
  re_slack a < re_slack b \/ (re_slack a = re_slack b /\
    (re_prio b < re_prio a \/ (re_prio a = re_prio b /\ re_idv a <= re_idv b))).
Proof.
  unfold ready_le, ready_less.
  destruct (Z.eqb_spec (re_slack a) (re_slack b)), (Z.eqb_spec (re_prio a) (re_prio b)); simpl; lia.
Qed.

#[export] Instance ready_le_trans : Transitive ready_le.
Proof. intros a b c. rewrite !ready_le_spec. lia. Qed.

Lemma ready_le_total a b : ready_le a b \/ ready_le b a.
Proof. rewrite !ready_le_spec. lia. Qed.

Lemma pq_push_perm e q : pq_push e q ≡ₚ e :: q.
Proof.
  induction q as [|x q IH]; simpl; [done|]. destruct (ready_less x e); [done|].
  rewrite IH. apply Permutation_swap.
Qed.

Lemma pq_push_sorted e q :
  StronglySorted ready_le q -> StronglySorted ready_le (pq_push e q).
Proof.
  induction 1 as [|x q Hq IH Hx]; simpl; [by repeat constructor|].
  destruct (ready_less x e) eqn:E.
  - assert (ready_le e x) as He by (destruct (ready_le_total e x) as [|He]; [done|]; unfold ready_le in He; congruence).
    constructor; [by constructor|]. constructor; [done|].
    eapply Forall_impl; [exact Hx|]. intros y Hy. by etrans.
  - constructor; [done|]. rewrite pq_push_perm. by constructor.
Qed.

(** The ready queue implements a priority queue: pushing keeps the entries in
    the order (slack, priority, id), so the front entry is always a least one,
    and loses and duplicates none. *)
Theorem ready_queue_is_priority_queue e q :
  StronglySorted ready_le q ->
  StronglySorted ready_le (pq_push e q) /\ pq_push e q ≡ₚ e :: q.
Proof. intros Hq. split; [by apply pq_push_sorted|apply pq_push_perm]. Qed.

Definition demo_entry (slack prio idv : Z) : ReadyEntry := mkReadyEntry idv 0 slack prio idv.

Lemma ready_queue_is_priority_queue_witness :
  StronglySorted ready_le (pq_push (demo_entry 5 1 9) [demo_entry 2 1 7; demo_entry 5 3 8]) /\
  pq_push (demo_entry 5 1 9) [demo_entry 2 1 7; demo_entry 5 3 8]
    ≡ₚ [demo_entry 5 1 9; demo_entry 2 1 7; demo_entry 5 3 8].
Proof. apply ready_queue_is_priority_queue. by repeat constructor. Defined.

(** Every flow's queue is sorted. *)
Definition SInv (s : Impl) : Prop := forall k, StronglySorted ready_le (fl_pending (flow_of s k)).

Lemma SInv_same s s' :
  SInv s -> (forall k, fl_pending (flow_of s' k) = fl_pending (flow_of s k)) -> SInv s'.
Proof. intros HS E k. rewrite E. apply HS. Qed.

Lemma SInv_enqueued id r s s' : SInv s -> enqueued id r s s' -> SInv s'.
Proof.
  intros HS [_ _ _ _ (e & _ & _ & EP) _ _] k. rewrite EP.
  destruct (bool_decide _); [by apply pq_push_sorted|done].
Qed.

Lemma SInv_micro s s' : micro s s' -> SInv s -> SInv s'.
Proof.
  intros Hm HS. destruct Hm; try (by eapply SInv_enqueued);
    try (eapply SInv_same; [exact HS|]; match goal with
      | Hq : same_queue _ _ |- _ => apply Hq
      | Hq : dequeued _ _ _ _ |- _ => apply Hq
      | Hq : loose_queue _ _ |- _ => apply Hq
      | Hq : retired _ _ _ |- _ => apply Hq end).
  - intros k'. match goal with Hp : popped _ _ _ _ |- _ => destruct Hp as [_ _ _ _ EF EP _ _] end.
    destruct (decide (k' = k)) as [->|Hk]; [|by rewrite EP].
    specialize (HS k). rewrite EF in HS. by inversion HS.
Qed.

Lemma reachable_SInv `{Env} c ep salt s : reachable c ep salt s -> SInv s.
Proof.
  induction 1 as [|s o s' Hr IH Hst].
  - intros k. unfold flow_of. simpl. rewrite lookup_empty. constructor.
  - destruct Hst as [s o G]. pose proof (op_refines o s (reachable_Inv _ _ _ _ Hr) G) as Hm.
    clear G Hr. induction Hm; eauto using SInv_micro.
Qed.

(** The order within a flow.  In every reachable state the front entry of a flow
    has the least slack of all its entries, each taken when it was enqueued;
    among equals it has the highest priority, then the smallest id.  (Slacks
    taken at different times do not compare like deadlines: an entry enqueued
    later can stand before one with an earlier deadline.) *)
Theorem flows_are_served_in_order `{Env} c ep salt s k top rest e :
  reachable c ep salt s -> fl_pending (flow_of s k) = top :: rest -> e ∈ rest ->
  re_slack top < re_slack e \/ (re_slack top = re_slack e /\
    (re_prio e < re_prio top \/ (re_prio top = re_prio e /\ re_idv top <= re_idv e))).
Proof.
  intros Hr Hp He. pose proof (reachable_SInv _ _ _ _ Hr k) as HS. rewrite Hp in HS.
  apply ready_le_spec. inversion HS as [|? ? _ Hf]; subst. by rewrite Forall_forall in Hf; apply Hf.
Qed.

(** ** Identifiers *)

(** The next [n] identifiers a factory hands out. *)
Fixpoint id_stream (n : nat) (f : IdFactory) : list Z :=
  match n with
  | O => []
  | Datatypes.S n' => (id_next f).1 :: id_stream n' (id_next f).2
  end.

Lemma id_stream_fresh n f v :
  factory_ok f -> idf_counter f + Z.of_nat n < 2 ^ 32 -> issued f v -> v ∉ id_stream n f.
Proof.
  revert f. induction n as [|n IH]; intros f Hf Hn Hv; [by apply not_elem_of_nil|]. cbn [id_stream].
  apply not_elem_of_cons. split.
  - intros ->. apply (id_next_fresh f Hf) in Hv; [done|lia].
  - apply IH.
    + apply id_next_ok; [done|lia].
    + rewrite id_next_counter; [lia|]. destruct Hf. lia.
    + apply issued_next; [done|lia|done].
Qed.

Lemma id_stream_valid n f :
  factory_ok f -> idf_counter f + Z.of_nat n < 2 ^ 32 - 1 -> Forall (fun v => id_valid v = true) (id_stream n f).
Proof.
  revert f. induction n as [|n IH]; intros f Hf Hn; [constructor|]. cbn [id_stream]. constructor.
  - apply id_next_valid; [done|lia|lia].
  - apply IH; [apply id_next_ok; [done|lia]|]. rewrite id_next_counter; [lia|]. destruct Hf. lia.
Qed.

Lemma id_stream_nodup n f :
  factory_ok f -> idf_counter f + Z.of_nat n < 2 ^ 32 -> NoDup (id_stream n f).
Proof.
  revert f. induction n as [|n IH]; intros f Hf Hn; [constructor|]. cbn [id_stream].
  assert (factory_ok (id_next f).2) as Hf' by (apply id_next_ok; [done|lia]).
  assert (idf_counter (id_next f).2 = idf_counter f + 1) as Hc by (apply id_next_counter; destruct Hf; lia).
  constructor; [|apply IH; [done|lia]].
  apply id_stream_fresh; [done|lia|]. apply id_next_issued; [done|lia].
Qed.

(** Identifiers.  As long as the low 32 bits have not run out, the identifiers
    a factory issues are pairwise different, valid, and different from every
    identifier it issued before. *)
Theorem identifiers_are_unique n f :
  factory_ok f -> idf_counter f + Z.of_nat n < 2 ^ 32 - 1 ->
  NoDup (id_stream n f) /\ Forall (fun v => id_valid v = true) (id_stream n f) /\
  forall v, issued f v -> v ∉ id_stream n f.
Proof.
  intros Hf Hn. split_and!; [apply id_stream_nodup; [done|lia]|by apply id_stream_valid|].
  intros v Hv. apply id_stream_fresh; [done|lia|done].
Qed.

Lemma identifiers_are_unique_witness :
  NoDup (id_stream 3 (mkIdFactory (random_salt 12 34) 7)) /\
  Forall (fun v => id_valid v = true) (id_stream 3 (mkIdFactory (random_salt 12 34) 7)) /\
  forall v, issued (mkIdFactory (random_salt 12 34) 7) v -> v ∉ id_stream 3 (mkIdFactory (random_salt 12 34) 7).
Proof. apply identifiers_are_unique; vm_compute; intuition congruence. Defined.

(** ** Names *)

(** Names and codes.  Every error code is read back from its name and from its
    integer, integers outside the range become [Internal], and the priority,
    latency class and phase of a request are read back from their names. *)
Theorem names_are_read_back :
  (forall c, error_code_from_name (error_code_name c) = c /\ error_code_from_int (ErrorCode_int c) = c) /\
  (forall v, v < 0 \/ 18 < v -> error_code_from_int v = EC_Internal) /\
  (forall p, priority_class_from_string (PriorityClass_name p) = p) /\
  (forall l, latency_class_from_string (LatencyClass_name l) = l) /\
  (forall p, request_phase_from_string (RequestPhase_name p) = p).
Proof.
  split_and!; [by intros []| |by intros []..].
  intros v Hv. unfold error_code_from_int. destruct (_ && _) eqn:E; [simpl in E; lia|done].
Qed.

(** The second hypothesis of the statement at a concrete value. *)
Lemma names_are_read_back_witness : error_code_from_int 77 = EC_Internal.
Proof. apply names_are_read_back. lia. Defined.
