(* ===== verification/Bytes.v ===== *)
(** * Bytes and little-endian words

    The memory image of the integers the program copies with [std::memcpy] or
    appends through [reinterpret_cast<const char*>] (host byte order, taken to
    be little-endian), and of [std::string] as its bytes. *)

From S2P Require Import Prelude.
From Stdlib Require Export Strings.Byte.
From Stdlib Require Import NArith.
Open Scope Z_scope.

#[export] Instance byte_eq_dec : EqDecision byte := Byte.byte_eq_dec.

(** The value of a byte as [std::uint8_t], and the byte of a value reduced
    modulo 256. *)
Definition byte_val (b : byte) : Z := Z.of_N (Byte.to_N b).
Definition val_byte (z : Z) : byte := default x00 (Byte.of_N (Z.to_N (z mod 256))).

Lemma byte_val_range b : 0 <= byte_val b < 256.
Proof. unfold byte_val. pose proof (Byte.to_N_bounded b). lia. Qed.

Lemma val_byte_val b : val_byte (byte_val b) = b.
Proof.
  unfold val_byte. rewrite Z.mod_small by apply byte_val_range.
  unfold byte_val. rewrite N2Z.id, Byte.of_to_N. done.
Qed.

Lemma byte_val_byte z : byte_val (val_byte z) = z mod 256.
Proof.
  unfold val_byte, byte_val. pose proof (Z.mod_pos_bound z 256).
  destruct (Byte.of_N (Z.to_N (z mod 256))) as [b|] eqn:E; simpl.
  - apply Byte.to_of_N in E. rewrite E. lia.
  - apply Byte.of_N_None_iff in E. lia.
Qed.

Lemma byte_val_inj a b : byte_val a = byte_val b -> a = b.
Proof. intros E. by rewrite <- (val_byte_val a), E, val_byte_val. Qed.

(** ** Words *)

(** The [n] low bytes of [v], least significant first, and back. *)
Fixpoint le_bytes (n : nat) (v : Z) : list byte :=
  match n with
  | O => []
  | Datatypes.S n' => val_byte v :: le_bytes n' (v / 256)
  end.

Fixpoint le_val (l : list byte) : Z :=
  match l with
  | [] => 0
  | b :: l' => byte_val b + 256 * le_val l'
  end.

Definition pow256 (n : nat) : Z := 256 ^ Z.of_nat n.

Lemma pow256_S n : pow256 (Datatypes.S n) = 256 * pow256 n.
Proof. unfold pow256. rewrite Nat2Z.inj_succ, Z.pow_succ_r; lia. Qed.

Lemma pow256_pos n : 0 < pow256 n.
Proof. unfold pow256. apply Z.pow_pos_nonneg; lia. Qed.

Lemma le_bytes_length n v : length (le_bytes n v) = n.
Proof. revert v. induction n; intros v; simpl; auto. Qed.

Lemma le_val_range l : 0 <= le_val l < pow256 (length l).
Proof.
  induction l as [|b l IH]; simpl; [unfold pow256; simpl; lia|].
  rewrite pow256_S. pose proof (byte_val_range b). lia.
Qed.

Lemma le_val_bytes n v : le_val (le_bytes n v) = v mod pow256 n.
Proof.
  revert v. induction n as [|n IH]; intros v; cbn [le_bytes le_val].
  - unfold pow256. simpl. by rewrite Z.mod_1_r.
  - rewrite byte_val_byte, IH, pow256_S. pose proof (pow256_pos n).
    rewrite (Z.rem_mul_r v 256 (pow256 n)); lia.
Qed.

Lemma le_bytes_mod n v : le_bytes n (v mod pow256 n) = le_bytes n v.
Proof.
  revert v. induction n as [|n IH]; intros v; [done|]. cbn [le_bytes].
  pose proof (pow256_pos n). rewrite pow256_S. f_equal.
  - unfold val_byte. rewrite (Z.rem_mul_r v 256 (pow256 n)) by lia.
    rewrite Z.mul_comm, Z_mod_plus_full, Z.mod_mod; [done|lia].
  - rewrite <- (IH (v / 256)). rewrite (Z.rem_mul_r v 256 (pow256 n)) by lia. f_equal.
    rewrite Z.mul_comm, Z.div_add by lia. rewrite (Z.div_small (v mod 256) 256); [apply Z.add_0_l|].
    apply Z.mod_pos_bound. lia.
Qed.

Lemma le_bytes_val l : le_bytes (length l) (le_val l) = l.
Proof.
  induction l as [|b l IH]; [done|]. cbn [length le_bytes le_val]. pose proof (byte_val_range b).
  f_equal.
  - rewrite <- (val_byte_val b) at 2. unfold val_byte.
    by rewrite Z.mul_comm, Z_mod_plus_full, (Z.mod_small (byte_val b)).
  - rewrite Z.mul_comm, Z.div_add, (Z.div_small (byte_val b)) by lia. by rewrite Z.add_0_l.
Qed.

Lemma le_bytes_inj n v w :
  0 <= v < pow256 n -> 0 <= w < pow256 n -> le_bytes n v = le_bytes n w -> v = w.
Proof.
  intros Hv Hw E. rewrite <- (Z.mod_small v (pow256 n)), <- (Z.mod_small w (pow256 n)) by done.
  by rewrite <- !le_val_bytes, E.
Qed.

Lemma pow256_4 : pow256 4 = 2 ^ 32.
Proof. done. Qed.
Lemma pow256_8 : pow256 8 = 2 ^ 64.
Proof. done. Qed.

Lemma le_val_u64 v : le_val (le_bytes 8 v) = u64 v.
Proof. by rewrite le_val_bytes, pow256_8. Qed.
Lemma le_val_u32 v : le_val (le_bytes 4 v) = u32 v.
Proof. by rewrite le_val_bytes, pow256_4. Qed.

(** ** Strings *)

Definition string_bytes (s : string) : list byte := String.list_byte_of_string s.
Definition bytes_string (l : list byte) : string := String.string_of_list_byte l.

Lemma bytes_string_bytes s : bytes_string (string_bytes s) = s.
Proof. apply String.string_of_list_byte_of_string. Qed.
Lemma string_bytes_string l : string_bytes (bytes_string l) = l.
Proof. apply String.list_byte_of_string_of_list_byte. Qed.
