(* ===== verification/Envelope.v ===== *)
(** * The persistence envelope

    [src/persistence.cpp]: a payload is stored in a file as magic, frame
    version, length, payload and an FNV-1a checksum of all of these; the file is
    replaced through a temporary one.  The file system is the map from names to
    contents that the C library's [fopen], [fwrite], [fflush], [fread] and
    [rename] work on; which of the calls fail is a parameter. *)

From S2P Require Import Prelude Enums Bytes.
From stdpp Require Import pretty.
Open Scope Z_scope.

Definition k_persistence_magic : Z := 0x49534653.
Definition k_persistence_frame_version : Z := 1.
Definition k_persistence_header_size : Z := 16.
Definition k_persistence_trailer_size : Z := 8.

(** ** The checksum *)

Definition fnv_prime : Z := 1099511628211.
Definition fnv_basis : Z := 1469598103934665603.

Definition fnv1a (h b : Z) : Z := u64 (Z.lxor h b * fnv_prime).

Definition checksum_of (s : list byte) : Z :=
  fold_left (fun h c => fnv1a h (byte_val c)) s fnv_basis.

(** ** Writing and reading the fields *)

Definition put_u32 (s : list byte) (v : Z) : list byte := s ++ le_bytes 4 v.
Definition put_u64 (s : list byte) (v : Z) : list byte := s ++ le_bytes 8 v.

Definition bsize (s : list byte) : Z := Z.of_nat (length s).

(** [std::memcpy] of [n] bytes at offset [off]. *)
Definition copy_val (s : list byte) (off : Z) (n : nat) : Z := le_val (take n (drop (Z.to_nat off) s)).

(** [None] when the field is truncated; else its value and the next offset. *)
Definition get_u32 (s : list byte) (off : Z) : option (Z * Z) :=
  if bsize s <? off + 4 then None else Some (copy_val s off 4, off + 4).
Definition get_u64 (s : list byte) (off : Z) : option (Z * Z) :=
  if bsize s <? off + 8 then None else Some (copy_val s off 8, off + 8).

(** [s.substr(pos, n)]. *)
Definition substr (s : list byte) (pos n : Z) : list byte := take (Z.to_nat n) (drop (Z.to_nat pos) s).

(** ** The frame *)

(** The bytes under the checksum. *)
Definition frame_body (payload : list byte) : list byte :=
  put_u64 (put_u32 (put_u32 [] k_persistence_magic) k_persistence_frame_version) (bsize payload)
    ++ payload.

Definition make_frame (payload : list byte) : list byte :=
  put_u64 (frame_body payload) (checksum_of (frame_body payload)).

Definition fail_ctx {A} (c : ErrorCode) (m ctx : string) : Result A := result_err (mkError c m ctx).

(** The checks of [read_persistence_file] on the bytes of the file. *)
Definition parse_frame (s : list byte) : Result (list byte) :=
  if bsize s <? k_persistence_header_size + k_persistence_trailer_size
  then fail_ctx EC_Corruption "envelope too short" ("size=" +:+ pretty (bsize s)) else
  match get_u32 s 0 with
  | None => fail EC_Corruption "envelope fields truncated"
  | Some (magic, off1) =>
  match get_u32 s off1 with
  | None => fail EC_Corruption "envelope fields truncated"
  | Some (ver, off2) =>
  match get_u64 s off2 with
  | None => fail EC_Corruption "envelope fields truncated"
  | Some (len, _) =>
    let chk := copy_val s (bsize s - k_persistence_trailer_size) 8 in
    if negb (magic =? k_persistence_magic) then fail EC_Corruption "bad magic"
    else if negb (ver =? k_persistence_frame_version)
    then fail_ctx EC_Corruption "unsupported frame version" ("version=" +:+ pretty ver)
    else if negb (u64 (len + k_persistence_header_size + k_persistence_trailer_size) =? bsize s)
    then fail_ctx EC_Corruption "length mismatch" ("len=" +:+ pretty len +:+ " vs " +:+ pretty (bsize s))
    else
      let payload := substr s k_persistence_header_size len in
      let prefix := substr s 0 (k_persistence_header_size + len) in
      if negb (checksum_of prefix =? chk) then fail EC_Corruption "checksum mismatch"
      else Ok payload
  end end end.

(** ** Files *)

Abbreviation FS := (gmap string (list byte)).

(** What the calls of one write return: whether the temporary file opens, how
    many bytes [fwrite] takes, whether [fflush] succeeds (if not, how many
    bytes reached the file), whether [rename] succeeds. *)
Record WriteCalls := mkWriteCalls {
  wc_open : bool;
  wc_written : nat;
  wc_flushed : bool;
  wc_stored : nat;
  wc_renamed : bool
}.

Definition write_persistence_file (io : WriteCalls) (path : string) (payload : list byte)
    : ST FS (Result unit) :=
  let frame := make_frame payload in
  let tmp := path +:+ ".tmp" in
  if negb (wc_open io) then mret (fail EC_PersistenceFailure "open temp failed") else
  let out := take (wc_written io) frame in
  modify (fun fs => <[tmp := if wc_flushed io then out else take (wc_stored io) out]> fs) ;;
  if negb (bsize out =? bsize frame) || negb (wc_flushed io)
  then mret (fail EC_PersistenceFailure "write/flush failed") else
  if negb (wc_renamed io) then mret (fail EC_PersistenceFailure "atomic replace failed") else
  modify (fun fs : FS => match fs !! tmp with
                    | Some c => <[path := c]> (delete tmp fs)
                    | None => fs
                    end) ;;
  mret (Ok tt).

(** What the calls of one read return: whether the file opens, whether [ftell] at
    its end gives the size (it returns -1 if not), and how many bytes [fread]
    delivers. *)
Record ReadCalls := mkReadCalls { rc_open : bool; rc_tell : bool; rc_read : nat }.

Definition read_persistence_file (io : ReadCalls) (path : string) (fs : FS) : Result (list byte) :=
  match fs !! path with
  | Some blob =>
      if negb (rc_open io) then fail EC_NotFound "persistence file not readable"
      else if (if rc_tell io then bsize blob else -1) <=? 0 then fail EC_Corruption "unreadable size"
      else if negb (bsize (take (rc_read io) blob) =? bsize blob)
      then fail EC_PersistenceFailure "read failed"
      else parse_frame blob
  | None => fail EC_NotFound "persistence file not readable"
  end.

(** ** The checksum separates strings that differ in one byte *)

Lemma u64_mul_prime_inj x y :
  0 <= x < 2 ^ 64 -> 0 <= y < 2 ^ 64 -> u64 (x * fnv_prime) = u64 (y * fnv_prime) -> x = y.
Proof.
  intros Hx Hy E.
  assert (forall z, 0 <= z < 2 ^ 64 -> u64 (u64 (z * fnv_prime) * 14886173955864302971) = z) as Hinv.
  { intros z Hz. unfold u64. rewrite Zmult_mod_idemp_l, <- Z.mul_assoc.
    rewrite <- Zmult_mod_idemp_r.
    change ((fnv_prime * 14886173955864302971) mod 2 ^ 64) with 1.
    rewrite Z.mul_1_r. by apply Z.mod_small. }
  by rewrite <- (Hinv x), <- (Hinv y), E.
Qed.

Lemma lxor_u64 h b : 0 <= h < 2 ^ 64 -> 0 <= b < 256 -> 0 <= Z.lxor h b < 2 ^ 64.
Proof.
  intros Hh Hb. assert (0 <= Z.lxor h b) as H0 by (apply Z.lxor_nonneg; lia). split; [done|].
  destruct (Z.eq_dec (Z.lxor h b) 0) as [->|Hn]; [lia|].
  apply Z.log2_lt_pow2; [lia|]. eapply Z.le_lt_trans; [apply Z.log2_lxor; lia|].
  assert (forall z, 0 <= z < 2 ^ 64 -> Z.log2 z < 64) as HL.
  { intros z Hz. destruct (Z.eq_dec z 0) as [->|]; [simpl; lia|]. apply Z.log2_lt_pow2; lia. }
  pose proof (HL h Hh). pose proof (HL b ltac:(lia)). lia.
Qed.

Lemma lxor_inj_r h h' b : Z.lxor h b = Z.lxor h' b -> h = h'.
Proof.
  intros E. rewrite <- (Z.lxor_0_r h), <- (Z.lxor_0_r h'), <- (Z.lxor_nilpotent b).
  by rewrite <- !Z.lxor_assoc, E.
Qed.

Lemma fnv1a_inj_h h h' c :
  0 <= h < 2 ^ 64 -> 0 <= h' < 2 ^ 64 -> fnv1a h (byte_val c) = fnv1a h' (byte_val c) -> h = h'.
Proof.
  intros Hh Hh' E. pose proof (byte_val_range c).
  apply (lxor_inj_r _ _ (byte_val c)), u64_mul_prime_inj; auto using lxor_u64.
Qed.

Lemma fnv1a_inj_b h c c' :
  0 <= h < 2 ^ 64 -> fnv1a h (byte_val c) = fnv1a h (byte_val c') -> c = c'.
Proof.
  intros Hh E. pose proof (byte_val_range c). pose proof (byte_val_range c').
  apply byte_val_inj, (lxor_inj_r _ _ h). rewrite !(Z.lxor_comm _ h).
  apply u64_mul_prime_inj; auto using lxor_u64.
Qed.

Definition fnv_fold (s : list byte) (h : Z) : Z := fold_left (fun h c => fnv1a h (byte_val c)) s h.

Lemma fnv_fold_range s h : 0 <= h < 2 ^ 64 -> 0 <= fnv_fold s h < 2 ^ 64.
Proof.
  revert h. induction s as [|c s IH]; intros h Hh; simpl; [done|]. apply IH, u64_range.
Qed.

Lemma fnv_fold_inj s h h' :
  0 <= h < 2 ^ 64 -> 0 <= h' < 2 ^ 64 -> fnv_fold s h = fnv_fold s h' -> h = h'.
Proof.
  revert h h'. induction s as [|c s IH]; intros h h' Hh Hh' E; [done|].
  apply (fnv1a_inj_h _ _ c); [done..|]. apply IH; [apply u64_range..|done].
Qed.

Lemma checksum_range s : 0 <= checksum_of s < 2 ^ 64.
Proof. apply fnv_fold_range. done. Qed.

Lemma checksum_one_byte l c c' r :
  checksum_of (l ++ c :: r) = checksum_of (l ++ c' :: r) -> c = c'.
Proof.
  unfold checksum_of. rewrite !fold_left_app. simpl. intros E.
  apply (fnv_fold_inj r) in E; [|apply u64_range..].
  apply fnv1a_inj_b in E; [done|]. by apply fnv_fold_range.
Qed.
