(* ===== verification/EnvelopeSpec.v ===== *)
(** * The envelope is a faithful, self-checking encoding

    Round trip, canonicity, detection of every single-byte corruption, and the
    atomic replacement of the state file. *)

From S2P Require Import Prelude Enums Bytes Envelope.
From stdpp Require Import pretty.
Open Scope Z_scope.

Lemma bsize_app l r : bsize (l ++ r) = bsize l + bsize r.
Proof. unfold bsize. rewrite length_app. lia. Qed.

Lemma bsize_nonneg l : 0 <= bsize l.
Proof. unfold bsize. lia. Qed.

Lemma bsize_to_nat l : Z.to_nat (bsize l) = length l.
Proof. unfold bsize. lia. Qed.

Lemma bsize_le_bytes n v : bsize (le_bytes n v) = Z.of_nat n.
Proof. unfold bsize. by rewrite le_bytes_length. Qed.

Lemma substr_mid l m r pos n : bsize l = pos -> bsize m = n -> substr (l ++ m ++ r) pos n = m.
Proof.
  intros <- <-. unfold substr. rewrite !bsize_to_nat, drop_app_length, take_app_length. done.
Qed.

Lemma copy_mid l m r pos n : bsize l = pos -> length m = n -> copy_val (l ++ m ++ r) pos n = le_val m.
Proof.
  intros <- <-. unfold copy_val. rewrite bsize_to_nat, drop_app_length, take_app_length. done.
Qed.

Lemma chop n (s : list byte) :
  Z.of_nat n <= bsize s -> exists l r, s = l ++ r /\ length l = n /\ bsize r = bsize s - Z.of_nat n.
Proof.
  intros Hn. unfold bsize in *. exists (take n s), (drop n s).
  rewrite take_drop, length_take, length_drop. split_and!; [done|lia..].
Qed.

(** The five fields of a file that is long enough. *)
Record fields (s a b c d e : list byte) : Prop := {
  f_layout : s = a ++ b ++ c ++ d ++ e;
  f_magic : length a = 4%nat;
  f_version : length b = 4%nat;
  f_length : length c = 8%nat;
  f_checksum : length e = 8%nat
}.

Lemma fields_exist s : 24 <= bsize s -> exists a b c d e, fields s a b c d e.
Proof.
  intros Hs. destruct (chop 4 s) as (a & s1 & E1 & La & S1); [lia|].
  destruct (chop 4 s1) as (b & s2 & E2 & Lb & S2); [lia|].
  destruct (chop 8 s2) as (c & s3 & E3 & Lc & S3); [lia|].
  destruct (chop (length s3 - 8) s3) as (d & e & E4 & Ld & S4); [unfold bsize; lia|].
  exists a, b, c, d, e. subst. split; try done. unfold bsize in *. lia.
Qed.

(** The size of a file with these fields. *)
Lemma fields_size s a b c d e : fields s a b c d e -> bsize s = 24 + bsize d.
Proof. intros [-> ? ? ? ?]. rewrite !bsize_app. unfold bsize. lia. Qed.

(** The fields as [parse_frame] reads them. *)
Lemma fields_read s a b c d e :
  fields s a b c d e ->
  copy_val s 0 4 = le_val a /\ copy_val s 4 4 = le_val b /\ copy_val s 8 8 = le_val c /\
  copy_val s (bsize s - 8) 8 = le_val e /\
  substr s 16 (bsize d) = d /\ substr s 0 (16 + bsize d) = a ++ b ++ c ++ d.
Proof.
  intros F. pose proof (fields_size _ _ _ _ _ _ F) as HS. destruct F as [E La Lb Lc Le].
  assert (bsize a = 4 /\ bsize b = 4 /\ bsize c = 8) as (Sa & Sb & Sc) by (unfold bsize; lia).
  split_and!.
  - rewrite E. by apply (copy_mid [] a).
  - rewrite E. by apply (copy_mid a b).
  - rewrite E, (app_assoc a). apply copy_mid; [rewrite bsize_app; lia|done].
  - assert (s = (a ++ b ++ c ++ d) ++ e ++ []) as E' by (by rewrite E, app_nil_r, <- !app_assoc).
    rewrite E' at 1. apply copy_mid; [|done]. rewrite HS, !bsize_app. lia.
  - rewrite E, !app_assoc, <- (app_assoc _ d). apply substr_mid; [rewrite !bsize_app; lia|done].
  - rewrite E. replace (a ++ b ++ c ++ d ++ e) with ([] ++ (a ++ b ++ c ++ d) ++ e) by (by rewrite <- !app_assoc).
    apply substr_mid; [done|]. rewrite !bsize_app. lia.
Qed.

(** The length field is right exactly when it is the size of the payload. *)
Lemma length_field c (d : list byte) s :
  length c = 8%nat -> bsize s = 24 + bsize d -> bsize s < 2 ^ 64 ->
  u64 (le_val c + 16 + 8) = bsize s <-> le_val c = bsize d.
Proof.
  intros Lc HS Hs. pose proof (le_val_range c) as Rc. rewrite Lc, pow256_8 in Rc.
  pose proof (bsize_nonneg d). rewrite HS. unfold u64. split.
  - intros E. assert (le_val c mod 2 ^ 64 = bsize d mod 2 ^ 64) as Em.
    { replace (le_val c) with (le_val c + 16 + 8 - 24) by lia.
      rewrite <- Zminus_mod_idemp_l, E. f_equal. lia. }
    by rewrite !Z.mod_small in Em by lia.
  - intros ->. rewrite Z.mod_small; lia.
Qed.

(** The bytes of a word are determined by its value. *)
Lemma word_bytes l n v : length l = n -> le_val l = v -> l = le_bytes n v.
Proof. intros <- <-. by rewrite le_bytes_val. Qed.

(** [parse_frame] fails with [Corruption] or accepts the frame of its result. *)
Lemma parse_cases s :
  bsize s < 2 ^ 64 ->
  (exists err, parse_frame s = Err err /\ err_code err = EC_Corruption) \/
  (exists p, parse_frame s = Ok p /\ s = make_frame p).
Proof.
  intros Hs. unfold parse_frame, get_u32, get_u64, k_persistence_header_size, k_persistence_trailer_size.
  destruct (Z.ltb_spec (bsize s) (16 + 8)); [left; by eexists|].
  rewrite !(proj2 (Z.ltb_ge _ _)) by lia.
  destruct (fields_exist s) as (a & b & c & d & e & F); [lia|].
  pose proof (fields_size _ _ _ _ _ _ F) as HS.
  destruct (fields_read _ _ _ _ _ _ F) as (-> & Rb & Rc & -> & Rd & Rp).
  change (0 + 4) with 4. change (4 + 4) with 8. rewrite Rb, Rc.
  destruct F as [E La Lb Lc Le].
  destruct (Z.eqb_spec (le_val a) k_persistence_magic) as [Ea|]; [|left; by eexists].
  destruct (Z.eqb_spec (le_val b) k_persistence_frame_version) as [Eb|]; [|left; by eexists].
  destruct (Z.eqb_spec (u64 (le_val c + 16 + 8)) (bsize s)) as [Ec|]; [|left; by eexists].
  apply (length_field c d s Lc HS Hs) in Ec. cbn [negb]. rewrite Ec, Rd, Rp.
  destruct (Z.eqb_spec (checksum_of (a ++ b ++ c ++ d)) (le_val e)) as [Ek|]; [|left; by eexists].
  right. exists d. split; [done|]. symmetry in Ek.
  apply (word_bytes _ _ _ La) in Ea. apply (word_bytes _ _ _ Lb) in Eb.
  apply (word_bytes _ _ _ Lc) in Ec. apply (word_bytes _ _ _ Le) in Ek.
  unfold make_frame, frame_body, put_u64, put_u32. rewrite app_nil_l, <- !app_assoc.
  by rewrite <- Ea, <- Eb, <- Ec, <- Ek.
Qed.

Lemma frame_fields p :
  fields (make_frame p) (le_bytes 4 k_persistence_magic) (le_bytes 4 k_persistence_frame_version)
    (le_bytes 8 (bsize p)) p (le_bytes 8 (checksum_of (frame_body p))).
Proof.
  constructor; [|apply le_bytes_length..]. unfold make_frame, frame_body, put_u64, put_u32.
  by rewrite app_nil_l, <- !app_assoc.
Qed.

Lemma frame_size p : bsize (make_frame p) = 24 + bsize p.
Proof. exact (fields_size _ _ _ _ _ _ (frame_fields p)). Qed.

Lemma frame_body_layout p :
  frame_body p = le_bytes 4 k_persistence_magic ++ le_bytes 4 k_persistence_frame_version ++
                 le_bytes 8 (bsize p) ++ p.
Proof. unfold frame_body, put_u64, put_u32. by rewrite app_nil_l, <- !app_assoc. Qed.

Lemma parse_frame_frame p : bsize (make_frame p) < 2 ^ 64 -> parse_frame (make_frame p) = Ok p.
Proof.
  intros Hs. pose proof (frame_fields p) as F. pose proof (frame_size p) as HS.
  pose proof (bsize_nonneg p).
  unfold parse_frame, get_u32, get_u64, k_persistence_header_size, k_persistence_trailer_size.
  rewrite !(proj2 (Z.ltb_ge _ _)) by lia.
  destruct (fields_read _ _ _ _ _ _ F) as (-> & Rb & Rc & -> & Rd & Rp).
  change (0 + 4) with 4. change (4 + 4) with 8. rewrite Rb, Rc, !le_val_u32, !le_val_u64.
  rewrite (u64_id (bsize p)), (u64_id (checksum_of _)) by (apply checksum_range || lia).
  rewrite Rd, Rp, <- frame_body_layout, Z.eqb_refl.
  change (u32 k_persistence_magic) with k_persistence_magic.
  change (u32 k_persistence_frame_version) with k_persistence_frame_version.
  replace (u64 (bsize p + 16 + 8)) with (bsize (make_frame p)) by (rewrite HS, u64_id; lia).
  by rewrite !Z.eqb_refl.
Qed.

(** Round trip.  What was framed is read back, whatever the payload. *)
Theorem envelope_roundtrip p : bsize p < 2 ^ 63 -> parse_frame (make_frame p) = Ok p.
Proof. intros. apply parse_frame_frame. rewrite frame_size. lia. Qed.

Lemma envelope_roundtrip_witness : parse_frame (make_frame [x01; x02; xff]) = Ok [x01; x02; xff].
Proof. apply envelope_roundtrip. unfold bsize. simpl. lia. Defined.

(** Canonicity.  The reader accepts a file exactly when it is the frame the
    writer makes for the payload it returns; everything else is reported as
    corruption. *)
Theorem envelope_is_canonical s :
  bsize s < 2 ^ 63 ->
  (forall p, parse_frame s = Ok p <-> s = make_frame p) /\
  (forall err, parse_frame s = Err err -> err_code err = EC_Corruption).
Proof.
  intros Hs. destruct (parse_cases s) as [(e & E & HC)|(p & E & ->)]; [lia|..]; (split; [split|]).
  - intros Hp. congruence.
  - intros ->. rewrite parse_frame_frame in E; [done|lia].
  - intros err Herr. congruence.
  - intros Hp. congruence.
  - intros Eq. rewrite Eq in Hs |- *. by rewrite parse_frame_frame by lia.
  - intros err Herr. congruence.
Qed.

Lemma envelope_is_canonical_witness :
  parse_frame (make_frame [x2a]) = Ok [x2a] <-> make_frame [x2a] = make_frame [x2a].
Proof. apply (envelope_is_canonical (make_frame [x2a])). rewrite frame_size. unfold bsize. simpl. lia. Defined.

Lemma frame_body_inj p q : frame_body p = frame_body q -> p = q.
Proof.
  rewrite !frame_body_layout. intros [_ [_ [_ E]%app_inj_1]%app_inj_1]%app_inj_1; [done|..];
    by rewrite ?le_bytes_length.
Qed.

Lemma checksum_insert i b s :
  (i < length s)%nat -> checksum_of (<[i := b]> s) = checksum_of s -> <[i := b]> s = s.
Proof.
  intros Hi E. destruct (lookup_lt_is_Some_2 s i Hi) as [c Hc].
  pose proof (take_drop_middle s i c Hc) as Hs.
  assert (length (take i s) = i) as Hl by (rewrite length_take; lia).
  apply list_insert_id'. intros _. rewrite Hc. f_equal.
  rewrite <- Hs in E. rewrite insert_app_r_alt, Hl, Nat.sub_diag in E by lia.
  symmetry. by eapply checksum_one_byte.
Qed.

(** Two frames that agree except for one byte are the same. *)
Lemma frames_differ_twice p q i b :
  (i < length (make_frame p))%nat -> <[i := b]> (make_frame p) = make_frame q -> p = q.
Proof.
  intros Hi E. apply frame_body_inj.
  assert (length (frame_body p) = length (frame_body q)) as HL.
  { pose proof (f_equal length E) as EL. rewrite length_insert in EL. unfold make_frame, put_u64 in EL.
    rewrite !length_app, !le_bytes_length in EL. lia. }
  unfold make_frame, put_u64 in E. rewrite insert_app in E. case_decide as Hb.
  - apply app_inj_1 in E as [Eb Et]; [|by rewrite length_insert].
    apply le_bytes_inj in Et; [|apply checksum_range..]. rewrite <- Eb in Et.
    by rewrite <- Eb, (checksum_insert _ _ _ Hb).
  - by apply app_inj_1 in E as [Eb _].
Qed.

Lemma corrupted_frame p i b b' :
  bsize p < 2 ^ 63 - 24 -> make_frame p !! i = Some b -> b' <> b ->
  exists err, parse_frame (<[i := b']> (make_frame p)) = Err err /\ err_code err = EC_Corruption.
Proof.
  intros Hs Hi Hb. pose proof (lookup_lt_Some _ _ _ Hi) as Hl.
  destruct (parse_cases (<[i := b']> (make_frame p))) as [|(q & _ & E)]; [|done|].
  - unfold bsize at 1. rewrite length_insert. fold (bsize (make_frame p)). rewrite frame_size. lia.
  - pose proof (frames_differ_twice _ _ _ _ Hl E) as ->.
    pose proof (list_lookup_insert_eq (make_frame q) i b' Hl) as Hi'. rewrite E in Hi'. congruence.
Qed.

(** C21: Corruption is detected.  Overwriting any one byte of a stored frame by a
    different one, in the header, the payload or the checksum, makes the reader
    report corruption. *)
Theorem single_byte_corruption_is_detected p i b b' :
  bsize p < 2 ^ 63 - 24 -> make_frame p !! i = Some b -> b' <> b ->
  exists err, parse_frame (<[i := b']> (make_frame p)) = Err err /\ err_code err = EC_Corruption.
Proof. apply corrupted_frame. Qed.

Lemma single_byte_corruption_is_detected_witness :
  exists err, parse_frame (<[17%nat := x00]> (make_frame [x01; x02])) = Err err /\ err_code err = EC_Corruption.
Proof.
  apply (single_byte_corruption_is_detected [x01; x02] 17 x02 x00); [unfold bsize; simpl; lia| |done].
  by vm_compute.
Defined.

(** ** Files *)

Lemma tmp_differs path : path +:+ ".tmp" <> path.
Proof. induction path as [|c path IH]; [done|]. simpl. intros [=]. auto. Qed.

Lemma bsize_take n s : (bsize (take n s) =? bsize s) = true -> take n s = s.
Proof.
  unfold bsize. rewrite Z.eqb_eq, length_take. intros E. apply take_ge. lia.
Qed.

(** The file system after a write: the state file is untouched and the call
    failed, or it holds the whole frame and the call succeeded. *)
Record written (path : string) (payload : list byte) (fs fs' : FS) (r : Result unit) : Prop := {
  w_outcome : (r = Ok tt /\ fs' !! path = Some (make_frame payload)) \/
              ((exists e, r = Err e /\ err_code e = EC_PersistenceFailure) /\ fs' !! path = fs !! path);
  w_others other : other <> path -> other <> path +:+ ".tmp" -> fs' !! other = fs !! other
}.

Lemma write_failed path payload fs c m :
  written path payload fs (<[path +:+ ".tmp" := c]> fs) (fail EC_PersistenceFailure m).
Proof.
  pose proof (tmp_differs path). split.
  - right. split; [by eexists|by rewrite lookup_insert_ne].
  - intros. by rewrite lookup_insert_ne.
Qed.

Lemma write_written io path payload fs :
  written path payload fs (exec (write_persistence_file io path payload) fs)
    (result (write_persistence_file io path payload) fs).
Proof.
  unfold write_persistence_file. pose proof (tmp_differs path) as Ht.
  destruct (wc_open io); simpl; [|split; [right; split; [by eexists|done]|done]].
  rewrite exec_bind, result_bind, exec_modify.
  set (c := if wc_flushed io then _ else _).
  destruct (bsize (take (wc_written io) (make_frame payload)) =? bsize (make_frame payload)) eqn:ES,
    (wc_flushed io) eqn:EF, (wc_renamed io) eqn:ER; simpl;
    try (rewrite exec_ret, result_ret; apply write_failed).
  rewrite exec_bind, result_bind, exec_modify, exec_ret, result_ret, lookup_insert_eq. split.
  - left. split; [done|]. rewrite lookup_insert_eq. subst c. by rewrite (bsize_take _ _ ES).
  - intros o H1 H2. by rewrite lookup_insert_ne, lookup_delete_ne, lookup_insert_ne by done.
Qed.

(** Atomic replacement.  Whatever calls of a write fail, the state file keeps
    its old content and the failure is reported, or it holds the complete new
    frame and the write reports success; no file but the temporary one is
    touched. *)
Theorem persistence_write_is_atomic io path payload fs :
  written path payload fs (exec (write_persistence_file io path payload) fs)
    (result (write_persistence_file io path payload) fs).
Proof. apply write_written. Qed.

Lemma write_reads io rc path payload fs :
  bsize payload < 2 ^ 63 - 24 -> rc_open rc = true -> rc_tell rc = true ->
  (24 + length payload <= rc_read rc)%nat ->
  let fs' := exec (write_persistence_file io path payload) fs in
  (result (write_persistence_file io path payload) fs = Ok tt ->
   read_persistence_file rc path fs' = Ok payload) /\
  (result (write_persistence_file io path payload) fs <> Ok tt ->
   read_persistence_file rc path fs' = read_persistence_file rc path fs).
Proof.
  intros Hs Ho Ht Hr fs'. destruct (write_written io path payload fs) as [[[Er Ef]|[[e [Er _]] Ef]] _];
    fold fs' in Ef; rewrite Er; split; try done; intros _; unfold read_persistence_file;
    rewrite Ef; [|done].
  pose proof (frame_size payload) as HS. pose proof (bsize_nonneg payload).
  rewrite Ho, Ht, (proj2 (Z.leb_gt _ _)), take_ge, Z.eqb_refl by (unfold bsize in *; lia).
  simpl. apply parse_frame_frame. lia.
Qed.

(** A reported success is durable.  After a write that returned success, a
    complete read of the file returns the payload; after one that failed, it
    returns what it returned before. *)
Theorem persistence_reads_what_was_written io rc path payload fs :
  bsize payload < 2 ^ 63 - 24 -> rc_open rc = true -> rc_tell rc = true ->
  (24 + length payload <= rc_read rc)%nat ->
  let fs' := exec (write_persistence_file io path payload) fs in
  (result (write_persistence_file io path payload) fs = Ok tt ->
   read_persistence_file rc path fs' = Ok payload) /\
  (result (write_persistence_file io path payload) fs <> Ok tt ->
   read_persistence_file rc path fs' = read_persistence_file rc path fs).
Proof. apply write_reads. Qed.

Lemma persistence_reads_what_was_written_witness :
  read_persistence_file (mkReadCalls true true 100) "s.bin"
    (exec (write_persistence_file (mkWriteCalls true 100 true 0 true) "s.bin" [x07]) ∅) = Ok [x07].
Proof.
  apply (persistence_reads_what_was_written (mkWriteCalls true 100 true 0 true) (mkReadCalls true true 100)
    "s.bin" [x07] ∅); [unfold bsize; simpl; lia|done|done|simpl; lia|by vm_compute].
Defined.
