(* ===== verification/EnvelopeWin.v ===== *)
(** * The persistence envelope on Windows

    The [_WIN32] branches of [write_persistence_file] and
    [read_persistence_file] in [src/persistence.cpp]: the same protocol of a
    temporary file and a replacement, by calls that count bytes in a [DWORD].
    What the calls return is a parameter, as for the other branch. *)

From S2P Require Import Prelude Enums Bytes Envelope EnvelopeSpec.
From stdpp Require Import pretty.
Open Scope Z_scope.

(** The calls of one write: whether [CreateFileA] gives a handle, what
    [WriteFile] returns and how many bytes it wrote, whether [FlushFileBuffers]
    and [MoveFileExA] succeed, and the code of [GetLastError]. *)
Record WinWrite := mkWinWrite {
  ww_create : bool;
  ww_ok : bool;
  ww_written : nat;
  ww_flushed : bool;
  ww_moved : bool;
  ww_error : Z
}.

Definition win32_error (e : Z) : string := "win32=" +:+ pretty e.

(** [WriteFile] is asked for [static_cast<DWORD>(frame.size())] bytes; it never
    reports more than it was asked for. *)
Definition win_written (io : WinWrite) (frame : list byte) : nat :=
  Nat.min (ww_written io) (Z.to_nat (u32 (bsize frame))).

Definition write_persistence_file_win (io : WinWrite) (path : string) (payload : list byte)
    : ST FS (Result unit) :=
  let frame := make_frame payload in
  let tmp := path +:+ ".tmp" in
  if negb (ww_create io) then mret (fail_ctx EC_PersistenceFailure "create temp failed" (win32_error (ww_error io))) else
  let written := win_written io frame in
  modify (fun fs => <[tmp := take written frame]> fs) ;;
  if negb (ww_ok io) || negb (Z.of_nat written =? bsize frame)
  then mret (fail_ctx EC_PersistenceFailure "write failed" (win32_error (ww_error io))) else
  if negb (ww_flushed io)
  then mret (fail_ctx EC_PersistenceFailure "flush failed" (win32_error (ww_error io))) else
  if negb (ww_moved io)
  then mret (fail_ctx EC_PersistenceFailure "atomic replace failed" (win32_error (ww_error io))) else
  modify (fun fs : FS => match fs !! tmp with
                    | Some c => <[path := c]> (delete tmp fs)
                    | None => fs
                    end) ;;
  mret (Ok tt).

(** The calls of one read: [CreateFileA], [GetFileSizeEx], what [ReadFile]
    returns and how many bytes it delivers. *)
Record WinRead := mkWinRead {
  wr_create : bool;
  wr_size : bool;
  wr_ok : bool;
  wr_read : nat;
  wr_error : Z
}.

Definition win_read (io : WinRead) (blob : list byte) : nat :=
  Nat.min (wr_read io) (Z.to_nat (u32 (bsize blob))).

Definition read_persistence_file_win (io : WinRead) (path : string) (fs : FS) : Result (list byte) :=
  match fs !! path with
  | Some blob =>
      if negb (wr_create io) then fail_ctx EC_NotFound "persistence file not readable" (win32_error (wr_error io))
      else if negb (wr_size io) || (bsize blob <=? 0) then fail EC_Corruption "unreadable size"
      else if negb (wr_ok io) then fail_ctx EC_PersistenceFailure "read failed" (win32_error (wr_error io))
      else parse_frame (take (win_read io blob) blob)
  | None => fail_ctx EC_NotFound "persistence file not readable" (win32_error (wr_error io))
  end.

(** ** Properties *)

Lemma write_failed_ctx path payload fs c m ctx :
  written path payload fs (<[path +:+ ".tmp" := c]> fs) (fail_ctx EC_PersistenceFailure m ctx).
Proof.
  pose proof (tmp_differs path). split.
  - right. split; [by eexists|by rewrite lookup_insert_ne].
  - intros. by rewrite lookup_insert_ne.
Qed.

Lemma write_win_written io path payload fs :
  written path payload fs (exec (write_persistence_file_win io path payload) fs)
    (result (write_persistence_file_win io path payload) fs).
Proof.
  unfold write_persistence_file_win. pose proof (tmp_differs path) as Ht.
  destruct (ww_create io); simpl; [|split; [right; split; [by eexists|done]|done]].
  rewrite exec_bind, result_bind, exec_modify. set (n := win_written io _).
  destruct (ww_ok io), (Z.of_nat n =? bsize (make_frame payload)) eqn:En, (ww_flushed io), (ww_moved io); simpl;
    try (rewrite exec_ret, result_ret; apply write_failed_ctx).
  rewrite exec_bind, result_bind, exec_modify, exec_ret, result_ret, lookup_insert_eq. split.
  - left. split; [done|]. rewrite lookup_insert_eq, take_ge; [done|]. apply Z.eqb_eq in En. unfold bsize in En. lia.
  - intros o H1 H2. by rewrite lookup_insert_ne, lookup_delete_ne, lookup_insert_ne by done.
Qed.

(** A frame cut short is no frame. *)
Lemma short_frame p n :
  bsize (make_frame p) < 2 ^ 63 -> (n < length (make_frame p))%nat ->
  exists err, parse_frame (take n (make_frame p)) = Err err /\ err_code err = EC_Corruption.
Proof.
  intros Hs Hn. assert (bsize (take n (make_frame p)) < 2 ^ 63) as Hs'.
  { unfold bsize in *. rewrite length_take. lia. }
  destruct (parse_cases (take n (make_frame p))) as [He|(q & _ & Eq)]; [lia|done|]. exfalso.
  pose proof (frame_size p) as Sp. pose proof (frame_size q) as Sq. pose proof (bsize_nonneg p). pose proof (bsize_nonneg q).
  assert (bsize (make_frame q) = Z.of_nat n) as Sn by (rewrite <- Eq; unfold bsize; rewrite length_take; unfold bsize in *; lia).
  assert (copy_val (make_frame p) 8 8 = copy_val (make_frame q) 8 8) as Ec.
  { rewrite <- Eq. unfold copy_val. change (Z.to_nat 8) with 8%nat. rewrite skipn_firstn_comm, take_take. f_equal. f_equal. lia. }
  destruct (fields_read _ _ _ _ _ _ (frame_fields p)) as (_ & _ & Rp & _), (fields_read _ _ _ _ _ _ (frame_fields q)) as (_ & _ & Rq & _).
  rewrite Rp, Rq, !le_val_u64, (u64_id (bsize p)), (u64_id (bsize q)) in Ec by (rewrite ?Eq in Hs'; lia).
  assert (bsize (make_frame p) = Z.of_nat n) as Ez by lia. unfold bsize in Ez. lia.
Qed.

(** C33: Atomic replacement, on both platforms.  Whatever calls of a write fail,
    the state file keeps its old content and the failure is reported, or it
    holds the complete new frame and the write reports success, and no file but
    the temporary one is touched; so it is with the C library and with the
    Win32 calls.  There a frame of four gigabytes or more, which [WriteFile]
    cannot take in one call, is reported and not stored, a complete read
    returns what was stored, and a read that delivers less, which only the C
    library's branch reports as such, is refused as corrupt. *)
Theorem persistence_is_atomic_on_both_platforms (pio : WriteCalls) (io : WinWrite) (rd : WinRead) (path : string) (payload : list byte) (fs : FS) :
  let fs' := exec (write_persistence_file_win io path payload) fs in
  let r := result (write_persistence_file_win io path payload) fs in
  written path payload fs (exec (write_persistence_file pio path payload) fs) (result (write_persistence_file pio path payload) fs) /\
  written path payload fs fs' r /\
  (2 ^ 32 <= 24 + bsize payload -> r <> Ok tt) /\
  (r = Ok tt -> wr_create rd = true -> wr_size rd = true -> wr_ok rd = true ->
    (24 + length payload <= wr_read rd)%nat -> read_persistence_file_win rd path fs' = Ok payload) /\
  (r = Ok tt -> wr_create rd = true -> wr_size rd = true -> wr_ok rd = true ->
    (wr_read rd < 24 + length payload)%nat ->
    exists err, read_persistence_file_win rd path fs' = Err err /\ err_code err = EC_Corruption).
Proof.
  intros fs' r. split; [apply write_written|]. pose proof (write_win_written io path payload fs) as Hw. fold fs' r in Hw.
  assert (2 ^ 32 <= 24 + bsize payload -> r <> Ok tt) as Hbig.
  { intros Hl. unfold r, write_persistence_file_win. destruct (ww_create io); [|done]. cbn [negb].
    rewrite result_bind. pose proof (frame_size payload) as Hs.
    assert ((Z.of_nat (win_written io (make_frame payload)) =? bsize (make_frame payload)) = false) as ->.
    { apply Z.eqb_neq. unfold win_written. pose proof (Z.mod_pos_bound (bsize (make_frame payload)) (2 ^ 32) ltac:(lia)).
      unfold u32. lia. }
    by rewrite orb_true_r. }
  split; [done|]. split; [done|].
  assert (r = Ok tt -> wr_create rd = true -> wr_size rd = true -> wr_ok rd = true ->
    bsize (make_frame payload) < 2 ^ 32 /\
    read_persistence_file_win rd path fs' = parse_frame (take (win_read rd (make_frame payload)) (make_frame payload))) as Hr.
  { intros Er H1 H2 H3. pose proof (frame_size payload) as Hs. pose proof (bsize_nonneg payload).
    destruct (Z.le_gt_cases (2 ^ 32) (24 + bsize payload)) as [Hl|Hl]; [by apply Hbig in Hl|]. split; [lia|].
    destruct (w_outcome _ _ _ _ _ Hw) as [[_ Ef]|[[e [Ee _]] _]]; [|by rewrite Er in Ee].
    unfold read_persistence_file_win. rewrite Ef, H1, H2, H3. cbn [negb orb].
    by rewrite (proj2 (Z.leb_gt _ _)) by lia. }
  pose proof (frame_size payload) as Hs. pose proof (bsize_nonneg payload).
  split; intros Er H1 H2 H3 Hn; destruct (Hr Er H1 H2 H3) as [Hl ->]; unfold win_read; rewrite u32_small by lia.
  - rewrite take_ge by (unfold bsize in *; lia). apply parse_frame_frame. lia.
  - apply short_frame; [lia|]. unfold bsize in *. lia.
Qed.

Lemma persistence_is_atomic_on_both_platforms_witness :
  read_persistence_file_win (mkWinRead true true true 100 0) "s.bin"
    (exec (write_persistence_file_win (mkWinWrite true true 100 true true 0) "s.bin" [x07]) ∅) = Ok [x07].
Proof.
  destruct (persistence_is_atomic_on_both_platforms (mkWriteCalls true 100 true 0 true) (mkWinWrite true true 100 true true 0) (mkWinRead true true true 100 0) "s.bin" [x07] ∅)
    as (_ & _ & _ & H & _). apply H; [by vm_compute|done..|simpl; lia].
Defined.
