(* ===== verification/Wire.v ===== *)
(** * The binary writer and reader

    [BinWriter] and [BinReader] of [src/scheduler.cpp]: fixed-width fields in
    host byte order, [double]s as their IEEE-754 bits, strings behind a 64-bit
    length.  The reader keeps the unread bytes and a flag that the first failed
    read clears. *)

From S2P Require Import Prelude Enums Ids Float64 Bytes Envelope.
Open Scope Z_scope.

(** ** The bits of a [double]

    The quiet NaN stands for every NaN. *)

Definition sign_bit (s : bool) : Z := if s then 2 ^ 63 else 0.

Definition f64_bits (x : f64) : Z :=
  match x with
  | S754_zero s => sign_bit s
  | S754_infinity s => sign_bit s + 2047 * 2 ^ 52
  | S754_nan => 2047 * 2 ^ 52 + 2 ^ 51
  | S754_finite s m e =>
      if Z.pos m <? 2 ^ 52 then sign_bit s + Z.pos m
      else sign_bit s + (e + 1075) * 2 ^ 52 + (Z.pos m - 2 ^ 52)
  end.

Definition f64_of_bits (b : Z) : f64 :=
  let s := 2 ^ 63 <=? b in
  let ex := (b / 2 ^ 52) mod 2048 in
  let fr := b mod 2 ^ 52 in
  if ex =? 0 then match fr with Zpos m => S754_finite s m (-1074) | _ => S754_zero s end
  else if ex =? 2047 then if fr =? 0 then S754_infinity s else S754_nan
  else match fr + 2 ^ 52 with Zpos m => S754_finite s m (ex - 1075) | _ => S754_nan end.

(** The values a [double] can have. *)
Definition f64_valid (x : f64) : bool := valid_binary 53 1024 x.

(** ** Writing *)

Definition w_u8 (v : Z) : list byte := [val_byte v].
Definition w_u32 (v : Z) : list byte := le_bytes 4 v.
Definition w_u64 (v : Z) : list byte := le_bytes 8 v.
Definition w_i64 (v : Z) : list byte := le_bytes 8 v.
Definition w_dbl (v : f64) : list byte := le_bytes 8 (f64_bits v).
Definition w_i32 (v : Z) : list byte := w_u32 (u32 v).
Definition w_yes (v : bool) : list byte := w_u8 (if v then 1 else 0).
Definition w_str (s : string) : list byte := w_u64 (bsize (string_bytes s)) ++ string_bytes s.
Definition w_id (v : Z) : list byte := w_u64 v.
Definition w_opt_id (v : Z) : list byte := w_yes (id_valid v) ++ if id_valid v then w_id v else [].

(** ** Reading *)

Record BinReader := mkBinReader { br_rest : list byte; br_ok : bool }.

Abbreviation RD := (ST BinReader).

Definition br_can (r : BinReader) (n : Z) : bool := br_ok r && (n <=? bsize (br_rest r)).

Definition rd_word (n : nat) : RD Z := fun r =>
  if br_can r (Z.of_nat n)
  then (le_val (take n (br_rest r)), mkBinReader (drop n (br_rest r)) true)
  else (0, mkBinReader (br_rest r) false).

Definition rd_u8 : RD Z := rd_word 1.
Definition rd_u32 : RD Z := rd_word 4.
Definition rd_u64 : RD Z := rd_word 8.
Definition rd_i64 : RD Z := v ← rd_u64; mret (i64 v).
Definition rd_dbl : RD f64 := v ← rd_word 8; mret (f64_of_bits v).
Definition rd_i32 : RD Z := v ← rd_u32; mret (i32 v).
Definition rd_yes : RD bool := v ← rd_u8; mret (negb (v =? 0)).
Definition rd_id : RD Z := rd_u64.
Definition rd_opt_id : RD Z := p ← rd_yes; if p : bool then rd_id else mret invalid_id.

Definition max_string : Z := 16 * 1024 * 1024.

(** The [n] bytes of a string, once its length is read. *)
Definition rd_chars (n : Z) : RD string := fun r =>
  if negb (br_ok r) || (max_string <? n) then (EmptyString, mkBinReader (br_rest r) false)
  else if bsize (br_rest r) <? n then (EmptyString, mkBinReader (br_rest r) false)
  else (bytes_string (take (Z.to_nat n) (br_rest r)),
        mkBinReader (drop (Z.to_nat n) (br_rest r)) true).

Definition rd_str : RD string := n ← rd_u64; rd_chars n.

(** ** Each field is read back

    [decodes m bs a]: on a sound reader [m] consumes exactly [bs] and returns
    [a]. *)
Definition decodes {A} (m : RD A) (bs : list byte) (a : A) : Prop :=
  forall rest, m (mkBinReader (bs ++ rest) true) = (a, mkBinReader rest true).

Lemma decodes_ret {A} (a : A) : decodes (mret a) [] a.
Proof. by intros rest. Qed.

Lemma decodes_bind {A B} (m : RD A) (k : A -> RD B) bs bs' a b :
  decodes m bs a -> decodes (k a) bs' b -> decodes (m ≫= k) (bs ++ bs') b.
Proof. intros Hm Hk rest. rewrite run_bind, <- app_assoc, Hm. apply Hk. Qed.

Lemma decodes_map {A B} (m : RD A) (f : A -> B) bs a :
  decodes m bs a -> decodes (v ← m; mret (f v)) bs (f a).
Proof. intros Hm. rewrite <- (app_nil_r bs). by apply (decodes_bind m _ _ _ a), decodes_ret. Qed.

Lemma decodes_word l : decodes (rd_word (length l)) l (le_val l).
Proof.
  intros rest. unfold rd_word, br_can. simpl.
  rewrite (proj2 (Z.leb_le _ _)) by (unfold bsize; rewrite length_app; lia).
  by rewrite take_app_length, drop_app_length.
Qed.

Lemma decodes_le n v : decodes (rd_word n) (le_bytes n v) (v mod pow256 n).
Proof. rewrite <- le_val_bytes. rewrite <- (le_bytes_length n v) at 1. apply decodes_word. Qed.

Definition u64_range_b (v : Z) : bool := (0 <=? v) && (v <? 2 ^ 64).
Definition i64_range_b (v : Z) : bool := (- 2 ^ 63 <=? v) && (v <? 2 ^ 63).
Definition i32_range_b (v : Z) : bool := (- 2 ^ 31 <=? v) && (v <? 2 ^ 31).
Definition str_range_b (s : string) : bool := bsize (string_bytes s) <=? max_string.

Lemma decodes_u32 v : 0 <= v < 2 ^ 32 -> decodes rd_u32 (w_u32 v) v.
Proof. intros Hv. rewrite <- (Z.mod_small v (pow256 4)) at 2 by done. apply decodes_le. Qed.

Lemma decodes_u64 v : u64_range_b v = true -> decodes rd_u64 (w_u64 v) v.
Proof.
  intros Hv. rewrite <- (Z.mod_small v (pow256 8)) at 2; [apply decodes_le|].
  unfold u64_range_b in Hv. rewrite pow256_8. lia.
Qed.

Lemma decodes_id v : u64_range_b v = true -> decodes rd_id (w_id v) v.
Proof. apply decodes_u64. Qed.

Lemma i64_of_mod v : - 2 ^ 63 <= v < 2 ^ 63 -> i64 (v mod 2 ^ 64) = v.
Proof. intros Hv. unfold i64. rewrite Zplus_mod_idemp_l. by apply i64_id. Qed.

Lemma i32_of_mod v : - 2 ^ 31 <= v < 2 ^ 31 -> i32 (v mod 2 ^ 32) = v.
Proof. intros Hv. unfold i32. rewrite Zplus_mod_idemp_l, Z.mod_small; lia. Qed.

Lemma decodes_i64 v : i64_range_b v = true -> decodes rd_i64 (w_i64 v) v.
Proof.
  intros Hv. unfold i64_range_b in Hv. rewrite <- (i64_of_mod v) at 2 by lia.
  apply decodes_map, decodes_le.
Qed.

Lemma decodes_i32 v : i32_range_b v = true -> decodes rd_i32 (w_i32 v) v.
Proof.
  intros Hv. unfold i32_range_b in Hv. rewrite <- (i32_of_mod v) at 2 by lia.
  apply decodes_map. unfold w_i32. fold (u32 v). apply decodes_u32. unfold u32.
  apply Z.mod_pos_bound. lia.
Qed.

Lemma decodes_yes b : decodes rd_yes (w_yes b) b.
Proof.
  replace b with (negb (((if b then 1 else 0) mod pow256 1) =? 0)) at 2 by by destruct b.
  apply (decodes_map rd_u8 (fun v => negb (v =? 0))). destruct b; exact (decodes_le 1 _).
Qed.

Lemma decodes_opt_id v : u64_range_b v = true -> decodes rd_opt_id (w_opt_id v) v.
Proof.
  intros Hv. apply (decodes_bind rd_yes _ _ _ (id_valid v)); [apply decodes_yes|].
  destruct (id_valid v) eqn:E; [by apply decodes_id|].
  assert (v = invalid_id) as -> by (unfold id_valid in E; destruct (Z.eqb_spec v invalid_id); done).
  apply decodes_ret.
Qed.

Lemma decodes_str s : str_range_b s = true -> decodes rd_str (w_str s) s.
Proof.
  unfold str_range_b, max_string. intros Hs.
  apply (decodes_bind rd_u64 _ _ _ (bsize (string_bytes s))).
  - apply decodes_u64, andb_true_intro. unfold bsize in *. rewrite Z.leb_le, Z.ltb_lt. lia.
  - intros rest. unfold rd_chars. simpl.
    rewrite (proj2 (Z.ltb_ge max_string _)) by (unfold max_string; lia). simpl.
    rewrite (proj2 (Z.ltb_ge _ _)) by (unfold bsize; rewrite length_app; lia).
    unfold bsize. rewrite Nat2Z.id, take_app_length, drop_app_length. by rewrite bytes_string_bytes.
Qed.

(** ** Doubles *)

Lemma digits2_size m : digits2_pos m = Pos.size m.
Proof. by induction m; simpl; f_equal. Qed.

(** A finite double is normal, or subnormal with the least exponent. *)
Lemma finite_valid s m e :
  f64_valid (S754_finite s m e) = true ->
  (2 ^ 52 <= Z.pos m < 2 ^ 53 /\ -1074 <= e <= 971) \/ (Z.pos m < 2 ^ 52 /\ e = -1074).
Proof.
  unfold f64_valid, valid_binary, bounded, canonical_mantissa, fexp, emin.
  rewrite andb_true_iff, Z.leb_le. intros [E%Z.eqb_eq He]. rewrite digits2_size in E.
  pose proof (Pos.size_gt m) as Hg. pose proof (Pos.size_le m) as Hl.
  apply Pos2Z.pos_lt_pos in Hg. apply Pos2Z.pos_le_pos in Hl.
  rewrite Pos2Z.inj_pow in Hg, Hl. rewrite (Pos2Z.inj_xO m) in Hl.
  destruct (Z.eq_dec (Z.pos (Pos.size m)) 53) as [D|D].
  - rewrite D in Hg, Hl. change (2 ^ 53) with (2 * 2 ^ 52) in Hl. left. lia.
  - right. assert (Z.pos (Pos.size m) <= 52) as D' by lia. split; [|lia].
    eapply Z.lt_le_trans; [apply Hg|]. apply Z.pow_le_mono_r; lia.
Qed.

Lemma split_bits (s : bool) ex fr :
  0 <= ex < 2048 -> 0 <= fr < 2 ^ 52 ->
  let b := sign_bit s + ex * 2 ^ 52 + fr in
  (2 ^ 63 <=? b) = s /\ (b / 2 ^ 52) mod 2048 = ex /\ b mod 2 ^ 52 = fr.
Proof.
  intros Hx Hf b. assert (b = ((if s then 2048 else 0) + ex) * 2 ^ 52 + fr) as E.
  { subst b. unfold sign_bit. destruct s; lia. }
  split_and!.
  - rewrite E. destruct s; [apply Z.leb_le|apply Z.leb_gt]; lia.
  - rewrite E, Z.add_comm, Z.div_add, Z.div_small, Z.add_0_l by lia.
    destruct s; [|by apply Z.mod_small].
    replace (2048 + ex) with (ex + 1 * 2048) by lia.
    rewrite Z_mod_plus_full. by apply Z.mod_small.
  - rewrite E, Z.add_comm, Z_mod_plus_full. by apply Z.mod_small.
Qed.

Lemma f64_of_bits_bits x : f64_valid x = true -> f64_of_bits (f64_bits x) = x.
Proof.
  intros Hv. destruct x as [s|s| |s m e]; [by destruct s| by destruct s | done |].
  unfold f64_bits. destruct (finite_valid _ _ _ Hv) as [[Hm He]|[Hm ->]].
  - rewrite (proj2 (Z.ltb_ge _ _)) by lia.
    destruct (split_bits s (e + 1075) (Z.pos m - 2 ^ 52)) as (E1 & E2 & E3); [lia..|].
    unfold f64_of_bits. rewrite E1, E2, E3.
    rewrite (proj2 (Z.eqb_neq _ _)), (proj2 (Z.eqb_neq _ 2047)) by lia.
    replace (Z.pos m - 2 ^ 52 + 2 ^ 52) with (Z.pos m) by lia. f_equal. lia.
  - rewrite (proj2 (Z.ltb_lt _ _)) by lia.
    destruct (split_bits s 0 (Z.pos m)) as (E1 & E2 & E3); [lia..|].
    rewrite Z.mul_0_l, Z.add_0_r in E1, E2, E3. unfold f64_of_bits. by rewrite E1, E2, E3.
Qed.

Lemma f64_bits_range x : f64_valid x = true -> 0 <= f64_bits x < 2 ^ 64.
Proof.
  intros Hv. unfold f64_bits, sign_bit. destruct x as [s|s| |s m e]; [destruct s; lia..| |].
  - lia.
  - destruct (finite_valid _ _ _ Hv) as [[Hm He]|[Hm ->]], (Z.ltb_spec (Z.pos m) (2 ^ 52)); destruct s; lia.
Qed.

Lemma decodes_dbl x : f64_valid x = true -> decodes rd_dbl (w_dbl x) x.
Proof.
  intros Hv. rewrite <- (f64_of_bits_bits x Hv) at 2. apply decodes_map.
  rewrite <- (Z.mod_small (f64_bits x) (pow256 8)) by (apply f64_bits_range, Hv).
  apply decodes_le.
Qed.

Create HintDb codec discriminated.
#[export] Hint Resolve decodes_u64 decodes_id decodes_i64 decodes_i32 decodes_yes decodes_opt_id
  decodes_str decodes_dbl : codec.
