(* ===== verification/Persist.v ===== *)
(** * Saving and restoring the scheduler

    [serialize_locked], [deserialize_locked], [enqueue_locked], [do_persist]
    and [do_recover] of [src/scheduler.cpp].  Deserialisation changes the
    scheduler as it reads, so it runs on the pair of scheduler and reader; it
    stops at the first error and leaves what it has written so far. *)

From S2P Require Import Prelude Enums Ids Float64 Types State Admission Queue Batch Dispatch Completion Control Bytes Envelope Wire.
Open Scope Z_scope.

Definition payload_magic : Z := 0x49534348.
Definition payload_version : Z := 1.

(** ** Writing the records *)

Definition put_attempt (a : AttemptRecord) : list byte :=
  w_id (att_attempt_id a) ++ w_id (att_generation a) ++ w_i32 (AttemptState_int (att_state a)) ++
  w_id (att_worker a) ++ w_id (att_batch a) ++
  w_i32 (CompletionStatus_int (att_final_status a)) ++ w_i32 (FailureClass_int (att_failure_class a)) ++
  w_str (att_error_message a) ++ w_i64 (att_output_tokens a) ++ w_i64 (att_work_units a) ++
  w_i64 (att_duration_us a).

(** A [std::vector] behind its length. *)
Definition put_list {A} (f : A -> list byte) (l : list A) : list byte :=
  w_u64 (Z.of_nat (length l)) ++ concat (f <$> l).

Definition put_spec (sp : RequestSpec) : list byte :=
  w_id (spec_tenant sp) ++ w_id (spec_session sp) ++ w_id (spec_sequence sp) ++
  w_id (spec_model sp) ++ w_id (spec_revision sp) ++ w_opt_id (spec_adapter sp) ++
  w_i32 (RequestPhase_int (spec_phase sp)) ++ w_i32 (PriorityClass_int (spec_priority sp)) ++
  w_i32 (LatencyClass_int (spec_latency_class sp)) ++
  w_i64 (te_input (spec_tokens sp)) ++ w_i64 (te_output (spec_tokens sp)) ++
  w_i64 (te_decoded (spec_tokens sp)) ++
  w_i64 (spec_estimated_memory_bytes sp) ++ w_i32 (spec_max_batch_size sp) ++
  w_str (spec_model_name sp) ++
  w_i64 (rd_memory_bytes (spec_demand sp)) ++ w_dbl (rd_cost_units (spec_demand sp)).

(** A request; [rem] is the field written for its deadline. *)
Definition put_request (rid : Z) (r : RequestRecord) (rem : Z) : list byte :=
  w_id rid ++ w_i32 (RequestState_int (rec_state r)) ++ w_id (rec_current_attempt r) ++
  w_id (rec_generation r) ++ w_i32 (rec_attempts_used r) ++
  w_yes (rec_cancellation_requested r) ++ w_yes (rec_cancellation_committed r) ++
  w_i32 (CancellationReason_int (rec_cancel_reason r)) ++ w_str (rec_terminal_reason r) ++
  put_spec (rec_spec r) ++ w_i64 rem ++ put_list put_attempt (rec_history r).

Definition put_tenant (p : Z * TenantRecord) : list byte :=
  w_id p.1 ++ w_dbl (ten_weight p.2) ++ w_i32 (ten_admitted p.2) ++ w_i32 (ten_queued p.2) ++
  w_i32 (ten_running p.2) ++ w_i64 (ten_services_consumed p.2) ++ w_i64 (ten_service_debt p.2).

Definition put_capability (cap : WorkerCapability) : list byte :=
  w_str (cap_backend cap) ++ w_str (cap_device_name cap) ++
  w_i32 (cap_total_capacity_units cap) ++ w_i32 (cap_available_capacity_units cap) ++
  w_i64 (cap_memory_bytes_total cap) ++ w_i64 (cap_memory_bytes_available cap) ++
  put_list w_id (cap_models cap) ++ put_list w_id (cap_revisions cap) ++
  put_list w_id (cap_adapters cap) ++
  put_list (fun p => w_i32 (RequestPhase_int p)) (cap_phases cap).

Definition put_worker (wr : WorkerRecord) : list byte :=
  let reg := wr_registration wr in
  w_id (reg_worker reg) ++ w_id (reg_node reg) ++ w_id (reg_accelerator reg) ++
  w_id (reg_boot_id reg) ++ w_i32 (WorkerState_int (wr_state wr)) ++
  put_capability (reg_capability reg).

(** Magic, version, epoch, counters and statistics. *)
Definition put_header (s : Impl) : list byte :=
  w_u32 payload_magic ++ w_u32 payload_version ++ w_u64 (epoch s) ++
  w_i64 (global_admitted s) ++ w_i64 (global_queued s) ++ w_i64 (global_reserved_units s) ++
  w_i64 (global_running_units s) ++ w_i64 (global_tokens s) ++
  w_u64 (st_requests_submitted (stats s)) ++ w_u64 (st_requests_admitted (stats s)) ++
  w_u64 (st_requests_completed (stats s)) ++ w_u64 (st_requests_cancelled (stats s)) ++
  w_u64 (st_requests_failed (stats s)) ++ w_u64 (st_requests_expired (stats s)) ++
  w_u64 (st_attempts_created (stats s)) ++ w_u64 (st_dispatches (stats s)) ++
  w_u64 (st_retries (stats s)).

(** ** The reading monad *)

Record DState := mkDState { ds_impl : Impl; ds_reader : BinReader }.

(** [Failed e] is the early [return Result<void>::err(e)].  [Unmodelled]: a
    stored integer is not an enumerator; the code keeps it in the enumeration's
    object and goes on, the model stops. *)
Inductive Outcome (A : Type) : Type :=
| Done (a : A)
| Failed (e : Error)
| Unmodelled.
Arguments Done {A} a.
Arguments Failed {A} e.
Arguments Unmodelled {A}.

Definition DM (A : Type) : Type := DState -> Outcome A * DState.

#[global] Instance DM_ret : MRet DM := fun A a d => (Done a, d).
#[global] Instance DM_bind : MBind DM := fun A B k m d =>
  match m d with
  | (Done a, d') => k a d'
  | (Failed e, d') => (Failed e, d')
  | (Unmodelled, d') => (Unmodelled, d')
  end.

(** A read, a step of the scheduler, an error, a cast to an enumeration. *)
Definition rd {A} (m : RD A) : DM A := fun d =>
  (Done (result m (ds_reader d)), mkDState (ds_impl d) (exec m (ds_reader d))).
Definition sd {A} (m : M A) : DM A := fun d =>
  (Done (result m (ds_impl d)), mkDState (exec m (ds_impl d)) (ds_reader d)).
Definition corrupt {A} (m : string) : DM A := fun d => (Failed (make_error EC_Corruption m), d).
Definition cast {A} (f : Z -> option A) : DM A := fun d =>
  match f (result rd_i32 (ds_reader d)) with
  | Some a => (Done a, mkDState (ds_impl d) (exec rd_i32 (ds_reader d)))
  | None => (Unmodelled, mkDState (ds_impl d) (exec rd_i32 (ds_reader d)))
  end.

(** [if (!r.ok) return err(m)], and [if (!r.ok || n > bound) return err(m)]. *)
Definition need_ok (m : string) : DM unit := fun d =>
  if br_ok (ds_reader d) then (Done tt, d) else (Failed (make_error EC_Corruption m), d).
Definition count (bound : Z) (m : string) : DM nat :=
  n ← rd rd_u64;
  need_ok m ;;
  if bound <? n then corrupt m else mret (Z.to_nat n).

Fixpoint repeat_read {A} (n : nat) (m : DM A) : DM (list A) :=
  match n with
  | O => mret []
  | Datatypes.S n' => x ← m; l ← repeat_read n' m; mret (x :: l)
  end.

Fixpoint repeat_do (n : nat) (m : DM unit) : DM unit :=
  match n with
  | O => mret tt
  | Datatypes.S n' => m ;; repeat_do n' m
  end.

Section Persist.
  Context `{Env}.

(** [deadline.valid() ? deadline.remaining(clock_->now()).count() : -1]. *)
Definition deadline_field (d : Deadline) : M Z :=
  if dl_valid d then now ← clock_now; mret (remaining d now) else mret (-1).

Fixpoint put_requests (l : list (Z * RequestRecord)) : M (list byte) :=
  match l with
  | [] => mret []
  | (rid, r) :: l' =>
      rem ← deadline_field (spec_deadline (rec_spec r));
      rest ← put_requests l';
      mret (put_request rid r rem ++ rest)
  end.

Definition serialize_locked : M (list byte) :=
  s ← gets id;
  let rs := map_to_list (requests s) in
  reqs ← put_requests rs;
  mret (put_header s ++ (w_u64 (Z.of_nat (length rs)) ++ reqs) ++
        put_list put_tenant (map_to_list (tenants s)) ++
        put_list put_worker ((map_to_list (workers s)).*2)).

(** ** Reading the records *)

Definition read_attempt : DM AttemptRecord :=
  aid ← rd rd_id; gen ← rd rd_id; st ← cast AttemptState_of_int;
  w ← rd rd_id; b ← rd rd_id;
  fs ← cast CompletionStatus_of_int; fc ← cast FailureClass_of_int;
  msg ← rd rd_str; out ← rd rd_i64; wu ← rd rd_i64; dur ← rd rd_i64;
  need_ok "attempt record truncated" ;;
  mret {| att_attempt_id := aid; att_generation := gen; att_state := st; att_worker := w;
          att_batch := b; att_final_status := fs; att_failure_class := fc;
          att_error_message := msg; att_created_at := 0; att_output_tokens := out;
          att_work_units := wu; att_duration_us := dur |}.

(** The specification up to its deadline. *)
Definition read_spec : DM RequestSpec :=
  tenant ← rd rd_id; session ← rd rd_id; sequence ← rd rd_id; model ← rd rd_id;
  revision ← rd rd_id; adapter ← rd rd_opt_id;
  phase ← cast RequestPhase_of_int; prio ← cast PriorityClass_of_int;
  lat ← cast LatencyClass_of_int;
  tin ← rd rd_i64; tout ← rd rd_i64; tdec ← rd rd_i64;
  mem ← rd rd_i64; maxb ← rd rd_i32; name ← rd rd_str;
  dmem ← rd rd_i64; cost ← rd rd_dbl;
  mret (default_spec <| spec_tenant := tenant |> <| spec_session := session |>
    <| spec_sequence := sequence |> <| spec_model := model |> <| spec_revision := revision |>
    <| spec_adapter := adapter |> <| spec_phase := phase |> <| spec_priority := prio |>
    <| spec_latency_class := lat |> <| spec_tokens := mkTokenEstimate tin tout tdec |>
    <| spec_estimated_memory_bytes := mem |> <| spec_max_batch_size := maxb |>
    <| spec_model_name := name |> <| spec_demand := mkResourceDemand default_tokens dmem cost |>).

(** [if (rem >= 0) deadline = Deadline::after(milliseconds(rem), clock_->now())]. *)
Definition read_deadline : DM Deadline :=
  rem ← rd rd_i64;
  if 0 <=? rem then now ← sd clock_now; mret (deadline_after (i64 (rem * ns_per_ms)) now)
  else mret deadline_none.

Definition read_request : DM unit :=
  rid ← rd rd_id; st ← cast RequestState_of_int; cur ← rd rd_id; gen ← rd rd_id; used ← rd rd_i32;
  need_ok "request record truncated" ;;
  creq ← rd rd_yes; ccom ← rd rd_yes; reason ← cast CancellationReason_of_int; term ← rd rd_str;
  sp ← read_spec; dl ← read_deadline;
  nh ← count 4096 "bad history count";
  hist ← repeat_read nh read_attempt;
  t1 ← sd clock_now; t2 ← sd clock_now;
  sd (insert_if_absent rid (default_request <| rec_request_id := rid |> <| rec_state := st |>
    <| rec_current_attempt := cur |> <| rec_generation := gen |> <| rec_attempts_used := used |>
    <| rec_cancellation_requested := creq |> <| rec_cancellation_committed := ccom |>
    <| rec_cancel_reason := reason |> <| rec_terminal_reason := term |>
    <| rec_spec := sp <| spec_deadline := dl |> |> <| rec_history := hist |>
    <| rec_created_at := t1 |> <| rec_completed_at := t2 |>)).

Definition read_tenant : DM unit :=
  t ← rd rd_id; w ← rd rd_dbl; adm ← rd rd_i32; q ← rd rd_i32; run ← rd rd_i32;
  sc ← rd rd_i64; debt ← rd rd_i64;
  need_ok "tenant record corrupted" ;;
  sd (modify (fun s => match tenants s !! t with
    | Some _ => s
    | None => s <| tenants ::= <[t := mkTenantRecord t w adm q run sc debt]> |>
    end)).

Definition read_ids (m : string) : DM (list Z) := n ← count 4096 m; repeat_read n (rd rd_id).

(** The announced capabilities, with the defaults for what is not stored. *)
Definition read_capability : DM WorkerCapability :=
  backend ← rd rd_str; dev ← rd rd_str; total ← rd rd_i32; avail ← rd rd_i32;
  mt ← rd rd_i64; ma ← rd rd_i64;
  models ← read_ids "bad model count"; revs ← read_ids "bad revision count";
  ads ← read_ids "bad adapter count";
  nph ← count 16 "bad phase count";
  phases ← repeat_read nph (cast RequestPhase_of_int);
  mret {| cap_accelerator := invalid_id; cap_backend := backend; cap_device_name := dev;
          cap_compute_capability_major := 0; cap_compute_capability_minor := 0;
          cap_total_capacity_units := total; cap_available_capacity_units := avail;
          cap_memory_bytes_total := mt; cap_memory_bytes_available := ma;
          cap_models := models; cap_revisions := revs; cap_adapters := ads; cap_phases := phases;
          cap_batch := default_batch_constraints; cap_locality_tag := EmptyString;
          cap_model_warmth := fzero; cap_state_warmth := fzero |}.

Definition read_worker : DM unit :=
  w ← rd rd_id; node ← rd rd_id; acc ← rd rd_id; boot ← rd rd_id;
  st ← cast WorkerState_of_int;
  cap ← read_capability;
  need_ok "worker record corrupted" ;;
  sd (modify (fun s => match workers s !! w with
    | Some _ => s
    | None => s <| workers ::= <[w := default_worker
        <| wr_registration := default_registration <| reg_worker := w |> <| reg_node := node |>
             <| reg_accelerator := acc |> <| reg_boot_id := boot |> <| reg_capability := cap |> |>
        <| wr_state := st |>
        <| wr_resource ::= apply_capability cap |>]> |>
    end)).

(** ** Rebuilding the ready index *)

Definition enqueue_locked (id : Z) : M unit :=
  modify_rec id (fun r => r <| rec_state := RS_Queued |>) ;;
  r ← gets (fun s => request_of s id);
  c ← gets cfg;
  let sp := rec_spec r in
  let k := flow_key sp in
  f0 ← gets (fun s => flow_of s k);
  let f := f0 <| fl_weight := flow_weight c sp |> in
  put_flow k f ;;
  now ← clock_now;
  let e := {| re_id := rec_request_id r; re_generation := rec_generation r;
              re_slack := slack_of sp now;
              re_prio := PriorityClass_int (spec_priority sp);
              re_idv := rec_request_id r |} in
  vt ← gets virtual_time;
  (if bool_decide (fl_pending f = [])
   then put_flow k (f <| fl_virtual_finish := fmax (fl_virtual_finish f) vt |>
                      <| fl_pending := [e] |>) ;;
        modify (fun s => s <| active_flows ::= fun a => {[k]} ∪ a |>)
   else put_flow k (f <| fl_pending ::= pq_push e |>)) ;;
  modify (fun s => s <| queued ::= fun q => {[rec_request_id r]} ∪ q |>) ;;
  modify (fun s => s <| compat ::= compat_insert (compat_key c sp) (rec_request_id r) |>) ;;
  modify (fun s => s <| global_queued ::= Z.succ |>) ;;
  tenant_of (spec_tenant sp) ;;
  modify_tenant (spec_tenant sp) (fun t => t <| ten_queued ::= Z.succ |>).

Definition requeues (r : RequestRecord) : bool :=
  match rec_state r with RS_Queued | RS_Admitted => true | _ => false end.

Definition rebuild_index : M unit :=
  modify (fun s => s <| global_queued := 0 |>
                     <| tenants ::= fmap (fun t => t <| ten_queued := 0 |>) |>) ;;
  rs ← gets (fun s => map_to_list (requests s));
  foreach rs (fun p => when (requeues p.2) (enqueue_locked (rec_request_id p.2))).

(** ** [deserialize_locked] *)

Definition clear_state (s : Impl) : Impl :=
  s <| requests := ∅ |> <| tenants := ∅ |> <| workers := ∅ |> <| flows := ∅ |> <| compat := ∅ |>
    <| active_flows := ∅ |> <| queued := ∅ |>.

Definition read_header : DM unit :=
  magic ← rd rd_u32; ver ← rd rd_u32;
  need_ok "bad magic" ;;
  (if magic =? payload_magic then mret tt else corrupt "bad magic") ;;
  (if ver =? payload_version then mret tt else corrupt "bad format version") ;;
  sd (modify clear_state) ;;
  ep ← rd rd_u64; sd (modify (fun s => s <| epoch := ep |>)) ;;
  ga ← rd rd_i64; gq ← rd rd_i64; gr ← rd rd_i64; gn ← rd rd_i64; gt ← rd rd_i64;
  sd (modify (fun s => s <| global_admitted := ga |> <| global_queued := gq |>
        <| global_reserved_units := gr |> <| global_running_units := gn |> <| global_tokens := gt |>)) ;;
  s0 ← rd rd_u64; s1 ← rd rd_u64; s2 ← rd rd_u64; s3 ← rd rd_u64; s4 ← rd rd_u64;
  s5 ← rd rd_u64; s6 ← rd rd_u64; s7 ← rd rd_u64; s8 ← rd rd_u64;
  sd (modify_stats (fun st => st <| st_requests_submitted := s0 |> <| st_requests_admitted := s1 |>
        <| st_requests_completed := s2 |> <| st_requests_cancelled := s3 |>
        <| st_requests_failed := s4 |> <| st_requests_expired := s5 |>
        <| st_attempts_created := s6 |> <| st_dispatches := s7 |> <| st_retries := s8 |>)).

Definition read_state : DM unit :=
  read_header ;;
  nreq ← count 10000000 "bad request count";
  repeat_do nreq read_request ;;
  nten ← count 100000 "bad tenant count";
  repeat_do nten read_tenant ;;
  nwrk ← count 100000 "bad worker count";
  repeat_do nwrk read_worker ;;
  need_ok "trailing corruption at end of payload" ;;
  sd rebuild_index.

Definition deserialize_locked (data : list byte) : M (Outcome unit) := fun s =>
  let '(o, d) := read_state (mkDState s (mkBinReader data true)) in (o, ds_impl d).

(** ** [do_persist] and [do_recover], with the file system *)

Definition do_persist (io : WriteCalls) (path : string) (fs : FS) : M (Result unit * FS) :=
  c ← gets cfg;
  if negb (cfg_persist_recovery c)
  then mret (fail EC_InvalidState "persistence disabled", fs)
  else payload ← serialize_locked; mret (write_persistence_file io path payload fs).

Definition do_recover (io : ReadCalls) (path : string) (fs : FS) : M (Outcome unit) :=
  match read_persistence_file io path fs with
  | Err e => mret (Failed e)
  | Ok payload =>
      modify (fun s => s <| recovery_mode := 1 |>) ;;
      res ← deserialize_locked payload;
      modify (fun s => s <| recovery_mode := 0 |>) ;;
      mret res
  end.

End Persist.
