(* ===== verification/PersistCodec.v ===== *)
(** * What is saved is read back

    The reading side of [Persist.v] inverts the writing side, record by
    record.  [storable] collects the ranges: every field within its C++ type,
    strings and lists within the reader's bounds. *)

From S2P Require Import Prelude Enums Ids Float64 Types State Admission Queue Batch Dispatch Completion Control Bytes Envelope Wire Persist.
Open Scope Z_scope.

(** ** Reads as specifications

    [reads s m bs a s']: from the scheduler [s], with [bs] in front of the
    reader, [m] consumes [bs], returns [a] and leaves [s']. *)
Definition reads {A} (s : Impl) (m : DM A) (bs : list byte) (a : A) (s' : Impl) : Prop :=
  forall rest, m (mkDState s (mkBinReader (bs ++ rest) true)) =
    (Done a, mkDState s' (mkBinReader rest true)).

Lemma reads_ret {A} s (a : A) : reads s (mret a) [] a s.
Proof. by intros rest. Qed.

Lemma reads_bind {A B} s s1 s2 (m : DM A) (k : A -> DM B) bs bs' a b :
  reads s m bs a s1 -> reads s1 (k a) bs' b s2 -> reads s (m ≫= k) (bs ++ bs') b s2.
Proof. intros Hm Hk rest. unfold mbind, DM_bind. rewrite <- app_assoc, Hm. apply Hk. Qed.

(** The last read of a method. *)
Lemma reads_last {A B} s s1 s2 (m : DM A) (k : A -> DM B) bs a b :
  reads s m bs a s1 -> reads s1 (k a) [] b s2 -> reads s (m ≫= k) bs b s2.
Proof. rewrite <- (app_nil_r bs) at 2. apply reads_bind. Qed.

(** A step that reads nothing. *)
Lemma reads_skip {A B} s s1 s2 (m : DM A) (k : A -> DM B) bs a b :
  reads s m [] a s1 -> reads s1 (k a) bs b s2 -> reads s (m ≫= k) bs b s2.
Proof. apply (reads_bind s s1 s2 m k [] bs). Qed.

Lemma reads_rd {A} s (m : RD A) bs a : decodes m bs a -> reads s (rd m) bs a s.
Proof. intros Hm rest. unfold rd, result, exec. simpl. by rewrite Hm. Qed.

Lemma reads_sd {A} s (m : M A) : reads s (sd m) [] (result m s) (exec m s).
Proof. by intros rest. Qed.

Lemma reads_do s (m : M unit) : reads s (sd m) [] tt (exec m s).
Proof. pose proof (reads_sd s m) as Hm. by destruct (result m s). Qed.

Lemma reads_need_ok s m : reads s (need_ok m) [] tt s.
Proof. by intros rest. Qed.

(** An enumeration whose integers [f] inverts. *)
Class Enum {A} (enc : A -> Z) (dec : Z -> option A) : Prop := {
  enum_range a : i32_range_b (enc a) = true;
  enum_inv a : dec (enc a) = Some a
}.

#[export] Instance Enum_RequestState : Enum RequestState_int RequestState_of_int.
Proof. split; by intros []. Qed.
#[export] Instance Enum_AttemptState : Enum AttemptState_int AttemptState_of_int.
Proof. split; by intros []. Qed.
#[export] Instance Enum_CompletionStatus : Enum CompletionStatus_int CompletionStatus_of_int.
Proof. split; by intros []. Qed.
#[export] Instance Enum_FailureClass : Enum FailureClass_int FailureClass_of_int.
Proof. split; by intros []. Qed.
#[export] Instance Enum_CancellationReason : Enum CancellationReason_int CancellationReason_of_int.
Proof. split; by intros []. Qed.
#[export] Instance Enum_RequestPhase : Enum RequestPhase_int RequestPhase_of_int.
Proof. split; by intros []. Qed.
#[export] Instance Enum_PriorityClass : Enum PriorityClass_int PriorityClass_of_int.
Proof. split; by intros []. Qed.
#[export] Instance Enum_LatencyClass : Enum LatencyClass_int LatencyClass_of_int.
Proof. split; by intros []. Qed.
#[export] Instance Enum_WorkerState : Enum WorkerState_int WorkerState_of_int.
Proof. split; by intros []. Qed.

Lemma reads_cast `{HE : Enum A enc dec} s a : reads s (cast dec) (w_i32 (enc a)) a s.
Proof.
  intros rest. unfold cast, result, exec. cbn [ds_reader ds_impl].
  rewrite (decodes_i32 (enc a) (enum_range a) rest). cbn [fst snd]. by rewrite enum_inv.
Qed.

Lemma reads_count s bound m n :
  Z.of_nat n <= bound -> bound < 2 ^ 64 -> reads s (count bound m) (w_u64 (Z.of_nat n)) n s.
Proof.
  intros Hn Hb. eapply reads_last; [apply reads_rd, decodes_u64|].
  - apply andb_true_intro. rewrite Z.leb_le, Z.ltb_lt. lia.
  - eapply reads_skip; [apply reads_need_ok|]. rewrite (proj2 (Z.ltb_ge _ _)) by lia.
    rewrite Nat2Z.id. apply reads_ret.
Qed.

Lemma reads_repeat {A B} s (m : DM B) (f : A -> list byte) (g : A -> B) l :
  (forall x, x ∈ l -> reads s m (f x) (g x) s) ->
  reads s (repeat_read (length l) m) (concat (f <$> l)) (g <$> l) s.
Proof.
  induction l as [|x l IH]; intros Hm; simpl; [apply reads_ret|].
  eapply reads_bind; [apply Hm; left|]. eapply reads_last; [apply IH|apply reads_ret].
  intros y Hy. apply Hm. by right.
Qed.

Lemma reads_list {A B} s (m : DM B) (f : A -> list byte) (g : A -> B) l bound msg :
  Z.of_nat (length l) <= bound -> bound < 2 ^ 64 ->
  (forall x, x ∈ l -> reads s m (f x) (g x) s) ->
  reads s (n ← count bound msg; repeat_read n m) (put_list f l) (g <$> l) s.
Proof.
  intros Hl Hb Hm. eapply reads_bind; [by apply reads_count|]. by apply reads_repeat.
Qed.

(** Walk through a record's fields. *)
Ltac rfield :=
  first [ eapply reads_rd; solve [eauto 2 with codec nocore] | apply reads_cast ].
Ltac rstep :=
  first [ eapply reads_skip; [apply reads_need_ok|]
        | eapply reads_bind; [rfield|]
        | eapply reads_last; [rfield|] ]; cbv beta.

(** ** Attempts *)

Definition storable_attempt (a : AttemptRecord) : bool :=
  u64_range_b (att_attempt_id a) && u64_range_b (att_generation a) && u64_range_b (att_worker a) &&
  u64_range_b (att_batch a) && str_range_b (att_error_message a) &&
  i64_range_b (att_output_tokens a) && i64_range_b (att_work_units a) && i64_range_b (att_duration_us a).

(** What comes back: all but the creation time. *)
Definition restored_attempt (a : AttemptRecord) : AttemptRecord := a <| att_created_at := 0 |>.

Ltac ranges H := repeat match type of H with
  | _ && _ = true => let H' := fresh in apply andb_prop in H as [H H'] end.

Lemma reads_attempt s a :
  storable_attempt a = true -> reads s read_attempt (put_attempt a) (restored_attempt a) s.
Proof.
  unfold storable_attempt. intros Ha. ranges Ha. unfold read_attempt, put_attempt.
  repeat rstep. destruct a; apply reads_ret.
Qed.

(** ** Specifications and deadlines *)

Definition storable_spec (sp : RequestSpec) : bool :=
  u64_range_b (spec_tenant sp) && u64_range_b (spec_session sp) && u64_range_b (spec_sequence sp) &&
  u64_range_b (spec_model sp) && u64_range_b (spec_revision sp) && u64_range_b (spec_adapter sp) &&
  i64_range_b (te_input (spec_tokens sp)) && i64_range_b (te_output (spec_tokens sp)) &&
  i64_range_b (te_decoded (spec_tokens sp)) && i64_range_b (spec_estimated_memory_bytes sp) &&
  i32_range_b (spec_max_batch_size sp) && str_range_b (spec_model_name sp) &&
  i64_range_b (rd_memory_bytes (spec_demand sp)) && f64_valid (rd_cost_units (spec_demand sp)).

(** What comes back of a specification: the payload, the budget, the hints, the
    demanded tokens and the interactive flag are not stored. *)
Definition restored_spec (d : Deadline) (sp : RequestSpec) : RequestSpec :=
  sp <| spec_demand := mkResourceDemand default_tokens (rd_memory_bytes (spec_demand sp))
                         (rd_cost_units (spec_demand sp)) |>
     <| spec_locality := default_locality |> <| spec_warmth := default_warmth |>
     <| spec_deadline := d |> <| spec_budget := default_budget |>
     <| spec_payload := EmptyString |> <| spec_interactive := false |>.

Lemma reads_spec s sp :
  storable_spec sp = true -> reads s read_spec (put_spec sp) (restored_spec deadline_none sp) s.
Proof.
  unfold storable_spec. intros Hs. ranges Hs. unfold read_spec, put_spec.
  repeat rstep. destruct sp as [? ? ? ? ? ? ? ? ? [] [] ? ? ? ? ? ? ? ? ?]. apply reads_ret.
Qed.

Section Codec.
  Context `{Env}.

(** A deadline is stored as the milliseconds left at a reading of the clock since
    the [since]-th, and restored that far ahead of a reading since the [from]-th
    of the recovering scheduler; one that has passed is restored as due then. *)
Definition deadline_restored (since from : nat) (d d' : Deadline) : Prop :=
  if dl_valid d
  then exists k0 k1, (since <= k0)%nat /\ (from <= k1)%nat /\
    d' = deadline_after (i64 (remaining d (env_clock k0) * ns_per_ms)) (env_clock k1)
  else d' = deadline_none.

Lemma remaining_range d now : dl_valid d = true -> 0 <= remaining d now < 2 ^ 63.
Proof.
  intros Hd. unfold remaining. rewrite Hd. simpl. pose proof (i64_range (dl_point d - now)) as Hr.
  destruct (Z.ltb_spec (i64 (dl_point d - now)) 0); [lia|]. split.
  - apply Z.quot_pos; [lia|done].
  - eapply Z.le_lt_trans; [apply Z.quot_le_upper_bound with (q := i64 (dl_point d - now)); unfold ns_per_ms; lia|lia].
Qed.

(** States that differ in the number of clock readings. *)
Definition ticked (s s' : Impl) : Prop := exists n, (clock_reads s <= n)%nat /\ s' = s <| clock_reads := n |>.

Lemma ticked_refl s : ticked s s.
Proof. exists (clock_reads s). split; [lia|]. by destruct s. Qed.
Lemma ticked_clock s : ticked s (exec clock_now s).
Proof. eexists. split; [|done]. lia. Qed.
Lemma ticked_trans s1 s2 s3 : ticked s1 s2 -> ticked s2 s3 -> ticked s1 s3.
Proof. intros (n & Hn & ->) (m & Hm & ->). exists m. simpl in Hm. split; [lia|done]. Qed.

(** Saving changes nothing but the number of clock readings. *)
Lemma deadline_field_ticked d s : ticked s (exec (deadline_field d) s).
Proof. unfold deadline_field. destruct (dl_valid d); [|apply ticked_refl]. rewrite exec_bind. apply ticked_clock. Qed.
Lemma put_requests_ticked l s : ticked s (exec (put_requests l) s).
Proof.
  revert s. induction l as [|[rid r] l IH]; intros s; [apply ticked_refl|]. cbn [put_requests]. rewrite !exec_bind, exec_ret.
  eapply ticked_trans; [apply deadline_field_ticked|apply IH].
Qed.
Lemma serialize_ticked s : ticked s (exec serialize_locked s).
Proof. unfold serialize_locked. rewrite !exec_bind, exec_gets, exec_ret. apply put_requests_ticked. Qed.

Lemma ticked_reads s s' : ticked s s' -> (clock_reads s <= clock_reads s')%nat.
Proof. by intros (n & Hn & ->). Qed.

Lemma reads_deadline s d s1 :
  exists d' s', reads s read_deadline (w_i64 (result (deadline_field d) s1)) d' s' /\
    deadline_restored (clock_reads s1) (clock_reads s) d d' /\ ticked s s'.
Proof.
  unfold deadline_restored, deadline_field, read_deadline. destruct (dl_valid d) eqn:Hd.
  - set (rem := result _ s1). assert (rem = remaining d (env_clock (clock_reads s1))) as Et by done.
    pose proof (remaining_range d (env_clock (clock_reads s1)) Hd) as Hr. do 2 eexists. split_and!.
    + eapply reads_last; [apply reads_rd, decodes_i64, andb_true_intro; rewrite Z.leb_le, Z.ltb_lt; lia|].
      rewrite (proj2 (Z.leb_le 0 rem)) by lia.
      eapply reads_skip; [apply reads_sd|apply reads_ret].
    + rewrite Et. exists (clock_reads s1), (clock_reads s). split_and!; [lia|lia|done].
    + apply ticked_clock.
  - do 2 eexists. split_and!; [eapply reads_last; [by apply reads_rd, decodes_i64|apply reads_ret]|done|].
    apply ticked_refl.
Qed.

(** ** Requests *)

Definition storable_request (p : Z * RequestRecord) : bool :=
  let r := p.2 in
  u64_range_b p.1 && u64_range_b (rec_current_attempt r) && u64_range_b (rec_generation r) &&
  i32_range_b (rec_attempts_used r) && str_range_b (rec_terminal_reason r) &&
  storable_spec (rec_spec r) && (Z.of_nat (length (rec_history r)) <=? 4096) &&
  forallb storable_attempt (rec_history r).

(** What comes back of a request: its state (also when it was reserved or
    running), attempt, generation, flags, reasons, the stored part of its
    specification and its history.  Its timestamps are those of the restart, its
    batch and its delays are forgotten, and [restored_spec] drops the payload,
    the budget, the locality and warmth hints, the demanded tokens and the
    interactive flag. *)
Definition restored_request (rid : Z) (r : RequestRecord) (d : Deadline) (t1 t2 : Z) : RequestRecord :=
  default_request <| rec_request_id := rid |> <| rec_state := rec_state r |>
    <| rec_current_attempt := rec_current_attempt r |> <| rec_generation := rec_generation r |>
    <| rec_attempts_used := rec_attempts_used r |>
    <| rec_cancellation_requested := rec_cancellation_requested r |>
    <| rec_cancellation_committed := rec_cancellation_committed r |>
    <| rec_cancel_reason := rec_cancel_reason r |> <| rec_terminal_reason := rec_terminal_reason r |>
    <| rec_spec := restored_spec d (rec_spec r) |>
    <| rec_history := restored_attempt <$> rec_history r |>
    <| rec_created_at := t1 |> <| rec_completed_at := t2 |>.

Definition request_restored (since from : nat) (rid : Z) (r r' : RequestRecord) : Prop :=
  exists d t1 t2, r' = restored_request rid r d t1 t2 /\
    deadline_restored since from (spec_deadline (rec_spec r)) d.

Lemma request_restored_le n0 n1 m0 m1 rid r r' :
  (m0 <= n0)%nat -> (m1 <= n1)%nat -> request_restored n0 n1 rid r r' -> request_restored m0 m1 rid r r'.
Proof.
  intros H0 H1 (d & t1 & t2 & -> & HD). exists d, t1, t2. split; [done|]. unfold deadline_restored in *.
  destruct (dl_valid _); [|done]. destruct HD as (k0 & k1 & ? & ? & ->). exists k0, k1. split_and!; [lia|lia|done].
Qed.

Lemma reads_request s rid r s1 :
  storable_request (rid, r) = true -> requests s !! rid = None ->
  exists r' s', reads s read_request
      (put_request rid r (result (deadline_field (spec_deadline (rec_spec r))) s1)) tt s' /\
    request_restored (clock_reads s1) (clock_reads s) rid r r' /\ ticked (s <| requests ::= <[rid := r']> |>) s'.
Proof.
  unfold storable_request. cbn [fst snd]. intros Hr Hn. ranges Hr.
  destruct (reads_deadline s (spec_deadline (rec_spec r)) s1) as (d & s2 & Hd & HD & HT).
  assert (requests s2 !! rid = None) as Hn2 by (destruct HT as (n & _ & ->); done).
  set (r' := restored_request rid r d (result clock_now s2) (result clock_now (exec clock_now s2))).
  exists r', (exec (insert_if_absent rid r') (exec clock_now (exec clock_now s2))). split_and!.
  - unfold read_request, put_request. do 10 rstep.
    eapply reads_bind; [by apply reads_spec|]. eapply reads_bind; [exact Hd|].
    eapply reads_bind; [apply reads_count; [by apply Z.leb_le|done]|].
    eapply reads_last; [apply (reads_repeat _ _ _ restored_attempt)|].
    { intros a Ha. apply reads_attempt. rewrite forallb_forall in H0. by apply H0, list_elem_of_In. }
    do 2 (eapply reads_skip; [apply reads_sd|]). apply reads_sd.
  - by exists d, (result clock_now s2), (result clock_now (exec clock_now s2)).
  - destruct HT as (n & Hle & ->). unfold insert_if_absent. rewrite exec_modify.
    change (requests (exec clock_now _)) with (requests s). rewrite Hn. eexists. split; [|done]. simpl. lia.
Qed.

(** Insertions one after the other. *)
Lemma absent_union {A} (m : gmap Z A) k v l :
  k ∉ l.*1 -> (list_to_map l : gmap Z A) ∪ <[k := v]> m = list_to_map ((k, v) :: l) ∪ m.
Proof.
  intros Hk. simpl. rewrite <- insert_union_r, <- insert_union_l; [done|].
  by apply not_elem_of_list_to_map_1.
Qed.

Lemma Forall2_lookup {A B} (R : Z -> A -> B -> Prop) l l' id :
  Forall2 (fun p q => q.1 = p.1 /\ R p.1 p.2 q.2) l l' ->
  option_Forall2 (R id) ((list_to_map l : gmap Z A) !! id) ((list_to_map l' : gmap Z B) !! id).
Proof.
  induction 1 as [|[k a] [k' b] l l' [Hk HR] _ IH]; simpl in *; [constructor|]. subst.
  rewrite !lookup_insert. case_decide; [|done]. subst. by constructor.
Qed.

Lemma Forall2_keys {A B} (R : Z -> A -> B -> Prop) l l' :
  Forall2 (fun p q => q.1 = p.1 /\ R p.1 p.2 q.2) l l' -> l'.*1 = l.*1.
Proof. induction 1 as [|? ? ? ? [E _] _ IH]; [done|]. rewrite !fmap_cons. by rewrite E, IH. Qed.

Lemma put_requests_cons rid r l s1 :
  result (put_requests ((rid, r) :: l)) s1 =
  put_request rid r (result (deadline_field (spec_deadline (rec_spec r))) s1) ++
  result (put_requests l) (exec (deadline_field (spec_deadline (rec_spec r))) s1).
Proof. simpl. by rewrite !result_bind, result_ret. Qed.

Lemma reads_requests l s s1 :
  NoDup l.*1 -> forallb storable_request l = true ->
  (forall rid, rid ∈ l.*1 -> requests s !! rid = None) ->
  exists rs s', reads s (repeat_do (length l) read_request) (result (put_requests l) s1) tt s' /\
    Forall2 (fun p q => q.1 = p.1 /\ request_restored (clock_reads s1) (clock_reads s) p.1 p.2 q.2) l rs /\
    ticked (s <| requests := list_to_map rs ∪ requests s |>) s'.
Proof.
  revert s s1. induction l as [|[rid r] l IH]; intros s s1 Hnd Hst Hab.
  { exists [], s. split_and!; [apply reads_ret|constructor|]. exists (clock_reads s). split; [done|]. simpl.
    rewrite map_empty_union. by destruct s. }
  simpl in Hnd, Hst. apply NoDup_cons in Hnd as [Hni Hnd]. apply andb_prop in Hst as [Hr Hst].
  assert (requests s !! rid = None) as Hn by (apply Hab; left).
  destruct (reads_request s rid r s1 Hr Hn) as (r' & s2 & R1 & HR & T1).
  destruct (IH s2 (exec (deadline_field (spec_deadline (rec_spec r))) s1)) as (rs & s3 & R2 & HF & T2); [done..| |].
  { intros k Hk. destruct T1 as (n & _ & ->). simpl. rewrite lookup_insert_ne; [|by intros ->]. apply Hab. by right. }
  exists ((rid, r') :: rs), s3. rewrite put_requests_cons. split_and!.
  - cbn [length repeat_do]. eapply reads_bind; [exact R1|exact R2].
  - constructor; [done|]. eapply Forall2_impl; [exact HF|]. intros p q [E HQ]. split; [done|].
    eapply request_restored_le; [| |exact HQ]; [apply ticked_reads, deadline_field_ticked|].
    etrans; [|apply ticked_reads, T1]. done.
  - destruct T1 as (n & Hn1 & ->), T2 as (n' & Hn' & ->). exists n'. simpl in Hn1, Hn'. split; [simpl; lia|].
    rewrite <- absent_union; [done|]. by rewrite (Forall2_keys _ _ _ HF).
Qed.

(** ** Tenants and workers *)

(** A loop whose body reads one record and changes the scheduler. *)
Lemma reads_loop {A} (m : DM unit) (put : A -> list byte) (f : A -> Impl -> Impl) l s :
  (forall x s', x ∈ l -> reads s' m (put x) tt (f x s')) ->
  reads s (repeat_do (length l) m) (concat (put <$> l)) tt (foldl (fun s x => f x s) s l).
Proof.
  revert s. induction l as [|x l IH]; intros s Hm; simpl; [apply reads_ret|].
  eapply reads_bind; [apply Hm; left|]. apply IH. intros y s' Hy. apply Hm. by right.
Qed.

Definition storable_tenant (p : Z * TenantRecord) : bool :=
  u64_range_b p.1 && (ten_tenant p.2 =? p.1) && f64_valid (ten_weight p.2) &&
  i32_range_b (ten_admitted p.2) && i32_range_b (ten_queued p.2) && i32_range_b (ten_running p.2) &&
  i64_range_b (ten_services_consumed p.2) && i64_range_b (ten_service_debt p.2).

Definition tenant_in (p : Z * TenantRecord) (s : Impl) : Impl :=
  match tenants s !! p.1 with Some _ => s | None => s <| tenants ::= <[p.1 := p.2]> |> end.

Lemma reads_tenant s p :
  storable_tenant p = true -> reads s read_tenant (put_tenant p) tt (tenant_in p s).
Proof.
  destruct p as [t x]. unfold storable_tenant, tenant_in. cbn [fst snd]. intros Ht. ranges Ht.
  unfold read_tenant, put_tenant. cbn [fst snd]. repeat rstep.
  assert (ten_tenant x = t) as <- by (by apply Z.eqb_eq). destruct x. apply reads_sd.
Qed.

Lemma fold_tenants l s :
  NoDup l.*1 -> (forall k, k ∈ l.*1 -> tenants s !! k = None) ->
  foldl (fun s p => tenant_in p s) s l = s <| tenants := list_to_map l ∪ tenants s |>.
Proof.
  revert s. induction l as [|[k x] l IH]; intros s Hnd Hab.
  { simpl. rewrite map_empty_union. by destruct s. }
  simpl in Hnd. apply NoDup_cons in Hnd as [Hni Hnd]. rewrite <- absent_union by done.
  cbn [foldl]. unfold tenant_in at 2. cbn [fst snd]. rewrite (Hab k) by left. rewrite IH; [done..|].
  intros j Hj. simpl. rewrite lookup_insert_ne; [|by intros ->]. apply Hab. by right.
Qed.

Definition storable_capability (cap : WorkerCapability) : bool :=
  str_range_b (cap_backend cap) && str_range_b (cap_device_name cap) &&
  i32_range_b (cap_total_capacity_units cap) && i32_range_b (cap_available_capacity_units cap) &&
  i64_range_b (cap_memory_bytes_total cap) && i64_range_b (cap_memory_bytes_available cap) &&
  (Z.of_nat (length (cap_models cap)) <=? 4096) && forallb u64_range_b (cap_models cap) &&
  (Z.of_nat (length (cap_revisions cap)) <=? 4096) && forallb u64_range_b (cap_revisions cap) &&
  (Z.of_nat (length (cap_adapters cap)) <=? 4096) && forallb u64_range_b (cap_adapters cap) &&
  (Z.of_nat (length (cap_phases cap)) <=? 16).

(** What comes back of a capability. *)
Definition restored_capability (cap : WorkerCapability) : WorkerCapability := {|
  cap_accelerator := invalid_id; cap_backend := cap_backend cap;
  cap_device_name := cap_device_name cap;
  cap_compute_capability_major := 0; cap_compute_capability_minor := 0;
  cap_total_capacity_units := cap_total_capacity_units cap;
  cap_available_capacity_units := cap_available_capacity_units cap;
  cap_memory_bytes_total := cap_memory_bytes_total cap;
  cap_memory_bytes_available := cap_memory_bytes_available cap;
  cap_models := cap_models cap; cap_revisions := cap_revisions cap;
  cap_adapters := cap_adapters cap; cap_phases := cap_phases cap;
  cap_batch := default_batch_constraints; cap_locality_tag := EmptyString;
  cap_model_warmth := fzero; cap_state_warmth := fzero
|}.

Lemma reads_ids s l m :
  (Z.of_nat (length l) <=? 4096) = true -> forallb u64_range_b l = true ->
  reads s (read_ids m) (put_list w_id l) l s.
Proof.
  intros Hl Hr. rewrite <- (list_fmap_id l) at 2. apply reads_list; [by apply Z.leb_le|done|].
  intros x Hx. apply reads_rd, decodes_id. rewrite forallb_forall in Hr. by apply Hr, list_elem_of_In.
Qed.

Lemma reads_capability s cap :
  storable_capability cap = true ->
  reads s read_capability (put_capability cap) (restored_capability cap) s.
Proof.
  unfold storable_capability. intros Hc. ranges Hc. unfold read_capability, put_capability.
  do 6 rstep. do 3 (eapply reads_bind; [by apply reads_ids|]).
  unfold put_list. eapply reads_bind; [apply reads_count; [by apply Z.leb_le|done]|].
  eapply reads_last; [apply (reads_repeat _ _ _ id); intros; apply reads_cast|].
  rewrite list_fmap_id. apply reads_ret.
Qed.

Definition storable_worker (p : Z * WorkerRecord) : bool :=
  let reg := wr_registration p.2 in
  u64_range_b (reg_worker reg) && (reg_worker reg =? p.1) && u64_range_b (reg_node reg) &&
  u64_range_b (reg_accelerator reg) && u64_range_b (reg_boot_id reg) &&
  storable_capability (reg_capability reg).

(** What comes back of a worker: its identity, state and capability; it holds no
    reservation and runs nothing. *)
Definition restored_worker (wr : WorkerRecord) : WorkerRecord :=
  let reg := wr_registration wr in
  let cap := restored_capability (reg_capability reg) in
  default_worker
    <| wr_registration := default_registration <| reg_worker := reg_worker reg |>
         <| reg_node := reg_node reg |> <| reg_accelerator := reg_accelerator reg |>
         <| reg_boot_id := reg_boot_id reg |> <| reg_capability := cap |> |>
    <| wr_state := wr_state wr |> <| wr_resource ::= apply_capability cap |>.

Definition worker_in (wr : WorkerRecord) (s : Impl) : Impl :=
  match workers s !! reg_worker (wr_registration wr) with
  | Some _ => s
  | None => s <| workers ::= <[reg_worker (wr_registration wr) := restored_worker wr]> |>
  end.

Lemma reads_worker s p :
  storable_worker p = true -> reads s read_worker (put_worker p.2) tt (worker_in p.2 s).
Proof.
  destruct p as [w wr]. unfold storable_worker, worker_in. cbn [fst snd]. intros Hw. ranges Hw.
  unfold read_worker, put_worker. do 5 rstep.
  eapply reads_last; [by apply reads_capability|]. rstep. apply reads_sd.
Qed.

Lemma fold_workers (l : list (Z * WorkerRecord)) s :
  NoDup l.*1 -> forallb storable_worker l = true -> (forall k, k ∈ l.*1 -> workers s !! k = None) ->
  foldl (fun s wr => worker_in wr s) s l.*2 =
    s <| workers := (list_to_map (prod_map id restored_worker <$> l)) ∪ workers s |>.
Proof.
  revert s. induction l as [|[k wr] l IH]; intros s Hnd Hst Hab.
  { simpl. rewrite map_empty_union. by destruct s. }
  simpl in Hnd, Hst. apply NoDup_cons in Hnd as [Hni Hnd]. apply andb_prop in Hst as [Hw Hst].
  assert (reg_worker (wr_registration wr) = k) as Hk.
  { unfold storable_worker in Hw. ranges Hw. by apply Z.eqb_eq. }
  change (prod_map id restored_worker <$> (k, wr) :: l)
    with ((k, restored_worker wr) :: (prod_map id restored_worker <$> l)).
  rewrite <- absent_union by (by rewrite <- list_fmap_compose).
  cbn [foldl fmap list_fmap]. unfold worker_in at 2. cbn [fst snd].
  rewrite Hk, (Hab k) by left. rewrite IH; [done..|].
  intros j Hj. simpl. rewrite lookup_insert_ne; [|by intros ->]. apply Hab. by right.
Qed.

End Codec.
