(* ===== verification/PersistSpec.v ===== *)
(** * Recovery

    Restoring what a scheduler saved gives back its requests, tenants, workers
    and counters, and rebuilds the ready index. *)

From S2P Require Import Prelude Enums Ids Float64 Types State Admission Queue Batch Dispatch Completion Control Frames Lifecycle Index Accounts Micro Refine Handlers Machine Demo Bytes Envelope EnvelopeSpec Wire Persist PersistCodec.
Open Scope Z_scope.

Section Recovery.
  Context `{Env}.

(** ** One request back in the queue *)

Lemma requeue_id id r s :
  requests s !! id = Some r -> rec_state r = RS_Queued ->
  exec (modify_rec id (fun r => r <| rec_state := RS_Queued |>)) s = s.
Proof.
  intros Hr Hs. unfold modify_rec. rewrite exec_modify.
  transitivity (s <| requests := alter (fun r => r <| rec_state := RS_Queued |>) id (requests s) |>); [done|].
  assert (alter (fun r => r <| rec_state := RS_Queued |>) id (requests s) = requests s) as ->.
  { apply map_eq. intros j. rewrite lookup_alter. case_decide; [|done]. subst. rewrite Hr. simpl.
    f_equal. destruct r. simpl in Hs. by subst. }
  by destruct s.
Qed.

Record requeued (id : Z) (r : RequestRecord) (s s' : Impl) : Prop := {
  rq_index : enqueued id r s s';
  rq_acct : acct s s';
  rq_same : same (fun s => (requests s, workers s, epoch s, global_reserved_units s,
                            global_running_units s, global_tokens s, stats s, ids s, draining s)) s s';
  rq_tenants : forall t x, tenants s !! t = Some x ->
    tenants s' !! t = Some (if of_tenant t r then x <| ten_queued ::= Z.succ |> else x)
}.

(** The index after [enqueue_locked] is the one after [enqueue_request]. *)
Lemma enqueue_locked_index id r s :
  requests s !! id = Some r -> rec_state r = RS_Queued ->
  same_queue (exec (enqueue_request id) s) (exec (enqueue_locked id) s).
Proof.
  intros Hr Hs. unfold enqueue_locked. rewrite exec_bind, (requeue_id id r) by done.
  unfold enqueue_request. rewrite !exec_bind, ?result_gets, ?exec_gets.
  unfold request_of. rewrite Hr. simpl default.
  set (m := if bool_decide _ then _ else _). generalize (exec m (exec clock_now (exec (put_flow (flow_key (rec_spec r))
    ((flow_of s (flow_key (rec_spec r))) <| fl_weight := flow_weight (cfg s) (rec_spec r) |>)) s))).
  intros s3.
  unfold tenant_of, modify_tenant, modify_rec. rewrite !exec_modify. simpl.
  by destruct (tenants s3 !! spec_tenant (rec_spec r)); constructor.
Qed.

(** The tenant's record gains one queued request; the others stay. *)
Lemma tenant_bump_lookup t s t' x :
  tenants s !! t' = Some x ->
  tenants (exec (modify_tenant t (fun x => x <| ten_queued ::= Z.succ |>)) (exec (tenant_of t) s)) !! t' =
    Some (if t =? t' then x <| ten_queued ::= Z.succ |> else x).
Proof.
  intros Hx. unfold tenant_of, modify_tenant. rewrite !exec_modify.
  destruct (Z.eqb_spec t t') as [<-|Hn].
  - rewrite Hx. simpl. rewrite lookup_alter_eq, Hx. done.
  - destruct (tenants s !! t); simpl; rewrite lookup_alter_ne, ?lookup_insert_ne by done; done.
Qed.

Lemma enqueue_locked_requeued id r s :
  requests s !! id = Some r -> rec_request_id r = id -> rec_state r = RS_Queued ->
  requeued id r s (exec (enqueue_locked id) s).
Proof.
  intros Hr Hid Hs. split.
  - eapply absorb_r; [by apply enqueue_enqueued|]. by eapply enqueue_locked_index.
  - change (steps acct s (enqueue_locked id)). unfold enqueue_locked, modify_tenant. mwalk acct_base.
  - unfold enqueue_locked. rewrite exec_bind, (requeue_id id r) by done.
    match goal with |- same ?f s (exec ?m s) => change (steps (same f) s m) end.
    unfold put_flow, modify_tenant, tenant_of, clock_now. mwalk ltac:(unfold same; done).
    unfold same. by destruct (tenants _ !! _).
  - intros t x Hx. unfold enqueue_locked. rewrite exec_bind, (requeue_id id r) by done.
    rewrite !exec_bind, ?result_gets, ?exec_gets. unfold request_of. rewrite Hr. simpl default.
    unfold of_tenant. apply tenant_bump_lookup. by destruct (bool_decide _).
Qed.

(** ** Rebuilding the index *)

(** The state with only the requests [R]. *)
Definition view (R : gmap Z RequestRecord) (s : Impl) : Impl := s <| requests := R |>.

Definition counted (R : gmap Z RequestRecord) (t : Z) (x : TenantRecord) : TenantRecord :=
  x <| ten_queued := mcount (queued_of t) R |>.

(** The index of [s] holds exactly the requests [R]; the rest is as in [s0]. *)
Record rebuilt (s0 : Impl) (R : gmap Z RequestRecord) (s : Impl) : Prop := {
  rb_index : QInv (view R s);
  rb_acct : acct s0 s;
  rb_same : same (fun s => (requests s, workers s, epoch s, global_reserved_units s,
                            global_running_units s, global_tokens s, stats s, ids s, draining s)) s0 s;
  rb_cfg : cfg s = cfg s0;
  rb_tenants : forall t x, tenants s0 !! t = Some x -> tenants s !! t = Some (counted R t x)
}.

Lemma rebuilt_outside s0 R s id r :
  rebuilt s0 R s -> R !! id = None -> rec_request_id r = id -> rec_state r <> RS_Queued ->
  rebuilt s0 (<[id := r]> R) s.
Proof.
  intros [Q A S C T] Hn Hid Hs. split; try done.
  - apply (QInv_outside id r (view R s)); [done|by apply same_loose| |done..].
    intros r0 E. simpl in E. congruence.
  - intros t x Hx. rewrite (T t x Hx). unfold counted.
    by rewrite mcount_insert, (not_queued_of t r Hs), Z.add_0_r by done.
Qed.

Lemma rebuilt_queued s0 R s s' id r :
  rebuilt s0 R s -> R !! id = None -> rec_request_id r = id -> rec_state r = RS_Queued ->
  requeued id r s s' -> rebuilt s0 (<[id := r]> R) s'.
Proof.
  intros [Q A S C T] Hn Hid Hs [E A' S' T']. split.
  - apply (QInv_enqueue id r (view R s)); [done|by destruct E| |done..].
    intros r0 E'. simpl in E'. congruence.
  - by etrans.
  - by etrans.
  - by rewrite (eq_cfg _ _ _ _ E).
  - intros t x Hx. rewrite (T' _ _ (T t x Hx)). unfold counted. assert (queued_of t r = of_tenant t r) as Et.
    { unfold queued_of, is_queued. by rewrite bool_decide_eq_true_2. }
    rewrite mcount_insert, Et by done. destruct (of_tenant t r); simpl; by rewrite ?Z.add_0_r.
Qed.

Lemma rebuild_loop s0 l s R :
  rebuilt s0 R s -> requests s = requests s0 -> NoDup l.*1 ->
  (forall id r, (id, r) ∈ l -> R !! id = None /\ requests s0 !! id = Some r /\
     rec_request_id r = id /\ rec_state r <> RS_Admitted) ->
  rebuilt s0 (list_to_map l ∪ R)
    (exec (foreach l (fun p => when (requeues p.2) (enqueue_locked (rec_request_id p.2)))) s).
Proof.
  revert s R. induction l as [|[id r] l IH]; intros s R HR Es Hnd Hl.
  { simpl. by rewrite map_empty_union. }
  simpl in Hnd. apply NoDup_cons in Hnd as [Hni Hnd]. cbn [foreach]. rewrite exec_bind, exec_when.
  destruct (Hl id r) as (Hn & Hr & Hid & Ha); [left|]. cbn [snd]. rewrite <- absent_union by done.
  assert (forall id' r', (id', r') ∈ l -> <[id := r]> R !! id' = None /\ requests s0 !! id' = Some r' /\
     rec_request_id r' = id' /\ rec_state r' <> RS_Admitted) as Hl'.
  { intros id' r' Hin. destruct (Hl id' r') as (Hn' & ?); [by right|]. split; [|done].
    rewrite lookup_insert_ne; [done|]. intros ->. apply Hni. by apply (list_elem_of_fmap_2 fst) in Hin. }
  unfold requeues. destruct (decide (rec_state r = RS_Queued)) as [Hs|Hs].
  - rewrite Hs, Hid. assert (requests s !! id = Some r) as Hr' by (by rewrite Es).
    pose proof (enqueue_locked_requeued id r s Hr' Hid Hs) as HQ. apply IH; [|..|done|done].
    + by eapply rebuilt_queued.
    + pose proof (rq_same _ _ _ _ HQ) as [= E _]. by rewrite E.
  - destruct (rec_state r) eqn:Hst; try done; (apply IH; [|done..]);
      (apply rebuilt_outside; [done..|]); by rewrite Hst.
Qed.

Lemma rebuild_rebuilt s :
  queued s = ∅ -> compat s = ∅ -> flows s = ∅ -> active_flows s = ∅ ->
  (forall id r, requests s !! id = Some r -> rec_request_id r = id /\ rec_state r <> RS_Admitted) ->
  rebuilt (s <| global_queued := 0 |> <| tenants ::= fmap (fun t => t <| ten_queued := 0 |>) |>)
    (requests s) (exec rebuild_index s).
Proof.
  intros Hq Hc Hf Ha Hr. unfold rebuild_index. rewrite exec_bind, exec_modify, exec_bind, result_gets, exec_gets.
  set (s0 := s <| global_queued := 0 |> <| tenants ::= _ |>).
  rewrite <- (map_union_empty (requests s)), <- (list_to_map_to_list (requests s)) at 1.
  change (requests s0) with (requests s). apply rebuild_loop; [|done|apply NoDup_fst_map_to_list|].
  2:{ intros id r Hin%elem_of_map_to_list. split; [apply lookup_empty|]. split; [done|]. by apply Hr. }
  assert (forall t, tenant_queued s0 t = 0) as HT.
  { intros t. unfold tenant_queued. simpl. rewrite lookup_fmap. by destruct (tenants s !! t). }
  split; [|done..|].
  - split; simpl.
    + intros id r Hx. by rewrite lookup_empty in Hx.
    + intros id. rewrite Hq. split; [set_solver|]. intros (r & Hx & _). by rewrite lookup_empty in Hx.
    + by rewrite mcount_empty.
    + intros k id. rewrite Hc, lookup_empty. split; [set_solver|].
      intros (r & Hx & _). by rewrite lookup_empty in Hx.
    + intros id r Hx. by rewrite lookup_empty in Hx.
    + intros k Hk. unfold flow_of in Hk. simpl in Hk. by rewrite Hf, lookup_empty in Hk.
    + intros t. rewrite mcount_empty. specialize (HT t). unfold tenant_queued in *. simpl in *. lia.
  - intros t x Hx. rewrite Hx. f_equal. unfold counted. rewrite mcount_empty.
    simpl in Hx. rewrite lookup_fmap in Hx. destruct (tenants s !! t); simplify_eq/=. done.
Qed.

(** ** The whole payload *)

Definition storable_stats (st : SchedulerStats) : bool :=
  u64_range_b (st_requests_submitted st) && u64_range_b (st_requests_admitted st) &&
  u64_range_b (st_requests_completed st) && u64_range_b (st_requests_cancelled st) &&
  u64_range_b (st_requests_failed st) && u64_range_b (st_requests_expired st) &&
  u64_range_b (st_attempts_created st) && u64_range_b (st_dispatches st) &&
  u64_range_b (st_retries st).

Definition storable (s : Impl) : bool :=
  u64_range_b (epoch s) && i64_range_b (global_admitted s) && i64_range_b (global_queued s) &&
  i64_range_b (global_reserved_units s) && i64_range_b (global_running_units s) &&
  i64_range_b (global_tokens s) && storable_stats (stats s) &&
  (Z.of_nat (length (map_to_list (requests s))) <=? 10000000) &&
  (Z.of_nat (length (map_to_list (tenants s))) <=? 100000) &&
  (Z.of_nat (length (map_to_list (workers s))) <=? 100000) &&
  forallb storable_request (map_to_list (requests s)) &&
  forallb storable_tenant (map_to_list (tenants s)) &&
  forallb storable_worker (map_to_list (workers s)).

(** The nine counters of the statistics that are stored. *)
Definition saved_stats (st st0 : SchedulerStats) : SchedulerStats :=
  st0 <| st_requests_submitted := st_requests_submitted st |>
      <| st_requests_admitted := st_requests_admitted st |>
      <| st_requests_completed := st_requests_completed st |>
      <| st_requests_cancelled := st_requests_cancelled st |>
      <| st_requests_failed := st_requests_failed st |>
      <| st_requests_expired := st_requests_expired st |>
      <| st_attempts_created := st_attempts_created st |>
      <| st_dispatches := st_dispatches st |> <| st_retries := st_retries st |>.

(** The scheduler after the header of [s] is read by [s0]. *)
Definition header_state (s s0 : Impl) : Impl :=
  (clear_state s0) <| epoch := epoch s |> <| global_admitted := global_admitted s |>
    <| global_queued := global_queued s |> <| global_reserved_units := global_reserved_units s |>
    <| global_running_units := global_running_units s |> <| global_tokens := global_tokens s |>
    <| stats ::= saved_stats (stats s) |>.

Lemma reads_header s s0 :
  storable s = true -> reads s0 read_header (put_header s) tt (header_state s s0).
Proof.
  unfold storable, storable_stats. intros Hs. ranges Hs.
  repeat match goal with H : _ && _ = true |- _ => apply andb_prop in H as [? ?] end.
  unfold read_header, put_header.
  do 2 (eapply reads_bind; [apply reads_rd, decodes_u32; done|]). rstep.
  do 2 (eapply reads_skip; [apply reads_ret|]).
  eapply reads_skip; [apply reads_sd|]. rstep.
  eapply reads_skip; [apply reads_sd|]. do 5 rstep.
  eapply reads_skip; [apply reads_sd|]. do 9 rstep. apply reads_sd.
Qed.

Lemma serialized s :
  result serialize_locked s =
  put_header s ++ w_u64 (Z.of_nat (length (map_to_list (requests s)))) ++
  result (put_requests (map_to_list (requests s))) s ++
  w_u64 (Z.of_nat (length (map_to_list (tenants s)))) ++ concat (put_tenant <$> map_to_list (tenants s)) ++
  w_u64 (Z.of_nat (length (map_to_list (workers s)).*2)) ++ concat (put_worker <$> (map_to_list (workers s)).*2).
Proof.
  unfold serialize_locked. rewrite result_bind, result_gets, exec_gets, result_bind, result_ret.
  unfold put_list. by rewrite <- !app_assoc.
Qed.

(** The scheduler when everything is read and before the index is rebuilt. *)
Definition loaded (s s0 : Impl) (R : gmap Z RequestRecord) : Impl :=
  (header_state s s0) <| requests := R |> <| tenants := tenants s |>
    <| workers := restored_worker <$> workers s |>.

Lemma restored_workers s :
  list_to_map (prod_map id restored_worker <$> map_to_list (workers s)) = restored_worker <$> workers s.
Proof. by rewrite list_to_map_fmap, list_to_map_to_list. Qed.

Lemma ticked_tables h R T W n :
  (clock_reads h <= n)%nat ->
  ticked (h <| requests := R |> <| tenants := T |> <| workers := W |>)
    (h <| requests := R |> <| clock_reads := n |> <| tenants := T |> <| workers := W |>).
Proof. intros Hn. exists n. split; [done|]. destruct h. reflexivity. Qed.

(** The three tables, from the state after the header. *)
Lemma tables_loaded s s0 rs n :
  forallb storable_worker (map_to_list (workers s)) = true -> (clock_reads s0 <= n)%nat ->
  let s2 := (header_state s s0) <| requests := list_to_map rs ∪ requests (header_state s s0) |>
              <| clock_reads := n |> in
  ticked (loaded s s0 (list_to_map rs))
    (foldl (fun s wr => worker_in wr s) (foldl (fun s p => tenant_in p s) s2 (map_to_list (tenants s)))
       (map_to_list (workers s)).*2).
Proof.
  intros Hw Hn s2. rewrite fold_tenants, fold_workers;
    [|apply NoDup_fst_map_to_list|done|by intros; apply lookup_empty
     |apply NoDup_fst_map_to_list|by intros; apply lookup_empty].
  rewrite restored_workers, list_to_map_to_list.
  change (tenants s2) with (∅ : gmap Z TenantRecord).
  change (workers (s2 <| tenants := tenants s ∪ ∅ |>)) with (∅ : gmap Z WorkerRecord).
  subst s2. change (requests (header_state s s0)) with (∅ : gmap Z RequestRecord).
  rewrite !map_union_empty. by apply ticked_tables.
Qed.

Lemma payload_read s s0 :
  storable s = true ->
  exists R m, (forall id, option_Forall2 (request_restored (clock_reads s) (clock_reads s0) id) (requests s !! id) (R !! id)) /\
    ticked (loaded s s0 R) m /\
    reads s0 read_state (result serialize_locked s) tt (exec rebuild_index m).
Proof.
  intros Hs. pose proof (reads_header s s0 Hs) as RH. unfold storable in Hs. ranges Hs.
  destruct (reads_requests (map_to_list (requests s)) (header_state s s0) s) as (rs & s2 & R2 & HF & n & Hn & T2);
    [apply NoDup_fst_map_to_list|done|by intros; apply lookup_empty|].
  exists (list_to_map rs). eexists. split_and!.
  - intros id. rewrite <- (list_to_map_to_list (requests s)). by apply Forall2_lookup.
  - by apply (tables_loaded s s0 rs n).
  - rewrite serialized. unfold read_state. rewrite T2 in R2. eapply reads_bind; [exact RH|].
    eapply reads_bind; [apply reads_count; [by apply Z.leb_le|done]|]. eapply reads_bind; [exact R2|].
    eapply reads_bind; [apply reads_count; [by apply Z.leb_le|done]|].
    eapply reads_bind; [apply (reads_loop _ _ tenant_in)|].
    { intros p s' Hp. apply reads_tenant. rewrite forallb_forall in H1. by apply H1, list_elem_of_In. }
    eapply reads_bind; [apply reads_count; [rewrite length_fmap; by apply Z.leb_le|done]|].
    eapply reads_last; [apply (reads_loop _ _ worker_in)|].
    { intros wr s' ([w wr'] & -> & Hp)%list_elem_of_fmap. apply (reads_worker s' (w, wr')).
      rewrite forallb_forall in H0. by apply H0, list_elem_of_In. }
    eapply reads_skip; [apply reads_need_ok|]. apply reads_do.
Qed.

(** ** What a recovered scheduler has *)

Record restored (s s0 s1 : Impl) : Prop := {
  rd_epoch : epoch s1 = epoch s;
  rd_admitted : global_admitted s1 = global_admitted s;
  rd_queued : global_queued s1 = global_queued s;
  rd_reserved : global_reserved_units s1 = global_reserved_units s;
  rd_running : global_running_units s1 = global_running_units s;
  rd_tokens : global_tokens s1 = global_tokens s;
  rd_stats : stats s1 = saved_stats (stats s) (stats s0);
  rd_requests : forall id, option_Forall2 (request_restored (clock_reads s) (clock_reads s0) id)
    (requests s !! id) (requests s1 !! id);
  rd_tenants : forall t x, tenants s !! t = Some x -> tenants s1 !! t = Some (counted (requests s1) t x);
  rd_workers : workers s1 = restored_worker <$> workers s;
  rd_index : QInv s1;
  rd_ids : ids s1 = ids s0;
  rd_draining : draining s1 = draining s0
}.

(** Counting over two maps that agree pointwise. *)
Lemma mcount_rel {A B} (R : Z -> A -> B -> Prop) (P : A -> bool) (Q : B -> bool) m m' :
  (forall id, option_Forall2 (R id) (m !! id) (m' !! id)) ->
  (forall id x y, m !! id = Some x -> R id x y -> P x = Q y) -> mcount P m = mcount Q m'.
Proof.
  revert m'. induction m as [|i x m Hi IH] using map_ind; intros m' HR HP.
  - assert (m' = ∅) as ->; [|by rewrite !mcount_empty]. apply map_empty. intros j.
    specialize (HR j). rewrite lookup_empty in HR. by inversion HR.
  - pose proof (HR i) as Hx. rewrite lookup_insert_eq in Hx. inversion Hx as [? y Hxy E1 E2|]; subst.
    rewrite mcount_insert, (mcount_delete Q m' i y) by done.
    rewrite (HP i x y) by (done || apply lookup_insert_eq). f_equal. apply IH.
    + intros j. specialize (HR j). destruct (decide (i = j)) as [<-|].
      * rewrite Hi, lookup_delete_eq. constructor.
      * by rewrite lookup_insert_ne in HR by done; rewrite lookup_delete_ne.
    + intros j x' y' Hj. apply HP. rewrite lookup_insert_ne; [done|]. congruence.
Qed.

Lemma restored_live n0 n1 id r r' : request_restored n0 n1 id r r' ->
  rec_state r' = rec_state r /\ spec_tenant (rec_spec r') = spec_tenant (rec_spec r) /\
  rec_request_id r' = id /\ rec_current_attempt r' = rec_current_attempt r /\
  att_attempt_id <$> rec_history r' = att_attempt_id <$> rec_history r /\
  rec_cancellation_committed r' = rec_cancellation_committed r.
Proof.
  intros (d & t1 & t2 & -> & _). split_and!; try done. simpl. rewrite <- list_fmap_compose. done.
Qed.

Lemma loaded_fields s s0 R m :
  ticked (loaded s s0 R) m ->
  (requests m = R /\ workers m = restored_worker <$> workers s /\ tenants m = tenants s /\
   cfg m = cfg s0 /\ epoch m = epoch s /\ global_admitted m = global_admitted s) /\
  (global_reserved_units m = global_reserved_units s /\
   global_running_units m = global_running_units s /\ global_tokens m = global_tokens s /\
   stats m = saved_stats (stats s) (stats s0) /\ ids m = ids s0 /\ draining m = draining s0) /\
  queued m = ∅ /\ compat m = ∅ /\ flows m = ∅ /\ active_flows m = ∅.
Proof. intros (n & _ & ->). by split_and!. Qed.

Lemma restored_keys n0 n1 s (R : gmap Z RequestRecord) :
  Inv s -> (forall id, option_Forall2 (request_restored n0 n1 id) (requests s !! id) (R !! id)) ->
  forall id r', R !! id = Some r' -> rec_request_id r' = id /\ rec_state r' <> RS_Admitted.
Proof.
  intros I HR id r' Hr'. specialize (HR id). rewrite Hr' in HR. inversion HR as [r ? Hrr E|]; subst.
  destruct (restored_live _ _ _ _ _ Hrr) as (-> & _ & -> & _). split; [done|].
  intros Ha. symmetry in E. pose proof (ro_resting _ _ (i_records _ I _ _ E)) as Hres. by rewrite Ha in Hres.
Qed.

Lemma recovered_restored s s0 :
  Inv s -> storable s = true ->
  exists s1, deserialize_locked (result serialize_locked s) s0 = (Done tt, s1) /\
    restored s s0 s1 /\ cfg s1 = cfg s0 /\ (forall t, tenant_admitted s1 t = tenant_admitted s t).
Proof.
  intros I Hs. destruct (payload_read s s0 Hs) as (R & m & HR & Hm & Rd).
  exists (exec rebuild_index m). split.
  { unfold deserialize_locked. specialize (Rd []). rewrite app_nil_r in Rd. by rewrite Rd. }
  destruct (loaded_fields _ _ _ _ Hm) as ((<- & Ew & Et & Ec & Ee & Ea) & (Eu & Ev & Ek & Est & Eid & Edr) & Fq & Fc & Ff & Fa).
  pose proof (restored_keys _ _ s _ I HR) as HK.
  destruct (rebuild_rebuilt m Fq Fc Ff Fa HK) as [BQ BA BS BC BT]. clear HK Rd Hm Fq Fc Ff Fa.
  pose proof BS as [= E1 E2 E3 E4 E5 E6 E7 E8 E9].
  revert BQ BA BC BT E1 E2 E3 E4 E5 E6 E7 E8 E9. clear BS. generalize (exec rebuild_index m).
  intros s1 BQ BA BC BT E1 E2 E3 E4 E5 E6 E7 E8 E9. rewrite <- E1 in HR, BQ, BT.
  assert (QInv s1) as Q1 by (by destruct s1). split; [|split].
  - split; try congruence; try done.
    + rewrite (ac_global _ _ BA). done.
    + rewrite (q_count _ Q1), (q_count _ (i_queue _ I)). symmetry.
      eapply mcount_rel; [exact HR|]. intros id r r' _ Hrr. unfold is_queued.
      by destruct (restored_live _ _ _ _ _ Hrr) as (-> & _).
    + intros t x Hx. rewrite (BT t (x <| ten_queued := 0 |>)); [done|].
      simpl. by rewrite lookup_fmap, Et, Hx.
  - by rewrite BC.
  - intros t. rewrite (ac_tenant _ _ BA). unfold tenant_admitted. simpl. rewrite lookup_fmap, Et.
    by destruct (tenants s !! t).
Qed.

(** No worker has anything in flight. *)
Lemma restored_no_flight s s0 s1 w id : restored s s0 s1 -> ~ flight s1 w id.
Proof.
  intros RS (wr & Hw & [a Hi]). rewrite (rd_workers _ _ _ RS), lookup_fmap in Hw.
  destruct (workers s !! w); simplify_eq/=.
Qed.

Lemma restored_Inv s s0 s1 :
  Inv s -> restored s s0 s1 -> cfg s1 = cfg s -> (forall t, tenant_admitted s1 t = tenant_admitted s t) ->
  Inv s1.
Proof.
  intros [_ A L _ R] RS HC HT. pose proof (rd_requests _ _ _ RS) as HR.
  pose proof (fun w id => restored_no_flight s s0 s1 w id RS) as HF. split.
  - apply RS.
  - split; [rewrite (rd_admitted _ _ _ RS), (a_global _ A)|intros t; rewrite HT, (a_tenant _ A)];
      (eapply mcount_rel; [exact HR|]); intros id r r' _ Hrr; unfold live_of, live, of_tenant;
      destruct (restored_live _ _ _ _ _ Hrr) as (E1 & E2 & _); by rewrite E1, ?E2.
  - split; [rewrite (rd_admitted _ _ _ RS)|intros t; rewrite HT]; rewrite HC; apply L.
  - split; intros; by edestruct HF.
  - intros id r' Hr'. specialize (HR id). rewrite Hr' in HR. inversion HR as [r ? Hrr E|]; subst.
    symmetry in E. destruct (R _ _ E) as [R1 R2 R3 R4].
    destruct (restored_live _ _ _ _ _ Hrr) as (Es & _ & _ & Ea & Eh & Ecc).
    rewrite HC. split; unfold live in *; rewrite ?Es, ?Ea, ?Eh, ?Ecc; try done.
    pose proof (f_equal length Eh) as El. rewrite !length_fmap in El. by rewrite El.
Qed.

End Recovery.


(** A scheduler that persists, with a worker and a queued request. *)
Definition saving_cfg : SchedulerConfig := default_scheduler_config <| cfg_persist_recovery := true |>.
Definition demo_saved : Impl :=
  exec (run_op (OpSubmit (demo_spec 3) (Some 100)))
    (exec (run_op (OpRegister demo_reg)) (init_impl saving_cfg None 5)).

Lemma demo_saved_Inv : Inv demo_saved.
Proof.
  apply (reachable_Inv saving_cfg None 5).
  eapply reach_step; [eapply reach_step; [apply reach_init|]|].
  - exact (step_op _ (OpRegister demo_reg) I).
  - apply (step_op _ (OpSubmit (demo_spec 3) (Some 100))). by vm_compute.
Qed.

Lemma demo_queued_Inv : Inv demo_queued.
Proof. exact (reachable_Inv _ _ _ _ demo_queued_reachable). Qed.

Lemma demo_queued_storable : storable demo_queued = true.
Proof. vm_compute. reflexivity. Qed.


(** ** Through the file *)

Lemma persist_enabled `{Env} io path fs s :
  cfg_persist_recovery (cfg s) = true ->
  result (do_persist io path fs) s = write_persistence_file io path (result serialize_locked s) fs.
Proof.
  intros Hp. unfold do_persist. rewrite result_bind, result_gets, exec_gets, Hp. simpl.
  by rewrite result_bind, result_ret.
Qed.

Lemma restored_mode `{Env} s s0 s1 n n' :
  restored s (s0 <| recovery_mode := n |>) s1 -> restored s s0 (s1 <| recovery_mode := n' |>).
Proof. intros [? ? ? ? ? ? ? ? ? ? Q ? ?]. split; try done. by apply (QInv_same s1). Qed.

Lemma recover_runs `{Env} rc path fs payload s0 :
  read_persistence_file rc path fs = Ok payload ->
  do_recover rc path fs s0 =
    let '(o, s1) := deserialize_locked payload (s0 <| recovery_mode := 1 |>) in
    (o, s1 <| recovery_mode := 0 |>).
Proof.
  intros E. unfold do_recover. rewrite E. rewrite !run_bind. cbn [fst snd modify].
  by destruct (deserialize_locked payload _).
Qed.

(** Restart.  A scheduler that persisted its state with success is recovered
    by another one that reads the whole file: it gets the saved state back and
    leaves recovery mode. *)
Theorem persisted_scheduler_is_recovered `{Env} s s0 io rc path fs fs' :
  Inv s -> storable s = true -> cfg_persist_recovery (cfg s) = true ->
  bsize (result serialize_locked s) < 2 ^ 63 - 24 ->
  result (do_persist io path fs) s = (Ok tt, fs') ->
  rc_open rc = true -> rc_tell rc = true -> (24 + length (result serialize_locked s) <= rc_read rc)%nat ->
  exists s1, do_recover rc path fs' s0 = (Done tt, s1) /\ restored s s0 s1 /\ recovery_mode s1 = 0.
Proof.
  intros I Hs Hp Hb Hw Ho Ht Hr. rewrite persist_enabled in Hw by done.
  destruct (write_reads io rc path (result serialize_locked s) fs Hb Ho Ht Hr) as [Hok _].
  unfold result at 1, exec in Hok. rewrite Hw in Hok. specialize (Hok eq_refl). cbn [snd] in Hok.
  destruct (recovered_restored s (s0 <| recovery_mode := 1 |>) I Hs) as (s1 & E & R & _ & _).
  exists (s1 <| recovery_mode := 0 |>). rewrite (recover_runs _ _ _ _ _ Hok), E.
  split_and!; [done| |done]. by apply (restored_mode s s0 s1 1 0).
Qed.

Definition demo_writes : WriteCalls := mkWriteCalls true 4096 true 0 true.
Definition demo_reads : ReadCalls := mkReadCalls true true 4096.

Lemma persisted_scheduler_is_recovered_witness :
  exists s1, do_recover demo_reads "state.bin" (result (do_persist demo_writes "state.bin" ∅) demo_saved).2
      demo_init = (Done tt, s1) /\ restored demo_saved demo_init s1 /\ recovery_mode s1 = 0.
Proof.
  assert ((result (do_persist demo_writes "state.bin" ∅) demo_saved).1 = Ok tt) as Hok by (vm_compute; reflexivity).
  assert (length (result serialize_locked demo_saved) < 2000)%nat as Hl by (apply Nat.ltb_lt; vm_compute; reflexivity).
  apply (persisted_scheduler_is_recovered demo_saved demo_init demo_writes demo_reads "state.bin" ∅).
  - exact demo_saved_Inv.
  - vm_compute. reflexivity.
  - vm_compute. reflexivity.
  - unfold bsize. lia.
  - rewrite <- Hok. apply surjective_pairing.
  - reflexivity.
  - reflexivity.
  - cbn [demo_reads rc_read]. lia.
Defined.

(** A damaged file is refused.  When one byte of a saved state file is
    overwritten by another value, recovery from it reports corruption and the
    scheduler is as it was. *)
Theorem damaged_state_file_is_refused `{Env} payload s0 rc path fs i b b' :
  bsize payload < 2 ^ 63 - 24 -> rc_open rc = true -> rc_tell rc = true -> (24 + length payload <= rc_read rc)%nat ->
  make_frame payload !! i = Some b -> b' <> b ->
  exists e, do_recover rc path (<[path := <[i := b']> (make_frame payload)]> fs) s0 = (Failed e, s0) /\
    err_code e = EC_Corruption.
Proof.
  intros Hb Ho Ht Hr Hi Hne. destruct (corrupted_frame payload i b b' Hb Hi Hne) as (e & E & He).
  exists e. split; [|done]. unfold do_recover, read_persistence_file. rewrite lookup_insert_eq, Ho, Ht.
  pose proof (frame_size payload) as HS. pose proof (bsize_nonneg payload).
  rewrite (proj2 (Z.leb_gt _ _)), take_ge, Z.eqb_refl by (unfold bsize in *; rewrite length_insert; lia).
  simpl. by rewrite E.
Qed.

Lemma damaged_state_file_is_refused_witness :
  exists e, do_recover demo_reads "state.bin" (<["state.bin" := <[16%nat := x00]> (make_frame [x01; x02])]> ∅)
      demo_init = (Failed e, demo_init) /\ err_code e = EC_Corruption.
Proof.
  apply (damaged_state_file_is_refused [x01; x02] demo_init demo_reads "state.bin" ∅ 16 x01 x00).
  - unfold bsize. simpl. lia.
  - reflexivity.
  - reflexivity.
  - cbn [demo_reads rc_read length]. lia.
  - vm_compute. reflexivity.
  - done.
Defined.
