(* ===== verification/Public.v ===== *)
(** * The public operations of the scheduler

    [Machine] has the operations that work on the scheduler alone; here are all
    the operations of [Scheduler] that change its state, with [persist] and
    [recover] ([do_persist], [do_recover] of [src/scheduler.cpp]), which also
    read and write files.  A recovery is a single step from one state of the
    lifecycle machine to another: it does not move requests, it replaces
    them. *)

From S2P Require Import Prelude Enums Ids Float64 Types State Admission Queue Batch Dispatch Completion Control Frames Lifecycle Index Accounts Micro Refine Seed BatchSpec Handlers Machine Demo Safety Bytes Envelope EnvelopeSpec Wire Persist PersistCodec PersistSpec.
Open Scope Z_scope.

Inductive PublicOp :=
| Calls (o : Op)
| Persists (io : WriteCalls) (path : string) (fs : FS)
| Recovers (rc : ReadCalls) (path : string) (fs : FS).

Section Public.
  Context `{Env}.

Definition run_public (a : PublicOp) : M unit :=
  match a with
  | Calls o => run_op o
  | Persists io path fs => do_persist io path fs ;; mret tt
  | Recovers rc path fs => do_recover rc path fs ;; mret tt
  end.

(** The payload was saved by a scheduler in a good state with the configuration of
    [s]. *)
Definition saved_state (s : Impl) (payload : list byte) : Prop :=
  exists s0, Inv s0 /\ storable s0 = true /\ cfg s0 = cfg s /\ payload = result serialize_locked s0.

(** What the scheduler expects of its callers.  A file that cannot be read, or that
    the envelope refuses, may be given to [recover]; one that is read holds what
    a scheduler saved. *)
Definition public_guard (s : Impl) (a : PublicOp) : Prop :=
  match a with
  | Calls o => guard s o
  | Persists _ _ _ => True
  | Recovers rc path fs => forall payload, read_persistence_file rc path fs = Ok payload -> saved_state s payload
  end.

Inductive public_step : Impl -> PublicOp -> Impl -> Prop :=
| public_op s a : public_guard s a -> public_step s a (exec (run_public a) s).

(** The states of a scheduler that is also saved and restored. *)
Inductive public_reachable (c : SchedulerConfig) (ep : option Z) (salt : Z) : Impl -> Prop :=
| public_init : public_reachable c ep salt (init_impl c ep salt)
| public_next s a s' : public_reachable c ep salt s -> public_step s a s' -> public_reachable c ep salt s'.

(** ** Saving *)

Lemma persist_ticked io path fs s : ticked s (exec (do_persist io path fs) s).
Proof.
  unfold do_persist. rewrite exec_bind, result_gets, exec_gets. destruct (negb _); [apply ticked_refl|].
  rewrite exec_bind, exec_ret. apply serialize_ticked.
Qed.

Lemma ticked_micro s s' : ticked s s' -> micro s s'.
Proof. intros (n & _ & ->). by apply mi_frame; [|constructor..]. Qed.

(** ** Restoring *)

(** What is left of [s] after a recovery. *)
Definition recovers (rc : ReadCalls) (path : string) (fs : FS) (s s' : Impl) : Prop :=
  match read_persistence_file rc path fs with
  | Err _ => s' = s
  | Ok payload => exists s0, payload = result serialize_locked s0 /\ restored s0 s s'
  end.

Lemma recover_recovers rc path fs s :
  public_guard s (Recovers rc path fs) ->
  recovers rc path fs s (exec (do_recover rc path fs) s) /\
  (Inv s -> Inv (exec (do_recover rc path fs) s)).
Proof.
  intros G. cbn [public_guard] in G. unfold recovers. destruct (read_persistence_file rc path fs) as [payload|e] eqn:E.
  2:{ unfold do_recover. by rewrite E. }
  destruct (G payload eq_refl) as (s0 & I0 & HS & HC & ->).
  destruct (recovered_restored s0 (s <| recovery_mode := 1 |>) I0 HS) as (s1 & Ed & R & EC & ET).
  assert (exec (do_recover rc path fs) s = s1 <| recovery_mode := 0 |>) as ->.
  { unfold exec. by rewrite (recover_runs _ _ _ _ _ E), Ed. }
  pose proof (restored_mode s0 s s1 1 0 R) as R'. split; [by exists s0|]. intros _.
  eapply restored_Inv; [exact I0|exact R'| |exact ET]. simpl. rewrite EC. done.
Qed.

(** ** All public operations *)

Lemma public_Inv s a s' : Inv s -> public_step s a s' -> Inv s'.
Proof.
  intros I Hs. destruct Hs as [s a G]. destruct a; cbn [run_public public_guard] in *; rewrite ?exec_unit.
  - eapply Inv_rtc; [by apply op_refines|done].
  - eapply Inv_rtc; [|done]. apply rtc_once, ticked_micro, persist_ticked.
  - by apply (recover_recovers rc path fs s G).
Qed.

Lemma public_reachable_Inv c ep salt s : public_reachable c ep salt s -> Inv s.
Proof. induction 1 as [|s a s' _ IH Hs]; [apply init_Inv|]. by eapply public_Inv. Qed.

End Public.

(** C1: Refinement.  In every state a scheduler can get into, saved and restored
    any number of times, the invariant holds, and every public operation, used
    as [public_guard] says, establishes it again.  The operations on the
    scheduler are sequences of steps of the lifecycle machine [micro]; saving
    changes nothing but the number of clock readings; a recovery leaves the
    state as it is when the file cannot be read, and otherwise restores the
    saved state.  (The guard: ids are not submitted twice, reports come from
    the worker that has the attempt, and a file that the envelope accepts was
    written by a scheduler of this configuration.) *)
Theorem public_operations_implement_lifecycle `{Env} c ep salt s a s' :
  public_reachable c ep salt s -> public_step s a s' ->
  Inv s /\ Inv s' /\
  match a with
  | Calls _ => rtc micro s s'
  | Persists _ _ _ => ticked s s'
  | Recovers rc path fs => recovers rc path fs s s'
  end.
Proof.
  intros Hr Hs. pose proof (public_reachable_Inv _ _ _ _ Hr) as I. split; [done|]. split; [by eapply public_Inv|].
  destruct Hs as [s a G]. destruct a; cbn [run_public public_guard] in *; rewrite ?exec_unit.
  - by apply op_refines.
  - apply persist_ticked.
  - by apply (recover_recovers rc path fs s G).
Qed.

(** A scheduler saves its state and restores it from the file. *)
Definition demo_persisted : FS := (result (do_persist demo_writes "state.bin" ∅) demo_saved).2.
Definition demo_recovered : Impl := exec (run_public (Recovers demo_reads "state.bin" demo_persisted)) demo_saved.

Lemma demo_saved_public : public_reachable saving_cfg None 5 demo_saved.
Proof.
  eapply public_next; [eapply public_next; [apply public_init|]|].
  - exact (public_op _ (Calls (OpRegister demo_reg)) I).
  - apply (public_op _ (Calls (OpSubmit (demo_spec 3) (Some 100)))). by vm_compute.
Qed.

Lemma Ok_inj {A} (x y : A) : Ok x = Ok y -> x = y.
Proof. by intros [=]. Qed.

Lemma demo_persisted_reads :
  read_persistence_file demo_reads "state.bin" demo_persisted = Ok (result serialize_locked demo_saved).
Proof. vm_compute. reflexivity. Qed.

Lemma demo_recovers_guard : public_guard demo_saved (Recovers demo_reads "state.bin" demo_persisted).
Proof.
  intros payload E. exists demo_saved. split; [exact demo_saved_Inv|]. split; [vm_compute; reflexivity|]. split; [reflexivity|].
  exact (Ok_inj _ _ (eq_trans (eq_sym E) demo_persisted_reads)).
Qed.

Lemma public_operations_implement_lifecycle_witness :
  Inv demo_saved /\ Inv demo_recovered /\ recovers demo_reads "state.bin" demo_persisted demo_saved demo_recovered.
Proof.
  exact (public_operations_implement_lifecycle saving_cfg None 5 demo_saved (Recovers demo_reads "state.bin" demo_persisted)
    demo_recovered demo_saved_public
    (public_op demo_saved (Recovers demo_reads "state.bin" demo_persisted) demo_recovers_guard)).
Defined.
