(* ===== verification/Net.v ===== *)
(** * Framed connections

    [src/net.cpp]: the loops [send_all] and [recv_all] around the socket calls,
    the length-prefixed frames of [FramedConnection::send] and [recv], and the
    descriptors that [listen], [accept], [connect], [close] and [shutdown]
    open and close (POSIX branches).

    The socket calls are a parameter: [Socket] gives their results, and
    [StreamSocket] states what a connected stream socket promises about the
    bytes. *)

From S2P Require Import Prelude Bytes Envelope.
Open Scope Z_scope.

Definition k_max_frame : Z := 16 * 1024 * 1024.

(** [::send] returns the number of bytes it took, [::recv] the number of bytes
    it stored, with those bytes; zero or less is the end of the stream or an
    error. *)
Class Socket (K : Type) := {
  k_send : list byte -> ST K Z;
  k_recv : Z -> ST K (Z * list byte)
}.

Record FramedConnection := mkFramedConnection { fc_fd : Z }.

Definition conn_valid (c : FramedConnection) : bool := 0 <=? fc_fd c.

Section Transport.
  Context {K : Type} `{!Socket K}.

(** ** The loops

    Each iteration moves [off] forward, so one more iteration than there are
    bytes is enough; [None] would say that the fuel ran out. *)
Fixpoint send_loop (fuel : nat) (data : list byte) (off : Z) : ST K (option bool) :=
  match fuel with
  | O => mret None
  | Datatypes.S fuel' =>
      if off <? bsize data then
        w ← k_send (drop (Z.to_nat off) data);
        if w <=? 0 then mret (Some false) else send_loop fuel' data (off + w)
      else mret (Some true)
  end.

Definition send_all (data : list byte) : ST K (option bool) :=
  send_loop (Datatypes.S (length data)) data 0.

Fixpoint recv_loop (fuel : nat) (n off : Z) (data : list byte) : ST K (option (bool * list byte)) :=
  match fuel with
  | O => mret None
  | Datatypes.S fuel' =>
      if off <? n then
        x ← k_recv (n - off);
        let '(r, bs) := x in
        if r <=? 0 then mret (Some (false, data)) else recv_loop fuel' n (off + r) (data ++ bs)
      else mret (Some (true, data))
  end.

Definition recv_all (n : Z) : ST K (option (bool * list byte)) :=
  recv_loop (Datatypes.S (Z.to_nat n)) n 0 [].

(** ** Frames *)

Definition conn_send (c : FramedConnection) (payload : list byte) : ST K (option bool) :=
  if fc_fd c <? 0 then mret (Some false)
  else if k_max_frame <? bsize payload then mret (Some false)
  else
    h ← send_all (le_bytes 4 (u32 (bsize payload)));
    match h with
    | Some true => send_all payload
    | r => mret r
    end.

(** The payload is empty where the code returns false: what the caller's
    string holds then is not read by any of them. *)
Definition conn_recv (c : FramedConnection) : ST K (option (bool * list byte)) :=
  if fc_fd c <? 0 then mret (Some (false, []))
  else
    h ← recv_all 4;
    match h with
    | Some (true, hdr) =>
        let len := le_val hdr in
        if (len =? 0) || (k_max_frame <? len) then mret (Some (false, []))
        else recv_all len
    | Some (false, _) => mret (Some (false, []))
    | None => mret None
    end.

(** ** The loops end

    Whatever the socket calls return. *)

Lemma send_loop_ends fuel data off s :
  bsize data - off < Z.of_nat fuel -> 0 < Z.of_nat fuel ->
  is_Some (result (send_loop fuel data off) s).
Proof.
  revert off s. induction fuel as [|fuel IH]; intros off s Hf Hp; [lia|]. cbn [send_loop].
  destruct (Z.ltb_spec off (bsize data)); [|by eexists].
  rewrite result_bind. destruct (Z.leb_spec (result (k_send (drop (Z.to_nat off) data)) s) 0); [by eexists|].
  apply IH; lia.
Qed.

Lemma recv_loop_ends fuel n off data s :
  n - off < Z.of_nat fuel -> 0 < Z.of_nat fuel ->
  is_Some (result (recv_loop fuel n off data) s).
Proof.
  revert off data s. induction fuel as [|fuel IH]; intros off data s Hf Hp; [lia|]. cbn [recv_loop].
  destruct (Z.ltb_spec off n); [|by eexists].
  rewrite result_bind. destruct (result (k_recv (n - off)) s) as [r bs].
  destruct (Z.leb_spec r 0); [by eexists|]. apply IH; lia.
Qed.

Lemma send_all_ends data s : is_Some (result (send_all data) s).
Proof. apply send_loop_ends; unfold bsize; lia. Qed.

Lemma recv_all_ends n s : is_Some (result (recv_all n) s).
Proof. apply recv_loop_ends; lia. Qed.

Lemma conn_send_ends c p s : is_Some (result (conn_send c p) s).
Proof.
  unfold conn_send. destruct (_ <? 0); [by eexists|]. destruct (_ <? _); [by eexists|].
  rewrite result_bind. destruct (send_all_ends (le_bytes 4 (u32 (bsize p))) s) as [[] ->]; [|by eexists].
  apply send_all_ends.
Qed.

Lemma conn_recv_ends c s : is_Some (result (conn_recv c) s).
Proof.
  unfold conn_recv. destruct (_ <? 0); [by eexists|]. rewrite result_bind.
  destruct (recv_all_ends 4 s) as [[[] hdr] ->]; [|by eexists].
  cbv zeta. destruct (_ || _); [by eexists|]. apply recv_all_ends.
Qed.

(** C40: Sending and receiving always return: whatever the socket calls answer
    (any counts, errors, the end of the stream), the loops of [send_all] and
    [recv_all] end, and so do [FramedConnection::send] and [recv]. *)
Theorem transport_loops_terminate (c : FramedConnection) (p : list byte) (s : K) :
  is_Some (result (conn_send c p) s) /\ is_Some (result (conn_recv c) s).
Proof. split; [apply conn_send_ends | apply conn_recv_ends]. Qed.

End Transport.

(** ** Stream sockets

    [k_written]: the bytes the socket took from this side so far;
    [k_arriving]: the bytes of the peer that this side has yet to read.  A call
    takes or gives a contiguous piece of the stream, never more than asked. *)
Class StreamSocket (K : Type) `{!Socket K} := {
  k_written : K -> list byte;
  k_arriving : K -> list byte;
  k_send_piece buf s :
    buf <> [] ->
    result (k_send buf) s <= bsize buf /\
    k_written (exec (k_send buf) s) = k_written s ++ take (Z.to_nat (result (k_send buf) s)) buf /\
    k_arriving (exec (k_send buf) s) = k_arriving s;
  k_recv_piece n s :
    0 < n ->
    (result (k_recv n) s).1 <= n /\
    bsize (result (k_recv n) s).2 = Z.max 0 (result (k_recv n) s).1 /\
    k_arriving s = (result (k_recv n) s).2 ++ k_arriving (exec (k_recv n) s)
}.

(** A blocking [::recv] returns data while there is some to read. *)
Class LiveSocket (K : Type) `{!Socket K, !StreamSocket K} : Prop :=
  k_recv_live n s : 0 < n -> k_arriving s <> [] -> 0 < (result (k_recv n) s).1.

(** The bytes of one message on the stream. *)
Definition frame_of (payload : list byte) : list byte := le_bytes 4 (bsize payload) ++ payload.

(** The messages that both sides handle. *)
Definition sendable (payload : list byte) : bool :=
  (0 <? bsize payload) && (bsize payload <=? k_max_frame).

Lemma bytes_app_size a b : bsize (a ++ b) = bsize a + bsize b.
Proof. unfold bsize. rewrite length_app. lia. Qed.

Lemma bytes_take_size n l : 0 <= n <= bsize l -> bsize (take (Z.to_nat n) l) = n.
Proof. unfold bsize. rewrite length_take. lia. Qed.

Lemma sendable_range p : sendable p = true -> 0 < bsize p <= k_max_frame.
Proof. unfold sendable. intros [H1 H2]%andb_true_iff. lia. Qed.

Section Stream.
  Context {K : Type} `{!Socket K, !StreamSocket K}.

(** What the sender's loop puts on the stream: everything, or a proper
    prefix. *)
Lemma send_loop_spec fuel data off s b :
  0 <= off <= bsize data -> result (send_loop fuel data off) s = Some b ->
  exists n, (n <= length data - Z.to_nat off)%nat /\
    k_written (exec (send_loop fuel data off) s) = k_written s ++ take n (drop (Z.to_nat off) data) /\
    (b = true <-> n = (length data - Z.to_nat off)%nat).
Proof.
  revert off s. induction fuel as [|fuel IH]; intros off s Ho; cbn [send_loop]; [done|].
  destruct (Z.ltb_spec off (bsize data)) as [Hlt|Hge].
  2:{ intros [= <-]. exists 0%nat. unfold bsize in *. rewrite take_0, app_nil_r. split_and!; [lia|done|].
      split; [lia|done]. }
  rewrite result_bind, exec_bind.
  assert (drop (Z.to_nat off) data <> []) as Hne.
  { intros E. apply (f_equal length) in E. rewrite length_drop in E. unfold bsize in *. simpl in E. lia. }
  destruct (k_send_piece _ s Hne) as (Hw & Ew & _). revert Hw Ew.
  set (w := result (k_send _) s). set (s1 := exec (k_send _) s). intros Hw Ew.
  assert (bsize (drop (Z.to_nat off) data) = bsize data - off) as Hd
    by (unfold bsize in *; rewrite length_drop; lia).
  destruct (Z.leb_spec w 0) as [H0|H0].
  - intros [= <-]. exists 0%nat. rewrite exec_ret, Ew. replace (Z.to_nat w) with 0%nat by lia.
    split_and!; [lia|done|]. unfold bsize in *. split; [done|intros; lia].
  - intros E. destruct (IH (off + w) s1 ltac:(lia) E) as (n & Hn & E1 & E2).
    exists (Z.to_nat w + n)%nat. rewrite E1, Ew. unfold bsize in *. split_and!; [lia| |split; intros; [rewrite E2 in *|apply E2]; lia].
    rewrite <- app_assoc. f_equal. rewrite <- (take_take_drop (drop (Z.to_nat off) data) (Z.to_nat w) n).
    rewrite drop_drop. by replace (Z.to_nat off + Z.to_nat w)%nat with (Z.to_nat (off + w)) by lia.
Qed.

Lemma send_all_spec data s b :
  result (send_all data) s = Some b ->
  exists n, (n <= length data)%nat /\ k_written (exec (send_all data) s) = k_written s ++ take n data /\
    (b = true <-> n = length data).
Proof.
  intros E. destruct (send_loop_spec _ _ 0 s b ltac:(unfold bsize; lia) E) as (n & Hn & Ew & Hb).
  exists n. rewrite drop_0 in Ew. rewrite Nat.sub_0_r in Hn, Hb. done.
Qed.

(** What the receiver's loop takes off the stream. *)
Lemma recv_loop_spec fuel n off data s b out :
  result (recv_loop fuel n off data) s = Some (b, out) -> 0 <= off <= n ->
  exists bs, out = data ++ bs /\ k_arriving s = bs ++ k_arriving (exec (recv_loop fuel n off data) s) /\
    bsize bs <= n - off /\ (b = true <-> bsize bs = n - off).
Proof.
  revert off data s. induction fuel as [|fuel IH]; intros off data s; cbn [recv_loop]; [done|].
  destruct (Z.ltb_spec off n) as [Hlt|Hge].
  2:{ intros [= <- <-] Ho. exists []. rewrite app_nil_r. unfold bsize. simpl. split_and!; [done..|lia|lia]. }
  rewrite result_bind, exec_bind. destruct (k_recv_piece (n - off) s ltac:(lia)) as (Hr & Hb & Ha).
  revert Hr Hb Ha. set (s1 := exec (k_recv _) s). destruct (result (k_recv _) s) as [r bs]. cbn [fst snd].
  intros Hr Hb Ha. destruct (Z.leb_spec r 0) as [H0|H0].
  - intros [= <- <-] Ho. exists bs. assert (bs = []) as -> by (apply nil_length_inv; unfold bsize in Hb; lia).
    rewrite app_nil_r. unfold bsize in *. simpl in *. split_and!; [done..|lia|split; [done|intros; lia]].
  - intros E Ho. destruct (IH (off + r) _ s1 E ltac:(lia)) as (bs' & -> & Ha' & Hl & Hi).
    exists (bs ++ bs'). rewrite app_assoc, Ha, Ha', app_assoc, bytes_app_size.
    split_and!; [done..|lia|rewrite Hi; lia].
Qed.

Lemma recv_all_spec n s b out :
  0 <= n -> result (recv_all n) s = Some (b, out) ->
  k_arriving s = out ++ k_arriving (exec (recv_all n) s) /\ bsize out <= n /\ (b = true <-> bsize out = n).
Proof.
  intros Hn E. destruct (recv_loop_spec _ _ _ _ _ _ _ E ltac:(lia)) as (bs & -> & Ha & Hl & Hb).
  simpl. rewrite Z.sub_0_r in *. done.
Qed.

(** A successful send puts exactly the frame on the stream. *)
Lemma conn_send_frame c p s :
  result (conn_send c p) s = Some true ->
  k_written (exec (conn_send c p) s) = k_written s ++ frame_of p /\ bsize p <= k_max_frame.
Proof.
  unfold conn_send. destruct (_ <? 0); [done|]. destruct (Z.ltb_spec k_max_frame (bsize p)) as [|Hm]; [done|].
  rewrite result_bind, exec_bind. set (h := le_bytes 4 _).
  destruct (result (send_all h) s) as [[]|] eqn:E; try done. intros E2.
  destruct (send_all_spec _ _ _ E) as (n & _ & Ew & [H1 _]). rewrite (H1 eq_refl) in Ew.
  destruct (send_all_spec _ _ _ E2) as (n' & _ & Ew' & [H1' _]). rewrite (H1' eq_refl) in Ew'.
  rewrite Ew', Ew, !firstn_all, <- app_assoc. split; [|done]. unfold frame_of, h. do 3 f_equal.
  apply Z.mod_small. unfold bsize, k_max_frame in *. lia.
Qed.

(** A failed send leaves at most a proper prefix of the frame. *)
Lemma conn_send_failed c p s :
  result (conn_send c p) s = Some false -> bsize p <= k_max_frame ->
  exists n, (n < length (frame_of p))%nat /\
    k_written (exec (conn_send c p) s) = k_written s ++ take n (frame_of p).
Proof.
  intros E Hm. assert (u32 (bsize p) = bsize p) as Hu
    by (apply Z.mod_small; unfold bsize, k_max_frame in *; lia).
  assert (length (frame_of p) = (4 + length p)%nat) as Hl
    by (unfold frame_of; rewrite length_app, le_bytes_length; done).
  revert E. unfold conn_send. destruct (_ <? 0).
  { intros _. exists 0%nat. rewrite take_0, app_nil_r. split; [lia|done]. }
  destruct (Z.ltb_spec k_max_frame (bsize p)); [lia|]. rewrite Hu, result_bind, exec_bind.
  set (h := le_bytes 4 _). assert (length h = 4%nat) as Hh by apply le_bytes_length.
  destruct (send_all_ends h s) as [[] E]; rewrite E.
  - intros E2. destruct (send_all_spec _ _ _ E) as (n & _ & Ew & [H1 _]).
    rewrite (H1 eq_refl), firstn_all in Ew.
    destruct (send_all_spec _ _ _ E2) as (n' & Hn & Ew' & [_ H1']).
    assert (n' <> length p) by (intros Hc; by apply H1' in Hc).
    exists (4 + n')%nat. split; [lia|]. rewrite Ew', Ew, <- app_assoc. f_equal.
  - intros _. destruct (send_all_spec _ _ _ E) as (n & Hn & Ew & [_ H1]).
    assert (n <> 4%nat) by (intros Hc; rewrite <- Hh in Hc; by apply H1 in Hc).
    exists n. rewrite exec_ret, Ew. split; [lia|]. unfold frame_of. fold h. by rewrite take_app_le by lia.
Qed.

(** A successful receive takes exactly one frame off the stream. *)
Lemma conn_recv_frame c s p :
  result (conn_recv c) s = Some (true, p) ->
  k_arriving s = frame_of p ++ k_arriving (exec (conn_recv c) s) /\ sendable p = true.
Proof.
  unfold conn_recv. destruct (_ <? 0); [done|]. rewrite result_bind, exec_bind.
  destruct (result (recv_all 4) s) as [[[] hdr]|] eqn:E; try done.
  destruct (recv_all_spec 4 s true hdr ltac:(lia) E) as (Ha & _ & [Hl _]). specialize (Hl eq_refl).
  cbv zeta. pose proof (le_val_range hdr) as Hr. destruct (_ || _) eqn:Hb; [done|].
  apply orb_false_iff in Hb as [Hb1 Hb2]. intros E2.
  destruct (recv_all_spec (le_val hdr) _ true p ltac:(lia) E2) as (Ha' & _ & [Hl' _]).
  specialize (Hl' eq_refl). split.
  - rewrite Ha, Ha', app_assoc. f_equal. unfold frame_of. f_equal. rewrite Hl'.
    rewrite <- (le_bytes_val hdr) at 1. f_equal. unfold bsize in Hl. lia.
  - unfold sendable. lia.
Qed.

End Stream.

(** ** Sequences of messages *)

Inductive ReadEnd := Read_all | Read_false | Read_hangs.

(** The messages of which the first [k] bytes of the stream hold the whole
    frame. *)
Fixpoint arrived (k : nat) (ps : list (list byte)) : list (list byte) :=
  match ps with
  | [] => []
  | p :: ps' =>
      let m := length (frame_of p) in if (m <=? k)%nat then p :: arrived (k - m) ps' else []
  end.

Lemma arrived_all k ps : (length (concat (frame_of <$> ps)) <= k)%nat -> arrived k ps = ps.
Proof.
  revert k. induction ps as [|p ps IH]; intros k Hk; [done|].
  cbn [fmap list_fmap concat arrived] in *. rewrite length_app in Hk.
  destruct (Nat.leb_spec (length (frame_of p)) k); [|lia]. f_equal. apply IH.
  change (list_fmap _ _ frame_of ps) with (frame_of <$> ps). unfold fmap in *. lia.
Qed.

Lemma arrived_prefix k ps : arrived k ps `prefix_of` ps.
Proof.
  revert k. induction ps as [|p ps IH]; intros k; cbn [arrived]; [apply prefix_nil|].
  case_match; [apply prefix_cons, IH|apply prefix_nil].
Qed.

Section Sequences.
  Context {K : Type} `{!Socket K}.

(** The messages sent one after the other while the sends succeed. *)
Fixpoint send_each (c : FramedConnection) (ps : list (list byte)) : ST K bool :=
  match ps with
  | [] => mret true
  | p :: ps' => r ← conn_send c p; if decide (r = Some true) then send_each c ps' else mret false
  end.

(** [n] receives, as long as they succeed: the messages, and how it ended.  All
    [n] succeeded, one returned false to its caller, or one never returned. *)
Fixpoint recv_each (c : FramedConnection) (n : nat) : ST K (list (list byte) * ReadEnd) :=
  match n with
  | O => mret ([], Read_all)
  | Datatypes.S n' =>
      r ← conn_recv c;
      match r with
      | Some (true, p) => x ← recv_each c n'; mret (p :: x.1, x.2)
      | Some (false, _) => mret ([], Read_false)
      | None => mret ([], Read_hangs)
      end
  end.

Context `{!StreamSocket K}.

Lemma prefix_past {A} (l a b : list A) :
  l `prefix_of` (a ++ b) -> (length a <= length l)%nat -> exists l', l = a ++ l' /\ l' `prefix_of` b.
Proof.
  intros [k E] Hl. exists (drop (length a) l).
  assert (l = a ++ drop (length a) l) as El.
  { apply (f_equal (take (length a))) in E. rewrite take_app_length, take_app_le in E by done.
    rewrite <- (take_drop (length a) l) at 1. by rewrite <- E. }
  split; [done|]. exists k. rewrite El in E at 1. rewrite <- app_assoc in E. by apply app_inv_head in E.
Qed.

Lemma send_each_frames c ps s :
  result (send_each c ps) s = true ->
  k_written (exec (send_each c ps) s) = k_written s ++ concat (frame_of <$> ps).
Proof.
  revert s. induction ps as [|p ps IH]; intros s; cbn [send_each].
  - intros _. simpl. by rewrite app_nil_r.
  - rewrite result_bind, exec_bind. destruct (decide _) as [E|]; [|done]. intros Hr.
    rewrite (IH _ Hr). destruct (conn_send_frame c p s E) as [-> _]. by rewrite <- app_assoc.
Qed.

(** The length prefix makes frames self-delimiting. *)
Lemma frame_of_prefix p q rest l :
  bsize p <= k_max_frame -> bsize q <= k_max_frame ->
  (frame_of q ++ rest) `prefix_of` (frame_of p ++ l) -> q = p /\ rest `prefix_of` l.
Proof.
  intros Hp Hq [k E]. unfold frame_of in E. rewrite <- !app_assoc in E.
  apply app_inj_1 in E as [El E]; [|by rewrite !le_bytes_length].
  apply le_bytes_inj in El; [|rewrite pow256_4; unfold bsize, k_max_frame in *; lia..].
  apply app_inj_1 in E as [-> E]; [|unfold bsize in El; lia]. split; [done|]. by exists k.
Qed.

(** Whether or not all of them succeed, the sends put an initial part of the
    frames on the stream. *)
Lemma send_each_prefix c ps s :
  (forall p, p ∈ ps -> bsize p <= k_max_frame) ->
  exists l, k_written (exec (send_each c ps) s) = k_written s ++ l /\ l `prefix_of` concat (frame_of <$> ps).
Proof.
  revert s. induction ps as [|p ps IH]; intros s HP; cbn [send_each].
  { exists []. by rewrite app_nil_r. }
  rewrite exec_bind. cbn [fmap list_fmap concat]. destruct (decide _) as [E|E].
  - destruct (conn_send_frame c p s E) as [Ew _].
    destruct (IH (exec (conn_send c p) s)) as (l & -> & Hl); [intros; apply HP; set_solver|].
    exists (frame_of p ++ l). split; [by rewrite Ew, app_assoc|]. by apply prefix_app.
  - destruct (conn_send_ends c p s) as [[] E']; [by rewrite E' in E|].
    destruct (conn_send_failed c p s E') as (n & _ & Ew); [apply HP; set_solver|].
    exists (take n (frame_of p)). rewrite exec_ret, Ew. split; [done|]. apply prefix_app_r, prefix_take.
Qed.

Lemma recv_each_prefix c n ps s :
  (forall p, p ∈ ps -> bsize p <= k_max_frame) ->
  k_arriving s `prefix_of` concat (frame_of <$> ps) ->
  (result (recv_each c n) s).1 `prefix_of` ps /\ (result (recv_each c n) s).2 <> Read_hangs.
Proof.
  revert ps s. induction n as [|n IH]; intros ps s HP Ha; cbn [recv_each]; [by split; [apply prefix_nil|]|].
  rewrite result_bind. destruct (conn_recv_ends c s) as [[[] q] E]; rewrite E.
  2:{ by split; [apply prefix_nil|]. }
  destruct (conn_recv_frame c s q E) as [Es Hq]. rewrite Es in Ha. apply sendable_range in Hq.
  destruct ps as [|p ps].
  { destruct Ha as [k Ha]. unfold frame_of in Ha. simpl in Ha. done. }
  cbn [fmap list_fmap concat] in Ha.
  apply frame_of_prefix in Ha as [-> Ha]; [|apply HP; set_solver|lia].
  rewrite result_bind. cbn [result fst snd mret ST_ret].
  destruct (IH ps (exec (conn_recv c) s)) as [H1 H2]; [intros; apply HP; set_solver|done|].
  split; [by apply prefix_cons|done].
Qed.

(** A stream that ends before the end of a frame: the receive returns false. *)
Lemma conn_recv_cut c s p :
  bsize p <= k_max_frame -> k_arriving s `prefix_of` frame_of p ->
  (length (k_arriving s) < length (frame_of p))%nat ->
  exists q, result (conn_recv c) s = Some (false, q).
Proof.
  intros Hp Ha Hl. destruct (conn_recv_ends c s) as [[[] q] E]; [|by exists q]. exfalso.
  destruct (conn_recv_frame c s q E) as [Es Hq%sendable_range]. rewrite Es in Ha.
  rewrite <- (app_nil_r (frame_of p)) in Ha.
  apply frame_of_prefix in Ha as [-> _]; [|lia..]. rewrite Es, length_app in Hl. lia.
Qed.

(** A stream that has ended: the receive returns false. *)
Lemma conn_recv_end c s : k_arriving s = [] -> exists q, result (conn_recv c) s = Some (false, q).
Proof.
  intros Ha. destruct (conn_recv_ends c s) as [[[] q] E]; [|by exists q]. exfalso.
  destruct (conn_recv_frame c s q E) as [Es _]. rewrite Ha in Es. by unfold frame_of in Es.
Qed.

Context `{!LiveSocket K}.

Lemma recv_loop_live fuel n off data s bs rest :
  k_arriving s = bs ++ rest -> bsize bs = n - off -> 0 <= off ->
  n - off < Z.of_nat fuel -> 0 < Z.of_nat fuel ->
  result (recv_loop fuel n off data) s = Some (true, data ++ bs) /\
  k_arriving (exec (recv_loop fuel n off data) s) = rest.
Proof.
  revert off data s bs. induction fuel as [|fuel IH]; intros off data s bs Ha Hb Ho Hf Hp; [lia|].
  cbn [recv_loop]. destruct (Z.ltb_spec off n) as [Hlt|Hge].
  2:{ assert (bs = []) as -> by (apply nil_length_inv; unfold bsize in Hb; lia).
      by rewrite app_nil_r, result_ret, exec_ret. }
  rewrite result_bind, exec_bind. destruct (k_recv_piece (n - off) s ltac:(lia)) as (Hr & Hl & Hs).
  pose proof (k_recv_live (n - off) s ltac:(lia)) as Hlive. revert Hr Hl Hs Hlive.
  set (s1 := exec (k_recv _) s). destruct (result (k_recv _) s) as [r bs1]. cbn [fst snd].
  intros Hr Hl Hs Hlive. rewrite Ha in Hlive.
  assert (0 < r) as Hr0.
  { apply Hlive. intros E. apply app_eq_nil in E as [-> _]. unfold bsize in Hb. simpl in Hb. lia. }
  destruct (Z.leb_spec r 0); [lia|]. rewrite Ha in Hs.
  assert (exists bs2, bs = bs1 ++ bs2) as [bs2 ->].
  { exists (drop (length bs1) bs). rewrite <- (take_drop (length bs1) bs) at 1. f_equal.
    apply (f_equal (take (length bs1))) in Hs. rewrite take_app_length in Hs.
    etrans; [|exact Hs]. symmetry. apply take_app_le. unfold bsize in *. lia. }
  rewrite <- app_assoc in Hs. apply app_inv_head in Hs. rewrite bytes_app_size in Hb.
  destruct (IH (off + r) (data ++ bs1) s1 bs2) as [-> ->]; [congruence|lia..|]. by rewrite app_assoc.
Qed.

Lemma recv_all_live n s bs rest :
  k_arriving s = bs ++ rest -> bsize bs = n ->
  result (recv_all n) s = Some (true, bs) /\ k_arriving (exec (recv_all n) s) = rest.
Proof.
  intros Ha Hb. unfold recv_all. assert (0 <= n) by (subst; unfold bsize; lia).
  apply (recv_loop_live _ n 0 [] s bs rest); [done|lia..].
Qed.

Lemma conn_recv_live c s p rest :
  0 <= fc_fd c -> sendable p = true -> k_arriving s = frame_of p ++ rest ->
  result (conn_recv c) s = Some (true, p) /\ k_arriving (exec (conn_recv c) s) = rest.
Proof.
  intros Hc Hp Ha. apply sendable_range in Hp. unfold conn_recv.
  destruct (Z.ltb_spec (fc_fd c) 0); [lia|]. unfold frame_of in Ha. rewrite <- app_assoc in Ha.
  destruct (recv_all_live 4 s _ _ Ha) as [E Ea]; [unfold bsize; by rewrite le_bytes_length|].
  rewrite result_bind, exec_bind, E. cbv zeta.
  assert (le_val (le_bytes 4 (bsize p)) = bsize p) as ->.
  { rewrite le_val_u32. apply Z.mod_small. unfold k_max_frame in Hp. lia. }
  destruct (Z.eqb_spec (bsize p) 0); [lia|]. destruct (Z.ltb_spec k_max_frame (bsize p)); [lia|].
  simpl. by apply recv_all_live.
Qed.

(** What a number of receives gives on a stream that ends after an initial part
    of the frames. *)
Lemma recv_each_live c n ps s :
  0 <= fc_fd c -> Forall (fun p => sendable p = true) ps ->
  k_arriving s `prefix_of` concat (frame_of <$> ps) ->
  let got := arrived (length (k_arriving s)) ps in
  result (recv_each c n) s =
    if (n <=? length got)%nat then (take n got, Read_all) else (got, Read_false).
Proof.
  intros Hc HP. revert n s. induction HP as [|p ps Hp _ IH]; intros [|n] s Ha; try done.
  { apply prefix_nil_inv in Ha. destruct (conn_recv_end c s Ha) as [q E].
    cbn [recv_each arrived length]. by rewrite result_bind, E. }
  cbn [fmap list_fmap concat recv_each arrived] in *. pose proof (sendable_range p Hp).
  destruct (Nat.leb_spec (length (frame_of p)) (length (k_arriving s))) as [Hl|Hl].
  - destruct (prefix_past _ _ _ Ha Hl) as (l & Es & Hk).
    destruct (conn_recv_live c s p l Hc Hp Es) as [E Ea]. rewrite result_bind, E, result_bind.
    cbn [result fst snd mret ST_ret].
    rewrite (IH n (exec (conn_recv c) s)); rewrite Ea; [|done].
    rewrite Es, length_app, Nat.add_comm, Nat.add_sub. cbn [length]. change (Datatypes.S n <=? _)%nat with (n <=? length (arrived (length l) ps))%nat.
    by case_match.
  - destruct (conn_recv_cut c s p) as [q E]; [lia| |lia|by rewrite result_bind, E].
    destruct Ha as [k Ha]. apply app_eq_inv in Ha as [(l & -> & _)|(l & Es & _)]; [by exists l|].
    rewrite Es, length_app in Hl. lia.
Qed.

End Sequences.

(** What a sender put on its stream since [s]. *)
Definition sent {K} `{!Socket K, !StreamSocket K} {A} (m : ST K A) (s : K) : list byte :=
  drop (length (k_written s)) (k_written (exec m s)).

(** C37: The framing is a faithful channel.  After messages of one byte to 16 MiB
    were sent (all of them, or until a send failed), a peer that reads an
    initial part of the stream receives an initial part of the messages, each
    whole and in the order sent, and every receive returns.  If its receives
    fail only at the end of the stream, it gets exactly the messages whose
    frames have arrived to the last byte, and the receive after them returns
    false, also when the stream ends in the middle of a frame; it gets all of
    the messages when all were sent and the whole stream arrives, however the
    socket cuts it into pieces. *)
Theorem messages_arrive_whole_and_in_order {K1 K2}
    `{!Socket K1, !StreamSocket K1, !Socket K2, !StreamSocket K2}
    (c1 c2 : FramedConnection) (ps : list (list byte)) (s1 : K1) (s2 : K2) :
  Forall (fun p => sendable p = true) ps ->
  k_arriving s2 `prefix_of` sent (send_each c1 ps) s1 ->
  let got := arrived (length (k_arriving s2)) ps in
  (forall n, (result (recv_each c2 n) s2).1 `prefix_of` ps /\ (result (recv_each c2 n) s2).2 <> Read_hangs) /\
  (LiveSocket K2 -> 0 <= fc_fd c2 ->
     (forall n, result (recv_each c2 n) s2 =
        if (n <=? length got)%nat then (take n got, Read_all) else (got, Read_false)) /\
     got `prefix_of` ps /\
     (result (send_each c1 ps) s1 = true -> k_arriving s2 = sent (send_each c1 ps) s1 -> got = ps)).
Proof.
  intros HP Ha got.
  assert (forall p, p ∈ ps -> bsize p <= k_max_frame) as HB.
  { intros p Hp. rewrite Forall_forall in HP. by apply sendable_range, HP. }
  assert (k_arriving s2 `prefix_of` concat (frame_of <$> ps)) as Ha'.
  { destruct (send_each_prefix c1 ps s1 HB) as (l & E & Hl). unfold sent in Ha.
    rewrite E, drop_app_length in Ha. by etrans. }
  split; [by intros n; apply recv_each_prefix|]. intros HL Hc.
  split_and!; [by intros n; apply recv_each_live|apply arrived_prefix|].
  intros HS E. apply arrived_all. rewrite E. unfold sent. by rewrite (send_each_frames c1 ps s1 HS), drop_app_length.
Qed.

(** A socket that moves at most [1 + pp_more] bytes per call. *)
Record Pipe := mkPipe { pp_more : nat; pp_out : list byte; pp_in : list byte }.

Definition pp_chunk (p : Pipe) : nat := Datatypes.S (pp_more p).

#[export] Instance pipe_socket : Socket Pipe := {|
  k_send buf p :=
    (Z.of_nat (Nat.min (pp_chunk p) (length buf)),
     mkPipe (pp_more p) (pp_out p ++ take (pp_chunk p) buf) (pp_in p));
  k_recv n p :=
    let bs := take (Nat.min (pp_chunk p) (Z.to_nat n)) (pp_in p) in
    ((bsize bs, bs), mkPipe (pp_more p) (pp_out p) (drop (Nat.min (pp_chunk p) (Z.to_nat n)) (pp_in p)))
|}.

#[export] Instance pipe_stream : StreamSocket Pipe.
Proof.
  refine {| k_written := pp_out; k_arriving := pp_in |}.
  - intros buf p _. unfold result, exec, bsize. cbn [k_send pipe_socket fst snd pp_out pp_in].
    split_and!; [lia| |done]. f_equal. rewrite Nat2Z.id.
    destruct (Nat.le_ge_cases (pp_chunk p) (length buf)).
    + by rewrite Nat.min_l.
    + by rewrite Nat.min_r, firstn_all, take_ge.
  - intros n p Hn. unfold result, exec. cbn [k_recv pipe_socket fst snd pp_out pp_in]. unfold bsize.
    split_and!; [rewrite length_take; lia|lia|]. by rewrite take_drop.
Defined.

#[export] Instance pipe_live : LiveSocket Pipe.
Proof.
  intros n p Hn Ha. unfold result. cbn [k_recv pipe_socket fst snd]. unfold bsize.
  assert (0 < length (pp_in p))%nat by (change (pp_in p <> []) in Ha; destruct (pp_in p); [done|simpl; lia]).
  rewrite length_take. unfold pp_chunk. lia.
Qed.

(** Two messages written three bytes at a time and read two at a time. *)
Definition net_messages : list (list byte) := [string_bytes "submit"; string_bytes "stats"].
Definition net_writer : Pipe := mkPipe 2 [] [].
Definition net_reader : Pipe :=
  mkPipe 1 [] (pp_out (exec (send_each (mkFramedConnection 3) net_messages) net_writer)).

(** The same stream, lost after three bytes of the second message. *)
Definition net_cut_reader : Pipe := mkPipe 1 [] (take 17 (pp_in net_reader)).

Lemma messages_arrive_whole_and_in_order_witness :
  result (recv_each (mkFramedConnection 4) 2) net_reader = (net_messages, Read_all) /\
  result (recv_each (mkFramedConnection 4) 2) net_cut_reader = ([string_bytes "submit"], Read_false).
Proof.
  split.
  - refine (proj1 (proj2 (messages_arrive_whole_and_in_order (mkFramedConnection 3) (mkFramedConnection 4)
      net_messages net_writer net_reader _ _) _ _) 2%nat).
    + repeat constructor.
    + by exists [].
    + simpl. lia.
  - refine (proj1 (proj2 (messages_arrive_whole_and_in_order (mkFramedConnection 3) (mkFramedConnection 4)
      net_messages net_writer net_cut_reader _ _) _ _) 2%nat).
    + repeat constructor.
    + exists (drop 17 (pp_in net_reader)). by vm_compute.
    + simpl. lia.
Defined.

(** ** Descriptors

    The globals [g_init] and [g_listen], the descriptors the process has open,
    and those held by live [FramedConnection] objects.  The results of the
    system calls are arguments of each operation. *)

Module Descriptors.

Record Net := mkNet {
  g_init : bool;
  g_listen : Z;
  open_fds : gset Z;
  conn_fds : gset Z
}.

#[export] Instance Net_eta : Eta Net :=
  fun r => mkNet (g_init r) (g_listen r) (open_fds r) (conn_fds r).
#[export] Instance upd_g_init : Update g_init. Proof. derive_update. Defined.
#[export] Instance upd_g_listen : Update g_listen. Proof. derive_update. Defined.
#[export] Instance upd_open_fds : Update open_fds. Proof. derive_update. Defined.
#[export] Instance upd_conn_fds : Update conn_fds. Proof. derive_update. Defined.

(** What [socket], [inet_pton], [bind], [::listen], [::connect] and
    [::accept] answer; [bind] and [::connect] see the port. *)
Record NetCalls := mkNetCalls {
  nc_socket : Z;
  nc_pton : string -> Z;
  nc_bind : Z -> Z;
  nc_listen : Z;
  nc_connect : Z -> Z;
  nc_accept : Z
}.

Definition net0 : Net := mkNet false (-1) ∅ ∅.

(** [static_cast<unsigned short>(port)]. *)
Definition sin_port (port : Z) : Z := port mod 2 ^ 16.

Definition opened (fd : Z) : ST Net unit := modify (fun s => s <| open_fds ::= fun o => {[fd]} ∪ o |>).

Definition close_fd (fd : Z) : ST Net unit :=
  when (0 <=? fd) (modify (fun s => s <| open_fds ::= fun o => o ∖ {[fd]} |>)).

Definition init : ST Net bool := modify (fun s => s <| g_init := true |>) ;; mret true.

Definition shutdown : ST Net unit :=
  l ← gets g_listen;
  when (negb (l =? -1)) (close_fd l ;; modify (fun s => s <| g_listen := -1 |>)) ;;
  modify (fun s => s <| g_init := false |>).

Definition listen (nc : NetCalls) (host : string) (port : Z) : ST Net bool :=
  i ← init;
  if negb i then mret false else
  let fd := nc_socket nc in
  if fd <? 0 then mret false else
  opened fd ;;
  if negb (nc_pton nc host =? 1) then (close_fd fd ;; mret false)
  else if negb (nc_bind nc (sin_port port) =? 0) then (close_fd fd ;; mret false)
  else if negb (nc_listen nc =? 0) then (close_fd fd ;; mret false)
  else
    l ← gets g_listen;
    when (negb (l =? -1)) (close_fd l) ;;
    modify (fun s => s <| g_listen := fd |>) ;;
    mret true.

(** [std::make_shared<FramedConnection>(fd)]. *)
Definition make_connection (fd : Z) : ST Net (option FramedConnection) :=
  modify (fun s => s <| conn_fds ::= fun o => {[fd]} ∪ o |>) ;; mret (Some (mkFramedConnection fd)).

Definition accept (nc : NetCalls) : ST Net (option FramedConnection) :=
  l ← gets g_listen;
  if l =? -1 then mret None else
  let cfd := nc_accept nc in
  if cfd <? 0 then mret None else opened cfd ;; make_connection cfd.

Definition connect (nc : NetCalls) (host : string) (port : Z) : ST Net (option FramedConnection) :=
  i ← init;
  if negb i then mret None else
  let fd := nc_socket nc in
  if fd <? 0 then mret None else
  opened fd ;;
  if negb (nc_pton nc host =? 1) then (close_fd fd ;; mret None)
  else if negb (nc_connect nc (sin_port port) =? 0) then (close_fd fd ;; mret None)
  else make_connection fd.

(** [FramedConnection::close], also the destructor. *)
Definition close (c : FramedConnection) : ST Net FramedConnection :=
  if 0 <=? fc_fd c then
    close_fd (fc_fd c) ;;
    modify (fun s => s <| conn_fds ::= fun o => o ∖ {[fc_fd c]} |>) ;;
    mret (mkFramedConnection (-1))
  else mret c.

(** Every open descriptor is the listening one or belongs to one live
    connection. *)
Record fds_ok (s : Net) : Prop := {
  fo_listen : g_listen s = -1 \/ (0 <= g_listen s /\ g_listen s ∉ conn_fds s);
  fo_conns fd : fd ∈ conn_fds s -> 0 <= fd;
  fo_open fd : (fd ∈ open_fds s) <-> (fd ∈ conn_fds s) \/ (fd = g_listen s /\ g_listen s <> -1)
}.

(** A new descriptor is one that is not open. *)
Definition fresh_fds (nc : NetCalls) (s : Net) : Prop :=
  (nc_socket nc ∉ open_fds s) /\ (nc_accept nc ∉ open_fds s).

Inductive NetOp :=
| NListen (nc : NetCalls) (host : string) (port : Z)
| NAccept (nc : NetCalls)
| NConnect (nc : NetCalls) (host : string) (port : Z)
| NClose (fd : Z)
| NShutdown.

Definition net_op (o : NetOp) : ST Net unit :=
  match o with
  | NListen nc h p => listen nc h p ;; mret tt
  | NAccept nc => accept nc ;; mret tt
  | NConnect nc h p => connect nc h p ;; mret tt
  | NClose fd => close (mkFramedConnection fd) ;; mret tt
  | NShutdown => shutdown
  end.

(** Calls return descriptors that are not open, and a connection is closed by
    the object that holds it. *)
Definition net_guard (s : Net) (o : NetOp) : Prop :=
  match o with
  | NListen nc _ _ | NAccept nc | NConnect nc _ _ => fresh_fds nc s
  | NClose fd => 0 <= fd -> fd ∈ conn_fds s
  | NShutdown => True
  end.

Inductive net_reachable : Net -> Prop :=
| net_start : net_reachable net0
| net_step s o : net_reachable s -> net_guard s o -> net_reachable (exec (net_op o) s).

(** The bodies, evaluated on an explicit state. *)
Ltac net_run :=
  cbv [net_op listen accept connect close shutdown init opened close_fd make_connection
       exec mbind ST_bind mret ST_ret gets modify when fc_fd upd
       upd_g_init upd_g_listen upd_open_fds upd_conn_fds fst snd
       g_init g_listen open_fds conn_fds];
  repeat match goal with
  | |- context [if ?b then _ else _] => destruct b eqn:?
  end.

Section Moves.
  Context (i i' : bool) (l : Z) (o c : gset Z) (Hok : fds_ok (mkNet i l o c)).

Lemma ok_nonneg fd : fd ∈ o -> 0 <= fd.
Proof.
  destruct Hok as [L C O]. simpl in *. intros [Hc|[-> Hl]]%O; [by apply C|]. destruct L as [|[? _]]; lia.
Qed.

Ltac moves :=
  destruct Hok as [L C O]; constructor; cbn [g_listen conn_fds open_fds] in *;
  [|intros x|intros x; specialize (O x)];
  rewrite ?elem_of_difference, ?elem_of_union, ?elem_of_singleton in *.

Lemma ok_init : fds_ok (mkNet i' l o c).
Proof. by destruct Hok. Qed.

Lemma ok_reopen fd : fd ∉ o -> fds_ok (mkNet i' l (({[fd]} ∪ o) ∖ {[fd]}) c).
Proof. intros Hf. replace (({[fd]} ∪ o) ∖ {[fd]}) with o by set_solver. apply ok_init. Qed.

Lemma ok_connected fd : fd ∉ o -> 0 <= fd -> fds_ok (mkNet i' l ({[fd]} ∪ o) ({[fd]} ∪ c)).
Proof.
  intros Hf Hp. assert (l <> -1 -> l <> fd) as Hl.
  { intros H1 ->. apply Hf. destruct Hok as [_ _ O]. apply O. simpl. by right. }
  moves; [|intros [->|]; auto|tauto]. destruct L as [|[? Hn]]; [by left|right]. split; [done|].
  intros [E|]; [apply Hl; [lia|done]|done].
Qed.

Lemma ok_listening fd : fd ∉ o -> 0 <= fd -> l = -1 -> fds_ok (mkNet i' fd ({[fd]} ∪ o) c).
Proof.
  intros Hf Hp ->. assert (fd ∉ c) as Hc.
  { intros Hc. apply Hf. destruct Hok as [_ _ O]. apply O. by left. }
  moves; [by right|auto|]. rewrite O. intuition lia.
Qed.

Lemma ok_relistening fd :
  fd ∉ o -> 0 <= fd -> l <> -1 -> fds_ok (mkNet i' fd (({[fd]} ∪ o) ∖ {[l]}) c).
Proof.
  intros Hf Hp Hl. assert (fd ∉ c) as Hc.
  { intros Hc. apply Hf. destruct Hok as [_ _ O]. apply O. by left. }
  assert (fd <> l) as Hn. { intros ->. apply Hf. destruct Hok as [_ _ O]. apply O. by right. }
  moves; [by right|auto|]. rewrite O. destruct L as [|[? Hlc]]; [done|].
  split; [intuition lia|]. intros [Hx|[-> _]]; [|split; [by left|done]].
  split; [right; by left|]. by intros ->.
Qed.

Lemma ok_closed fd : fd ∈ c -> fds_ok (mkNet i' l (o ∖ {[fd]}) (c ∖ {[fd]})).
Proof.
  intros Hf. moves; [|intros [? _]; auto|].
  - destruct L as [|[? Hn]]; [by left|right]. split; [done|]. tauto.
  - rewrite O. destruct L as [|[? Hn]]; [intuition lia|]. split; [tauto|].
    intros [[? ?]|[-> ?]]; [tauto|]. split; [tauto|]. by intros ->.
Qed.

Lemma ok_shutdown : l <> -1 -> fds_ok (mkNet i' (-1) (o ∖ {[l]}) c).
Proof.
  intros Hl. moves; [by left|auto|]. rewrite O. destruct L as [|[? Hn]]; [done|].
  split; [intuition lia|]. intros [Hx|[_ ?]]; [|done]. split; [by left|]. by intros ->.
Qed.

End Moves.

Lemma net_op_ok o s : fds_ok s -> net_guard s o -> fds_ok (exec (net_op o) s).
Proof.
  destruct s as [i l op cs]. intros Hok G.
  pose proof (fo_listen _ Hok) as L. cbn [g_listen conn_fds] in L.
  destruct o as [nc h p|nc|nc h p|fd|]; cbn [net_guard] in G;
    try match type of G with fresh_fds _ _ => destruct G as [G1 G2]; cbn [open_fds] in G1, G2 end;
    net_run; try lia;
    first [ by eapply ok_init | by eapply ok_reopen | by eapply ok_shutdown; [|lia]
          | eapply ok_connected; [done..|lia] | eapply ok_listening; [done..|lia|lia]
          | eapply ok_relistening; [done..|lia|lia] | eapply ok_closed; [done|apply G; simpl; lia] ].
Qed.

(** No descriptor leaks.  Through any sequence of [listen], [accept],
    [connect], [close] and [shutdown], on every failure path, the descriptors
    the process has open are the listening socket and those of the live
    connections, and no connection shares the listening socket. *)
Theorem descriptors_do_not_leak (s : Net) : net_reachable s -> fds_ok s.
Proof.
  induction 1 as [|s o _ I G]; [|by apply net_op_ok].
  constructor; simpl; [by left|set_solver|set_solver].
Qed.

(** A listener replaced by another one, and a client accepted by it. *)
Definition nc_ok (fd cfd : Z) : NetCalls := mkNetCalls fd (fun _ => 1) (fun _ => 0) 0 (fun _ => 0) cfd.

Lemma descriptors_do_not_leak_witness :
  fds_ok (exec (net_op (NAccept (nc_ok 9 5))) (exec (net_op (NListen (nc_ok 4 9) "127.0.0.1" 80))
    (exec (net_op (NListen (nc_ok 3 9) "127.0.0.1" 80)) net0))).
Proof.
  apply descriptors_do_not_leak. do 3 (apply net_step; [|split; vm_compute; congruence || set_solver]).
  constructor.
Defined.

End Descriptors.
