(* ===== verification/Decimal.v ===== *)
(** * Numbers as text

    What the wire protocol uses of the standard library: the decimal digits of
    [std::to_string] on an unsigned integer, [std::strtoull] in base ten, the
    text of a [double] on a stream of precision 20 (the conversion [%.20g]),
    and [std::strtod] on a token of digits, point, exponent and signs.  Text is
    the list of its bytes. *)

From S2P Require Import Prelude Float64 FloatExact Bytes.
Open Scope Z_scope.

Abbreviation text := (list byte) (only parsing).

Definition digit_byte (d : Z) : byte := val_byte (48 + d).
Definition digit_val (b : byte) : Z := byte_val b - 48.
Definition is_digit (b : byte) : bool := (48 <=? byte_val b) && (byte_val b <=? 57).

(** ** Unsigned integers *)

Fixpoint dec_loop (fuel : nat) (n : Z) (acc : text) : text :=
  match fuel with
  | O => acc
  | Datatypes.S fuel' =>
      let acc' := digit_byte (n mod 10) :: acc in
      if n <? 10 then acc' else dec_loop fuel' (n / 10) acc'
  end.

(** [std::to_string(v)]: a number has no more decimal than binary digits. *)
Definition dec (n : Z) : text := dec_loop (Datatypes.S (Z.to_nat (Z.log2 n))) n [].

Definition dec_val (l : text) : Z := fold_left (fun v b => 10 * v + digit_val b) l 0.

(** The [k] low digits of [n]. *)
Fixpoint dec_pad (k : nat) (n : Z) : text :=
  match k with
  | O => []
  | Datatypes.S k' => dec_pad k' (n / 10) ++ [digit_byte (n mod 10)]
  end.

(** The longest prefix of bytes that satisfy [f], and the rest. *)
Fixpoint span (f : byte -> bool) (l : text) : text * text :=
  match l with
  | [] => ([], [])
  | b :: l' => if f b then let '(a, r) := span f l' in (b :: a, r) else ([], l)
  end.

(** [isspace] in the C locale. *)
Definition is_space (b : byte) : bool :=
  (byte_val b =? 32) || ((9 <=? byte_val b) && (byte_val b <=? 13)).

Definition uint64_max : Z := 2 ^ 64 - 1.

(** A sign: its value and what follows it. *)
Definition sign_of (l : text) : bool * text :=
  match l with
  | b :: l' => if Byte.eqb b x2d then (true, l')
               else if Byte.eqb b x2b then (false, l') else (false, l)
  | [] => (false, [])
  end.

(** [std::strtoull(s, nullptr, 10)]: zero without digits, the maximum on
    overflow, and a minus sign negates modulo 2^64. *)
Definition strtoull (l : text) : Z :=
  let '(neg, l1) := sign_of (span is_space l).2 in
  let v := dec_val (span is_digit l1).1 in
  if uint64_max <? v then uint64_max else if neg : bool then u64 (- v) else v.

(** [std::atoi], the [long] of [std::strtol] converted to [int]. *)
Definition atoi (l : text) : Z :=
  let '(neg, l1) := sign_of (span is_space l).2 in
  let v := dec_val (span is_digit l1).1 in
  i32 (if neg : bool then Z.max (- 2 ^ 63) (- v) else Z.min (2 ^ 63 - 1) v).

(** ** Doubles *)

Definition div_nearest (a b : Z) : Z :=
  let q := a / b in
  let r := a mod b in
  if 2 * r <? b then q else if b <? 2 * r then q + 1 else if Z.even q then q else q + 1.

(** The decimal exponent of [num / den]: the number of digits of its integer
    part less one, or minus the number of the first nonzero decimal. *)
Definition exp10 (num den : Z) : Z :=
  if den <=? num then Z.of_nat (length (dec (num / den))) - 1
  else - Z.of_nat (length (dec ((den + num - 1) / num - 1))).

Definition precision : Z := 20.

(** [num / den] rounded to [precision] digits: the digits and the exponent of
    the first one. *)
Definition round10 (num den : Z) : Z * Z :=
  let e := exp10 num den in
  let p := precision - 1 - e in
  let d := div_nearest (num * 10 ^ Z.max p 0) (den * 10 ^ Z.max (- p) 0) in
  if d =? 10 ^ precision then (10 ^ (precision - 1), e + 1) else (d, e).

Fixpoint strip_zeros (l : text) : text :=
  match l with
  | [] => []
  | b :: l' => match strip_zeros l' with
               | [] => if Byte.eqb b x30 then [] else [b]
               | r => b :: r
               end
  end.

(** A fraction part of [k] digits, without trailing zeros. *)
Definition fraction (k : nat) (n : Z) : text :=
  match strip_zeros (dec_pad k n) with [] => [] | f => x2e :: f end.

Definition print_digits (d e : Z) : text :=
  if (-4 <=? e) && (e <? precision) then
    let p := precision - 1 - e in
    dec (d / 10 ^ p) ++ fraction (Z.to_nat p) (d mod 10 ^ p)
  else
    let p := precision - 1 in
    dec (d / 10 ^ p) ++ fraction (Z.to_nat p) (d mod 10 ^ p) ++
    x65 :: (if e <? 0 then x2d else x2b) ::
    (if Z.abs e <? 10 then [x30] else []) ++ dec (Z.abs e).

Definition sign_text (s : bool) : text := if s then [x2d] else [].

(** [o.precision(20); o << x]. *)
Definition print_f64 (x : f64) : text :=
  match x with
  | S754_zero s => sign_text s ++ [x30]
  | S754_infinity s => sign_text s ++ string_bytes "inf"
  | S754_nan => string_bytes "nan"
  | S754_finite s m e =>
      let '(d, e10) := round10 (Z.pos m * 2 ^ Z.max e 0) (2 ^ Z.max (- e) 0) in
      sign_text s ++ print_digits d e10
  end.

(** The double nearest to [m * 10^e], ties to even. *)
Definition f64_of_decimal (neg : bool) (m e : Z) : f64 :=
  if m =? 0 then S754_zero neg
  else if 0 <=? e then binary_normalize 53 1024 (cond_Zopp neg (m * 10 ^ e)) 0 neg
  else let '(q, e', l) := SFdiv_core_binary 53 1024 m 0 (10 ^ (- e)) 0 in
       binary_round_aux 53 1024 neg q e' l.

(** The exponent part, zero when it is absent or has no digits. *)
Definition exponent_of (l : text) : Z :=
  match l with
  | b :: l' =>
      if Byte.eqb b x65 || Byte.eqb b x45 then
        let '(neg, l1) := sign_of l' in
        cond_Zopp neg (dec_val (span is_digit l1).1)
      else 0
  | [] => 0
  end.

(** [std::strtod] on the characters a number token consists of; zero when no
    conversion can be performed. *)
Definition strtod (l : text) : f64 :=
  let '(neg, l1) := sign_of l in
  let '(ip, l2) := span is_digit l1 in
  let '(fp, l3) := match l2 with
                   | b :: l' => if Byte.eqb b x2e then span is_digit l' else ([], l2)
                   | [] => ([], [])
                   end in
  match ip ++ fp with
  | [] => fzero
  | ds => f64_of_decimal neg (dec_val ds) (exponent_of l3 - Z.of_nat (length fp))
  end.

(** ** Digits *)

Lemma digit_val_byte d : 0 <= d < 10 -> digit_val (digit_byte d) = d.
Proof. intros. unfold digit_val, digit_byte. rewrite byte_val_byte, Z.mod_small; lia. Qed.

Lemma is_digit_byte d : 0 <= d < 10 -> is_digit (digit_byte d) = true.
Proof.
  intros. unfold is_digit, digit_byte. rewrite byte_val_byte, Z.mod_small by lia.
  apply andb_true_iff. lia.
Qed.

Lemma mod10_range n : 0 <= n mod 10 < 10.
Proof. apply Z.mod_pos_bound. lia. Qed.

Lemma dec_val_app_from l v b :
  fold_left (fun v b => 10 * v + digit_val b) (l ++ [b]) v =
  10 * fold_left (fun v b => 10 * v + digit_val b) l v + digit_val b.
Proof. by rewrite fold_left_app. Qed.

Lemma dec_val_snoc l b : dec_val (l ++ [b]) = 10 * dec_val l + digit_val b.
Proof. apply dec_val_app_from. Qed.

Lemma dec_loop_acc fuel n acc : dec_loop fuel n acc = dec_loop fuel n [] ++ acc.
Proof.
  revert n acc. induction fuel as [|fuel IH]; intros n acc; [done|]. cbn [dec_loop].
  destruct (n <? 10); [done|]. rewrite IH, (IH _ [_]), <- app_assoc. done.
Qed.

(** The digits of a number that fits the fuel: its value, and how many. *)
Lemma dec_loop_spec fuel n :
  0 <= n < 10 ^ Z.of_nat fuel -> (0 < fuel)%nat ->
  dec_val (dec_loop fuel n []) = n /\ forallb is_digit (dec_loop fuel n []) = true /\
  (0 < length (dec_loop fuel n []))%nat /\
  n < 10 ^ Z.of_nat (length (dec_loop fuel n [])) /\
  (0 < n -> 10 ^ (Z.of_nat (length (dec_loop fuel n [])) - 1) <= n).
Proof.
  revert n. induction fuel as [|fuel IH]; intros n Hn Hf; [lia|]. cbn [dec_loop].
  pose proof (mod10_range n) as Hm. destruct (Z.ltb_spec n 10) as [Hs|Hb].
  - rewrite Z.mod_small in * by lia. unfold dec_val. cbn [fold_left length forallb].
    rewrite digit_val_byte, is_digit_byte by lia. split_and!; [lia|done|lia|simpl; lia|simpl; lia].
  - rewrite Nat2Z.inj_succ, Z.pow_succ_r in Hn by lia.
    rewrite dec_loop_acc. pose proof (Z.div_mod n 10 ltac:(lia)) as Hd.
    assert (0 < n / 10) by (apply Z.div_str_pos; lia).
    destruct fuel as [|fuel]; [simpl in Hn; lia|].
    destruct (IH (n / 10)) as (Hv & Hdig & Hl & Hu & Hlo); [lia|lia|].
    rewrite dec_val_snoc, digit_val_byte, Hv by lia.
    rewrite forallb_app, Hdig, length_app. cbn [forallb length andb]. rewrite is_digit_byte by lia.
    set (k := length (dec_loop (Datatypes.S fuel) (n / 10) [])) in *.
    assert (Z.of_nat (k + 1) = Z.of_nat k + 1) as -> by lia.
    split_and!; [lia|done|lia| |].
    + rewrite Z.pow_add_r by lia. lia.
    + intros _. replace (Z.of_nat k + 1 - 1) with (Z.of_nat k - 1 + 1) by lia.
      rewrite Z.pow_add_r by lia. specialize (Hlo ltac:(lia)). lia.
Qed.

Lemma dec_fuel n : 0 <= n -> 0 <= n < 10 ^ Z.of_nat (Datatypes.S (Z.to_nat (Z.log2 n))).
Proof.
  intros Hn. split; [done|]. pose proof (Z.log2_nonneg n).
  rewrite Nat2Z.inj_succ, Z2Nat.id by done.
  destruct (decide (n = 0)) as [->|]; [simpl; lia|].
  destruct (Z.log2_spec n ltac:(lia)) as [_ Hl]. eapply Z.lt_le_trans; [exact Hl|].
  apply Z.pow_le_mono_l. lia.
Qed.

Section Dec.
  Context (n : Z) (Hn : 0 <= n).

Lemma dec_spec :
  dec_val (dec n) = n /\ forallb is_digit (dec n) = true /\ (0 < length (dec n))%nat /\
  n < 10 ^ Z.of_nat (length (dec n)) /\
  (0 < n -> 10 ^ (Z.of_nat (length (dec n)) - 1) <= n).
Proof. apply dec_loop_spec; [by apply dec_fuel|lia]. Qed.

Lemma dec_val_dec : dec_val (dec n) = n.
Proof. apply dec_spec. Qed.
Lemma dec_digits : forallb is_digit (dec n) = true.
Proof. apply dec_spec. Qed.
Lemma dec_nonempty : dec n <> [].
Proof. destruct dec_spec as (_ & _ & H & _). by destruct (dec n); [simpl in H; lia|]. Qed.

End Dec.

(** A digit is no sign, space or letter. *)
Lemma digit_neq b c : is_digit b = true -> is_digit c = false -> Byte.eqb b c = false.
Proof.
  intros Hb Hc. destruct (Byte.eqb b c) eqn:E; [|done]. apply Byte.byte_dec_bl in E. subst. congruence.
Qed.

Lemma digit_not_space b : is_digit b = true -> is_space b = false.
Proof. unfold is_digit, is_space. intros. lia. Qed.

(** ** Scanning *)

(** The scan stops where [l] ends or its first byte fails the test. *)
Definition stops (f : byte -> bool) (l : text) : Prop :=
  match l with [] => True | b :: _ => f b = false end.

Lemma span_app f a r : forallb f a = true -> stops f r -> span f (a ++ r) = (a, r).
Proof.
  intros Ha Hr. induction a as [|b a IH]; cbn [app span].
  - destruct r as [|b r]; [done|]. cbn [stops] in Hr. cbn [span]. by rewrite Hr.
  - cbn [forallb] in Ha. apply andb_true_iff in Ha as [-> Ha]. by rewrite (IH Ha).
Qed.

Lemma span_all f a : forallb f a = true -> span f a = (a, []).
Proof. intros Ha. rewrite <- (app_nil_r a) at 1. by apply span_app. Qed.

Lemma span_none f l : stops f l -> span f l = ([], l).
Proof. intros. by apply (span_app f []). Qed.

Lemma span_length f l : (length (span f l).2 <= length l)%nat.
Proof.
  induction l as [|b l IH]; cbn [span]; [done|]. destruct (f b); [|done].
  destruct (span f l) as [a r]. cbn [snd length] in *. lia.
Qed.

Lemma sign_of_digit b l : is_digit b = true -> sign_of (b :: l) = (false, b :: l).
Proof. intros Hb. unfold sign_of. by rewrite !(digit_neq b) by done. Qed.

Lemma sign_of_dec n l : 0 <= n -> sign_of (dec n ++ l) = (false, dec n ++ l).
Proof.
  intros Hn. pose proof (dec_digits n Hn) as Hd. pose proof (dec_nonempty n Hn).
  destruct (dec n) as [|b d]; [done|]. cbn [forallb app] in *. apply andb_true_iff in Hd as [Hd _].
  by apply sign_of_digit.
Qed.

(** What [std::to_string] writes, [std::strtoull] reads. *)
Lemma strtoull_dec v : 0 <= v < 2 ^ 64 -> strtoull (dec v) = v.
Proof.
  intros Hv. unfold strtoull. pose proof (dec_digits v ltac:(lia)) as Hd.
  pose proof (dec_nonempty v ltac:(lia)) as Hne.
  rewrite span_none.
  2:{ destruct (dec v) as [|b d]; [done|]. cbn [forallb stops] in *.
      apply andb_true_iff in Hd as [Hd _]. by apply digit_not_space. }
  cbn [snd]. rewrite <- (app_nil_r (dec v)), sign_of_dec by lia. rewrite app_nil_r.
  rewrite span_all by done. cbn [fst]. rewrite dec_val_dec by lia.
  destruct (Z.ltb_spec uint64_max v); [|done]. unfold uint64_max in *. lia.
Qed.

(** ** Integers as doubles *)

Lemma strip_zeros_snoc l : strip_zeros (l ++ [x30]) = strip_zeros l.
Proof.
  induction l as [|b l IH]; [done|]. cbn [app strip_zeros]. by rewrite IH.
Qed.

Lemma fraction_zero k : fraction k 0 = [].
Proof.
  unfold fraction. assert (strip_zeros (dec_pad k 0) = []) as ->; [|done].
  induction k as [|k IH]; [done|]. cbn [dec_pad].
  change (digit_byte (0 mod 10)) with x30. change (0 / 10) with 0. by rewrite strip_zeros_snoc.
Qed.

Lemma div_nearest_exact a b : 0 < b -> div_nearest (a * b) b = a.
Proof.
  intros Hb. unfold div_nearest. rewrite Z.div_mul, Z.mod_mul by lia.
  by destruct (Z.ltb_spec (2 * 0) b); [|lia].
Qed.

Lemma dec_length_le m k : 0 < m < 10 ^ k -> 0 <= k -> Z.of_nat (length (dec m)) <= k.
Proof.
  intros Hm Hk. destruct (dec_spec m ltac:(lia)) as (_ & _ & Hl & _ & Hlo). specialize (Hlo ltac:(lia)).
  destruct (Z.le_gt_cases (Z.of_nat (length (dec m))) k) as [|Hgt]; [done|].
  pose proof (Z.pow_le_mono_r 10 k (Z.of_nat (length (dec m)) - 1) ltac:(lia) ltac:(lia)). lia.
Qed.

(** An integer below 2^53 is printed by its digits. *)
Lemma print_int m k :
  0 < m < 2 ^ 53 -> 0 <= k ->
  (let '(d, e) := round10 (m * 2 ^ k) (2 ^ k) in print_digits d e) = dec m.
Proof.
  intros Hm Hk. pose proof (Z.pow_pos_nonneg 2 k ltac:(lia) Hk) as H2.
  pose proof (dec_length_le m 16 ltac:(lia) ltac:(lia)) as HL.
  destruct (dec_spec m ltac:(lia)) as (_ & _ & Hl & Hu & _).
  unfold round10. assert (exp10 (m * 2 ^ k) (2 ^ k) = Z.of_nat (length (dec m)) - 1) as ->.
  { unfold exp10. rewrite Z.div_mul by lia. destruct (Z.leb_spec (2 ^ k) (m * 2 ^ k)); [done|nia]. }
  set (L := Z.of_nat (length (dec m))) in *. unfold precision.
  rewrite (Z.max_l (20 - 1 - (L - 1)) 0), (Z.max_r (- (20 - 1 - (L - 1))) 0) by lia.
  rewrite Z.pow_0_r, Z.mul_1_r. set (P := 10 ^ (20 - 1 - (L - 1))).
  assert (0 < P) as HP by (apply Z.pow_pos_nonneg; lia).
  replace (m * 2 ^ k * P) with ((m * P) * 2 ^ k) by lia. rewrite div_nearest_exact by done.
  assert (m * P < 10 ^ 20) as Hlt.
  { replace (10 ^ 20) with (10 ^ L * P); [nia|]. unfold P. rewrite <- Z.pow_add_r by lia. f_equal. lia. }
  destruct (Z.eqb_spec (m * P) (10 ^ 20)); [lia|].
  unfold print_digits, precision. destruct (Z.leb_spec (-4) (L - 1)), (Z.ltb_spec (L - 1) 20); [|lia..].
  cbn [andb]. fold P. rewrite Z.div_mul, Z.mod_mul, fraction_zero, app_nil_r by lia. done.
Qed.

(** The text of an integer. *)
Definition dec_int (z : Z) : text := sign_text (z <? 0) ++ dec (Z.abs z).
(** [std::to_string]. *)
Definition to_string (z : Z) : string := bytes_string (dec_int z).

Lemma print_f64_of_Z z : - 2 ^ 53 < z < 2 ^ 53 -> print_f64 (f64_of_Z z) = dec_int z.
Proof.
  intros Hz. destruct z as [|m|m]; [done| |]; unfold f64_of_Z, dec_int, binary_normalize;
    [destruct (f64_of_pos false m) as (m' & k & -> & Hk & E)|
     destruct (f64_of_pos true m) as (m' & k & -> & Hk & E)]; try lia;
    unfold print_f64; rewrite (Z.max_r (- k) 0), Z.opp_involutive, (Z.max_l k 0), E, Z.pow_0_r, Z.mul_1_r by lia;
    pose proof (print_int (Z.pos m) k ltac:(lia) Hk) as HP;
    destruct (round10 _ _) as [d e]; by rewrite HP.
Qed.

(** [std::strtod] reads an integer back. *)
Lemma strtod_dec_int z : strtod (dec_int z) = f64_of_Z z.
Proof.
  unfold strtod, dec_int. pose proof (Z.abs_nonneg z) as Ha.
  assert (sign_of (sign_text (z <? 0) ++ dec (Z.abs z)) = (z <? 0, dec (Z.abs z))) as ->.
  { destruct (z <? 0); [done|]. simpl. rewrite <- (app_nil_r (dec _)). by apply sign_of_dec. }
  rewrite span_all by (by apply dec_digits). rewrite app_nil_r.
  destruct (dec (Z.abs z)) as [|b d] eqn:E; [by apply dec_nonempty in E|]. rewrite <- E.
  rewrite dec_val_dec by done. cbn [exponent_of length Z.of_nat Z.sub Z.opp Z.add].
  unfold f64_of_decimal, f64_of_Z. destruct (Z.eqb_spec (Z.abs z) 0).
  - destruct z; [done|lia..].
  - cbn [Z.leb Z.compare]. rewrite Z.pow_0_r, Z.mul_1_r.
    destruct (Z.ltb_spec z 0); cbn [cond_Zopp]; [rewrite Z.abs_neq, Z.opp_involutive by lia|rewrite Z.abs_eq by lia];
      by destruct z.
Qed.

(** ** Integers as arguments *)

Lemma dec_int_nonneg z : 0 <= z -> dec_int z = dec z.
Proof. intros Hz. unfold dec_int. destruct (Z.ltb_spec z 0); [lia|]. by rewrite Z.abs_eq. Qed.

Lemma span_fst f l : forallb f (span f l).1 = true.
Proof.
  induction l as [|b l IH]; cbn [span]; [done|]. destruct (f b) eqn:E; [|done].
  destruct (span f l) as [a r]. cbn [fst forallb] in *. by rewrite E.
Qed.

Lemma dec_val_nonneg l : forallb is_digit l = true -> 0 <= dec_val l.
Proof.
  induction l as [|b l IH] using rev_ind; [done|]. rewrite forallb_app, dec_val_snoc. cbn [forallb].
  intros [Hl Hb]%andb_true_iff. specialize (IH Hl). unfold is_digit, digit_val in *. lia.
Qed.

Lemma strtoull_range l : 0 <= strtoull l < 2 ^ 64.
Proof.
  unfold strtoull. destruct (sign_of _) as [neg l1]. cbv zeta. set (v := dec_val _).
  assert (0 <= v) by apply dec_val_nonneg, span_fst.
  unfold uint64_max. destruct (Z.ltb_spec (2 ^ 64 - 1) v); [lia|]. destruct neg; [apply u64_range|lia].
Qed.

(** What [std::to_string] writes, [std::atoi] reads. *)
Lemma atoi_dec_int z : - 2 ^ 31 <= z < 2 ^ 31 -> atoi (dec_int z) = z.
Proof.
  intros Hz. unfold atoi, dec_int. pose proof (Z.abs_nonneg z) as Ha.
  pose proof (dec_digits (Z.abs z) Ha) as Hd. pose proof (dec_nonempty (Z.abs z) Ha) as Hne.
  rewrite span_none.
  2:{ destruct (z <? 0); [done|]. cbn [sign_text app]. destruct (dec (Z.abs z)) as [|b d]; [done|]. cbn [forallb stops] in *.
      apply andb_true_iff in Hd as [Hd _]. by apply digit_not_space. }
  cbn [snd].
  assert (sign_of (sign_text (z <? 0) ++ dec (Z.abs z)) = (z <? 0, dec (Z.abs z))) as ->.
  { destruct (z <? 0); [done|]. simpl. rewrite <- (app_nil_r (dec _)). by apply sign_of_dec. }
  rewrite span_all by done. cbn [fst]. rewrite dec_val_dec by done.
  destruct (Z.ltb_spec z 0); unfold i32; rewrite Z.mod_small; lia.
Qed.

Lemma atoi_range l : - 2 ^ 31 <= atoi l < 2 ^ 31.
Proof. unfold atoi. destruct (sign_of _) as [neg l1]. cbv zeta. unfold i32. set (v := if neg : bool then _ else _).
  pose proof (Z.mod_pos_bound (v + 2 ^ 31) (2 ^ 32)). lia.
Qed.
