(* ===== verification/Json.v ===== *)
(** * JSON values, printer and parser

    [src/json_util.hpp].  A [Json] is a null, boolean, number, string, array or
    object; an object is the sequence of its fields in key order, as
    [std::map<std::string, Json>] keeps them.  [dump_json] prints, [parse_json]
    is the recursive-descent parser: [value], [object], [array], [Jstr],
    [boolean], [number], [expect] and [skip] work on the unread text and on the
    flag [ok].  Text is a list of bytes; strings inside a value are [string]. *)

From S2P Require Import Prelude Float64 Bytes Decimal.
From Stdlib Require Strings.Ascii Strings.String.
Open Scope Z_scope.

(** ** Values *)

#[local] Unset Elimination Schemes.

Inductive Json :=
| JNull
| JBool (b : bool)
| JNum (num : f64)
| JStr (str : string)
| JArr (arr : list Json)
| JObj (obj : list (string * Json)).

#[local] Set Elimination Schemes.

(** Induction that reaches the elements of arrays and the fields of objects. *)
Section JsonInd.
  Context (P : Json -> Prop)
    (Hnull : P JNull) (Hbool : forall b, P (JBool b)) (Hnum : forall x, P (JNum x))
    (Hstr : forall s, P (JStr s))
    (Harr : forall l, Forall P l -> P (JArr l))
    (Hobj : forall m, Forall (fun kv => P kv.2) m -> P (JObj m)).

Fixpoint Json_ind (j : Json) : P j :=
  match j with
  | JNull => Hnull
  | JBool b => Hbool b
  | JNum x => Hnum x
  | JStr s => Hstr s
  | JArr l => Harr l ((fix go l := match l return Forall P l with
                                   | [] => Forall_nil_2 _
                                   | x :: l' => Forall_cons_2 _ _ _ (Json_ind x) (go l')
                                   end) l)
  | JObj m => Hobj m ((fix go m := match m return Forall (fun kv => P kv.2) m with
                                   | [] => Forall_nil_2 _
                                   | x :: m' => Forall_cons_2 _ _ _ (Json_ind x.2) (go m')
                                   end) m)
  end.

End JsonInd.

Definition is_null (j : Json) : bool := match j with JNull => true | _ => false end.
Definition is_num (j : Json) : bool := match j with JNum _ => true | _ => false end.
Definition is_str (j : Json) : bool := match j with JStr _ => true | _ => false end.
Definition is_arr (j : Json) : bool := match j with JArr _ => true | _ => false end.
Definition is_obj (j : Json) : bool := match j with JObj _ => true | _ => false end.

(** The member [obj] is empty in a value of another kind, and so is [arr]. *)
Definition obj_fields (j : Json) : list (string * Json) := match j with JObj m => m | _ => [] end.
Definition elems (j : Json) : list Json := match j with JArr l => l | _ => [] end.

(** [std::map] lookup and insertion. *)
Fixpoint obj_find (k : string) (m : list (string * Json)) : option Json :=
  match m with
  | [] => None
  | (k', v) :: m' => if String.eqb k k' then Some v else obj_find k m'
  end.

Fixpoint obj_set (k : string) (v : Json) (m : list (string * Json)) : list (string * Json) :=
  match m with
  | [] => [(k, v)]
  | (k', v') :: m' =>
      match String.compare k k' with
      | Lt => (k, v) :: m
      | Eq => (k, v) :: m'
      | Gt => (k', v') :: obj_set k v m'
      end
  end.

(** [j[k] = v] on an object. *)
Definition jset (k : string) (v : Json) (j : Json) : Json :=
  match j with JObj m => JObj (obj_set k v m) | _ => j end.

(** An object built by a sequence of such assignments. *)
Definition jobject (kvs : list (string * Json)) : Json :=
  fold_left (fun j kv => jset kv.1 kv.2 j) kvs (JObj []).

Definition jget (j : Json) (k : string) : option Json := obj_find k (obj_fields j).

Definition getstr (j : Json) (k dflt : string) : string :=
  match jget j k with Some (JStr s) => s | _ => dflt end.
Definition getnum (j : Json) (k : string) (dflt : f64) : f64 :=
  match jget j k with Some (JNum x) => x | _ => dflt end.
Definition getbool (j : Json) (k : string) (dflt : bool) : bool :=
  match jget j k with Some (JBool b) => b | _ => dflt end.

(** ** Printing *)

Definition quote : byte := x22.
Definition backslash : byte := x5c.

Definition escape (l : text) : text :=
  concat (map (fun c => if Byte.eqb c quote || Byte.eqb c backslash then [backslash; c] else [c]) l).

Fixpoint join (l : list text) : text :=
  match l with
  | [] => []
  | [a] => a
  | a :: l' => a ++ x2c :: join l'
  end.

Fixpoint dump_json (j : Json) : text :=
  match j with
  | JNull => string_bytes "null"
  | JBool b => string_bytes (if b then "true" else "false")
  | JNum x => print_f64 x
  | JStr s => quote :: escape (string_bytes s) ++ [quote]
  | JArr l => x5b :: join (map dump_json l) ++ [x5d]
  | JObj m => x7b :: join (map (fun kv => quote :: string_bytes kv.1 ++ [quote; x3a] ++ dump_json kv.2) m) ++ [x7d]
  end.

(** ** Parsing *)

Definition ws (c : byte) : bool :=
  Byte.eqb c x20 || Byte.eqb c x09 || Byte.eqb c x0a || Byte.eqb c x0d.

Definition skip (l : text) : text := (span ws l).2.

(** The characters of [t] in turn; stops at the first that differs. *)
Fixpoint expect (t l : text) (ok : bool) : text * bool :=
  match t with
  | [] => (l, ok)
  | c :: t' => match l with
               | b :: l' => if Byte.eqb b c then expect t' l' ok else (l, false)
               | [] => (l, false)
               end
  end.

Definition unescape (e : byte) : byte :=
  if Byte.eqb e x6e then x0a else if Byte.eqb e x74 then x09
  else if Byte.eqb e x72 then x0d else if Byte.eqb e x62 then x08
  else if Byte.eqb e x66 then x0c else e.

(** The loop of [Jstr], after the opening quote. *)
Fixpoint jstr_loop (l out : text) (ok : bool) : text * text * bool :=
  match l with
  | [] => (out, [], false)
  | c :: l' =>
      if Byte.eqb c quote then (out, l', ok)
      else if Byte.eqb c backslash then
        match l' with
        | [] => (out, [], false)
        | e :: l'' => jstr_loop l'' (out ++ [unescape e]) ok
        end
      else jstr_loop l' (out ++ [c]) ok
  end.

Definition Jstr (l : text) (ok : bool) : text * text * bool := jstr_loop (drop 1 l) [] ok.

Definition boolean (l : text) (ok : bool) : Json * text * bool :=
  if bool_decide (take 4 l = string_bytes "true") then (JBool true, drop 4 l, ok)
  else if bool_decide (take 5 l = string_bytes "false") then (JBool false, drop 5 l, ok)
  else (JBool false, l, false).

Definition num_char (b : byte) : bool :=
  is_digit b || Byte.eqb b x2e || Byte.eqb b x65 || Byte.eqb b x45 || Byte.eqb b x2b.

(** The token of a number: a minus sign and the characters that follow. *)
Definition num_token (l : text) : text * text :=
  match l with
  | b :: l' => if Byte.eqb b x2d then let '(t, r) := span num_char l' in (b :: t, r)
               else span num_char l
  | [] => ([], [])
  end.

Definition number (l : text) (ok : bool) : Json * text * bool :=
  let '(t, r) := num_token l in
  match t with
  | [] => (JNum fzero, r, false)
  | _ => (JNum (strtod t), r, ok)
  end.

Definition starts_with (c : byte) (l : text) : bool :=
  match l with b :: _ => Byte.eqb b c | [] => false end.

(** A parse: the value, the unread text and the flag; [None] when the fuel is
    used up. *)
Definition Parse : Type := option (Json * text * bool).

(** The loop of [object]; [val] is [value]. *)
Fixpoint object_loop (val : text -> bool -> Parse) (fuel : nat) (m : list (string * Json))
    (l : text) (ok : bool) : Parse :=
  match fuel with
  | O => None
  | Datatypes.S fuel' =>
      match l with
      | [] => Some (JObj [], [], false)
      | _ :: _ =>
          let l1 := skip l in
          if negb (starts_with quote l1) then Some (JObj [], l1, false) else
          let '(k, l2, ok2) := Jstr l1 ok in
          let l3 := skip l2 in
          if negb (starts_with x3a l3) then Some (JObj [], l3, false) else
          match val (drop 1 l3) ok2 with
          | None => None
          | Some (v, l4, ok4) =>
              let m' := obj_set (bytes_string k) v m in
              let l5 := skip l4 in
              if starts_with x2c l5 then object_loop val fuel' m' (drop 1 l5) ok4
              else if starts_with x7d l5 then Some (JObj m', drop 1 l5, ok4)
              else Some (JObj [], l5, false)
          end
      end
  end.

Definition object (val : text -> bool -> Parse) (l : text) (ok : bool) : Parse :=
  let l1 := skip (drop 1 l) in
  if starts_with x7d l1 then Some (JObj [], drop 1 l1, ok)
  else object_loop val (Datatypes.S (length l1)) [] l1 ok.

Fixpoint array_loop (val : text -> bool -> Parse) (fuel : nat) (a : list Json)
    (l : text) (ok : bool) : Parse :=
  match fuel with
  | O => None
  | Datatypes.S fuel' =>
      match l with
      | [] => Some (JArr a, [], false)
      | _ :: _ =>
          match val l ok with
          | None => None
          | Some (v, l1, ok1) =>
              let a' := a ++ [v] in
              let l2 := skip l1 in
              if starts_with x2c l2 then array_loop val fuel' a' (drop 1 l2) ok1
              else if starts_with x5d l2 then Some (JArr a', drop 1 l2, ok1)
              else Some (JArr a', l2, false)
          end
      end
  end.

Definition array (val : text -> bool -> Parse) (l : text) (ok : bool) : Parse :=
  let l1 := skip (drop 1 l) in
  if starts_with x5d l1 then Some (JArr [], drop 1 l1, ok)
  else array_loop val (Datatypes.S (length l1)) [] l1 ok.

(** [depth] is the number of nested calls of [value] the stack has room for. *)
Fixpoint value (depth : nat) (l : text) (ok : bool) : Parse :=
  match depth with
  | O => None
  | Datatypes.S d =>
      let l := skip l in
      match l with
      | [] => Some (JNull, [], false)
      | c :: _ =>
          if Byte.eqb c x7b then object (value d) l ok
          else if Byte.eqb c x5b then array (value d) l ok
          else if Byte.eqb c quote then
            let '(s, r, ok') := Jstr l ok in Some (JStr (bytes_string s), r, ok')
          else if Byte.eqb c x74 || Byte.eqb c x66 then Some (boolean l ok)
          else if Byte.eqb c x6e then
            let '(r, ok') := expect (string_bytes "null") l ok in Some (JNull, r, ok')
          else Some (number l ok)
      end
  end.

Definition parse_with (depth : nat) (s : text) : option (Json * bool) :=
  match value depth s true with
  | None => None
  | Some (v, r, ok) => Some (v, match skip r with [] => ok | _ => false end)
  end.

(** As much depth as the text could need. *)
Definition parse_json (s : text) : option (Json * bool) := parse_with (Datatypes.S (length s)) s.
