(* ===== verification/JsonSpec.v ===== *)
(** * The JSON codec is total, and reads back what it prints

    Objects as maps, termination and well-formedness of [parse_json], and the
    round trip with [dump_json]. *)

From S2P Require Import Prelude Float64 Bytes Decimal Json.
From Stdlib Require Strings.Ascii Strings.String.
Open Scope Z_scope.

(** ** The order of the keys *)

Definition str_lt (a b : string) : Prop := String.compare a b = Lt.

Lemma ascii_compare_trans a b c :
  Ascii.compare a b = Lt -> Ascii.compare b c = Lt -> Ascii.compare a c = Lt.
Proof. unfold Ascii.compare. rewrite !N.compare_lt_iff. lia. Qed.

Lemma string_compare_refl a : String.compare a a = Eq.
Proof.
  induction a as [|c a IH]; [done|]. simpl. unfold Ascii.compare. by rewrite N.compare_refl.
Qed.

#[export] Instance str_lt_trans : Transitive str_lt.
Proof.
  intros a b c. unfold str_lt. revert b c.
  induction a as [|x a IH]; intros [|y b] [|z c]; simpl; try done.
  destruct (Ascii.compare x y) eqn:E1; [|intros _|done].
  - apply Ascii.compare_eq_iff in E1 as ->. intros H1.
    destruct (Ascii.compare y z); [by apply IH|done..].
  - destruct (Ascii.compare y z) eqn:E2; [|intros _|done].
    + apply Ascii.compare_eq_iff in E2 as ->. by rewrite E1.
    + by rewrite (ascii_compare_trans _ _ _ E1 E2).
Qed.

Lemma str_lt_irrefl a : ~ str_lt a a.
Proof. unfold str_lt. by rewrite string_compare_refl. Qed.

Lemma string_compare_spec a b : CompareSpec (a = b) (str_lt a b) (str_lt b a) (String.compare a b).
Proof.
  unfold str_lt. rewrite (String.compare_antisym b a).
  destruct (String.compare a b) eqn:E; simpl; constructor; try done. by apply String.compare_eq_iff.
Qed.

Definition keys_sorted (m : list (string * Json)) : Prop := StronglySorted (fun a b => str_lt a.1 b.1) m.

(** ** Objects are maps *)

Lemma obj_find_set k k' v m :
  obj_find k' (obj_set k v m) = if String.eqb k' k then Some v else obj_find k' m.
Proof.
  induction m as [|[k1 v1] m IH]; cbn [obj_set obj_find]; [done|].
  destruct (string_compare_spec k k1) as [->|Hlt|Hgt]; cbn [obj_find].
  - by destruct (String.eqb k' k1).
  - done.
  - rewrite IH. destruct (String.eqb_spec k' k1) as [->|]; [|done].
    destruct (String.eqb_spec k1 k) as [->|]; [by apply str_lt_irrefl in Hgt|done].
Qed.

Lemma obj_set_keys k v m kv : kv ∈ obj_set k v m -> kv = (k, v) \/ kv ∈ m.
Proof.
  induction m as [|[k1 v1] m IH]; cbn [obj_set]; [set_solver|].
  destruct (String.compare k k1); set_solver.
Qed.

Lemma obj_set_sorted k v m : keys_sorted m -> keys_sorted (obj_set k v m).
Proof.
  unfold keys_sorted. induction 1 as [|[k1 v1] m HS IH HF]; cbn [obj_set]; [repeat constructor|].
  destruct (string_compare_spec k k1) as [->|Hlt|Hgt].
  - by constructor.
  - constructor; [by constructor|]. constructor; [done|].
    eapply Forall_impl; [exact HF|]. intros x Hx. cbn in *. by etrans.
  - constructor; [done|]. apply Forall_forall. intros x [->|Hx]%obj_set_keys; [done|].
    rewrite Forall_forall in HF. by apply HF.
Qed.

(** ** Well-formed values: every object has its keys in order, each once *)

Inductive json_wf : Json -> Prop :=
| wf_null : json_wf JNull
| wf_bool b : json_wf (JBool b)
| wf_num x : json_wf (JNum x)
| wf_str s : json_wf (JStr s)
| wf_arr l : (forall j, j ∈ l -> json_wf j) -> json_wf (JArr l)
| wf_obj m : keys_sorted m -> (forall kv, kv ∈ m -> json_wf kv.2) -> json_wf (JObj m).

(** ** Totality *)

(** A parse that returns, leaves at most [n] bytes unread, and never clears a
    failure. *)
Definition parsed (n : nat) (ok : bool) (p : Parse) : Prop :=
  exists j r ok', p = Some (j, r, ok') /\ (length r <= n)%nat /\ json_wf j /\ (ok' = true -> ok = true).

Lemma parsed_some n ok j r ok' :
  (length r <= n)%nat -> json_wf j -> (ok' = true -> ok = true) -> parsed n ok (Some (j, r, ok')).
Proof. intros. exists j, r, ok'. done. Qed.

Lemma parsed_weaken n n' ok ok' p :
  parsed n' ok' p -> (n' <= n)%nat -> (ok' = true -> ok = true) -> parsed n ok p.
Proof. intros (j & r & o & -> & Hr & Hj & Ho) Hn Hk. apply parsed_some; [lia|done|auto]. Qed.

Lemma skip_length l : (length (skip l) <= length l)%nat.
Proof. apply span_length. Qed.

Lemma starts_with_length c l : starts_with c l = true -> (0 < length l)%nat.
Proof. destruct l; simpl; [done|lia]. Qed.

Lemma jstr_loop_spec l out ok :
  (length (jstr_loop l out ok).1.2 <= length l)%nat /\ ((jstr_loop l out ok).2 = true -> ok = true).
Proof.
  revert out. induction l as [l IH] using (induction_ltof1 _ (@length byte)). unfold ltof in IH.
  intros out. destruct l as [|c l]; [done|]. cbn [jstr_loop]. destruct (Byte.eqb c quote); [simpl; split; [lia|done]|].
  destruct (Byte.eqb c backslash).
  - destruct l as [|e l]; [simpl; split; [lia|done]|].
    destruct (IH l ltac:(simpl; lia) (out ++ [unescape e])) as [H1 H2]. split; [simpl; lia|done].
  - destruct (IH l ltac:(simpl; lia) (out ++ [c])) as [H1 H2]. split; [simpl; lia|done].
Qed.

Lemma Jstr_spec l ok k r ok' :
  Jstr l ok = (k, r, ok') -> (length r <= length l - 1)%nat /\ (ok' = true -> ok = true).
Proof.
  intros E. destruct (jstr_loop_spec (drop 1 l) [] ok) as [H1 H2]. fold (Jstr l ok) in *.
  rewrite E in *. simpl in *. rewrite length_drop in H1. done.
Qed.

Lemma expect_spec t l ok :
  (length (expect t l ok).1 <= length l)%nat /\ ((expect t l ok).2 = true -> ok = true).
Proof.
  revert l. induction t as [|c t IH]; intros l; [done|]. cbn [expect]. destruct l as [|b l]; [done|].
  destruct (Byte.eqb b c); [|done]. destruct (IH l). simpl. split; [lia|done].
Qed.

Lemma num_token_length l : (length (num_token l).2 <= length l)%nat.
Proof.
  destruct l as [|b l]; [done|]. unfold num_token. destruct (Byte.eqb b x2d); [|apply span_length].
  pose proof (span_length num_char l). destruct (span num_char l). simpl in *. lia.
Qed.

Lemma number_parsed l ok : parsed (length l) ok (Some (number l ok)).
Proof.
  unfold number. pose proof (num_token_length l). destruct (num_token l) as [[|b t] r]; simpl in *;
    apply parsed_some; try done; constructor.
Qed.

Lemma boolean_parsed l ok : parsed (length l) ok (Some (boolean l ok)).
Proof.
  unfold boolean. repeat case_bool_decide; apply parsed_some; rewrite ?length_drop; try done; try lia; constructor.
Qed.

(** The loops, for a [val] that returns on texts shorter than [n]. *)
Section Loops.
  Context (val : text -> bool -> Parse) (n : nat)
    (Hval : forall l ok, (length l < n)%nat -> parsed (length l) ok (val l ok)).

Lemma array_loop_parsed fuel a l ok :
  (length l < fuel)%nat -> (length l < n)%nat -> (forall j, j ∈ a -> json_wf j) ->
  parsed (length l) ok (array_loop val fuel a l ok).
Proof.
  revert a l ok. induction fuel as [|fuel IH]; intros a l ok Hf Hn Ha; [lia|]. cbn [array_loop].
  destruct l as [|c l']; [apply parsed_some; [done|by constructor|done]|]. set (l := c :: l') in *.
  destruct (Hval l ok Hn) as (v & l1 & ok1 & -> & H1 & Hv & Ho). cbv zeta.
  pose proof (skip_length l1) as Hs.
  assert (forall j, j ∈ a ++ [v] -> json_wf j) as Ha' by set_solver.
  destruct (starts_with x2c (skip l1)) eqn:E1.
  - apply starts_with_length in E1. eapply (parsed_weaken _ _ _ ok1); [apply IH| |done]; rewrite ?length_drop; try lia. done.
  - destruct (starts_with x5d (skip l1)) eqn:E2; apply parsed_some; try done; rewrite ?length_drop; try lia; by constructor.
Qed.

Lemma array_parsed l ok :
  (length l <= n)%nat -> (0 < length l)%nat -> parsed (length l) ok (array val l ok).
Proof.
  intros Hn Hp. unfold array. cbv zeta. pose proof (skip_length (drop 1 l)) as Hs. rewrite length_drop in Hs.
  destruct (starts_with x5d (skip (drop 1 l))) eqn:E.
  - apply parsed_some; [rewrite length_drop; lia|constructor; set_solver|done].
  - eapply parsed_weaken; [apply array_loop_parsed; [lia|lia|set_solver]|lia|done].
Qed.

Definition obj_ok (m : list (string * Json)) : Prop := keys_sorted m /\ forall kv, kv ∈ m -> json_wf kv.2.

Lemma empty_object_wf : json_wf (JObj []).
Proof. constructor; [constructor|set_solver]. Qed.

Lemma obj_ok_set k v m : obj_ok m -> json_wf v -> obj_ok (obj_set k v m).
Proof.
  intros [HS HF] Hv. split; [by apply obj_set_sorted|]. intros kv [->|Hx]%obj_set_keys; [done|auto].
Qed.

Lemma object_loop_parsed fuel m l ok :
  (length l < fuel)%nat -> (length l < n)%nat -> obj_ok m ->
  parsed (length l) ok (object_loop val fuel m l ok).
Proof.
  revert m l ok. induction fuel as [|fuel IH]; intros m l ok Hf Hn Hm; [lia|]. cbn [object_loop].
  pose proof empty_object_wf as He.
  destruct l as [|c l']; [by apply parsed_some|]. set (l := c :: l') in *. cbv zeta.
  pose proof (skip_length l) as Hs. destruct (starts_with quote (skip l)) eqn:Eq; cbn [negb]; [|by apply parsed_some].
  apply starts_with_length in Eq. destruct (Jstr (skip l) ok) as [[k l2] ok2] eqn:Ej.
  apply Jstr_spec in Ej as [Hl2 Ho2]. pose proof (skip_length l2) as Hs2.
  destruct (starts_with x3a (skip l2)) eqn:Ec; cbn [negb]; [|apply parsed_some; [lia|done|done]].
  destruct (Hval (drop 1 (skip l2)) ok2) as (v & l4 & ok4 & -> & H4 & Hv & Ho4); [rewrite length_drop; lia|].
  rewrite length_drop in H4. pose proof (skip_length l4) as Hs4.
  pose proof (obj_ok_set (bytes_string k) v m Hm Hv) as Hm'.
  destruct (starts_with x2c (skip l4)) eqn:E1.
  - eapply (parsed_weaken _ _ _ ok4); [apply IH| |auto]; rewrite ?length_drop; try lia. done.
  - destruct (starts_with x7d (skip l4)) eqn:E2; apply parsed_some; rewrite ?length_drop; try lia; try done; auto.
    destruct Hm'. by constructor.
Qed.

Lemma object_parsed l ok :
  (length l <= n)%nat -> (0 < length l)%nat -> parsed (length l) ok (object val l ok).
Proof.
  intros Hn Hp. unfold object. cbv zeta. pose proof (skip_length (drop 1 l)) as Hs. rewrite length_drop in Hs.
  destruct (starts_with x7d (skip (drop 1 l))) eqn:E.
  - apply parsed_some; [rewrite length_drop; lia|apply empty_object_wf|done].
  - eapply parsed_weaken; [apply object_loop_parsed; [lia|lia|]|lia|done]. split; [constructor|set_solver].
Qed.

End Loops.

Lemma value_parsed depth l ok : (length l < depth)%nat -> parsed (length l) ok (value depth l ok).
Proof.
  revert l ok. induction depth as [|d IH]; intros l ok Hd; [lia|]. cbn [value]. cbv zeta.
  pose proof (skip_length l) as Hs.
  destruct (skip l) as [|c l'] eqn:E; [apply parsed_some; [simpl; lia|constructor|done]|].
  rewrite <- E in *. assert (0 < length (skip l))%nat as Hp by (rewrite E; simpl; lia).
  eapply parsed_weaken; [|exact Hs|exact id].
  destruct (Byte.eqb c x7b); [apply (object_parsed _ d); [done|lia|done]|].
  destruct (Byte.eqb c x5b); [apply (array_parsed _ d); [done|lia|done]|].
  destruct (Byte.eqb c quote).
  { destruct (Jstr (skip l) ok) as [[s r] ok'] eqn:Ej. apply Jstr_spec in Ej as [? ?].
    apply parsed_some; [lia|constructor|done]. }
  destruct (_ || _); [apply boolean_parsed|].
  destruct (Byte.eqb c x6e); [|apply number_parsed].
  pose proof (expect_spec (string_bytes "null") (skip l) ok) as [? ?].
  destruct (expect _ _ _) as [r ok']. apply parsed_some; [done|constructor|done].
Qed.

(** C39: Parsing always returns, on any text: the recursion is never deeper than
    the text is long and every loop consumes input; and what it returns is
    well formed (each object has its keys in order and without duplicates),
    also when the text was malformed. *)
Theorem json_parser_is_total (s : text) :
  exists j ok, parse_json s = Some (j, ok) /\ json_wf j.
Proof.
  destruct (value_parsed (Datatypes.S (length s)) s true ltac:(lia)) as (j & r & ok & E & _ & Hj & _).
  unfold parse_json, parse_with. rewrite E. by eexists _, _.
Qed.

(** ** Depth *)

(** Text that opens [n + 1] arrays makes [value] call itself more than [n]
    levels deep. *)
Lemma nesting_needs_depth n ok : value n (replicate (Datatypes.S n) x5b) ok = None.
Proof.
  revert ok. induction n as [|n IH]; intros ok; [done|]. specialize (IH ok).
  cbn [replicate] in *. cbn [value]. cbv zeta.
  change (skip (x5b :: ?l)) with (x5b :: l).
  replace (Byte.eqb x5b x7b) with false by done. replace (Byte.eqb x5b x5b) with true by done.
  unfold array. cbv zeta. cbn [drop].
  change (skip (x5b :: ?l)) with (x5b :: l). cbn [starts_with length array_loop].
  replace (Byte.eqb x5b x5d) with false by done. by rewrite IH.
Qed.

(** ** Round trip *)

(** A number whose text is one token that [std::strtod] reads back. *)
Definition num_ok (x : f64) : Prop :=
  num_token (print_f64 x) = (print_f64 x, []) /\ strtod (print_f64 x) = x /\ print_f64 x <> [].

(** A key without characters that would need an escape: keys are printed as
    they are. *)
Definition plain (c : byte) : bool := negb (Byte.eqb c quote || Byte.eqb c backslash).
Definition key_ok (k : string) : bool := forallb plain (string_bytes k).

Inductive json_ok : Json -> Prop :=
| ok_null : json_ok JNull
| ok_bool b : json_ok (JBool b)
| ok_num x : num_ok x -> json_ok (JNum x)
| ok_str s : json_ok (JStr s)
| ok_arr l : (forall j, j ∈ l -> json_ok j) -> json_ok (JArr l)
| ok_obj m : keys_sorted m -> (forall kv, kv ∈ m -> key_ok kv.1 = true) ->
    (forall kv, kv ∈ m -> json_ok kv.2) -> json_ok (JObj m).

Lemma byte_eqb_refl b : Byte.eqb b b = true.
Proof. by apply Byte.byte_dec_lb. Qed.
Lemma byte_eqb_eq b c : Byte.eqb b c = true -> b = c.
Proof. apply Byte.byte_dec_bl. Qed.

Lemma jstr_loop_escape s out r ok :
  jstr_loop (escape s ++ quote :: r) out ok = (out ++ s, r, ok).
Proof.
  revert out. induction s as [|c s IH]; intros out.
  { unfold escape. cbn [map concat app jstr_loop]. by rewrite byte_eqb_refl, app_nil_r. }
  unfold escape in *. cbn [map concat]. destruct (Byte.eqb c quote) eqn:Eq; cbn [orb].
  { apply byte_eqb_eq in Eq as ->. cbn [app jstr_loop].
    change (Byte.eqb backslash quote) with false. rewrite byte_eqb_refl, IH, <- app_assoc. done. }
  destruct (Byte.eqb c backslash) eqn:Eb.
  - apply byte_eqb_eq in Eb as ->. cbn [app jstr_loop].
    change (Byte.eqb backslash quote) with false. rewrite byte_eqb_refl, IH, <- app_assoc. done.
  - cbn [app jstr_loop]. by rewrite Eq, Eb, IH, <- app_assoc.
Qed.

Lemma escape_plain s : forallb plain s = true -> escape s = s.
Proof.
  unfold escape. induction s as [|c s IH]; [done|]. cbn [forallb map concat].
  intros [Hc Hs]%andb_true_iff. unfold plain in Hc. apply negb_true_iff in Hc. rewrite Hc.
  simpl. by rewrite IH.
Qed.

Lemma Jstr_escape s r ok : Jstr (quote :: escape s ++ quote :: r) ok = (s, r, ok).
Proof. exact (jstr_loop_escape s [] r ok). Qed.

Lemma Jstr_key k r ok :
  key_ok k = true -> Jstr (quote :: string_bytes k ++ quote :: r) ok = (string_bytes k, r, ok).
Proof. intros Hk. rewrite <- (escape_plain _ Hk) at 1. apply Jstr_escape. Qed.

(** The first byte of a number. *)
Definition num_first (b : byte) : bool := num_char b || Byte.eqb b x2d.

Lemma num_head l : num_token l = (l, []) -> l <> [] -> exists b t, l = b :: t /\ num_first b = true.
Proof.
  intros H Hne. destruct l as [|b l]; [done|]. exists b, l. split; [done|].
  unfold num_first. unfold num_token in H. destruct (Byte.eqb b x2d); [apply orb_true_r|].
  cbn [span] in H. by destruct (num_char b).
Qed.

(** A token ends where a character that is not part of numbers follows. *)
Lemma num_token_app l r : num_token l = (l, []) -> l <> [] -> stops num_char r -> num_token (l ++ r) = (l, r).
Proof.
  intros H Hne Hr.
  assert (forall a, span num_char a = (a, []) -> span num_char (a ++ r) = (a, r)) as Hspan.
  { intros a Ha. apply span_app; [|done]. revert Ha. clear. induction a as [|b a IH]; [done|].
    cbn [span forallb]. destruct (num_char b); [|done]. destruct (span num_char a) as [x y].
    intros [= -> ->]. by apply IH. }
  destruct l as [|b l]; [done|]. unfold num_token in *. cbn [app].
  destruct (Byte.eqb b x2d); [|by apply (Hspan (b :: l))].
  destruct (span num_char l) as [x y] eqn:E. simplify_eq. by rewrite Hspan.
Qed.

(** Bytes that classify the start of a value, decided by enumeration. *)
Lemma num_first_kind b : num_first b = true ->
  ws b = false /\ Byte.eqb b x7b = false /\ Byte.eqb b x5b = false /\ Byte.eqb b quote = false /\
  (Byte.eqb b x74 || Byte.eqb b x66) = false /\ Byte.eqb b x6e = false /\ Byte.eqb b x5d = false.
Proof. by destruct b. Qed.

(** A printed value starts with a character that is neither white space nor a
    closing bracket. *)
Lemma dump_head j : json_ok j -> exists b t, dump_json j = b :: t /\ ws b = false /\ Byte.eqb b x5d = false.
Proof.
  destruct 1 as [|[]|x Hx|s|l|m]; simpl; try by eexists _, _.
  destruct Hx as (H1 & _ & H2). destruct (num_head _ H1 H2) as (b & t & -> & Hb).
  destruct (num_first_kind b Hb) as (? & _ & _ & _ & _ & _ & ?). by eexists _, _.
Qed.

Lemma skip_head b l : ws b = false -> skip (b :: l) = b :: l.
Proof. intros H. unfold skip. cbn [span]. by rewrite H. Qed.

Lemma skip_dump j r : json_ok j -> skip (dump_json j ++ r) = dump_json j ++ r.
Proof. intros Hj. destruct (dump_head j Hj) as (b & t & -> & Hb & _). by apply skip_head. Qed.

(** What a reader of values must do with the printed values of an array or an
    object. *)
Definition reads_json (val : text -> bool -> Parse) (j : Json) : Prop :=
  forall r ok, stops num_char r -> val (dump_json j ++ r) ok = Some (j, r, ok).

Lemma join_cons a b l : join (a :: b :: l) = a ++ x2c :: join (b :: l).
Proof. done. Qed.

Section Elements.
  Context (val : text -> bool -> Parse).

Lemma array_loop_join fuel a l r ok :
  (forall j, j ∈ l -> json_ok j) -> (forall j, j ∈ l -> reads_json val j) ->
  l <> [] -> (length l <= fuel)%nat ->
  array_loop val fuel a (join (map dump_json l) ++ x5d :: r) ok = Some (JArr (a ++ l), r, ok).
Proof.
  intros Hok Hr Hne. revert a fuel ok. induction l as [|j l IH]; intros a fuel ok Hf; [done|].
  destruct fuel as [|fuel]; [simpl in Hf; lia|].
  destruct (dump_head j ltac:(apply Hok; set_solver)) as (b & t & Ej & _ & _).
  assert (forall y r ok, array_loop val (Datatypes.S fuel) a (dump_json j ++ y :: r) ok =
    match val (dump_json j ++ y :: r) ok with
    | None => None
    | Some (v, l1, ok1) =>
        let l2 := skip l1 in
        if starts_with x2c l2 then array_loop val fuel (a ++ [v]) (drop 1 l2) ok1
        else if starts_with x5d l2 then Some (JArr (a ++ [v]), drop 1 l2, ok1)
        else Some (JArr (a ++ [v]), l2, false)
    end) as Hunf by (intros; by rewrite Ej).
  destruct l as [|j' l].
  - cbn [map join]. rewrite Hunf, (Hr j) by (done || set_solver). done.
  - cbn [map]. rewrite join_cons, <- app_assoc. cbn [app]. rewrite Hunf, (Hr j) by (done || set_solver).
    cbv zeta. rewrite skip_head by done. replace (starts_with x2c (x2c :: _)) with true by done.
    cbn [drop]. rewrite ?drop_0. change (dump_json j' :: map dump_json l) with (map dump_json (j' :: l)).
    rewrite IH; [by rewrite <- app_assoc|set_solver..|simpl in *; lia].
Qed.

Lemma obj_set_append k v m :
  Forall (fun kv => str_lt kv.1 k) m -> obj_set k v m = m ++ [(k, v)].
Proof.
  induction 1 as [|[k1 v1] m Hlt _ IH]; [done|]. cbn [obj_set app]. simpl in Hlt.
  destruct (string_compare_spec k k1) as [->|Hk|_]; [by apply str_lt_irrefl in Hlt| |by rewrite IH].
  exfalso. apply (str_lt_irrefl k). by trans k1.
Qed.

Definition dump_field (kv : string * Json) : text :=
  quote :: string_bytes kv.1 ++ [quote; x3a] ++ dump_json kv.2.

Lemma object_loop_join fuel m0 m r ok :
  keys_sorted (m0 ++ m) -> (forall kv, kv ∈ m -> key_ok kv.1 = true) ->
  (forall kv, kv ∈ m -> reads_json val kv.2) -> m <> [] -> (length m <= fuel)%nat ->
  object_loop val fuel m0 (join (map dump_field m) ++ x7d :: r) ok = Some (JObj (m0 ++ m), r, ok).
Proof.
  intros HS HK HR Hne. revert m0 fuel ok HS. induction m as [|[k v] m IH]; intros m0 fuel ok HS Hf; [done|].
  destruct fuel as [|fuel]; [simpl in Hf; lia|].
  assert (obj_set k v m0 = m0 ++ [(k, v)]) as Hset.
  { apply obj_set_append. apply Forall_forall. intros x Hx. revert HS. clear -Hx. unfold keys_sorted.
    induction m0 as [|y m0 IH]; [set_solver|]. intros HS. apply StronglySorted_inv in HS as [HS HF].
    apply elem_of_cons in Hx as [->|Hx]; [|by apply IH].
    rewrite Forall_forall in HF. apply (HF (k, v)). set_solver. }
  assert (forall y r ok, stops num_char (y :: r) ->
    object_loop val (Datatypes.S fuel) m0 (dump_field (k, v) ++ y :: r) ok =
    (let l5 := skip (y :: r) in
     if starts_with x2c l5 then object_loop val fuel (m0 ++ [(k, v)]) (drop 1 l5) ok
     else if starts_with x7d l5 then Some (JObj (m0 ++ [(k, v)]), drop 1 l5, ok)
     else Some (JObj [], l5, false))) as Hunf.
  { intros y r' ok' Hy. unfold dump_field. cbn [fst snd app object_loop]. cbv zeta.
    rewrite skip_head by done. replace (starts_with quote (quote :: _)) with true by done. cbn [negb].
    rewrite <- app_assoc. cbn [app]. rewrite Jstr_key by (apply (HK (k, v)); set_solver).
    rewrite skip_head by done. replace (starts_with x3a (x3a :: _)) with true by done. cbn [negb drop].
    pose proof (HR (k, v) ltac:(set_solver)) as HRv. unfold reads_json in HRv. cbn [snd] in HRv.
    rewrite drop_0, HRv by done. by rewrite bytes_string_bytes, Hset. }
  destruct m as [|kv' m].
  - cbn [map join]. rewrite Hunf by done. done.
  - cbn [map]. rewrite join_cons, <- app_assoc. cbn [app]. rewrite Hunf by done.
    cbv zeta. rewrite skip_head by done. replace (starts_with x2c (x2c :: _)) with true by done.
    cbn [drop]. rewrite ?drop_0. change (dump_field kv' :: map dump_field m) with (map dump_field (kv' :: m)).
    rewrite IH; [by rewrite <- app_assoc|set_solver..|by rewrite <- app_assoc|simpl in *; lia].
Qed.

End Elements.

(** ** The whole value *)

Lemma join_length l x : x ∈ l -> (length x <= length (join l))%nat.
Proof.
  induction l as [|a l IH]; intros H; [set_solver|]. destruct l as [|b l].
  - set_solver.
  - rewrite join_cons, length_app. cbn [length]. apply elem_of_cons in H as [->|H]; [lia|]. apply IH in H. lia.
Qed.

Lemma join_count (l : list text) : (forall x, x ∈ l -> (0 < length x)%nat) -> (length l <= length (join l))%nat.
Proof.
  induction l as [|a l IH]; intros H; [done|]. destruct l as [|b l].
  - cbn [join length]. apply H. set_solver.
  - rewrite join_cons, length_app. cbn [length] in *. pose proof (H a ltac:(set_solver)).
    assert (Datatypes.S (length l) <= length (join (b :: l)))%nat by (apply IH; set_solver). lia.
Qed.

Lemma dump_nonempty j : json_ok j -> (0 < length (dump_json j))%nat.
Proof. intros Hj. destruct (dump_head j Hj) as (b & t & -> & _). simpl. lia. Qed.

Lemma value_dump j depth : json_ok j -> (length (dump_json j) < depth)%nat -> reads_json (value depth) j.
Proof.
  revert depth. induction j as [|b|x|s|l IH|m IH] using Json_ind; intros depth Hj Hd r ok Hr;
    (destruct depth as [|d]; [lia|]); cbn [value]; cbv zeta; rewrite skip_dump by done.
  - done.
  - by destruct b.
  - inversion Hj as [| |? (H1 & H2 & H3)| | |]; subst. cbn [dump_json].
    destruct (num_head _ H1 H3) as (b & t & E & Hb).
    destruct (num_first_kind b Hb) as (_ & E1 & E2 & E3 & E4 & E5 & _).
    unfold number. rewrite num_token_app by done.
    rewrite E. cbn [app]. rewrite E1, E2, E3, E4, E5. rewrite <- E. by rewrite H2.
  - cbn [dump_json app]. replace (Byte.eqb quote x7b) with false by done.
    replace (Byte.eqb quote x5b) with false by done. replace (Byte.eqb quote quote) with true by done.
    rewrite <- app_assoc. cbn [app]. by rewrite Jstr_escape, bytes_string_bytes.
  - inversion Hj as [| | | |? Hl|]; subst. cbn [dump_json length] in *. rewrite length_app in Hd. cbn [app length] in *.
    replace (Byte.eqb x5b x7b) with false by done. replace (Byte.eqb x5b x5b) with true by done.
    unfold array. cbv zeta. cbn [drop]. rewrite ?drop_0. rewrite <- app_assoc. cbn [app].
    destruct (decide (l = [])) as [->|Hne]; [done|].
    assert (exists b t, join (map dump_json l) ++ x5d :: r = b :: t /\ ws b = false /\ Byte.eqb b x5d = false)
      as (b & t & E & Hb & Hc).
    { destruct l as [|j l]; [done|]. destruct (dump_head j ltac:(apply Hl; set_solver)) as (b & t & E & Hb & Hc).
      destruct l; cbn [map join]; rewrite E; by eexists _, _. }
    rewrite E, skip_head by done. cbn [starts_with]. rewrite Hc, <- E.
    rewrite Forall_forall in IH. apply array_loop_join; [done| |done|].
    + intros j Hj'. apply IH; [done|by apply Hl|].
      assert (length (dump_json j) <= length (join (map dump_json l)))%nat
        by (apply join_length, list_elem_of_fmap; by eexists). lia.
    + rewrite <- (length_map dump_json l). rewrite length_app.
      assert (length (map dump_json l) <= length (join (map dump_json l)))%nat; [|lia].
      apply join_count. intros x (j & -> & Hj')%list_elem_of_fmap. by apply dump_nonempty, Hl.
  - inversion Hj as [| | | | |? HS HK HV]; subst. cbn [dump_json length] in *. rewrite length_app in Hd.
    cbn [app length] in *. change (map _ m) with (map dump_field m) in *.
    replace (Byte.eqb x7b x7b) with true by done.
    unfold object. cbv zeta. cbn [drop]. rewrite ?drop_0. rewrite <- app_assoc. cbn [app].
    destruct (decide (m = [])) as [->|Hne]; [done|].
    assert (exists t, join (map dump_field m) ++ x7d :: r = quote :: t) as (t & E).
    { destruct m as [|kv [|kv' m]]; [done|by eexists..]. }
    rewrite E, skip_head by done. replace (starts_with x7d (quote :: t)) with false by done. rewrite <- E.
    rewrite Forall_forall in IH. apply (object_loop_join _ _ []); [done|done| |done|].
    + intros kv Hkv. apply IH; [done|by apply HV|].
      assert (length (dump_field kv) <= length (join (map dump_field m)))%nat
        by (apply join_length, list_elem_of_fmap; by eexists).
      unfold dump_field in *. cbn [length] in *. rewrite !length_app in *. lia.
    + rewrite <- (length_map dump_field m). rewrite length_app.
      assert (length (map dump_field m) <= length (join (map dump_field m)))%nat; [|lia].
      apply join_count. intros x (kv & -> & _)%list_elem_of_fmap. unfold dump_field. cbn [length]. lia.
Qed.

Lemma parse_dump j : json_ok j -> parse_json (dump_json j) = Some (j, true).
Proof.
  intros Hj. unfold parse_json, parse_with.
  pose proof (value_dump j (Datatypes.S (length (dump_json j))) Hj ltac:(lia) [] true I) as E.
  rewrite app_nil_r in E. by rewrite E.
Qed.

(** Integers below 2^53 can be printed. *)
Lemma num_ok_int z : - 2 ^ 53 < z < 2 ^ 53 -> num_ok (f64_of_Z z).
Proof.
  intros Hz. unfold num_ok. rewrite print_f64_of_Z, strtod_dec_int by done. unfold dec_int.
  pose proof (dec_digits (Z.abs z) ltac:(lia)) as Hd. pose proof (dec_nonempty (Z.abs z) ltac:(lia)) as Hne.
  assert (span num_char (dec (Z.abs z)) = (dec (Z.abs z), [])) as Hs.
  { apply span_all. apply forallb_forall. intros b Hb. rewrite forallb_forall in Hd.
    unfold num_char. by rewrite (Hd b Hb). }
  split_and!; [|done|by destruct (z <? 0)].
  destruct (z <? 0); cbn [sign_text app]; unfold num_token.
  - replace (Byte.eqb x2d x2d) with true by done. by rewrite Hs.
  - destruct (dec (Z.abs z)) as [|b t] eqn:E; [done|]. cbn [forallb] in Hd.
    apply andb_true_iff in Hd as [Hb _]. by rewrite (digit_neq b) by done.
Qed.
