(* ===== verification/Protocol.v ===== *)
(** * The wire protocol

    [src/protocol.hpp]: JSON messages over framed connections, identifiers as
    decimal strings, numbers as doubles, and the request specification as a
    message. *)

From S2P Require Import Prelude Enums Ids Float64 Types State Bytes Envelope Net Decimal Json JsonSpec.
Open Scope Z_scope.

(** ** Messages *)

Section Messages.
  Context {K : Type} `{!Socket K}.

(** A null [shared_ptr] is [None]; the outer [option] of the results is that of
    the socket loops. *)
Definition send_json (c : option FramedConnection) (j : Json) : ST K (option bool) :=
  match c with
  | None => mret (Some false)
  | Some c => conn_send c (dump_json j)
  end.

Definition parsed_or_null (p : text) : option Json :=
  match parse_json p with
  | Some (j, ok) => Some (if ok : bool then j else JNull)
  | None => None
  end.

Definition recv_json (c : option FramedConnection) : ST K (option Json) :=
  match c with
  | None => mret (Some JNull)
  | Some c =>
      r ← conn_recv c;
      mret match r with
           | Some (true, p) => parsed_or_null p
           | Some (false, _) => Some JNull
           | None => None
           end
  end.

End Messages.

(** ** Numbers in messages *)

Definition id_json (v : Z) : Json := JStr (bytes_string (dec v)).
Definition int_json (v : Z) : Json := JNum (f64_of_Z v).

(** The integer part of a finite double. *)
Definition f64_trunc (x : f64) : option Z :=
  match x with
  | S754_zero _ => Some 0
  | S754_finite s m e =>
      let v := cond_Zopp s (Z.pos m) in
      Some (if 0 <=? e then v * 2 ^ e else Z.quot v (2 ^ (- e)))
  | S754_infinity _ | S754_nan => None
  end.

Section Casts.
  Context `{Env}.

(** [static_cast] of a double to [std::uint64_t], [std::int64_t] and [int]; out
    of range C++ leaves the value undefined, here what the platform gives. *)
Definition cast_to (in_range : Z -> bool) (wrap : Z -> Z) (x : f64) : Z :=
  match f64_trunc x with
  | Some z => if in_range z then z else wrap (env_cast x)
  | None => wrap (env_cast x)
  end.

Definition to_u64 : f64 -> Z := cast_to (fun z => (0 <=? z) && (z <? 2 ^ 64)) u64.
Definition to_i64 : f64 -> Z := cast_to in_int64 i64.
Definition to_i32 : f64 -> Z := cast_to (fun z => (- 2 ^ 31 <=? z) && (z <? 2 ^ 31)) i32.

Definition jsu64 (v : Json) (dflt : Z) : Z :=
  match v with
  | JStr s => strtoull (string_bytes s)
  | JNum x => to_u64 x
  | _ => dflt
  end.

Definition num_u64 (j : Json) (k : string) (dflt : Z) : Z :=
  match jget j k with
  | None => dflt
  | Some (JStr s) => strtoull (string_bytes s)
  | Some (JNum x) => to_u64 x
  | Some _ => dflt
  end.

(** [static_cast<int>(j.getnum(k, dflt))] and the like. *)
Definition int_of (j : Json) (k : string) (dflt : Z) : Z := to_i32 (getnum j k (f64_of_Z dflt)).
Definition i64_of (j : Json) (k : string) (dflt : Z) : Z := to_i64 (getnum j k (f64_of_Z dflt)).

(** ** Request specifications *)

Definition deadline_ms (d : Deadline) : Z := if dl_valid d then remaining d 0 else -1.

Definition spec_fields (s : RequestSpec) : list (string * Json) :=
  [ ("kind", JStr "spec");
    ("tenant", id_json (spec_tenant s));
    ("session", id_json (spec_session s));
    ("sequence", id_json (spec_sequence s));
    ("model", id_json (spec_model s));
    ("revision", id_json (spec_revision s));
    ("adapter", id_json (spec_adapter s));
    ("phase", int_json (RequestPhase_int (spec_phase s)));
    ("priority", int_json (PriorityClass_int (spec_priority s)));
    ("latency", int_json (LatencyClass_int (spec_latency_class s)));
    ("tin", int_json (te_input (spec_tokens s)));
    ("tout", int_json (te_output (spec_tokens s)));
    ("tdec", int_json (te_decoded (spec_tokens s)));
    ("cost", JNum (rd_cost_units (spec_demand s)));
    ("mem", int_json (spec_estimated_memory_bytes s));
    ("deadline_ms", int_json (deadline_ms (spec_deadline s)));
    ("maxbatch", int_json (spec_max_batch_size s));
    ("payload", JStr (spec_payload s)) ]%string.

Definition spec_to_json (s : RequestSpec) : Json := jobject (spec_fields s).

(** [None]: an integer without enumerator was cast to an enumeration. *)
Definition spec_from_json (j : Json) : option RequestSpec :=
  phase ← RequestPhase_of_int (int_of j "phase" 1);
  priority ← PriorityClass_of_int (int_of j "priority" 2);
  latency ← LatencyClass_of_int (int_of j "latency" 2);
  Some (default_spec
    <| spec_tenant := num_u64 j "tenant" 0 |> <| spec_session := num_u64 j "session" 0 |>
    <| spec_sequence := num_u64 j "sequence" 0 |> <| spec_model := num_u64 j "model" 0 |>
    <| spec_revision := num_u64 j "revision" 0 |> <| spec_adapter := num_u64 j "adapter" 0 |>
    <| spec_phase := phase |> <| spec_priority := priority |> <| spec_latency_class := latency |>
    <| spec_tokens := mkTokenEstimate (i64_of j "tin" 0) (i64_of j "tout" 0) (i64_of j "tdec" 0) |>
    <| spec_demand := default_demand <| rd_cost_units := getnum j "cost" fone |> |>
    <| spec_estimated_memory_bytes := i64_of j "mem" 0 |>
    <| spec_max_batch_size := int_of j "maxbatch" 0 |>
    <| spec_payload := getstr j "payload" EmptyString |>).

End Casts.
