(* ===== verification/ProtocolSpec.v ===== *)
(** * Messages arrive as they were sent

    Values survive the text form, messages survive the framed connection, and a
    request specification survives as a message, up to the fields the message
    does not carry. *)

From S2P Require Import Prelude Enums Ids Float64 FloatExact Types State Bytes Envelope Net Decimal Json JsonSpec Protocol PersistCodec Demo.
Open Scope Z_scope.

(** ** Objects built field by field *)

Lemma jset_ok k v j : is_obj j = true -> key_ok k = true -> json_ok v -> json_ok j -> json_ok (jset k v j) /\ is_obj (jset k v j) = true.
Proof.
  intros Ho Hk Hv Hj. destruct j as [| | | | |m]; try done. split; [|done].
  inversion Hj as [| | | | |? HS HK HV]; subst. constructor; [by apply obj_set_sorted| |];
    intros kv [->|Hx]%obj_set_keys; auto.
Qed.

(** The fields of a message can be printed. *)
Definition fields_ok (kvs : list (string * Json)) : Prop :=
  Forall (fun kv => key_ok kv.1 = true /\ json_ok kv.2) kvs.

Lemma json_ok_object kvs : fields_ok kvs -> json_ok (jobject kvs).
Proof.
  intros HF. unfold jobject.
  assert (forall j, is_obj j = true -> json_ok j -> json_ok (fold_left (fun j kv => jset kv.1 kv.2 j) kvs j)) as Hg.
  { induction HF as [|kv kvs [Hk Hv] _ IH]; intros j Ho Hj; [done|]. cbn [fold_left].
    destruct (jset_ok kv.1 kv.2 j Ho Hk Hv Hj). by apply IH. }
  apply Hg; [done|]. constructor; [constructor|set_solver..].
Qed.

(** The last assignment to a key is the one that is read. *)
Lemma jget_object kvs k : jget (jobject kvs) k = obj_find k (rev kvs).
Proof.
  unfold jobject, jget. rewrite <- (rev_involutive kvs) at 1. generalize (rev kvs). clear kvs. intros l.
  rewrite <- fold_left_rev_right, rev_involutive.
  assert (is_obj (fold_right (fun kv j => jset kv.1 kv.2 j) (JObj []) l) = true /\
    obj_find k (obj_fields (fold_right (fun kv j => jset kv.1 kv.2 j) (JObj []) l)) = obj_find k l) as [_ H]; [|exact H].
  induction l as [|[k' v] l [IH1 IH2]]; [done|]. cbn [fold_right fst snd].
  destruct (fold_right _ _ l) as [| | | | |m]; try done. cbn [jset obj_fields] in *. split; [done|].
  rewrite obj_find_set, IH2. done.
Qed.

Lemma json_ok_int z : - 2 ^ 53 < z < 2 ^ 53 -> json_ok (int_json z).
Proof. intros. constructor. by apply num_ok_int. Qed.

Lemma json_ok_id v : json_ok (id_json v).
Proof. constructor. Qed.

Create HintDb message discriminated.
#[export] Hint Resolve json_ok_id json_ok_int ok_str ok_bool ok_null ok_num : message.

(** ** Reading fields *)

Section Reading.
  Context `{Env}.

Lemma f64_trunc_int z : - 2 ^ 53 < z < 2 ^ 53 -> f64_trunc (f64_of_Z z) = Some z.
Proof.
  intros Hz. destruct z as [|m|m]; [done| |]; unfold f64_of_Z, binary_normalize;
    [destruct (f64_of_pos false m) as (m' & k & -> & Hk & Em)|
     destruct (f64_of_pos true m) as (m' & k & -> & Hk & Em)]; try lia;
    cbn [f64_trunc cond_Zopp]; rewrite Em; f_equal;
    (destruct (Z.leb_spec 0 (- k)) as [H0|H0];
      [assert (k = 0) as -> by lia; simpl; lia|]);
    rewrite Z.opp_involutive; pose proof (Z.pow_pos_nonneg 2 k ltac:(lia) Hk).
  - by rewrite Z.quot_mul by lia.
  - rewrite <- Z.mul_opp_l. by rewrite Z.quot_mul by lia.
Qed.

Lemma cast_int f w z : - 2 ^ 53 < z < 2 ^ 53 -> f z = true -> cast_to f w (f64_of_Z z) = z.
Proof. intros Hz Hf. unfold cast_to. by rewrite f64_trunc_int, Hf. Qed.

Lemma int_of_field kvs k d z :
  obj_find k (rev kvs) = Some (int_json z) -> - 2 ^ 31 <= z < 2 ^ 31 -> int_of (jobject kvs) k d = z.
Proof.
  intros E Hz. unfold int_of, getnum. rewrite jget_object, E. apply cast_int; [lia|]. apply andb_true_iff. lia.
Qed.

Lemma i64_of_field kvs k d z :
  obj_find k (rev kvs) = Some (int_json z) -> - 2 ^ 53 < z < 2 ^ 53 -> i64_of (jobject kvs) k d = z.
Proof.
  intros E Hz. unfold i64_of, getnum. rewrite jget_object, E. apply cast_int; [lia|]. unfold in_int64. apply andb_true_iff. lia.
Qed.

Lemma num_u64_field kvs k d v :
  obj_find k (rev kvs) = Some (id_json v) -> 0 <= v < 2 ^ 64 -> num_u64 (jobject kvs) k d = v.
Proof.
  intros E Hv. unfold num_u64. rewrite jget_object, E. unfold id_json. rewrite string_bytes_string. by apply strtoull_dec.
Qed.

(** ** The round trip of a specification *)

Definition u64_ok (v : Z) : Prop := 0 <= v < 2 ^ 64.
Definition exact (z : Z) : Prop := - 2 ^ 53 < z < 2 ^ 53.

(** The values a message carries without loss. *)
Record spec_ok (s : RequestSpec) : Prop := {
  so_ids : Forall u64_ok [spec_tenant s; spec_session s; spec_sequence s; spec_model s; spec_revision s; spec_adapter s];
  so_counts : Forall exact [te_input (spec_tokens s); te_output (spec_tokens s); te_decoded (spec_tokens s);
    spec_estimated_memory_bytes s];
  so_batch : - 2 ^ 31 <= spec_max_batch_size s < 2 ^ 31;
  so_cost : num_ok (rd_cost_units (spec_demand s));
  so_deadline : - 2 ^ 63 <= dl_point (spec_deadline s) < 2 ^ 63
}.

(** What is left of a specification: the deadline, the budget, the locality and
    warmth hints, the model name, the interactive flag and the demand other
    than its cost take their defaults. *)
Definition wire_spec (s : RequestSpec) : RequestSpec :=
  default_spec
    <| spec_tenant := spec_tenant s |> <| spec_session := spec_session s |>
    <| spec_sequence := spec_sequence s |> <| spec_model := spec_model s |>
    <| spec_revision := spec_revision s |> <| spec_adapter := spec_adapter s |>
    <| spec_phase := spec_phase s |> <| spec_priority := spec_priority s |>
    <| spec_latency_class := spec_latency_class s |> <| spec_tokens := spec_tokens s |>
    <| spec_demand := default_demand <| rd_cost_units := rd_cost_units (spec_demand s) |> |>
    <| spec_estimated_memory_bytes := spec_estimated_memory_bytes s |>
    <| spec_max_batch_size := spec_max_batch_size s |> <| spec_payload := spec_payload s |>.

Lemma deadline_ms_exact d : - 2 ^ 63 <= dl_point d < 2 ^ 63 -> exact (deadline_ms d).
Proof.
  intros Hd. unfold exact, deadline_ms, remaining. destruct (dl_valid d); cbn [negb]; [|lia].
  rewrite Z.sub_0_r, i64_id by lia. destruct (Z.ltb_spec (dl_point d) 0); [lia|].
  unfold ns_per_ms. rewrite Z.quot_div_nonneg by lia.
  pose proof (Z.div_le_upper_bound (dl_point d) 1000000 (2 ^ 53 - 1) ltac:(lia) ltac:(lia)).
  pose proof (Z.div_pos (dl_point d) 1000000 ltac:(lia) ltac:(lia)). lia.
Qed.

Lemma phase_exact p : exact (RequestPhase_int p) /\ - 2 ^ 31 <= RequestPhase_int p < 2 ^ 31.
Proof. unfold exact. destruct p; cbn; lia. Qed.
Lemma priority_exact p : exact (PriorityClass_int p) /\ - 2 ^ 31 <= PriorityClass_int p < 2 ^ 31.
Proof. unfold exact. destruct p; cbn; lia. Qed.
Lemma latency_exact p : exact (LatencyClass_int p) /\ - 2 ^ 31 <= LatencyClass_int p < 2 ^ 31.
Proof. unfold exact. destruct p; cbn; lia. Qed.

(** More fields may be added to the message, as [submit] adds its operation. *)
Lemma spec_fields_ok s extra :
  spec_ok s -> fields_ok extra -> json_ok (jobject (spec_fields s ++ extra)).
Proof.
  intros [_ HC HB Hc Hd] He. apply json_ok_object. apply Forall_app. split; [|done].
  rewrite !Forall_cons in HC. destruct HC as (C1 & C2 & C3 & C4 & _).
  pose proof (deadline_ms_exact _ Hd). pose proof (phase_exact (spec_phase s)) as [? _].
  pose proof (priority_exact (spec_priority s)) as [? _]. pose proof (latency_exact (spec_latency_class s)) as [? _].
  unfold exact in *. repeat (apply Forall_cons; split; [split; [done|]|]); try apply Forall_nil; cbn [snd];
    first [constructor; done | apply json_ok_int; lia].
Qed.

#[local] Opaque num_u64 int_of i64_of.

Lemma spec_from_fields s op :
  spec_ok s ->
  spec_from_json (jobject (spec_fields s ++ [("op"%string, op)])) = Some (wire_spec s).
Proof.
  intros [HI HC HB Hc Hd]. rewrite !Forall_cons in HI. rewrite !Forall_cons in HC.
  destruct HI as (I1 & I2 & I3 & I4 & I5 & I6 & _), HC as (C1 & C2 & C3 & C4 & _).
  unfold spec_from_json. set (kvs := spec_fields s ++ _).
  rewrite (int_of_field kvs "phase" 1 (RequestPhase_int (spec_phase s)) eq_refl (proj2 (phase_exact (spec_phase s)))).
  rewrite (int_of_field kvs "priority" 2 (PriorityClass_int (spec_priority s)) eq_refl (proj2 (priority_exact (spec_priority s)))).
  rewrite (int_of_field kvs "latency" 2 (LatencyClass_int (spec_latency_class s)) eq_refl (proj2 (latency_exact (spec_latency_class s)))).
  assert (RequestPhase_of_int (RequestPhase_int (spec_phase s)) = Some (spec_phase s)) as -> by (by destruct (spec_phase s)).
  assert (PriorityClass_of_int (PriorityClass_int (spec_priority s)) = Some (spec_priority s)) as -> by (by destruct (spec_priority s)).
  assert (LatencyClass_of_int (LatencyClass_int (spec_latency_class s)) = Some (spec_latency_class s)) as -> by (by destruct (spec_latency_class s)).
  cbn [mbind option_bind].
  rewrite (num_u64_field kvs "tenant" 0 (spec_tenant s) eq_refl I1).
  rewrite (num_u64_field kvs "session" 0 (spec_session s) eq_refl I2).
  rewrite (num_u64_field kvs "sequence" 0 (spec_sequence s) eq_refl I3).
  rewrite (num_u64_field kvs "model" 0 (spec_model s) eq_refl I4).
  rewrite (num_u64_field kvs "revision" 0 (spec_revision s) eq_refl I5).
  rewrite (num_u64_field kvs "adapter" 0 (spec_adapter s) eq_refl I6).
  rewrite (i64_of_field kvs "tin" 0 (te_input (spec_tokens s)) eq_refl C1).
  rewrite (i64_of_field kvs "tout" 0 (te_output (spec_tokens s)) eq_refl C2).
  rewrite (i64_of_field kvs "tdec" 0 (te_decoded (spec_tokens s)) eq_refl C3).
  rewrite (i64_of_field kvs "mem" 0 (spec_estimated_memory_bytes s) eq_refl C4).
  rewrite (int_of_field kvs "maxbatch" 0 (spec_max_batch_size s) eq_refl HB).
  unfold getnum, getstr. rewrite !jget_object. cbn [obj_find].
  unfold wire_spec. by destruct (spec_tokens s).
Qed.

End Reading.

(** ** Over the connection *)

Section Wire.
  Context {K1 K2} `{!Socket K1, !StreamSocket K1, !Socket K2, !StreamSocket K2, !LiveSocket K2}.

Lemma recv_json_ends (c : option FramedConnection) (s : K2) : is_Some (result (recv_json c) s).
Proof.
  destruct c as [c|]; [|by eexists]. cbn [recv_json]. rewrite result_bind, result_ret.
  destruct (conn_recv_ends c s) as [[[] p] ->]; [|by eexists]. unfold parsed_or_null.
  destruct (value_parsed (Datatypes.S (length p)) p true ltac:(lia)) as (j & r & ok & E & _).
  unfold parse_json, parse_with. rewrite E. by eexists.
Qed.

(** A printable message that was sent is the message received. *)
Lemma json_arrives c1 c2 j (s1 : K1) (s2 : K2) :
  json_ok j -> result (send_json (Some c1) j) s1 = Some true ->
  k_arriving s2 = sent (send_json (Some c1) j) s1 -> 0 <= fc_fd c2 ->
  result (recv_json (Some c2)) s2 = Some j.
Proof.
  intros Hj Hs Ha Hc. unfold sent in Ha. cbn [send_json] in *.
  destruct (conn_send_frame c1 (dump_json j) s1 Hs) as [Ew Hm].
  rewrite Ew, drop_app_length in Ha. rewrite <- (app_nil_r (frame_of _)) in Ha.
  assert (sendable (dump_json j) = true) as Hsend.
  { unfold sendable. pose proof (dump_nonempty j Hj). apply andb_true_iff. unfold bsize in *. lia. }
  destruct (conn_recv_live c2 s2 _ _ Hc Hsend Ha) as [Er _].
  cbn [recv_json]. rewrite result_bind, result_ret, Er. unfold parsed_or_null. by rewrite parse_dump.
Qed.

End Wire.

(** The client's [submit] message. *)
Definition submit_message (s : RequestSpec) : Json := jset "op" (JStr "submit") (spec_to_json s).

Lemma submit_message_fields s :
  submit_message s = jobject (spec_fields s ++ [("op"%string, JStr "submit")]).
Proof. unfold submit_message, spec_to_json, jobject. by rewrite fold_left_app. Qed.

(** Printing and parsing.  What [dump_json] prints, [parse_json] reads back
    as the same value without complaint, for values whose keys need no escape
    (strings may hold any bytes) and whose numbers are read back, as every
    integer below 2^53 is ([num_ok_int]). *)
Theorem json_reads_back_what_it_prints (j : Json) :
  json_ok j -> parse_json (dump_json j) = Some (j, true).
Proof. apply parse_dump. Qed.

Lemma json_reads_back_what_it_prints_witness :
  parse_json (dump_json (jobject [("b", JArr [int_json 7; JNull]); ("a", JStr "x")]%string))
    = Some (jobject [("b", JArr [int_json 7; JNull]); ("a", JStr "x")]%string, true).
Proof.
  apply json_reads_back_what_it_prints. apply json_ok_object.
  repeat (apply Forall_cons; split; [split; [done|]|]); try apply Forall_nil; constructor.
  intros j [->|[->|[]%elem_of_nil]%elem_of_cons]%elem_of_cons; [by apply json_ok_int|constructor].
Defined.

(** C38: A submitted request arrives.  When the client's [submit] message was
    sent, what the coordinator receives from the connection is that message, and
    the specification it reads from it is [wire_spec] of the client's: the
    identifiers, the phase, the classes, the token counts, the cost, the memory,
    the batch limit and the payload are the client's.  The deadline, which the
    message carries as well, is not read: it takes its default, like the fields
    the message does not carry.  (Under [spec_ok]: identifiers of 64 bits, counts
    below 2^53 in magnitude, a batch limit of 32 bits, a deadline within the
    clock's range, and a cost whose decimal text is read back, as every integer
    below 2^53 is and a number below 1e-4 is not.) *)
Theorem submitted_requests_arrive {K1 K2} `{Env}
    `{!Socket K1, !StreamSocket K1, !Socket K2, !StreamSocket K2, !LiveSocket K2}
    (c1 c2 : FramedConnection) (sp : RequestSpec) (s1 : K1) (s2 : K2) :
  spec_ok sp ->
  result (send_json (Some c1) (submit_message sp)) s1 = Some true ->
  k_arriving s2 = sent (send_json (Some c1) (submit_message sp)) s1 -> 0 <= fc_fd c2 ->
  result (recv_json (Some c2)) s2 = Some (submit_message sp) /\
  getstr (submit_message sp) "op" "" = "submit"%string /\
  spec_from_json (submit_message sp) = Some (wire_spec sp).
Proof.
  intros Hsp Hs Ha Hc. rewrite submit_message_fields in *.
  split_and!; [|unfold getstr; by rewrite jget_object|by apply spec_from_fields].
  apply (json_arrives c1 c2 _ s1 s2); [|exact Hs|exact Ha|exact Hc].
  apply spec_fields_ok; [done|]. repeat constructor.
Qed.

Lemma submitted_requests_arrive_witness :
  result (recv_json (Some (mkFramedConnection 4)))
      (mkPipe 6 [] (pp_out (exec (send_json (Some (mkFramedConnection 3)) (submit_message (demo_spec 4))) net_writer)))
      = Some (submit_message (demo_spec 4)) /\
  spec_from_json (submit_message (demo_spec 4)) = Some (wire_spec (demo_spec 4)).
Proof.
  destruct (submitted_requests_arrive (mkFramedConnection 3) (mkFramedConnection 4) (demo_spec 4) net_writer
    (mkPipe 6 [] (pp_out (exec (send_json (Some (mkFramedConnection 3)) (submit_message (demo_spec 4))) net_writer))))
    as (Hr & _ & Hsp).
  - constructor; [| |cbn; lia|split_and!; by vm_compute|cbn; lia];
      repeat (apply Forall_cons; split; [unfold u64_ok, exact; cbn; unfold invalid_id; lia|]); apply Forall_nil_2.
  - by vm_compute.
  - by vm_compute.
  - simpl. lia.
  - split; [exact Hr|exact Hsp].
Defined.
