(* ===== verification/Executor.v ===== *)
(** * Executors

    [include/inference_scheduler/executor.hpp] and [src/cpu_executor.cpp]: the
    work handed to an executor, the interface [Executor] with what its callers
    rely on, and the CPU executor. *)

From S2P Require Import Prelude Enums Ids Float64 Types State.
Open Scope Z_scope.

Record WorkRequest := mkWorkRequest {
  wq_request_id : Z;
  wq_attempt_id : Z;
  wq_generation : Z;
  wq_phase : RequestPhase;
  wq_model : Z;
  wq_revision : Z;
  wq_adapter : Z;
  wq_tokens : TokenEstimate;
  wq_cost_units : Z;
  wq_payload : string;
  wq_batch_index : Z;
  wq_cancel_requested : bool
}.

Definition default_work_request : WorkRequest := {|
  wq_request_id := invalid_id;
  wq_attempt_id := invalid_id;
  wq_generation := invalid_id;
  wq_phase := RP_Prefill;
  wq_model := invalid_id;
  wq_revision := invalid_id;
  wq_adapter := invalid_id;
  wq_tokens := default_tokens;
  wq_cost_units := 1;
  wq_payload := EmptyString;
  wq_batch_index := 0;
  wq_cancel_requested := false
|}.

#[export] Instance WorkRequest_eta : Eta WorkRequest :=
  fun r => mkWorkRequest (wq_request_id r) (wq_attempt_id r) (wq_generation r) (wq_phase r) (wq_model r)
    (wq_revision r) (wq_adapter r) (wq_tokens r) (wq_cost_units r) (wq_payload r) (wq_batch_index r)
    (wq_cancel_requested r).
#[export] Instance upd_wq_request_id : Update wq_request_id. Proof. derive_update. Defined.
#[export] Instance upd_wq_attempt_id : Update wq_attempt_id. Proof. derive_update. Defined.
#[export] Instance upd_wq_generation : Update wq_generation. Proof. derive_update. Defined.
#[export] Instance upd_wq_phase : Update wq_phase. Proof. derive_update. Defined.
#[export] Instance upd_wq_model : Update wq_model. Proof. derive_update. Defined.
#[export] Instance upd_wq_revision : Update wq_revision. Proof. derive_update. Defined.
#[export] Instance upd_wq_adapter : Update wq_adapter. Proof. derive_update. Defined.
#[export] Instance upd_wq_tokens : Update wq_tokens. Proof. derive_update. Defined.
#[export] Instance upd_wq_cost_units : Update wq_cost_units. Proof. derive_update. Defined.
#[export] Instance upd_wq_payload : Update wq_payload. Proof. derive_update. Defined.
#[export] Instance upd_wq_batch_index : Update wq_batch_index. Proof. derive_update. Defined.
#[export] Instance upd_wq_cancel_requested : Update wq_cancel_requested. Proof. derive_update. Defined.

Record WorkResult := mkWorkResult {
  wres_request_id : Z;
  wres_attempt_id : Z;
  wres_generation : Z;
  wres_status : CompletionStatus;
  wres_failure_class : FailureClass;
  wres_output_tokens_produced : Z;
  wres_work_units : Z;
  wres_duration_us : Z;
  wres_error_message : string
}.

#[export] Instance WorkResult_eta : Eta WorkResult :=
  fun r => mkWorkResult (wres_request_id r) (wres_attempt_id r) (wres_generation r) (wres_status r)
    (wres_failure_class r) (wres_output_tokens_produced r) (wres_work_units r) (wres_duration_us r)
    (wres_error_message r).
#[export] Instance upd_wres_request_id : Update wres_request_id. Proof. derive_update. Defined.
#[export] Instance upd_wres_attempt_id : Update wres_attempt_id. Proof. derive_update. Defined.
#[export] Instance upd_wres_generation : Update wres_generation. Proof. derive_update. Defined.
#[export] Instance upd_wres_status : Update wres_status. Proof. derive_update. Defined.
#[export] Instance upd_wres_failure_class : Update wres_failure_class. Proof. derive_update. Defined.
#[export] Instance upd_wres_output_tokens_produced : Update wres_output_tokens_produced. Proof. derive_update. Defined.
#[export] Instance upd_wres_work_units : Update wres_work_units. Proof. derive_update. Defined.
#[export] Instance upd_wres_duration_us : Update wres_duration_us. Proof. derive_update. Defined.
#[export] Instance upd_wres_error_message : Update wres_error_message. Proof. derive_update. Defined.

Definition default_work_result : WorkResult := {|
  wres_request_id := invalid_id;
  wres_attempt_id := invalid_id;
  wres_generation := invalid_id;
  wres_status := CS_Succeeded;
  wres_failure_class := FC_Internal;
  wres_output_tokens_produced := 0;
  wres_work_units := 0;
  wres_duration_us := 0;
  wres_error_message := EmptyString
|}.

(** What names an attempt. *)
Definition work_key (w : WorkRequest) : Z * Z * Z := (wq_request_id w, wq_attempt_id w, wq_generation w).
Definition result_key (r : WorkResult) : Z * Z * Z := (wres_request_id r, wres_attempt_id r, wres_generation r).

(** ** The interface

    [E] is the executor's own state.  A lawful executor answers each request of
    the batch, in order, under the identifiers it was given. *)
Class Executor (E : Type) := {
  ex_name : E -> string;
  ex_run : list WorkRequest -> ST E (list WorkResult)
}.

Class LawfulExecutor (E : Type) `{!Executor E} : Prop :=
  ex_answers batch e : result_key <$> result (ex_run batch) e = work_key <$> batch.

(** ** The CPU executor *)

Record CpuExecutor := mkCpuExecutor { cpu_units_per_cost : Z; cpu_max_units : Z }.

Definition default_cpu_executor : CpuExecutor := mkCpuExecutor 2000 400000.

(** The number of iterations of the inner loop. *)
Definition cpu_work (e : CpuExecutor) (cost_units : Z) : Z :=
  let work := i64 (cost_units * cpu_units_per_cost e) in
  let work := if cpu_max_units e <? work then cpu_max_units e else work in
  if work <? 0 then 0 else work.

(** The inner loop, on its counter and accumulator. *)
Definition cpu_iteration (p : Z * Z) : Z * Z := (p.1 + 1, u64 (p.2 + Z.land p.1 0xFF)).
Definition cpu_acc (work : Z) : Z := (Z.iter work cpu_iteration (0, 0)).2.

Definition cpu_one (e : CpuExecutor) (w : WorkRequest) : WorkResult :=
  let r := default_work_result
    <| wres_request_id := wq_request_id w |> <| wres_attempt_id := wq_attempt_id w |>
    <| wres_generation := wq_generation w |>
    <| wres_output_tokens_produced := te_output (wq_tokens w) |>
    <| wres_work_units := wq_cost_units w |>
    <| wres_duration_us := Z.land (cpu_acc (cpu_work e (wq_cost_units w))) 0xFFFF |> in
  if wq_cancel_requested w
  then r <| wres_status := CS_Cancelled |> <| wres_failure_class := FC_Cancellation |>
         <| wres_error_message := "cancelled before execution" |>
  else r <| wres_status := CS_Succeeded |>.

Definition cpu_run (batch : list WorkRequest) : ST CpuExecutor (list WorkResult) :=
  fun e => (cpu_one e <$> batch, e).

#[export] Instance cpu_executor : Executor CpuExecutor := {|
  ex_name _ := "cpu"%string;
  ex_run := cpu_run
|}.

#[export] Instance cpu_lawful : LawfulExecutor CpuExecutor.
Proof.
  intros batch e. unfold result. cbn [ex_run cpu_executor cpu_run fst].
  rewrite <- list_fmap_compose. apply list_fmap_ext. intros _ w _. unfold compose, cpu_one.
  by destruct (wq_cancel_requested w).
Qed.

(** ** The work done *)

(** The sum of the low bytes of [0 .. n-1], in closed form. *)
Definition low_byte_sum (n : Z) : Z := (n / 256) * 32640 + (n mod 256) * (n mod 256 - 1) / 2.

Lemma low_byte_sum_succ n : 0 <= n -> low_byte_sum (n + 1) = low_byte_sum n + Z.land n 0xFF.
Proof.
  intros Hn. unfold low_byte_sum. change 0xFF with (Z.ones 8). rewrite Z.land_ones by lia.
  change (2 ^ 8) with 256. pose proof (Z.mod_pos_bound n 256 ltac:(lia)) as Hm.
  rewrite (Z.div_mod n 256) at 1 2 3 by lia. set (q := n / 256) in *. set (r := n mod 256) in *.
  assert (forall k, 0 <= k < 256 -> (256 * q + k) / 256 = q /\ (256 * q + k) mod 256 = k) as Hqk.
  { intros k Hk. rewrite (Z.add_comm (256 * q)), (Z.mul_comm 256), Z.div_add, Z_mod_plus_full by lia.
    rewrite Z.div_small, Z.mod_small by lia. lia. }
  assert (r * (r - 1) / 2 + r = (r + 1) * r / 2) as Hr.
  { rewrite <- Z.div_add by lia. f_equal. lia. }
  destruct (decide (r = 255)) as [E|E].
  - rewrite E in *. replace (256 * q + 255 + 1) with (256 * (q + 1) + 0) by lia.
    rewrite (Z.add_comm (256 * (q + 1))), (Z.mul_comm 256), Z.div_add, Z_mod_plus_full by lia.
    change (0 / 256) with 0. change (0 mod 256) with 0.
    change (255 * (255 - 1) / 2) with 32385. change (0 * (0 - 1) / 2) with 0. lia.
  - replace (256 * q + r + 1) with (256 * q + (r + 1)) by lia.
    destruct (Hqk (r + 1) ltac:(lia)) as [-> ->]. replace (r + 1 - 1) with r by lia. lia.
Qed.

Lemma cpu_loop_spec n : 0 <= n -> Z.iter n cpu_iteration (0, 0) = (n, u64 (low_byte_sum n)).
Proof.
  intros Hn. revert n Hn. apply (natlike_ind (fun n => Z.iter n cpu_iteration (0, 0) = (n, u64 (low_byte_sum n)))); [done|].
  intros n Hn IH.
  assert (Z.iter (Z.succ n) cpu_iteration (0, 0) = cpu_iteration (Z.iter n cpu_iteration (0, 0))) as ->.
  { destruct n as [|p|p]; [done| |lia]. rewrite <- Pos2Z.inj_succ. apply Pos.iter_succ. }
  rewrite IH. unfold cpu_iteration. cbn [fst snd]. f_equal.
  rewrite <- Z.add_1_r, low_byte_sum_succ by done. unfold u64. by rewrite Zplus_mod_idemp_l.
Qed.

(** The CPU executor does what it reports: it answers every request of a
    batch in order under the same identifiers; the loop that stands for the
    work runs at most the configured maximum of iterations, and the duration
    is its accumulator's low 16 bits, here in closed form; a cancelled request
    is reported cancelled, any other as succeeded. *)
Theorem cpu_executor_is_correct (e : CpuExecutor) (batch : list WorkRequest) :
  0 <= cpu_max_units e ->
  let out := result (ex_run batch) e in
  result_key <$> out = work_key <$> batch /\
  forall i w, batch !! i = Some w -> exists r, out !! i = Some r /\
    0 <= cpu_work e (wq_cost_units w) <= cpu_max_units e /\
    wres_duration_us r = low_byte_sum (cpu_work e (wq_cost_units w)) mod 2 ^ 16 /\
    wres_status r = (if wq_cancel_requested w then CS_Cancelled else CS_Succeeded).
Proof.
  intros Hmax out. split; [apply cpu_lawful|]. intros i w Hw. exists (cpu_one e w).
  split; [unfold out, result; cbn [ex_run cpu_executor cpu_run fst]; by rewrite list_lookup_fmap, Hw|].
  assert (0 <= cpu_work e (wq_cost_units w) <= cpu_max_units e) as Hb.
  { unfold cpu_work. cbv zeta. set (x := i64 _). destruct (Z.ltb_spec (cpu_max_units e) x);
      [destruct (Z.ltb_spec (cpu_max_units e) 0)|destruct (Z.ltb_spec x 0)]; lia. }
  split; [done|]. assert (wres_duration_us (cpu_one e w) = Z.land (cpu_acc (cpu_work e (wq_cost_units w))) 0xFFFF) as ->
    by (unfold cpu_one; by destruct (wq_cancel_requested w)).
  split; [|unfold cpu_one; by destruct (wq_cancel_requested w)].
  unfold cpu_acc. rewrite cpu_loop_spec by lia. cbn [snd]. change 0xFFFF with (Z.ones 16).
  rewrite Z.land_ones by lia. unfold u64. change (2 ^ 64) with (2 ^ 16 * 2 ^ 48).
  rewrite Z.rem_mul_r by lia. by rewrite Z.mul_comm, Z_mod_plus_full, Z.mod_mod by lia.
Qed.

Lemma cpu_executor_is_correct_witness :
  wres_duration_us <$> (result (ex_run [default_work_request]) default_cpu_executor !! 0%nat)
    = Some (low_byte_sum 2000 mod 2 ^ 16).
Proof.
  destruct (cpu_executor_is_correct default_cpu_executor [default_work_request]) as [_ H]; [simpl; lia|].
  destruct (H 0%nat default_work_request eq_refl) as (r & -> & _ & Hd & _). simpl. rewrite Hd.
  by vm_compute.
Defined.
