(* ===== verification/Cuda.v ===== *)
(** * The CUDA executor

    [include/inference_scheduler/cuda_executor.hpp] and [src/cuda_executor.cu].
    The memory is a heap of [float] arrays on the host and one on the device;
    what the C library and the CUDA runtime answer (null pointers, error codes,
    the order in which the threads of a kernel run, the contents of memory that
    nobody wrote) is the class [CudaRuntime], with its documented behaviour in
    [LawfulRuntime].  A kernel is its grid of threads, each of which touches
    its own element only, run one after the other in the runtime's order. *)

From S2P Require Import Prelude Enums Ids Float64 FloatExact Types State Protocol Executor.
Open Scope Z_scope.

Record Memory := mkMemory {
  host : gmap Z (list f32);
  device : gmap Z (list f32);
  calls : nat;                   (* calls of the runtime so far *)
  refused : list Z               (* history: the device blocks that cudaFree did not release *)
}.

#[export] Instance Memory_eta : Eta Memory := fun m => mkMemory (host m) (device m) (calls m) (refused m).
#[export] Instance upd_host : Update host. Proof. derive_update. Defined.
#[export] Instance upd_device : Update device. Proof. derive_update. Defined.
#[export] Instance upd_calls : Update calls. Proof. derive_update. Defined.
#[export] Instance upd_refused : Update refused. Proof. derive_update. Defined.

Record cudaDeviceProp := mkDeviceProp {
  prop_name : string;
  prop_major : Z;
  prop_minor : Z;
  prop_totalGlobalMem : Z
}.

(** [cudaError_t], with [cudaSuccess]. *)
Definition cudaSuccess : Z := 0.

(** ** The runtime *)

Class CudaRuntime := {
  rt_device_count : Z * Z;                 (* cudaGetDeviceCount: error, count *)
  rt_properties : Z * cudaDeviceProp;      (* cudaGetDeviceProperties *)
  rt_meminfo : Z * Z;                      (* cudaMemGetInfo: error, free bytes *)
  rt_error_string : Z -> string;           (* cudaGetErrorString *)
  rt_malloc : Memory -> Z -> option Z;     (* std::malloc: an address or null *)
  rt_cudaMalloc : Memory -> Z -> Z + Z;    (* cudaMalloc: an error or an address *)
  rt_contents : Memory -> list f32;        (* what memory holds that nobody wrote *)
  rt_upload : Memory -> Z;                 (* cudaMemcpy, host to device *)
  rt_launch : Memory -> bool;              (* whether a launch takes effect *)
  rt_schedule : Memory -> Z -> Z -> list (Z * Z); (* the order of (block, thread) *)
  rt_mad : f32 -> f32 -> f32 -> f32;       (* x * y + z as the device compiler rounds it *)
  rt_synchronize : Memory -> Z;            (* cudaDeviceSynchronize *)
  rt_download : Memory -> Z;               (* cudaMemcpy, device to host *)
  rt_cudaFree : Memory -> Z -> Z * bool    (* cudaFree: error, whether the block is released *)
}.

(** The threads of a launch. *)
Definition grid (blocks per_block : Z) : list (Z * Z) :=
  b ← seqZ 0 blocks; pair b <$> seqZ 0 per_block.

(** What is documented: allocations are new addresses, an error is not
    [cudaSuccess], every thread of the grid runs once, in any order, and a
    [cudaFree] that succeeds releases its block.  (One that returns an error, its
    own or that of an earlier asynchronous call, may leave it.) *)
Class LawfulRuntime `{CudaRuntime} : Prop := {
  malloc_fresh m n p : rt_malloc m n = Some p -> host m !! p = None;
  cudaMalloc_fresh m n p : rt_cudaMalloc m n = inr p -> device m !! p = None;
  cudaMalloc_error m n e : rt_cudaMalloc m n = inl e -> e <> cudaSuccess;
  schedule_grid m b t : rt_schedule m b t ≡ₚ grid b t;
  cudaFree_releases m d : (rt_cudaFree m d).1 = cudaSuccess -> (rt_cudaFree m d).2 = true
}.

Record CudaExecutor := mkCudaExecutor {
  cu_init_ok : bool;
  cu_init_error : string;
  cu_device_name : string;
  cu_compute_major : Z;
  cu_compute_minor : Z;
  cu_memory_total : Z;
  cu_memory_available : Z
}.

Definition k_max_elems : Z := 16 * 1024 * 1024.

(** ** Kernels *)

(** [blockIdx.x * blockDim.x + threadIdx.x], unsigned, stored in an [int]. *)
Definition thread_index (blockDim : Z) (bt : Z * Z) : Z := i32 (u32 (bt.1 * blockDim + bt.2)).

(** A thread of a kernel [if (i < n) data[i] = f(data[i])]. *)
Definition kernel_thread (f : f32 -> f32) (blockDim n : Z) (data : list f32) (bt : Z * Z) : list f32 :=
  let i := thread_index blockDim bt in
  if i <? n then alter f (Z.to_nat i) data else data.

Definition block_threads : Z := 256.
Definition blocks_for (ni : Z) : Z := Z.quot (i32 (ni + block_threads - 1)) block_threads.

(** The [float] literals of the kernels. *)
Definition lit_1_0001f : f32 := SFdiv 24 128 (f32_of_Z 10001) (f32_of_Z 10000).
Definition lit_0_5f : f32 := SFdiv 24 128 (f32_of_Z 1) (f32_of_Z 2).

Definition decode_elem (x : f32) : f32 := fadd32 x (f32_of_Z 1).

(** The size of a request's array. *)
Definition cuda_elems (t : TokenEstimate) : Z :=
  let n := u64 (1024 + u64 (u64 (i64 (te_input t + te_output t)) * 64)) in
  let n := if k_max_elems <? n then k_max_elems else n in
  if n =? 0 then 1024 else n.

(** [h_in] after the loop that fills it. *)
Definition initial_data (n : Z) : list f32 := (fun i => f32_of_Z (Z.land i 0xFF)) <$> seqZ 0 n.

(** [acc] after the loop over [h_out]. *)
Definition sum_of (l : list f32) : f64 := fold_left (fun acc x => fadd acc (f32_to_f64 x)) l fzero.

Section Cuda.
  Context `{Env} `{CudaRuntime}.

Definition prefill_elem (x : f32) : f32 := rt_mad x lit_1_0001f lit_0_5f.

(** [CudaExecutor::CudaExecutor()]. *)
Definition new_cuda_executor : CudaExecutor :=
  let failed e := mkCudaExecutor false (rt_error_string e) EmptyString 0 0 0 0 in
  let '(e, ndev) := rt_device_count in
  if negb (e =? cudaSuccess) || (ndev <? 1) then failed e else
  let '(e, prop) := rt_properties in
  if negb (e =? cudaSuccess) then failed e else
  let total := i64 (prop_totalGlobalMem prop) in
  let '(e, freeb) := rt_meminfo in
  mkCudaExecutor true EmptyString (prop_name prop) (prop_major prop) (prop_minor prop) total
    (if e =? cudaSuccess then i64 freeb else total).

(** ** Calls of the library and the runtime *)

(** A call: its answer depends on the memory, and it is counted. *)
Definition call {A} (f : Memory -> A) : ST Memory A := fun m => (f m, m <| calls ::= S |>).

(** An array of [n] floats. *)
Definition malloc (n : Z) : ST Memory (option Z) :=
  p ← call (fun m => rt_malloc m (n * 4));
  match p with
  | Some a => modify (fun m => m <| host ::= insert a (rt_contents m) |>)
  | None => mret tt
  end ;;
  mret p.

Definition free (p : option Z) : ST Memory unit :=
  match p with
  | Some a => modify (fun m => m <| host ::= delete a |>)
  | None => mret tt
  end.

Definition cudaMalloc (n : Z) : ST Memory (Z + Z) :=
  r ← call (fun m => rt_cudaMalloc m (n * 4));
  match r with
  | inr a => modify (fun m => m <| device ::= insert a (rt_contents m) |>)
  | inl _ => mret tt
  end ;;
  mret r.

(** The caller ignores the error. *)
Definition cudaFree (d : Z) : ST Memory Z :=
  x ← call (fun m => rt_cudaFree m d);
  (if x.2 : bool then modify (fun m => m <| device ::= delete d |>)
   else modify (fun m => m <| refused ::= fun l => l ++ [d] |>)) ;;
  mret x.1.

(** A copy that fails leaves its target unspecified. *)
Definition upload (d h : Z) : ST Memory Z :=
  e ← call rt_upload;
  modify (fun m => m <| device ::= insert d
    (if e =? cudaSuccess then default [] (host m !! h) else rt_contents m) |>) ;;
  mret e.

Definition download (h d : Z) : ST Memory Z :=
  e ← call rt_download;
  modify (fun m => m <| host ::= insert h
    (if e =? cudaSuccess then default [] (device m !! d) else rt_contents m) |>) ;;
  mret e.

(** [kernel<<<blocks, threads>>>(d, ni)]. *)
Definition launch (f : f32 -> f32) (blocks ni d : Z) : ST Memory unit :=
  ok ← call rt_launch;
  when ok (modify (fun m => m <| device ::=
    alter (fun data => fold_left (kernel_thread f block_threads ni) (rt_schedule m blocks block_threads) data) d |>)).

(** The host's writes through a pointer. *)
Definition write_host (h : Z) (l : list f32) : ST Memory unit := modify (fun m => m <| host ::= insert h l |>).

(** ** Running a batch *)

(** The fields set before any work is done. *)
Definition cuda_result (w : WorkRequest) : WorkResult :=
  default_work_result
    <| wres_request_id := wq_request_id w |> <| wres_attempt_id := wq_attempt_id w |>
    <| wres_generation := wq_generation w |>
    <| wres_output_tokens_produced := te_output (wq_tokens w) |>
    <| wres_work_units := wq_cost_units w |>.

Definition cuda_failed (w : WorkRequest) (msg : string) : WorkResult :=
  (cuda_result w) <| wres_status := CS_Failed |> <| wres_failure_class := FC_RetryableWorker |>
                <| wres_error_message := msg |>.

(** The branch of a failed allocation. *)
Definition alloc_failed (w : WorkRequest) (h_in h_out : option Z) : ST Memory WorkResult :=
  free h_in ;; free h_out ;; mret (cuda_failed w "cuda alloc failed").

(** The kernels of a phase. *)
Definition run_kernels (ph : RequestPhase) (ni d : Z) : ST Memory unit :=
  match ph with
  | RP_Decode => foreach (seqZ 0 8) (fun _ => launch decode_elem (blocks_for ni) ni d)
  | _ => launch prefill_elem (blocks_for ni) ni d
  end.

(** From the filled buffers to the result. *)
Definition compute (w : WorkRequest) (n h_in h_out d : Z) : ST Memory WorkResult :=
  write_host h_in (initial_data n) ;;
  write_host h_out ((fun _ => S754_zero false) <$> seqZ 0 n) ;;
  upload d h_in ;;
  run_kernels (wq_phase w) (i32 n) d ;;
  e1 ← call rt_synchronize;
  e1 ← (if e1 =? cudaSuccess then download h_out d else mret e1);
  r ← (if negb (e1 =? cudaSuccess)
       then mret (cuda_failed w ("cuda kernel failed: " +:+ rt_error_string e1))
       else out ← gets (fun m => default [] (host m !! h_out));
            mret ((cuda_result w) <| wres_status := CS_Succeeded |> <| wres_duration_us := to_i64 (sum_of out) |>));
  cudaFree d ;; free (Some h_in) ;; free (Some h_out) ;;
  mret r.

Definition cuda_one (e : CudaExecutor) (w : WorkRequest) : ST Memory WorkResult :=
  if negb (cu_init_ok e) then mret (cuda_failed w ("cuda unavailable: " +:+ cu_init_error e)) else
  let n := cuda_elems (wq_tokens w) in
  h_in ← malloc n;
  h_out ← malloc n;
  match h_in, h_out with
  | Some hi, Some ho =>
      d ← cudaMalloc n;
      match d with
      | inr d => compute w n hi ho d
      | inl _ => alloc_failed w h_in h_out
      end
  | _, _ => alloc_failed w h_in h_out
  end.

Fixpoint cuda_batch (e : CudaExecutor) (batch : list WorkRequest) : ST Memory (list WorkResult) :=
  match batch with
  | [] => mret []
  | w :: batch' => r ← cuda_one e w; rs ← cuda_batch e batch'; mret (r :: rs)
  end.

#[export] Instance cuda_executor : Executor (CudaExecutor * Memory) := {|
  ex_name _ := "cuda"%string;
  ex_run batch s := let '(rs, m) := cuda_batch s.1 batch s.2 in (rs, (s.1, m))
|}.

End Cuda.
