(* ===== verification/CudaSpec.v ===== *)
(** * What the CUDA executor does

    It answers every request of a batch, gives back all the memory it took but
    the device blocks that the runtime does not release, its kernels touch every element of the array exactly once
    in whatever order the threads run, and where every call succeeds the
    duration it reports is the exact checksum of the computed array. *)

From S2P Require Import Prelude Enums Ids Float64 FloatExact Types State Json Protocol ProtocolSpec Demo Executor Cuda.
Open Scope Z_scope.

(** ** The size of the work *)

Lemma elems_bounds t : 1 <= cuda_elems t <= k_max_elems.
Proof.
  unfold cuda_elems. cbv zeta. set (n := u64 _). pose proof (u64_range (1024 + u64 (u64 (i64 (te_input t + te_output t)) * 64))) as Hn.
  fold n in Hn. unfold k_max_elems. destruct (Z.ltb_spec (16 * 1024 * 1024) n); [simpl; lia|].
  destruct (Z.eqb_spec n 0); lia.
Qed.

(** ** The grid *)

Lemma thread_index_small blocks b t :
  0 <= b < blocks -> 0 <= t < block_threads -> blocks * block_threads <= 2 ^ 31 -> thread_index block_threads (b, t) = b * block_threads + t.
Proof.
  unfold thread_index, block_threads, i32, u32. cbn [fst snd]. intros.
  rewrite (Z.mod_small (b * 256 + t)) by nia. rewrite Z.mod_small by nia. lia.
Qed.

(** Block by block and thread by thread the indices count up from zero. *)
Lemma grid_indices blocks :
  0 <= blocks -> blocks * block_threads <= 2 ^ 31 -> thread_index block_threads <$> grid blocks block_threads = seqZ 0 (blocks * block_threads).
Proof.
  intros Hb. rewrite <- (Z2Nat.id blocks Hb). induction (Z.to_nat blocks) as [|k IH]; intros Hk; [done|].
  replace (Z.of_nat (S k)) with (Z.of_nat k + 1) in * by lia. unfold block_threads in *.
  unfold grid in *. rewrite seqZ_app, bind_app, fmap_app, IH by lia.
  replace ((Z.of_nat k + 1) * 256) with (Z.of_nat k * 256 + 256) by lia.
  rewrite seqZ_app by lia. f_equal.
  change (seqZ (0 + Z.of_nat k) 1) with [0 + Z.of_nat k]. rewrite bind_singleton, <- list_fmap_compose, !Z.add_0_l.
  rewrite <- (Z.add_0_r (Z.of_nat k * 256)) at 1. rewrite <- fmap_add_seqZ. apply list_fmap_ext.
  intros i t Ht%lookup_seqZ. unfold compose. apply (thread_index_small (Z.of_nat k + 1)); unfold block_threads; lia.
Qed.

(** ** The kernels *)

(** Threads that address different elements can run in any order. *)
Lemma fold_alter_lookup {A} (f : A -> A) (n : Z) (l : list Z) (data : list A) (k : nat) :
  NoDup l -> Forall (fun i => 0 <= i) l ->
  fold_left (fun d i => if i <? n then alter f (Z.to_nat i) d else d) l data !! k
  = if decide (Z.of_nat k ∈ l /\ Z.of_nat k < n) then f <$> data !! k else data !! k.
Proof.
  revert data. induction l as [|i l IH]; intros data Hd Hp; [by rewrite decide_False by set_solver|].
  apply NoDup_cons in Hd as [Hi Hd]. apply Forall_cons in Hp as [Hi0 Hp]. cbn [fold_left]. rewrite IH by done.
  destruct (Z.ltb_spec i n) as [Hlt|Hge].
  - destruct (decide (Z.of_nat k = i)) as [<-|Hne].
    + rewrite decide_False by naive_solver. rewrite decide_True by (split; [left|done]).
      by rewrite Nat2Z.id, list_lookup_alter_eq.
    + rewrite list_lookup_alter_ne by lia. apply decide_ext. rewrite elem_of_cons. naive_solver.
  - apply decide_ext. rewrite elem_of_cons. split; [naive_solver|]. intros [[->|] ?]; [lia|done].
Qed.

Lemma fold_kernel f n l data :
  fold_left (kernel_thread f block_threads n) l data
  = fold_left (fun d i => if i <? n then alter f (Z.to_nat i) d else d) (thread_index block_threads <$> l) data.
Proof. revert data. induction l as [|bt l IH]; intros data; [done|]. simpl. by rewrite IH. Qed.

Lemma blocks_cover n : 1 <= n <= k_max_elems ->
  0 <= blocks_for n /\ n <= blocks_for n * block_threads /\ blocks_for n * block_threads < n + block_threads.
Proof.
  unfold k_max_elems, blocks_for, block_threads, i32. intros Hn. rewrite (Z.mod_small (n + 256 - 1 + 2 ^ 31)) by lia.
  rewrite Z.quot_div_nonneg by lia.
  pose proof (Z.div_mod (n + 256 - 1 + 2 ^ 31 - 2 ^ 31) 256 ltac:(lia)).
  pose proof (Z.mod_pos_bound (n + 256 - 1 + 2 ^ 31 - 2 ^ 31) 256 ltac:(lia)).
  pose proof (Z.div_pos (n + 256 - 1 + 2 ^ 31 - 2 ^ 31) 256 ltac:(lia) ltac:(lia)). lia.
Qed.

(** A launch over an array is the map over it: the threads of the grid address
    each element once and nothing outside, whatever order they run in. *)
Lemma kernel_is_map f n order data :
  1 <= n <= k_max_elems -> Z.of_nat (length data) = n -> order ≡ₚ grid (blocks_for n) block_threads ->
  fold_left (kernel_thread f block_threads n) order data = f <$> data /\
  (forall bt, bt ∈ order -> thread_index block_threads bt < n -> 0 <= thread_index block_threads bt < Z.of_nat (length data)).
Proof.
  intros Hn Hlen Hord. destruct (blocks_cover n Hn) as (Hb0 & Hb1 & Hb2).
  assert (blocks_for n * block_threads <= 2 ^ 31) as Hb3 by (unfold k_max_elems, block_threads in *; lia).
  pose proof (grid_indices (blocks_for n) Hb0 Hb3) as Hg.
  assert (thread_index block_threads <$> order ≡ₚ seqZ 0 (blocks_for n * block_threads)) as Hp by (by rewrite Hord, Hg).
  assert (Forall (fun i => 0 <= i) (thread_index block_threads <$> order)) as Hpos
    by (rewrite Hp; apply Forall_seqZ; lia).
  split.
  - rewrite fold_kernel. apply list_eq. intros k. rewrite fold_alter_lookup; [|by rewrite Hp; apply NoDup_seqZ|done].
    rewrite list_lookup_fmap. destruct (decide _) as [|Hno]; [done|].
    destruct (data !! k) eqn:Ek; [|done]. apply lookup_lt_Some in Ek. contradict Hno.
    rewrite Hp, elem_of_seqZ. lia.
  - intros bt Hbt Hlt. rewrite Hlen. split; [|done].
    rewrite Forall_forall in Hpos. apply Hpos. by apply list_elem_of_fmap_2.
Qed.

(** ** The checksum *)

Lemma land_ff i : 0 <= Z.land i 0xFF < 256.
Proof. change 0xFF with (Z.ones 8). rewrite Z.land_ones by lia. by apply Z.mod_pos_bound. Qed.

Definition total (zs : list Z) : Z := foldr Z.add 0 zs.

Lemma total_snoc zs z : total (zs ++ [z]) = total zs + z.
Proof. unfold total. induction zs as [|x zs IH]; simpl in *; lia. Qed.

Lemma total_bounds b zs : 0 <= b -> Forall (fun z => 0 <= z <= b) zs -> 0 <= total zs <= b * Z.of_nat (length zs).
Proof. intros Hb. unfold total. induction 1 as [|z zs Hz _ IH]; simpl in *; lia. Qed.

(** Integers are added up exactly. *)
Lemma sum_exact zs acc :
  Forall (fun z => 0 <= z < 2 ^ 24) zs -> 0 <= acc -> acc + total zs < 2 ^ 53 ->
  fold_left (fun a x => fadd a (f32_to_f64 x)) (f32_of_Z <$> zs) (f64_of_Z acc) = f64_of_Z (acc + total zs).
Proof.
  intros Hzs. revert acc. induction Hzs as [|z zs Hz Hzs IH]; intros acc Ha Hs; [by rewrite Z.add_0_r|].
  assert (0 <= total zs) as Ht by (apply (total_bounds (2 ^ 24)); [lia|]; eapply Forall_impl; [done|]; simpl; lia).
  change (total (z :: zs)) with (z + total zs) in *. cbn [fmap list_fmap fold_left].
  rewrite f32_to_f64_exact, fadd_exact, IH by lia. f_equal. lia.
Qed.

Lemma decode_exact k v : 0 <= v -> v + Z.of_nat k < 2 ^ 24 -> Nat.iter k decode_elem (f32_of_Z v) = f32_of_Z (v + Z.of_nat k).
Proof.
  intros Hv. induction k as [|k IH]; intros Hk; [by rewrite Z.add_0_r|].
  change (Nat.iter (S k) decode_elem (f32_of_Z v)) with (decode_elem (Nat.iter k decode_elem (f32_of_Z v))).
  rewrite IH by lia. unfold decode_elem. rewrite fadd32_exact by lia. f_equal. lia.
Qed.

Lemma low_bytes_total n k :
  0 <= k -> total ((fun i => Z.land i 0xFF + k) <$> seqZ 0 (Z.of_nat n)) = low_byte_sum (Z.of_nat n) + k * Z.of_nat n.
Proof.
  intros Hk. induction n as [|n IH]; [by rewrite Z.mul_0_r|].
  rewrite seqZ_S, fmap_app. cbn [fmap list_fmap]. rewrite total_snoc, IH, Z.add_0_l. replace (Z.of_nat (S n)) with (Z.of_nat n + 1) by lia.
  rewrite low_byte_sum_succ by lia. lia.
Qed.

(** The checksum of a decoded array. *)
Lemma decode_checksum n :
  0 <= n <= k_max_elems ->
  sum_of (Nat.iter 8 decode_elem <$> initial_data n) = f64_of_Z (low_byte_sum n + 8 * n) /\
  0 <= low_byte_sum n + 8 * n < 2 ^ 53.
Proof.
  intros Hn. unfold k_max_elems in Hn. unfold initial_data.
  rewrite <- list_fmap_compose. set (zs := (fun i => Z.land i 0xFF + 8) <$> seqZ 0 n).
  assert (Nat.iter 8 decode_elem ∘ (fun i => f32_of_Z (Z.land i 255)) <$> seqZ 0 n = f32_of_Z <$> zs) as ->.
  { unfold zs. rewrite <- list_fmap_compose. apply list_fmap_ext. intros i x _. unfold compose.
    pose proof (land_ff x). apply (decode_exact 8); lia. }
  assert (Forall (fun z => 0 <= z <= 263) zs) as Hzs.
  { unfold zs. apply Forall_fmap, Forall_forall. intros x _. unfold compose. pose proof (land_ff x). lia. }
  assert (total zs = low_byte_sum n + 8 * n) as Et.
  { unfold zs. rewrite <- (Z2Nat.id n) by lia. by apply low_bytes_total. }
  pose proof (total_bounds 263 zs ltac:(lia) Hzs) as Hb. unfold zs in Hb at 3.
  rewrite length_fmap, length_seqZ, Z2Nat.id in Hb by lia. rewrite <- Et.
  split; [|lia]. apply (sum_exact zs 0); [|lia..]. eapply Forall_impl; [exact Hzs|]. simpl. lia.
Qed.

(** ** Memory *)

Section Memory.
  Context `{Env} `{CudaRuntime} `{!LawfulRuntime}.

(** Only the blocks of one request change, and the device's block stays. *)
Record confined (h_in h_out d : Z) (m m' : Memory) : Prop := {
  cf_host k : k <> h_in -> k <> h_out -> host m' !! k = host m !! k;
  cf_device k : k <> d -> device m' !! k = device m !! k;
  cf_block : is_Some (device m !! d) -> is_Some (device m' !! d);
  cf_refused : refused m' = refused m
}.

#[local] Instance confined_preorder h_in h_out d : PreOrder (confined h_in h_out d).
Proof.
  split; [by split|]. intros m1 m2 m3 [A1 B1 C1 D1] [A2 B2 C2 D2].
  split; [intros; by rewrite A2, A1|intros; by rewrite B2, B1|auto|congruence].
Qed.

Ltac heap_step :=
  split; [intros k *; intros; cbn [host upd upd_host upd_device upd_calls];
            rewrite ?lookup_insert_ne, ?lookup_delete_ne, ?lookup_alter_ne by congruence; done
         |intros k *; intros; cbn [device upd upd_host upd_device upd_calls];
            rewrite ?lookup_insert_ne, ?lookup_delete_ne, ?lookup_alter_ne by congruence; done
         |cbn [device upd upd_host upd_device upd_calls]; rewrite ?lookup_insert_eq, ?lookup_alter_eq, ?fmap_is_Some; by eauto
         |done].

Lemma call_confined {A} (f : Memory -> A) h_in h_out d m : steps (confined h_in h_out d) m (call f).
Proof. unfold steps, call, exec. cbn [snd]. heap_step. Qed.
#[local] Hint Resolve call_confined : frame.

(** [compute] up to the release of its blocks. *)
Definition compute_work (w : WorkRequest) (n h_in h_out d : Z) : ST Memory WorkResult :=
  write_host h_in (initial_data n) ;;
  write_host h_out ((fun _ => S754_zero false) <$> seqZ 0 n) ;;
  upload d h_in ;;
  run_kernels (wq_phase w) (i32 n) d ;;
  e1 ← call rt_synchronize;
  e1 ← (if e1 =? cudaSuccess then download h_out d else mret e1);
  if negb (e1 =? cudaSuccess)
  then mret (cuda_failed w ("cuda kernel failed: " +:+ rt_error_string e1))
  else out ← gets (fun m => default [] (host m !! h_out));
       mret ((cuda_result w) <| wres_status := CS_Succeeded |> <| wres_duration_us := to_i64 (sum_of out) |>).

Lemma compute_split w n h_in h_out d m :
  exec (compute w n h_in h_out d) m =
  exec (free (Some h_out)) (exec (free (Some h_in)) (exec (cudaFree d) (exec (compute_work w n h_in h_out d) m))).
Proof. unfold compute, compute_work. rewrite !exec_bind, exec_ret. done. Qed.

Lemma compute_confined w n h_in h_out d m : steps (confined h_in h_out d) m (compute_work w n h_in h_out d).
Proof. unfold compute_work, write_host, upload, run_kernels, launch, download. mwalk heap_step. Qed.

Definition heaps (m : Memory) : gmap Z (list f32) * gmap Z (list f32) := (host m, device m).

(** What a request or a batch leaves: the host's memory as it was, and on the
    device the blocks [l] more, which [cudaFree] did not release. *)
Record leaves (l : list Z) (m m' : Memory) : Prop := {
  lv_host : host m' = host m;
  lv_refused : refused m' = refused m ++ l;
  lv_blocks d : d ∈ l -> device m !! d = None /\ is_Some (device m' !! d);
  lv_errors d : d ∈ l -> exists m0, (rt_cudaFree m0 d).1 <> cudaSuccess;
  lv_device k : k ∉ l -> device m' !! k = device m !! k
}.

Lemma leaves_nothing m m' : heaps m' = heaps m -> refused m' = refused m -> leaves [] m m'.
Proof.
  unfold heaps. intros [= E1 E2] E3. split; [done|by rewrite app_nil_r| | |by rewrite E2]; intros d Hd; by apply elem_of_nil in Hd.
Qed.

Lemma leaves_trans l1 l2 m1 m2 m3 : leaves l1 m1 m2 -> leaves l2 m2 m3 -> leaves (l1 ++ l2) m1 m3.
Proof.
  intros [A1 B1 C1 X1 D1] [A2 B2 C2 X2 D2]. split; [congruence|by rewrite B2, B1, app_assoc| | |].
  - intros d [Hd|Hd]%elem_of_app.
    + destruct (C1 d Hd) as [Hn [x Hx]]. split; [done|]. rewrite D2; [by eexists|]. intros [Hn' _]%C2. congruence.
    + destruct (C2 d Hd) as [Hn Hs]. split; [|done]. destruct (decide (d ∈ l1)) as [[_ [x Hx]]%C1|Hn1]; [congruence|].
      by rewrite <- D1.
  - intros d [Hd|Hd]%elem_of_app; auto.
  - intros k Hk. rewrite elem_of_app in Hk. by rewrite D2, D1 by tauto.
Qed.

(** The allocations of a request. *)
Definition confined_new (h_in h_out d : Z) (m m' : Memory) : Prop :=
  (forall k, k <> h_in -> k <> h_out -> host m' !! k = host m !! k) /\
  (forall k, k <> d -> device m' !! k = device m !! k) /\ refused m' = refused m.

(** A finished computation has freed its blocks on the host, and asked the runtime
    to release the one on the device. *)
Lemma compute_leaves w n h_in h_out d m m1 :
  host m !! h_in = None -> host m !! h_out = None -> device m !! d = None -> is_Some (device m1 !! d) ->
  confined_new h_in h_out d m m1 ->
  exists l, leaves l m (exec (compute w n h_in h_out d) m1) /\ (length l <= 1)%nat.
Proof.
  intros Hi Ho Hd Hb (N1 & N2 & N3). rewrite compute_split.
  destruct (compute_confined w n h_in h_out d m1) as [A B C E]. set (m2 := exec (compute_work _ _ _ _ _) m1) in *.
  assert (forall hs, (delete h_out (delete h_in hs) : gmap Z (list f32)) !! h_in = None) as Hdi.
  { intros hs. destruct (decide (h_in = h_out)) as [->|]; [apply lookup_delete_eq|].
    rewrite lookup_delete_ne by done. apply lookup_delete_eq. }
  assert (host m = delete h_out (delete h_in (host m2))) as Eh.
  { apply map_eq. intros k. destruct (decide (k = h_in)) as [->|]; [by rewrite Hdi|].
    destruct (decide (k = h_out)) as [->|]; [by rewrite lookup_delete_eq|].
    rewrite !lookup_delete_ne by done. by rewrite A, N1. }
  unfold cudaFree, free. rewrite !exec_bind, !exec_modify, !exec_ret. unfold result, call. cbn [fst].
  destruct (rt_cudaFree m2 d).2 eqn:Er.
  - exists []. split; [|simpl; lia]. split.
    + symmetry. exact Eh.
    + rewrite app_nil_r. cbn. congruence.
    + intros x Hx. by apply elem_of_nil in Hx.
    + intros x Hx. by apply elem_of_nil in Hx.
    + intros k _. cbn [device exec snd modify upd upd_host upd_device upd_calls].
      destruct (decide (k = d)) as [->|]; [by rewrite lookup_delete_eq|]. rewrite lookup_delete_ne by done. by rewrite B, N2.
  - exists [d]. split; [|simpl; lia]. split.
    + symmetry. exact Eh.
    + cbn. congruence.
    + intros x ->%list_elem_of_singleton. split; [done|]. cbn. by apply C.
    + intros x ->%list_elem_of_singleton. exists m2. intros Es. by rewrite (cudaFree_releases m2 d Es) in Er.
    + intros k Hk. rewrite list_elem_of_singleton in Hk. cbn. by rewrite B, N2.
Qed.

Lemma malloc_exec n m :
  exec (malloc n) m = match result (malloc n) m with
                      | Some a => mkMemory (<[a := rt_contents (m <| calls ::= S |>)]> (host m)) (device m) (S (calls m)) (refused m)
                      | None => m <| calls ::= S |>
                      end /\
  (forall a, result (malloc n) m = Some a -> host m !! a = None).
Proof.
  unfold malloc, call. rewrite exec_bind, result_bind. unfold exec, result. cbn [fst snd].
  destruct (rt_malloc m (n * 4)) as [a|] eqn:E; (split; [done|]); [|done]. cbn. intros ? [= <-]. by eapply malloc_fresh.
Qed.

Lemma cudaMalloc_exec n m :
  exec (cudaMalloc n) m = match result (cudaMalloc n) m with
                      | inr a => mkMemory (host m) (<[a := rt_contents (m <| calls ::= S |>)]> (device m)) (S (calls m)) (refused m)
                      | inl _ => m <| calls ::= S |>
                      end /\
  (forall a, result (cudaMalloc n) m = inr a -> device m !! a = None).
Proof.
  unfold cudaMalloc, call. rewrite exec_bind, result_bind. unfold exec, result. cbn [fst snd].
  destruct (rt_cudaMalloc m (n * 4)) as [e|a] eqn:E; (split; [done|]); [done|]. cbn. intros ? [= <-]. by eapply cudaMalloc_fresh.
Qed.

Ltac freed :=
  unfold alloc_failed, free; rewrite !exec_bind, !exec_ret, !exec_modify; unfold heaps;
  cbn [host device upd upd_host upd_calls].

(** A request leaves the host's memory as it found it, whatever fails. *)
Lemma cuda_one_leaves e w m :
  exists l, leaves l m (exec (cuda_one e w) m) /\ (length l <= 1)%nat.
Proof.
  assert (forall m', heaps m' = heaps m -> refused m' = refused m ->
    exists l, leaves l m m' /\ (length l <= 1)%nat) as Hsame.
  { intros m' E1 E2. exists []. split; [by apply leaves_nothing|simpl; lia]. }
  unfold cuda_one. destruct (negb (cu_init_ok e)); [by apply Hsame|]. cbv zeta. set (n := cuda_elems _).
  rewrite exec_bind. destruct (malloc_exec n m) as [E1 F1]. rewrite E1.
  destruct (result (malloc n) m) as [hi|]; rewrite exec_bind;
    match goal with |- context [exec (malloc n) ?m1] => destruct (malloc_exec n m1) as [E2 F2]; rewrite E2; destruct (result (malloc n) m1) as [ho|] end.
  - rewrite exec_bind.
    match goal with |- context [exec (cudaMalloc n) ?m2] => destruct (cudaMalloc_exec n m2) as [E3 F3]; rewrite E3; destruct (result (cudaMalloc n) m2) as [err|d] end.
    all: specialize (F1 _ eq_refl); specialize (F2 _ eq_refl); cbn [host device] in *.
    + apply Hsame; [|done]. freed. apply lookup_insert_None in F2 as [F2 Hne].
      rewrite delete_insert_ne, !delete_insert_eq, (delete_id (host m) hi) by done. by rewrite delete_id.
    + specialize (F3 _ eq_refl). apply lookup_insert_None in F2 as [F2 Hne].
      apply compute_leaves; [done..|cbn [device]; rewrite lookup_insert_eq; by eexists|].
      split_and!; [| |done]; intros k *; intros; cbn [host device]; by rewrite !lookup_insert_ne by congruence.
  - apply Hsame; [|done]. freed. specialize (F1 _ eq_refl). by rewrite delete_insert_eq, delete_id.
  - apply Hsame; [|done]. freed. specialize (F2 _ eq_refl). cbn [host upd upd_calls] in F2. by rewrite delete_insert_eq, delete_id.
  - by apply Hsame.
Qed.

Lemma cuda_batch_leaves e batch m :
  exists l, leaves l m (exec (cuda_batch e batch) m) /\ (length l <= length batch)%nat.
Proof.
  revert m. induction batch as [|w batch IH]; intros m.
  { exists []. split; [by apply leaves_nothing|done]. }
  cbn [cuda_batch]. rewrite !exec_bind, exec_ret. destruct (cuda_one_leaves e w m) as (l1 & Hl1 & L1).
  destruct (IH (exec (cuda_one e w) m)) as (l2 & Hl2 & L2).
  exists (l1 ++ l2). split; [by eapply leaves_trans|]. rewrite length_app. cbn [length]. lia.
Qed.

(** ** Results *)

(** A result names its request, and a failure is one that may be retried. *)
Definition answers (w : WorkRequest) (r : WorkResult) : Prop :=
  result_key r = work_key w /\ wres_work_units r = wq_cost_units w /\
  (wres_status r = CS_Succeeded \/ (wres_status r = CS_Failed /\ wres_failure_class r = FC_RetryableWorker)).

Lemma cuda_failed_answers w msg : answers w (cuda_failed w msg).
Proof. split_and!; try done. by right. Qed.

Lemma compute_answers w n h_in h_out d m : answers w (result (compute w n h_in h_out d) m).
Proof.
  unfold compute. rewrite !result_bind, result_ret.
  match goal with |- answers _ (result (if ?b then _ else _) _) => destruct b end; [apply cuda_failed_answers|].
  rewrite result_bind, result_ret. split_and!; try done. by left.
Qed.

Lemma cuda_one_answers e w m : answers w (result (cuda_one e w) m).
Proof.
  unfold cuda_one. destruct (negb _); [apply cuda_failed_answers|]. rewrite !result_bind.
  assert (forall h_in h_out m, answers w (result (alloc_failed w h_in h_out) m)) as Hf.
  { intros *. unfold alloc_failed. rewrite !result_bind. apply cuda_failed_answers. }
  destruct (result (malloc _) _), (result (malloc _) _); [|apply Hf..].
  rewrite result_bind. destruct (result (cudaMalloc _) _); [apply Hf|apply compute_answers].
Qed.

Lemma cuda_batch_answers e batch m : Forall2 answers batch (result (cuda_batch e batch) m).
Proof.
  revert m. induction batch as [|w batch IH]; intros m; [constructor|]. cbn [cuda_batch].
  rewrite !result_bind, result_ret. constructor; [apply cuda_one_answers|apply IH].
Qed.

Lemma cuda_run_result e m batch : result (ex_run batch) (e, m) = result (cuda_batch e batch) m.
Proof. unfold result. cbn [ex_run cuda_executor fst snd]. by destruct (cuda_batch e batch m). Qed.

Lemma cuda_run_exec e m batch : exec (ex_run batch) (e, m) = (e, exec (cuda_batch e batch) m).
Proof. unfold exec. cbn [ex_run cuda_executor fst snd]. by destruct (cuda_batch e batch m). Qed.

(** The CUDA executor is an executor the driver can use. *)
#[export] Instance cuda_lawful : LawfulExecutor (CudaExecutor * Memory).
Proof.
  intros batch [e m]. rewrite cuda_run_result. pose proof (cuda_batch_answers e batch m) as Ha.
  induction Ha as [|w r ws rs [Hk _] _ IH]; [done|]. cbn. by rewrite Hk, IH.
Qed.

End Memory.

(** ** A runtime that works *)

(** No call before the releases fails. *)
Class WorkingRuntime `{CudaRuntime} : Prop := {
  malloc_works m n : is_Some (rt_malloc m n);
  cudaMalloc_works m n : exists a, rt_cudaMalloc m n = inr a;
  upload_works m : rt_upload m = cudaSuccess;
  launch_works m : rt_launch m = true;
  synchronize_works m : rt_synchronize m = cudaSuccess;
  download_works m : rt_download m = cudaSuccess
}.

Section Working.
  Context `{Env} `{CudaRuntime} `{!LawfulRuntime} `{!WorkingRuntime}.

(** What the kernels of a phase do to an element. *)
Definition phase_elem (ph : RequestPhase) : f32 -> f32 :=
  match ph with RP_Decode => Nat.iter 8 decode_elem | _ => prefill_elem end.

Lemma launch_exec f ni d m l :
  1 <= ni <= k_max_elems -> device m !! d = Some l -> Z.of_nat (length l) = ni ->
  let m' := exec (launch f (blocks_for ni) ni d) m in
  host m' = host m /\ device m' !! d = Some (f <$> l).
Proof.
  intros Hn Hd Hl. unfold launch, exec. rewrite run_bind. unfold call. cbn [fst snd]. rewrite launch_works.
  cbn [when modify snd host device upd upd_device upd_calls].
  split; [done|]. rewrite lookup_alter_eq, Hd. cbn [fmap option_fmap option_map].
  by rewrite (proj1 (kernel_is_map f ni _ l Hn Hl (schedule_grid _ _ _))).
Qed.

Lemma launches_exec {A} (ks : list A) f ni d m l :
  1 <= ni <= k_max_elems -> device m !! d = Some l -> Z.of_nat (length l) = ni ->
  let m' := exec (foreach ks (fun _ => launch f (blocks_for ni) ni d)) m in
  host m' = host m /\ device m' !! d = Some (Nat.iter (length ks) f <$> l).
Proof.
  intros Hn. revert m l. induction ks as [|k ks IH]; intros m l Hd Hl; cbn [foreach].
  - rewrite exec_ret. split; [done|]. rewrite Hd. f_equal. symmetry. apply list_fmap_id.
  - rewrite exec_bind. destruct (launch_exec f ni d m l Hn Hd Hl) as [Eh Ed].
    destruct (IH (exec (launch f (blocks_for ni) ni d) m) (f <$> l)) as [Eh' Ed']; [done|by rewrite length_fmap|].
    rewrite Eh', Ed', Eh. split; [done|]. f_equal. rewrite <- list_fmap_compose.
    apply list_fmap_ext. intros _ x _. cbn [length]. by rewrite Nat.iter_succ_r.
Qed.

Lemma run_kernels_exec ph ni d m l :
  1 <= ni <= k_max_elems -> device m !! d = Some l -> Z.of_nat (length l) = ni ->
  let m' := exec (run_kernels ph ni d) m in
  host m' = host m /\ device m' !! d = Some (phase_elem ph <$> l).
Proof.
  intros Hn Hd Hl. destruct ph; cbn [run_kernels phase_elem]; try by apply launch_exec.
  by apply (launches_exec (seqZ 0 8)).
Qed.

Lemma upload_exec d h m :
  exec (upload d h) m = mkMemory (host m) (<[d := default [] (host m !! h)]> (device m)) (S (calls m)) (refused m).
Proof. unfold upload, exec. rewrite run_bind. unfold call. cbn [fst snd]. by rewrite upload_works. Qed.

Lemma download_run h d m :
  download h d m = (cudaSuccess, mkMemory (<[h := default [] (device m !! d)]> (host m)) (device m) (S (calls m)) (refused m)).
Proof. unfold download. rewrite run_bind. unfold call. cbn [fst snd]. by rewrite download_works. Qed.

(** What [compute] returns. *)
Lemma compute_result w n h_in h_out d m :
  h_in <> h_out -> 1 <= n <= k_max_elems ->
  result (compute w n h_in h_out d) m
  = (cuda_result w) <| wres_duration_us := to_i64 (sum_of (phase_elem (wq_phase w) <$> initial_data n)) |>.
Proof.
  intros Hne Hn.
  assert (i32 n = n) as Ei by (unfold i32, k_max_elems in *; rewrite Z.mod_small; lia).
  unfold compute. rewrite !result_bind, result_ret, Ei. unfold write_host. rewrite !exec_modify, upload_exec.
  cbn [host device upd upd_host]. rewrite lookup_insert_ne, lookup_insert_eq by done. cbn [default].
  set (m1 := mkMemory _ _ _ _).
  destruct (run_kernels_exec (wq_phase w) n d m1 (initial_data n)) as [Eh Ed];
    [done|apply lookup_insert_eq|unfold initial_data; rewrite length_fmap, length_seqZ; lia|].
  set (m2 := exec (run_kernels _ _ _) m1) in *.
  assert (result (call rt_synchronize) m2 = cudaSuccess) as -> by apply synchronize_works.
  rewrite Z.eqb_refl. unfold result at 2. rewrite download_run. cbn [fst]. rewrite Z.eqb_refl.
  cbn [negb]. rewrite result_bind, result_ret, result_gets.
  unfold exec at 1. rewrite download_run. cbn [snd host]. rewrite lookup_insert_eq.
  unfold exec, call. cbn [snd device upd upd_calls default]. by rewrite Ed.
Qed.

(** The duration reported for a request. *)
Definition checksum (w : WorkRequest) : Z :=
  let n := cuda_elems (wq_tokens w) in
  match wq_phase w with
  | RP_Decode => low_byte_sum n + 8 * n
  | _ => to_i64 (sum_of (prefill_elem <$> initial_data n))
  end.

Lemma checksum_spec w :
  to_i64 (sum_of (phase_elem (wq_phase w) <$> initial_data (cuda_elems (wq_tokens w)))) = checksum w.
Proof.
  unfold checksum. pose proof (elems_bounds (wq_tokens w)).
  destruct (decode_checksum (cuda_elems (wq_tokens w))) as [E Hb]; [lia|].
  destruct (decide (wq_phase w = RP_Decode)) as [->|Hne]; [|by destruct (wq_phase w)].
  cbn [phase_elem]. rewrite E. apply cast_int; [lia|]. unfold in_int64. apply andb_true_iff. lia.
Qed.

Lemma cuda_one_result e w m :
  cu_init_ok e = true -> result (cuda_one e w) m = (cuda_result w) <| wres_duration_us := checksum w |>.
Proof.
  intros He. unfold cuda_one. rewrite He. cbn [negb]. cbv zeta. set (n := cuda_elems _). rewrite !result_bind.
  destruct (malloc_exec n m) as [E1 F1]. destruct (malloc_exec n (exec (malloc n) m)) as [E2 F2].
  assert (forall m, exists a, result (malloc n) m = Some a) as Hm.
  { intros m0. unfold malloc. rewrite !result_bind. destruct (malloc_works m0 (n * 4)) as [a Ea].
    exists a. unfold result, call. cbn [fst]. by rewrite Ea. }
  destruct (Hm m) as [hi Ehi], (Hm (exec (malloc n) m)) as [ho Eho]. rewrite Ehi, Eho.
  rewrite Ehi in E1. specialize (F2 _ Eho). rewrite E1 in F2. cbn [host] in F2.
  apply lookup_insert_None in F2 as [_ Hne]. rewrite result_bind.
  set (m2 := exec (malloc n) (exec _ m)). destruct (cudaMalloc_works m2 (n * 4)) as [d Ed].
  assert (result (cudaMalloc n) m2 = inr d) as ->.
  { unfold cudaMalloc. rewrite !result_bind. unfold result, call. cbn [fst]. by rewrite Ed. }
  rewrite compute_result by (done || apply elems_bounds). by rewrite checksum_spec.
Qed.

End Working.

(** ** The theorems *)

(** C15: The CUDA executor gives back what it takes.  After a batch the host's memory
    is as before, whichever allocation, copy, launch, synchronisation or release
    failed on the way, and whether or not there is a device.  The device's memory
    is as before but for the blocks whose [cudaFree] returned an error and did
    not release them, at most one per request; where no [cudaFree] fails it is
    as before.  Every request has been answered, in order, with either a success
    or a failure that the scheduler may retry. *)
Theorem cuda_executor_returns_its_memory `{Env} `{CudaRuntime} `{!LawfulRuntime} (e : CudaExecutor) (batch : list WorkRequest) (m : Memory) :
  let m' := (exec (ex_run batch) (e, m)).2 in
  let out := result (ex_run batch) (e, m) in
  host m' = host m /\
  (exists l, refused m' = refused m ++ l /\ (length l <= length batch)%nat /\
     (forall d, d ∈ l -> device m !! d = None /\ is_Some (device m' !! d) /\
        exists m0, (rt_cudaFree m0 d).1 <> cudaSuccess) /\
     (forall k, k ∉ l -> device m' !! k = device m !! k)) /\
  ((forall m0 d, (rt_cudaFree m0 d).1 = cudaSuccess) -> device m' = device m) /\
  Forall2 answers batch out.
Proof.
  intros m' out. unfold m', out. rewrite cuda_run_exec, cuda_run_result. cbn [snd].
  destruct (cuda_batch_leaves e batch m) as (l & [Hh Hr Hb He Hd] & Hl).
  split_and!; [done| | |apply cuda_batch_answers].
  - exists l. split_and!; [done..| |done]. intros d Hin. destruct (Hb d Hin). auto.
  - intros Hok. apply map_eq. intros k. apply Hd. intros Hk. destruct (He k Hk) as [m0 Hm0]. by apply Hm0.
Qed.

(** C16: Where no call fails, the kernels compute what they say: for any order of
    the threads, every request succeeds and reports the checksum of its array
    after the kernels of its phase went over each element, exactly; for a
    decode request that is the closed form, with no rounding error. *)
Theorem cuda_executor_computes `{Env} `{CudaRuntime} `{!LawfulRuntime} `{!WorkingRuntime} (e : CudaExecutor) (batch : list WorkRequest) (m : Memory) :
  cu_init_ok e = true ->
  Forall2 (fun w r => result_key r = work_key w /\ wres_status r = CS_Succeeded /\
    wres_duration_us r = match wq_phase w with
      | RP_Decode => low_byte_sum (cuda_elems (wq_tokens w)) + 8 * cuda_elems (wq_tokens w)
      | _ => to_i64 (sum_of (prefill_elem <$> initial_data (cuda_elems (wq_tokens w))))
      end) batch (result (ex_run batch) (e, m)).
Proof.
  intros He. rewrite cuda_run_result. revert m. induction batch as [|w batch IH]; intros m; [constructor|].
  cbn [cuda_batch]. rewrite !result_bind, result_ret, cuda_one_result by done.
  constructor; [done|apply IH].
Qed.

(** ** A runtime *)

(** A device whose threads run backwards. *)
#[export] Instance demo_runtime : CudaRuntime := {|
  rt_device_count := (0, 1);
  rt_properties := (0, mkDeviceProp "demo"%string 12 0 (2 ^ 34));
  rt_meminfo := (0, 2 ^ 33);
  rt_error_string e := if e =? 0 then "no error"%string else "error"%string;
  rt_malloc m _ := Some (fresh (dom (host m)));
  rt_cudaMalloc m _ := inr (fresh (dom (device m)));
  rt_contents _ := [];
  rt_upload _ := 0;
  rt_launch _ := true;
  rt_schedule _ b t := reverse (grid b t);
  rt_mad x y z := fadd32 (fmul32 x y) z;
  rt_synchronize _ := 0;
  rt_download _ := 0;
  rt_cudaFree _ _ := (0, true)
|}.

#[export] Instance demo_runtime_lawful : LawfulRuntime.
Proof.
  split; intros *; cbn; try done.
  - intros [= <-]. apply not_elem_of_dom, is_fresh.
  - intros [= <-]. apply not_elem_of_dom, is_fresh.
  - apply reverse_Permutation.
Qed.

#[export] Instance demo_runtime_works : WorkingRuntime.
Proof. split; intros *; cbn; by eauto. Qed.

Definition memory0 : Memory := mkMemory ∅ ∅ 0 [].

(** The batch of the repository's test: 2048 tokens in, and 64 tokens out. *)
Definition demo_prefill : WorkRequest := default_work_request
  <| wq_request_id := 1 |> <| wq_attempt_id := 1 |> <| wq_generation := 1 |>
  <| wq_tokens := default_tokens <| te_input := 2048 |> |>.
Definition demo_decode : WorkRequest := default_work_request
  <| wq_request_id := 2 |> <| wq_attempt_id := 2 |> <| wq_generation := 2 |> <| wq_phase := RP_Decode |>
  <| wq_tokens := default_tokens <| te_output := 64 |> |>.

Lemma cuda_executor_returns_its_memory_witness :
  host (exec (ex_run [demo_prefill; demo_decode]) (new_cuda_executor, memory0)).2 = ∅ /\
  device (exec (ex_run [demo_prefill; demo_decode]) (new_cuda_executor, memory0)).2 = ∅.
Proof.
  destruct (cuda_executor_returns_its_memory new_cuda_executor [demo_prefill; demo_decode] memory0) as (Hh & _ & Hd & _).
  split; [exact Hh|]. apply Hd. reflexivity.
Defined.

Lemma cuda_executor_computes_witness :
  cu_init_ok new_cuda_executor = true /\
  wres_duration_us <$> (result (ex_run [demo_decode]) (new_cuda_executor, memory0) !! 0%nat) = Some 693760.
Proof.
  split; [reflexivity|].
  pose proof (cuda_executor_computes new_cuda_executor [demo_decode] memory0 eq_refl) as Hc.
  destruct (result (ex_run [demo_decode]) (new_cuda_executor, memory0)) as [|r out]; [inversion Hc|].
  apply Forall2_cons in Hc as [(_ & _ & Hd) _]. simpl. rewrite Hd. reflexivity.
Defined.
