(* ===== verification/Api.v ===== *)
(** * The public interface of the scheduler

    The methods of class [Scheduler] in [src/scheduler.cpp]: each calls the
    method of [Scheduler::Impl] and then, where it can have produced events,
    [flush_events].  The clients (the in-process driver and the coordinator)
    use the scheduler through these only; [runs] says that what a client does
    to the scheduler is a sequence of the steps of [Machine]. *)

From S2P Require Import Prelude Enums Ids Float64 Types State Admission Queue Batch Dispatch Completion Control Bytes Envelope Persist Handlers Machine Safety.
Open Scope Z_scope.

Module Scheduler.

(** The constructors: without an epoch it is the default one. *)
Definition make (c : SchedulerConfig) (salt : Z) : Impl := init_impl c None salt.
Definition make_with_epoch (c : SchedulerConfig) (ep : option Z) (salt : Z) : Impl := init_impl c ep salt.

Section Methods.
  Context `{Env}.

Definition flushed {A} (m : M A) : M A := r ← m; flush_events ;; mret r.

Definition config : M SchedulerConfig := gets cfg.
Definition get_epoch : M Z := gets epoch.

Definition submit (sp : RequestSpec) (pre : option Z) : M (Result AdmissionOutput) := flushed (do_submit sp pre).
Definition admit_request (sp : RequestSpec) (pre : option Z) : M (Result AdmissionOutput) := flushed (do_submit sp pre).
Definition cancel (request : Z) (reason : CancellationReason) (detail : string) : M (Result unit) :=
  flushed (do_cancel request reason detail).
Definition register_worker (reg : WorkerRegistration) : M unit := flushed (do_register_worker reg).
Definition update_worker_capability (w : Z) (cap : WorkerCapability) : M (Result unit) :=
  do_update_capability w cap.
Definition set_worker_state (w : Z) (st : WorkerState) (snap : option ResourceSnapshot) : M (Result unit) :=
  flushed (do_set_worker_state w st snap).
Definition unregister_worker (w : Z) : M (Result unit) := flushed (do_unregister_worker w).
Definition worker_snapshot (w : Z) : M (Result WorkerSnapshot) := gets (fun s => do_worker_snapshot s w).
Definition plan_dispatch (request : Z) (explain : bool) : M (Result DispatchOutcome) :=
  flushed (do_plan_dispatch request explain).
Definition plan_next_dispatch (explain : bool) : M (Result DispatchOutcome) := flushed (do_plan_next explain).
Definition confirm_dispatch_start (rp : CompletionReport) : M (Result unit) := flushed (do_confirm_start rp).
Definition complete_attempt (rp : CompletionReport) : M (Result CompletionOutcome) := flushed (do_complete rp).
Definition request_spec (id : Z) : M (Result RequestSpec) := gets (fun s => do_request_spec s id).
Definition request_snapshot (id : Z) : M (Result RequestSnapshot) := gets (fun s => do_request_snapshot s id).
Definition stats : M SchedulerStats := gets do_stats.
Definition snapshot : M SchedulerSnapshot := do_snapshot.
Definition queued_count : M Z := gets do_queued_count.
Definition reserved_count : M Z := gets do_reserved_count.
Definition available_worker_capacity_units : M Z := gets do_available_capacity.
Definition begin_drain (reason : string) : M (Result unit) := flushed (do_begin_drain reason).
Definition cancel_all_queued (detail : string) : M (Result unit) := flushed (do_cancel_all_queued detail).
Definition roll_epoch : M unit := flushed do_roll_epoch.
Definition drain_events : M (list SchedulerEvent) := Control.drain_events.
Definition set_event_handler (h : bool) : M unit := Control.set_event_handler h.
Definition explain (id : Z) : M ExplainResult := do_explain id.
Definition recover (io : ReadCalls) (path : string) (fs : FS) : M (Outcome unit) := do_recover io path fs.
Definition persist (io : WriteCalls) (path : string) (fs : FS) : M (Result unit * FS) := do_persist io path fs.

(** ** Runs *)

(** The state after a client's calls is reached by guarded operations. *)
Definition runs : relation Impl := rtc some_step.

Lemma runs_op o s : guard s o -> runs s (exec (run_op o) s).
Proof. intros G. apply rtc_once. by exists o. Qed.

Lemma runs_flushed {A} (m : M A) s : runs s (exec m s) -> steps runs s (flushed m).
Proof.
  intros Hm. unfold steps, flushed. rewrite !exec_bind, exec_ret. etrans; [exact Hm|].
  rewrite <- (exec_unit flush_events). by apply (runs_op OpFlush).
Qed.

Ltac by_op o := apply runs_flushed; rewrite <- exec_unit; by apply (runs_op o).

Lemma submit_runs sp pre s : requests s !! submit_id s pre = None -> steps runs s (submit sp pre).
Proof. intros G. by_op (OpSubmit sp pre). Qed.
Lemma cancel_runs id reason d s : steps runs s (cancel id reason d).
Proof. by_op (OpCancel id reason d). Qed.
Lemma register_worker_runs reg s : steps runs s (register_worker reg).
Proof. apply runs_flushed. by apply (runs_op (OpRegister reg)). Qed.
Lemma plan_dispatch_runs id ex s : steps runs s (plan_dispatch id ex).
Proof. by_op (OpPlan id ex). Qed.
Lemma confirm_dispatch_start_runs rp s : steps runs s (confirm_dispatch_start rp).
Proof. by_op (OpStart rp). Qed.
Lemma complete_attempt_runs rp s : honest s rp -> steps runs s (complete_attempt rp).
Proof. intros G. by_op (OpComplete rp). Qed.
Lemma begin_drain_runs reason s : steps runs s (begin_drain reason).
Proof. by_op (OpDrain reason). Qed.
Lemma cancel_all_queued_runs d s : steps runs s (cancel_all_queued d).
Proof. by_op (OpCancelAll d). Qed.
Lemma roll_epoch_runs s : steps runs s roll_epoch.
Proof. apply runs_flushed. by apply (runs_op OpRollEpoch). Qed.

(** [plan_next] holds the mutex twice: it picks, then plans. *)
Lemma plan_next_split ex s :
  do_plan_next ex s =
  match result pick_next s with
  | None => (Ok (hold default_dispatch_outcome DD_Hold "no_runnable"), exec pick_next s)
  | Some id => do_plan_dispatch id ex (exec pick_next s)
  end.
Proof.
  unfold do_plan_next, pick_next. rewrite !run_bind, !result_bind, !exec_bind. unfold result, exec.
  by destruct (pick_seed _ _) as [[id|] s1].
Qed.

Lemma plan_next_dispatch_runs ex s : steps runs s (plan_next_dispatch ex).
Proof.
  apply runs_flushed. unfold exec. rewrite plan_next_split.
  assert (runs s (exec pick_next s)) as Hp by (rewrite <- exec_unit; by apply (runs_op OpPick)).
  destruct (result pick_next s) as [id|]; [|done]. etrans; [exact Hp|].
  change ((do_plan_dispatch id ex (exec pick_next s)).2) with (exec (do_plan_dispatch id ex) (exec pick_next s)).
  rewrite <- (exec_unit (do_plan_dispatch id ex)). by apply (runs_op (OpPlan id ex)).
Qed.

(** Flushing changes the event log only. *)
Lemma flushed_result {A} (m : M A) s : result (flushed m) s = result m s.
Proof. unfold flushed. by rewrite !result_bind, result_ret. Qed.

Lemma flushed_same {A B} (m : M A) (f : Impl -> B) s :
  (forall s l, f (s <| event_log := l |>) = f s) -> f (exec (flushed m) s) = f (exec m s).
Proof.
  intros Hf. unfold flushed. rewrite !exec_bind, exec_ret. unfold flush_events.
  rewrite exec_bind, result_gets, exec_gets. destruct (negb _); [done|].
  rewrite !exec_bind, !exec_gets, exec_ret, exec_modify. apply Hf.
Qed.

End Methods.

End Scheduler.
