(* ===== verification/Reports.v ===== *)
(** * Reports of a batch

    What a client does after a dispatch: it reports the start of every member
    of the batch and then their completion, all from the worker the batch was
    reserved on.  The reports of such a sequence are those of the worker that
    holds the attempts ([honest]), so the sequence is a run of the scheduler. *)

From S2P Require Import Prelude Enums Ids Float64 Types State Admission Queue Batch Dispatch Completion Control Frames Lifecycle Index Accounts Micro Refine Seed BatchSpec Handlers Machine Safety DispatchSpec Api.
Open Scope Z_scope.

Section Reports.
  Context `{Env}.

(** ** What a completion leaves alone *)

Lemma complete_other rp s i :
  i <> cr_request_id rp -> requests (exec (do_complete rp) s) !! i = requests s !! i.
Proof.
  intros Hi. unfold do_complete, bump_stale. rewrite exec_bind, result_gets, exec_gets.
  case_match; [by reqs|]. rewrite exec_bind, result_gets, exec_gets. case_match; [by reqs|].
  rewrite exec_bind, result_gets, exec_gets.
  destruct (requests s !! cr_request_id rp) as [r|] eqn:Hr; [|done].
  repeat (case_match; [by reqs|]). rewrite exec_bind. erewrite settle_other; [by reqs|by reqs|done].
Qed.

Ltac fbase := apply acct_fewer; acct_base.

Lemma complete_fewer rp s : steps fewer s (do_complete rp).
Proof.
  unfold do_complete, settle, finish_success, finish_failed, finish_cancelled, complete_expired,
    make_retry, bump_stale. mwalk fbase.
Qed.

(** ** Attempts held by a worker *)

(** The request, attempt and generation a report names. *)
Definition report_key (rp : CompletionReport) : Z * Z * Z :=
  (cr_request_id rp, cr_attempt_id rp, cr_generation rp).

(** As long as the attempt is the request's current one and the request is not
    finished, it is on its way or running, and on no worker but [w]. *)
Definition held (w : Z) (k : Z * Z * Z) (s : Impl) : Prop :=
  forall r, requests s !! k.1.1 = Some r -> rec_current_attempt r = k.1.2 -> rec_generation r = k.2 ->
    live r = true ->
    occupies_worker (rec_state r) = true /\ forall w', w' <> w -> ~ flight s w' k.1.1.

Lemma held_honest s rp : held (cr_worker rp) (report_key rp) s -> honest s rp.
Proof.
  intros Hh r Hr Hm HL. unfold attempt_matches in Hm. apply andb_true_iff in Hm as [Ha%Z.eqb_eq Hg%Z.eqb_eq].
  by apply Hh.
Qed.

Lemma held_flushed {A} (m : M A) w k s :
  held w k (exec m s) -> held w k (exec (Scheduler.flushed m) s).
Proof.
  unfold held, flight. by rewrite (Scheduler.flushed_same m requests), (Scheduler.flushed_same m workers).
Qed.

(** Starts and completions from the worker keep what it holds. *)
Lemma start_held w k rp s :
  Inv s -> cr_worker rp = w -> held w k s -> held w k (exec (Scheduler.confirm_dispatch_start rp) s).
Proof.
  intros I Hw Hh. apply held_flushed.
  destruct (confirm_start_case rp s I) as [->|(r0 & now & Hr0 & Hs & _ & _ & ER & _ & HS)]; [done|].
  intros r. rewrite ER, lookup_insert. intros Hr Ha Hg HL.
  assert (occupies_worker (rec_state r) = true /\ forall w', w' <> w -> ~ flight s w' k.1.1) as [HO HF].
  { case_decide as E; [|by apply Hh]. simplify_eq. split; [done|]. apply (Hh r0); [by rewrite <- E|done|done|].
    unfold live. by rewrite Hs. }
  split; [done|]. intros w' Hw' Hf. destruct (sa_flight _ _ _ _ HS _ _ Hf) as [Hf'|[-> _]]; [by eapply HF|done].
Qed.

Lemma complete_held w k rp s :
  k.1.1 <> cr_request_id rp -> held w k s -> held w k (exec (Scheduler.complete_attempt rp) s).
Proof.
  intros Hk Hh. apply held_flushed. intros r. rewrite complete_other by done. intros Hr Ha Hg HL.
  destruct (Hh r Hr Ha Hg HL) as [HO HF]. split; [done|]. intros w' Hw' Hf.
  apply (HF w' Hw'). by apply (complete_fewer rp s).
Qed.

Lemma held_complete_runs w rp s :
  cr_worker rp = w -> held w (report_key rp) s -> steps Scheduler.runs s (Scheduler.complete_attempt rp).
Proof. intros <- Hh. by apply Scheduler.complete_attempt_runs, held_honest. Qed.

Lemma runs_Inv s s' : Inv s -> Scheduler.runs s s' -> Inv s'.
Proof.
  intros I. induction 1 as [|s1 s2 s3 [o [s o' G]] _ IH]; [done|]. apply IH.
  eapply Inv_rtc; [by apply op_refines|done].
Qed.

(** ** The members of a dispatched batch *)

Lemma plan_dispatch_members id ex s out :
  Inv s -> result (do_plan_dispatch id ex) s = Ok out -> dout_decision out = DD_Dispatch ->
  NoDup (dout_batch_members out) /\ dout_batch_members out <> [] /\
  forall m, m ∈ dout_batch_members out -> exists r,
    requests (exec (do_plan_dispatch id ex) s) !! m = Some r /\ rec_state r = RS_Reserved.
Proof.
  intros I Hr Hd. destruct (plan_dispatch_dispatched id ex s out I Hr Hd) as [(r & H1 & H2 & _) Hm _ _ _ _ _ _ _ _ HR].
  destruct (plan_members_queued (plan_state s) id (result clock_now s) r) as [ND HQ]; [by apply plan_state_Inv|done..|].
  split; [by rewrite Hm|]. split; [rewrite Hm; unfold plan_members; by destruct (form_batch _ _ _)|].
  rewrite <- Hm in HQ. intros m Hin. destruct (HQ m Hin) as (r' & Hr' & _).
  rewrite HR, bool_decide_eq_true_2, Hr' by done. eexists. split; [reflexivity|done].
Qed.

Lemma reserved_held w m a g s :
  Inv s -> (exists r, requests s !! m = Some r /\ rec_state r = RS_Reserved) -> held w (m, a, g) s.
Proof.
  intros I (r & Hr & Hs) r' Hr' _ _ _. cbn [fst] in *. simplify_eq. rewrite Hs. split; [done|].
  intros w' _ Hf. destruct (f_running _ (i_flight _ I) _ _ Hf) as (r2 & ? & ?). congruence.
Qed.

(** Whichever way the batch was planned, its members are distinct and reserved,
    so its worker holds them. *)
Definition reserved_at (s : Impl) (m : Z) : Prop :=
  exists r, requests s !! m = Some r /\ rec_state r = RS_Reserved.

Lemma planned_reserved {A} (m : M A) id ex s0 s out :
  exec m s0 = exec (do_plan_dispatch id ex) s -> Inv s ->
  result (do_plan_dispatch id ex) s = Ok out -> dout_decision out = DD_Dispatch ->
  NoDup (dout_batch_members out) /\ dout_batch_members out <> [] /\
  forall i, i ∈ dout_batch_members out -> reserved_at (exec (Scheduler.flushed m) s0) i.
Proof.
  intros E I Hr Hd. destruct (plan_dispatch_members id ex s out I Hr Hd) as (ND & Hne & HM).
  split_and!; [done..|]. intros i Hi. unfold reserved_at. rewrite (Scheduler.flushed_same m requests), E by done. by apply HM.
Qed.

Lemma plan_dispatch_reserved id ex s out :
  Inv s -> result (Scheduler.plan_dispatch id ex) s = Ok out -> dout_decision out = DD_Dispatch ->
  NoDup (dout_batch_members out) /\ dout_batch_members out <> [] /\
  forall i, i ∈ dout_batch_members out -> reserved_at (exec (Scheduler.plan_dispatch id ex) s) i.
Proof.
  intros I Hr Hd. unfold Scheduler.plan_dispatch in *. rewrite Scheduler.flushed_result in Hr.
  by eapply planned_reserved.
Qed.

Lemma plan_next_reserved ex s out :
  Inv s -> result (Scheduler.plan_next_dispatch ex) s = Ok out -> dout_decision out = DD_Dispatch ->
  NoDup (dout_batch_members out) /\ dout_batch_members out <> [] /\
  forall i, i ∈ dout_batch_members out -> reserved_at (exec (Scheduler.plan_next_dispatch ex) s) i.
Proof.
  intros I Hr Hd. unfold Scheduler.plan_next_dispatch in *. rewrite Scheduler.flushed_result in Hr.
  assert (Inv (exec pick_next s)) as I1 by (eapply Inv_rtc; [by apply pick_next_refines|done]).
  pose proof (Scheduler.plan_next_split ex s) as Hsp. unfold result in Hr. rewrite Hsp in Hr.
  destruct (result pick_next s) as [id|]; [|injection Hr as <-; done].
  apply (planned_reserved _ id ex _ (exec pick_next s)); [|done..]. unfold exec at 1. by rewrite Hsp.
Qed.

End Reports.
