(* ===== verification/Rounds.v ===== *)
(** * Rounds of reports

    The in-process driver and the coordinator report a batch the same way: a
    loop that reports the start of every member and a loop that reports its
    completion, each turn one call of the scheduler.  [Starts] and [Completes]
    say what such a loop's turn does; the lemmas on rounds follow from that
    alone, and both clients use them. *)

From S2P Require Import Prelude Enums Ids Float64 Types State Admission Queue Batch Dispatch Completion Control Frames Lifecycle Index Accounts Micro Refine Seed BatchSpec Handlers Machine Safety CompletionSpec DispatchSpec Api Reports.
Open Scope Z_scope.

(** ** Authority of reports *)

(** The epoch stays and no worker changes its boot id. *)
Record auth_kept (s s' : Impl) : Prop := {
  ak_epoch : epoch s' = epoch s;
  ak_boot : forall w b, boot_of s w = Some b -> boot_of s' w = Some b
}.

#[export] Instance auth_kept_preorder : PreOrder auth_kept.
Proof. split; [by constructor|]. intros s1 s2 s3 [] []. constructor; [congruence|auto]. Qed.

Lemma same_auth_kept s s' : same_auth s s' -> auth_kept s s'.
Proof. intros [E1 E2]. constructor; [done|]. intros w b. by rewrite E2. Qed.

Ltac kept_base := apply same_auth_kept; auth_base.

Section Kept.
  Context `{Env}.

Lemma same_auth_steps {A} (m : M A) s : steps same_auth s m -> steps auth_kept s m.
Proof. apply same_auth_kept. Qed.
Lemma tenant_of_kept t s : steps auth_kept s (tenant_of t).
Proof. apply same_auth_steps, tenant_of_auth. Qed.
Lemma dequeue_kept id s : steps auth_kept s (dequeue_request id).
Proof. apply same_auth_steps, dequeue_auth. Qed.
Lemma emit_event_kept ty r a w b d s : steps auth_kept s (emit_event ty r a w b d).
Proof. apply same_auth_steps, emit_event_auth. Qed.
Lemma release_admitted_kept t s : steps auth_kept s (release_admitted t).
Proof. apply same_auth_steps, release_admitted_auth. Qed.
Lemma settle_kept id rp now s : steps auth_kept s (settle id rp now).
Proof. apply same_auth_steps, settle_auth. Qed.
#[local] Hint Resolve tenant_of_kept dequeue_kept emit_event_kept release_admitted_kept settle_kept : frame.

Lemma worker_slot_kept w s : steps auth_kept s (worker_slot w).
Proof.
  unfold worker_slot, steps. rewrite exec_modify. destruct (workers s !! w) as [x|] eqn:Hw; [done|].
  constructor; [done|]. intros w' b Hb. unfold boot_of in *. simpl. rewrite lookup_insert_ne; [done|].
  intros ->. by rewrite Hw in Hb.
Qed.
Lemma expire_request_kept id s : steps auth_kept s (expire_request id).
Proof. unfold expire_request, modify_rec, modify_stats. mwalk kept_base. Qed.
#[local] Hint Resolve expire_request_kept : frame.
Lemma expire_scan_kept now s : steps auth_kept s (expire_scan now).
Proof. unfold expire_scan. mwalk kept_base. Qed.
Lemma prune_pending_kept k now q s : steps auth_kept s (prune_pending k now q).
Proof.
  revert s. induction q as [|e q IH]; intros s; cbn [prune_pending]; unfold put_flow; [mwalk kept_base|].
  mwalk ltac:(first [kept_base | apply IH]).
Qed.
#[local] Hint Resolve worker_slot_kept expire_scan_kept prune_pending_kept : frame.
Lemma scan_flows_kept now ks best s : steps auth_kept s (scan_flows now ks best).
Proof.
  revert best s. induction ks as [|k ks IH]; intros best s; cbn [scan_flows]; [mwalk kept_base|].
  mwalk ltac:(first [kept_base | apply IH]).
Qed.
#[local] Hint Resolve scan_flows_kept : frame.
Lemma reserve_member_kept w bid now id s : steps auth_kept s (reserve_member w bid now id).
Proof. unfold reserve_member, account_flow, put_flow, modify_rec. mwalk kept_base. Qed.
#[local] Hint Resolve reserve_member_kept : frame.

Lemma plan_dispatch_kept id ex s : steps auth_kept s (do_plan_dispatch id ex).
Proof.
  unfold do_plan_dispatch, reserve_on, clock_now, next_id, modify_rec, modify_stats, modify_worker.
  mwalk kept_base.
Qed.
#[local] Hint Resolve plan_dispatch_kept : frame.

Lemma plan_next_kept ex s : steps auth_kept s (do_plan_next ex).
Proof. unfold do_plan_next, pick_seed, clock_now. mwalk kept_base. Qed.

Lemma confirm_start_kept rp s : steps auth_kept s (do_confirm_start rp).
Proof.
  unfold do_confirm_start, start_batch, modify_rec, modify_worker, modify_tenant, modify_stats, clock_now.
  mwalk kept_base.
Qed.

Lemma complete_kept rp s : steps auth_kept s (do_complete rp).
Proof. unfold do_complete, bump_stale, modify_stats, clock_now. mwalk kept_base. Qed.

Lemma flushed_kept {A} (m : M A) s : steps auth_kept s m -> steps auth_kept s (Scheduler.flushed m).
Proof.
  intros [E1 E2]. constructor; unfold boot_of in *.
  - by rewrite (Scheduler.flushed_same m epoch).
  - by rewrite (Scheduler.flushed_same m workers).
Qed.

Lemma complete_boot rp s w b :
  boot_of s w = Some b -> boot_of (exec (Scheduler.complete_attempt rp) s) w = Some b.
Proof.
  intros Hb. pose proof (flushed_kept _ _ (complete_kept rp s)) as [_ Hk]. unfold Scheduler.complete_attempt.
  exact (Hk w b Hb).
Qed.

End Kept.

(** ** One member *)

(** The report that names [k] will find its attempt. *)
Definition open_at (k : Z * Z * Z) (s : Impl) : Prop :=
  exists r, requests s !! k.1.1 = Some r /\ rec_current_attempt r = k.1.2 /\ rec_generation r = k.2 /\
    is_terminal (rec_state r) = false /\ rec_cancellation_committed r = false.

(** The request completed, or was cancelled on request. *)
Definition finished (s : Impl) (id : Z) : Prop :=
  exists r, requests s !! id = Some r /\
    rec_state r = if rec_cancellation_requested r then RS_Cancelled else RS_Completed.

Section Members.
  Context `{Env}.

(** A reserved request's current attempt is open. *)
Lemma reserved_open s m r :
  Inv s -> requests s !! m = Some r -> rec_state r = RS_Reserved ->
  open_at (m, rec_current_attempt r, rec_generation r) s.
Proof.
  intros I Hr Hst. exists r. cbn [fst snd]. rewrite Hst. split_and!; try done.
  apply (ro_cancelled _ _ (i_records _ I _ _ Hr)). unfold live. by rewrite Hst.
Qed.

Lemma start_open k rp s :
  Inv s -> open_at k s -> open_at k (exec (Scheduler.confirm_dispatch_start rp) s).
Proof.
  intros I (r & Hr & Ha & Hg & Ht & Hc). unfold open_at, Scheduler.confirm_dispatch_start.
  rewrite (Scheduler.flushed_same _ requests) by done.
  destruct (confirm_start_case rp s I) as [->|(r0 & now & Hr0 & _ & _ & _ & -> & _)]; [by exists r|].
  rewrite lookup_insert. case_decide as Ek; [|by exists r]. rewrite <- Ek, Hr0 in Hr. injection Hr as ->.
  eexists. split; [reflexivity|]. done.
Qed.

Lemma complete_elsewhere rp s i :
  i <> cr_request_id rp ->
  requests (exec (Scheduler.complete_attempt rp) s) !! i = requests s !! i.
Proof.
  intros Hi. unfold Scheduler.complete_attempt. rewrite (Scheduler.flushed_same _ requests) by done.
  by apply complete_other.
Qed.

(** The answers that say a request is over. *)
Definition final_reasons : list string := ["success"; "failed"; "expired"; "cancelled"]%string.

Definition terminal_at (s : Impl) (id : Z) : Prop :=
  exists r, requests s !! id = Some r /\ is_terminal (rec_state r) = true.

(** The answer at hand is not one of them. *)
Ltac not_over := rewrite ?result_bind, result_ret; intros [= <-] Hf; exfalso; clear - Hf; set_solver.

Lemma settle_final id rp now s r co :
  requests s !! id = Some r -> is_terminal (rec_state r) = false ->
  result (settle id rp now) s = Ok co -> co_reason_code co ∈ final_reasons ->
  terminal_at (exec (settle id rp now) s) id.
Proof.
  intros Hr HT. unfold settle, terminal_at. rewrite !exec_bind, !result_bind, !result_gets, !exec_gets.
  assert (forall w reason, exists r', requests (exec (finish_cancelled id w reason) s) !! id = Some r' /\
    is_terminal (rec_state r') = true) as HC.
  { intros w reason. destruct (finish_cancelled_requests id w reason s r Hr) as [b ->].
    rewrite HT, lookup_insert_eq. by eexists. }
  assert (forall f, (forall x, is_terminal (rec_state (f x)) = true) ->
    exists r', alter f id (requests s) !! id = Some r' /\ is_terminal (rec_state r') = true) as HA.
  { intros f Hf. rewrite lookup_alter_eq, Hr. eexists. split; [reflexivity|]. apply Hf. }
  assert (terminal_at (exec (finish_failed id rp) s) id) as HF.
  { destruct (finish_failed_requests id rp s) as [b E]. unfold terminal_at. rewrite E. apply HA. by destruct b. }
  destruct (cr_status rp).
  - destruct (rec_cancellation_requested _); rewrite exec_bind, exec_ret; intros _ _; [apply HC|].
    destruct (finish_success_requests id rp s) as (b & t & ->). apply HA. by destruct b.
  - destruct (_ && _); [|rewrite exec_bind, exec_ret; intros _ _; exact HF].
    not_over.
  - rewrite exec_bind, exec_ret. intros _ _. apply HC.
  - rewrite exec_bind, exec_ret. intros _ _. destruct (complete_expired_requests id rp s) as [b ->]. apply HA. by destruct b.
  - not_over.
  - destruct (_ && _); [|rewrite exec_bind, exec_ret; intros _ _; exact HF].
    not_over.
Qed.

(** The answer to a report says the request is over only if it is. *)
Lemma complete_final rp s co :
  (forall r, requests s !! cr_request_id rp = Some r -> live r = true -> rec_cancellation_committed r = false) ->
  result (Scheduler.complete_attempt rp) s = Ok co -> co_reason_code co ∈ final_reasons ->
  terminal_at (exec (Scheduler.complete_attempt rp) s) (cr_request_id rp).
Proof.
  intros HC. unfold Scheduler.complete_attempt, terminal_at. rewrite Scheduler.flushed_result.
  rewrite (Scheduler.flushed_same _ requests) by done. unfold do_complete.
  rewrite exec_bind, result_bind, result_gets, exec_gets. destruct (negb _).
  { not_over. }
  rewrite exec_bind, result_bind, result_gets, exec_gets. destruct (negb _).
  { not_over. }
  rewrite exec_bind, result_bind, result_gets, exec_gets.
  destruct (requests s !! cr_request_id rp) as [r|] eqn:Hr.
  2:{ not_over. }
  destruct (negb _). { not_over. }
  destruct (is_terminal (rec_state r)) eqn:HT. { not_over. }
  rewrite (HC r eq_refl) by (unfold live; by rewrite HT). rewrite exec_bind, result_bind.
  by apply (settle_final _ _ _ _ r).
Qed.

(** The report of a success ends the request as the cancellation flag says. *)
Lemma complete_ends rp s r :
  requests s !! cr_request_id rp = Some r -> rec_current_attempt r = cr_attempt_id rp -> rec_generation r = cr_generation rp ->
  is_terminal (rec_state r) = false -> rec_cancellation_committed r = false -> cr_epoch rp = epoch s ->
  boot_of s (cr_worker rp) = Some (cr_boot_id rp) -> cr_status rp = CS_Succeeded ->
  exists r', requests (exec (Scheduler.complete_attempt rp) s) !! cr_request_id rp = Some r' /\
    rec_cancellation_requested r' = rec_cancellation_requested r /\
    rec_state r' = if rec_cancellation_requested r then RS_Cancelled else RS_Completed.
Proof.
  intros Hr Ha Hg Ht Hc He Hb Hst. unfold Scheduler.complete_attempt.
  rewrite (Scheduler.flushed_same _ requests) by done.
  assert (authorised s rp = true) as HA.
  { unfold authorised. rewrite Hr, He, Z.eqb_refl. unfold boot_matches, boot_of in *.
    destruct (workers s !! cr_worker rp) as [wr|]; [|done]. injection Hb as ->. rewrite Z.eqb_refl.
    unfold attempt_matches. by rewrite Ha, Hg, !Z.eqb_refl, Ht. }
  unfold exec. rewrite (complete_authorised rp s r) by done.
  set (s1 := exec clock_now s). assert (requests s1 !! cr_request_id rp = Some r) as Hr1 by done.
  match goal with |- exists r', requests ?x !! _ = _ /\ _ => change x with (exec (settle (cr_request_id rp) rp (result clock_now s)) s1) end.
  unfold settle. rewrite !exec_bind, !result_gets, !exec_gets, Hst. unfold request_of. rewrite Hr1. cbn [default from_option id].
  destruct (rec_cancellation_requested r) eqn:Eq; rewrite exec_bind, exec_ret.
  - destruct (finish_cancelled_requests (cr_request_id rp) (cr_worker rp) "cancelled" s1 r Hr1) as [b ->].
    rewrite Ht, lookup_insert_eq. eexists. split; [reflexivity|]. by destruct b.
  - destruct (finish_success_requests (cr_request_id rp) rp s1) as (b & t & ->).
    rewrite lookup_alter_eq, Hr1. eexists. split; [reflexivity|]. by destruct b.
Qed.

Lemma complete_finishes rp s :
  open_at (report_key rp) s -> cr_epoch rp = epoch s ->
  boot_of s (cr_worker rp) = Some (cr_boot_id rp) -> cr_status rp = CS_Succeeded ->
  finished (exec (Scheduler.complete_attempt rp) s) (cr_request_id rp).
Proof.
  intros (r & Hr & Ha & Hg & Ht & Hc) He Hb Hst. destruct (complete_ends rp s r) as (r' & Hr' & E & Hs); [done..|].
  exists r'. by rewrite E.
Qed.

End Members.

(** ** Loops *)

Section Rounds.
  Context `{Env} {D X : Type} (sched_of : D -> Impl).

(** Every turn reports a start from [w]. *)
Definition Starts (turn : X -> ST D unit) (w : Z) : Prop :=
  forall x d, exists rp, cr_worker rp = w /\
    sched_of (exec (turn x) d) = exec (Scheduler.confirm_dispatch_start rp) (sched_of d).

(** Every turn reports the completion of the attempt [key] names, from [w] under
    the boot id [boot] and the scheduler's epoch. *)
Record Completes (turn : X -> ST D unit) (w boot : Z) (key : X -> Z * Z * Z) (status : X -> CompletionStatus)
    : Type := {
  cm_report : Z -> X -> CompletionReport;
  cm_turn x d : sched_of (exec (turn x) d) =
    exec (Scheduler.complete_attempt (cm_report (epoch (sched_of d)) x)) (sched_of d);
  cm_key ep x : report_key (cm_report ep x) = key x;
  cm_worker ep x : cr_worker (cm_report ep x) = w;
  cm_boot ep x : cr_boot_id (cm_report ep x) = boot;
  cm_epoch ep x : cr_epoch (cm_report ep x) = ep;
  cm_status ep x : cr_status (cm_report ep x) = status x
}.

Lemma starts_round turn w l d :
  Starts turn w -> Inv (sched_of d) ->
  let s := sched_of d in let s' := sched_of (exec (foreach l turn) d) in
  Scheduler.runs s s' /\ auth_kept s s' /\ (forall k, held w k s -> held w k s') /\
  forall k, open_at k s -> open_at k s'.
Proof.
  intros HT. revert d. induction l as [|x l IH]; intros d I; cbn [foreach]; [by split_and!|]. cbv zeta.
  rewrite exec_bind. destruct (HT x d) as (rp & Hw & Es).
  pose proof (Scheduler.confirm_dispatch_start_runs rp (sched_of d)) as Hr. unfold steps in Hr.
  destruct (IH (exec (turn x) d)) as (R & A & K & O); [rewrite Es; by eapply runs_Inv|].
  rewrite Es in R, A, K, O. split_and!.
  - by etrans.
  - etrans; [|exact A]. apply flushed_kept, confirm_start_kept.
  - intros k Hk. apply K. by apply start_held.
  - intros k Hk. apply O. by apply start_open.
Qed.

Lemma completes_round turn w boot key status l d :
  Completes turn w boot key status -> Inv (sched_of d) -> NoDup ((fun x => (key x).1.1) <$> l) ->
  (forall x, x ∈ l -> held w (key x) (sched_of d)) ->
  Scheduler.runs (sched_of d) (sched_of (exec (foreach l turn) d)).
Proof.
  intros [rep HT HK HW _ _ _]. revert d. induction l as [|x l IH]; intros d I ND HH; cbn [foreach]; [done|].
  rewrite exec_bind. cbn [fmap list_fmap] in ND. apply NoDup_cons in ND as [Hni ND].
  pose proof (HT x d) as Es. set (rp := rep _ x) in Es.
  assert (steps Scheduler.runs (sched_of d) (Scheduler.complete_attempt rp)) as Hr.
  { apply (held_complete_runs w); [apply HW|]. unfold rp. rewrite HK. apply HH. set_solver. }
  unfold steps in Hr. etrans; [exact Hr|]. rewrite <- Es.
  apply IH; [rewrite Es; by eapply runs_Inv|done|].
  intros y Hy. rewrite Es. apply complete_held; [|apply HH; set_solver].
  change (cr_request_id rp) with ((report_key rp).1.1). unfold rp. rewrite HK. intros Heq. apply Hni.
  rewrite <- Heq. by apply (list_elem_of_fmap_2 (fun x => (key x).1.1)).
Qed.

(** A round finishes the requests whose success it reports, and touches no
    request but its own. *)
Lemma completes_finishes turn w boot key status l d :
  Completes turn w boot key status -> boot_of (sched_of d) w = Some boot ->
  NoDup ((fun x => (key x).1.1) <$> l) ->
  (forall x, x ∈ l -> status x = CS_Succeeded -> open_at (key x) (sched_of d)) ->
  let s' := sched_of (exec (foreach l turn) d) in
  (forall x, x ∈ l -> status x = CS_Succeeded -> finished s' (key x).1.1) /\
  forall i, i ∉ (fun x => (key x).1.1) <$> l -> requests s' !! i = requests (sched_of d) !! i.
Proof.
  intros [rep HT HK HW HB HE HS]. revert d. induction l as [|x l IH]; intros d Hb ND HR; cbn [foreach];
    [split; [set_solver|done]|].
  cbv zeta. rewrite exec_bind. cbn [fmap list_fmap] in *. apply NoDup_cons in ND as [Hni ND].
  pose proof (HT x d) as Es. set (rp := rep _ x) in Es. set (d1 := exec (turn x) d) in *.
  assert (cr_request_id rp = (key x).1.1) as Eid by (unfold rp; by rewrite <- (HK (epoch (sched_of d)))).
  assert (forall i, i <> (key x).1.1 -> requests (sched_of d1) !! i = requests (sched_of d) !! i) as Hother.
  { intros i Hi. rewrite Es. apply complete_elsewhere. by rewrite Eid. }
  destruct (IH d1) as [HF HO]; [|done| |].
  - rewrite Es. by apply complete_boot.
  - intros y Hy Hst'. destruct (HR y ltac:(set_solver) Hst') as (r & Hr & Hrest).
    exists r. split; [|done]. rewrite Hother; [done|]. intros Heq. apply Hni.
    rewrite <- Heq. by apply (list_elem_of_fmap_2 (fun x => (key x).1.1)).
  - split.
    + intros y [->|Hy]%elem_of_cons Hst; [|by apply HF].
      pose proof (HR x ltac:(set_solver) Hst) as Hop.
      assert (finished (sched_of d1) (key x).1.1) as (r & Hr & Hs).
      { rewrite Es, <- Eid. apply complete_finishes; unfold rp; rewrite ?HK, ?HW, ?HB, ?HE, ?HS; done. }
      exists r. split; [|done]. by rewrite HO.
    + intros i Hi. rewrite not_elem_of_cons in Hi. destruct Hi as [Hi1 Hi2]. by rewrite HO, Hother.
Qed.

End Rounds.
