(* ===== verification/LocalDriver.v ===== *)
(** * The in-process driver

    [LocalDriver] of [src/local_driver.cpp]: it plans the next dispatch, hands
    the batch to an executor, confirms the start of every member and reports
    the results, until the queue is empty or a number of batches has run.  The
    executor is a parameter of the class [Executor]. *)

From S2P Require Import Prelude Enums Ids Float64 Types State Admission Queue Batch Dispatch Completion Control Index Micro Handlers Machine Demo Safety Executor Api Reports.
Open Scope Z_scope.

Record LocalDriver (E : Type) := mkLocalDriver {
  ld_sched : Impl;
  ld_ex : E;
  ld_workers : list WorkerRegistration;
  ld_avail_units : list Z;
  ld_batches_run : Z;
  ld_requests_completed : Z
}.
Arguments mkLocalDriver {E}.
Arguments ld_sched {E}.
Arguments ld_ex {E}.
Arguments ld_workers {E}.
Arguments ld_avail_units {E}.
Arguments ld_batches_run {E}.
Arguments ld_requests_completed {E}.

#[export] Instance LocalDriver_eta {E} : Eta (LocalDriver E) :=
  fun r => mkLocalDriver (ld_sched r) (ld_ex r) (ld_workers r) (ld_avail_units r) (ld_batches_run r)
    (ld_requests_completed r).
#[export] Instance upd_ld_sched {E} : Update (@ld_sched E). Proof. derive_update. Defined.
#[export] Instance upd_ld_ex {E} : Update (@ld_ex E). Proof. derive_update. Defined.
#[export] Instance upd_ld_avail_units {E} : Update (@ld_avail_units E). Proof. derive_update. Defined.
#[export] Instance upd_ld_batches_run {E} : Update (@ld_batches_run E). Proof. derive_update. Defined.
#[export] Instance upd_ld_requests_completed {E} : Update (@ld_requests_completed E). Proof. derive_update. Defined.

(** The constructor. *)
Definition new_driver {E} (s : Impl) (e : E) (ws : list WorkerRegistration) : LocalDriver E :=
  mkLocalDriver s e ws ((fun w => cap_available_capacity_units (reg_capability w)) <$> ws) 0 0.

Fixpoint find_worker (id : Z) (ws : list WorkerRegistration) : option WorkerRegistration :=
  match ws with
  | [] => None
  | w :: ws' => if reg_worker w =? id then Some w else find_worker id ws'
  end.

Section Driver.
  Context `{Env} {E : Type} `{!Executor E}.

Abbreviation D := (ST (LocalDriver E)).

(** Calls of the scheduler and of the executor. *)
Definition on_sched {A} (m : M A) : D A :=
  fun d => let '(a, s) := m (ld_sched d) in (a, d <| ld_sched := s |>).
Definition on_ex {A} (m : ST E A) : D A :=
  fun d => let '(a, e) := m (ld_ex d) in (a, d <| ld_ex := e |>).

Fixpoint set_units (worker units : Z) (ws : list WorkerRegistration) (av : list Z) : list Z :=
  match ws, av with
  | w :: ws', a :: av' => if reg_worker w =? worker then units :: av' else a :: set_units worker units ws' av'
  | _, _ => av
  end.

Definition set_available_units (worker units : Z) : D unit :=
  modify (fun d => d <| ld_avail_units ::= set_units worker units (ld_workers d) |>).

(** [static_cast<std::int64_t>(cost > 0 ? std::ceil(cost) : 1)].  The ceiling of an
    infinity or a NaN is the value itself. *)
Definition work_cost (c : f64) : Z :=
  if fltb fzero c
  then match f64_ceil c with
       | Some z => if in_int64 z then z else env_cast (f64_of_Z z)
       | None => env_cast c
       end
  else 1.

(** The work of a member; none when the request is gone. *)
Definition work_of (s : Impl) (i : nat) (rid : Z) : option WorkRequest :=
  match do_request_snapshot s rid, do_request_spec s rid with
  | Ok snap, Ok sp =>
      Some (default_work_request
        <| wq_request_id := rid |> <| wq_attempt_id := rsn_attempt_id snap |>
        <| wq_generation := rsn_generation snap |> <| wq_phase := rsn_phase snap |>
        <| wq_model := rsn_model snap |> <| wq_revision := rsn_revision snap |>
        <| wq_adapter := spec_adapter sp |> <| wq_tokens := spec_tokens sp |>
        <| wq_cost_units := work_cost (rd_cost_units (spec_demand sp)) |>
        <| wq_batch_index := i32 (Z.of_nat i) |> <| wq_payload := spec_payload sp |>)
  | _, _ => None
  end.

Definition works_of (s : Impl) (members : list Z) : list WorkRequest :=
  omap id (imap (work_of s) members).

Definition start_report (ep w boot avail : Z) (q : WorkRequest) : CompletionReport :=
  default_report <| cr_epoch := ep |> <| cr_worker := w |> <| cr_boot_id := boot |>
    <| cr_request_id := wq_request_id q |> <| cr_attempt_id := wq_attempt_id q |>
    <| cr_generation := wq_generation q |>
    <| cr_worker_snapshot := default_resource <| res_available_capacity_units := avail |>
                                              <| res_total_capacity_units := avail |> |>.

Definition result_report (ep w boot : Z) (r : WorkResult) : CompletionReport :=
  default_report <| cr_epoch := ep |> <| cr_worker := w |> <| cr_boot_id := boot |>
    <| cr_request_id := wres_request_id r |> <| cr_attempt_id := wres_attempt_id r |>
    <| cr_generation := wres_generation r |> <| cr_status := wres_status r |>
    <| cr_failure_class := wres_failure_class r |>
    <| cr_output_tokens_produced := wres_output_tokens_produced r |>
    <| cr_work_units := wres_work_units r |> <| cr_duration_us := wres_duration_us r |>
    <| cr_error_message := wres_error_message r |>.

Definition accepted (o : Result CompletionOutcome) : bool :=
  match o with Ok co => bool_decide (co_acceptance co = CA_Accepted) | Err _ => false end.

(** The bodies of the two loops over the batch. *)
Definition confirm_one (w boot : Z) (q : WorkRequest) : D unit :=
  ep ← on_sched Scheduler.get_epoch;
  avail ← gets (fun d => default 0 (ld_avail_units d !! 0%nat));
  on_sched (Scheduler.confirm_dispatch_start (start_report ep w boot avail q)) ;; mret tt.

Definition complete_one (w boot : Z) (r : WorkResult) : D unit :=
  ep ← on_sched Scheduler.get_epoch;
  co ← on_sched (Scheduler.complete_attempt (result_report ep w boot r));
  when (accepted co) (modify (fun d => d <| ld_requests_completed ::= Z.succ |>)).

(** True when a batch ran ([bcount] grows by one exactly then). *)
Definition dispatch_one : D bool :=
  r ← on_sched (Scheduler.plan_next_dispatch false);
  match r with
  | Err _ => mret false
  | Ok out =>
      if negb (bool_decide (dout_decision out = DD_Dispatch)) then mret false else
      ws ← gets ld_workers;
      match find_worker (dout_worker_id out) ws with
      | None => mret false
      | Some wr =>
          if bool_decide (dout_batch_members out = []) then mret false else
          reqs ← gets (fun d => works_of (ld_sched d) (dout_batch_members out));
          if bool_decide (length reqs = 0%nat) then mret false else
          results ← on_ex (ex_run reqs);
          foreach reqs (confirm_one (dout_worker_id out) (reg_boot_id wr)) ;;
          foreach results (complete_one (dout_worker_id out) (reg_boot_id wr)) ;;
          modify (fun d => d <| ld_batches_run ::= Z.succ |>) ;;
          mret true
      end
  end.

(** The loop of [run_until_idle]: each turn runs a batch or leaves the loop, so
    one turn more than [max_batches] is enough; [None] would say that the fuel
    ran out. *)
Fixpoint run_loop (fuel : nat) (b max_batches : Z) : D (option unit) :=
  match fuel with
  | O => mret None
  | Datatypes.S fuel' =>
      if b <? max_batches then
        q ← on_sched Scheduler.queued_count;
        if q =? 0 then mret (Some tt) else
        more ← dispatch_one;
        if more : bool then run_loop fuel' (b + 1) max_batches else mret (Some tt)
      else mret (Some tt)
  end.

Definition run_until_idle (max_batches : Z) : D (option Z) :=
  r ← run_loop (Datatypes.S (Z.to_nat max_batches)) 0 max_batches;
  n ← gets ld_batches_run;
  mret (match r with Some _ => Some n | None => None end).

End Driver.
