(* ===== verification/DriverSpec.v ===== *)
(** * The driver uses the scheduler as intended

    A run of the driver is a run of the scheduler's machine whatever lawful
    executor it has, it ends, and it finishes every batch it dispatches. *)

From S2P Require Import Prelude Enums Ids Float64 Types State Admission Queue Batch Dispatch Completion Control Frames Lifecycle Index Accounts Micro Refine Seed BatchSpec Handlers Machine Demo Safety CompletionSpec DispatchSpec Executor Api Reports Rounds LocalDriver.
Open Scope Z_scope.

(** ** The work handed to the executor *)

Section Work.
  Context `{Env}.

Lemma work_of_id s i rid q : work_of s i rid = Some q -> wq_request_id q = rid.
Proof.
  unfold work_of. destruct (do_request_snapshot s rid); [|done]. destruct (do_request_spec s rid); [|done].
  by intros [= <-].
Qed.

Lemma works_sublist (f : nat -> Z -> option WorkRequest) l :
  (forall i rid q, f i rid = Some q -> wq_request_id q = rid) ->
  (wq_request_id <$> omap id (imap f l)) `sublist_of` l.
Proof.
  revert f. induction l as [|x l IH]; intros f Hf; [done|]. rewrite imap_cons. cbn [omap list_omap].
  specialize (IH (f ∘ Datatypes.S) ltac:(intros ???; apply Hf)).
  destruct (f 0%nat x) as [q|] eqn:E; cbn; [|by apply sublist_cons].
  rewrite (Hf _ _ _ E). by apply sublist_skip.
Qed.

Lemma works_of_ids s l : (wq_request_id <$> works_of s l) `sublist_of` l.
Proof. apply works_sublist. apply work_of_id. Qed.

End Work.

Section Driver.
  Context `{Env} {E : Type} `{!Executor E, !LawfulExecutor E}.
  Implicit Types d : LocalDriver E.

Lemma on_sched_exec {A} (m : M A) d : ld_sched (exec (on_sched m) d) = exec m (ld_sched d).
Proof. unfold exec, on_sched. by destruct (m (ld_sched d)). Qed.
Lemma on_sched_result {A} (m : M A) d : result (on_sched m) d = result m (ld_sched d).
Proof. unfold result, on_sched. by destruct (m (ld_sched d)). Qed.
Lemma on_ex_sched {A} (m : ST E A) d : ld_sched (exec (on_ex m) d) = ld_sched d.
Proof. unfold exec, on_ex. by destruct (m (ld_ex d)). Qed.
Lemma on_ex_result {A} (m : ST E A) d : result (on_ex m) d = result m (ld_ex d).
Proof. unfold result, on_ex. by destruct (m (ld_ex d)). Qed.
Lemma on_sched_other {A B} (m : M A) (f : LocalDriver E -> B) d :
  (forall d s, f (d <| ld_sched := s |>) = f d) -> f (exec (on_sched m) d) = f d.
Proof. intros Hf. unfold exec, on_sched. destruct (m (ld_sched d)). apply Hf. Qed.

Lemma on_epoch d : on_sched Scheduler.get_epoch d = (epoch (ld_sched d), d).
Proof. by destruct d. Qed.

Lemma exec_epoch {A} (k : Z -> ST (LocalDriver E) A) d :
  exec (on_sched Scheduler.get_epoch ≫= k) d = exec (k (epoch (ld_sched d))) d.
Proof. unfold exec at 1. by rewrite run_bind, on_epoch. Qed.

(** The scheduler after one turn of each loop. *)
Lemma confirm_one_sched w boot q d :
  exists rp, cr_worker rp = w /\
    ld_sched (exec (confirm_one w boot q) d) = exec (Scheduler.confirm_dispatch_start rp) (ld_sched d).
Proof.
  unfold confirm_one. rewrite exec_epoch, !exec_bind, !result_gets, !exec_gets, exec_ret.
  eexists. split; [|apply on_sched_exec]. done.
Qed.

Lemma complete_one_sched w boot r d :
  ld_sched (exec (complete_one w boot r) d) =
  exec (Scheduler.complete_attempt (result_report (epoch (ld_sched d)) w boot r)) (ld_sched d).
Proof.
  unfold complete_one. rewrite exec_epoch, exec_bind, exec_when. generalize (result_report (epoch (ld_sched d)) w boot r).
  intros rp. rewrite <- on_sched_exec. generalize (exec (on_sched (Scheduler.complete_attempt rp)) d).
  intros d'. by destruct (accepted _).
Qed.

(** The two loops over the batch are rounds. *)
Lemma confirm_starts w boot : Starts ld_sched (confirm_one (E:=E) w boot) w.
Proof. intros q d. apply confirm_one_sched. Qed.

Lemma complete_completes w boot :
  Completes ld_sched (complete_one (E:=E) w boot) w boot result_key wres_status.
Proof.
  exists (fun ep r => result_report ep w boot r); [|done..]. intros r d. apply complete_one_sched.
Qed.

Lemma dispatch_one_runs d :
  Inv (ld_sched d) -> Scheduler.runs (ld_sched d) (ld_sched (exec dispatch_one d)).
Proof.
  intros I. unfold dispatch_one. rewrite exec_bind, on_sched_result.
  pose proof (Scheduler.plan_next_dispatch_runs false (ld_sched d)) as Hp. unfold steps in Hp.
  pose proof (on_sched_exec (Scheduler.plan_next_dispatch false) d) as Es.
  set (d1 := exec (on_sched _) d) in *. rewrite <- Es in Hp.
  assert (Inv (ld_sched d1)) as I1 by (by eapply runs_Inv).
  destruct (result (Scheduler.plan_next_dispatch false) (ld_sched d)) as [out|e] eqn:Er; [|done].
  case_bool_decide as Hd; cbn [negb]; [|done].
  destruct (plan_next_reserved false (ld_sched d) out I Er Hd) as (ND & _ & HH). rewrite <- Es in HH.
  rewrite exec_bind, result_gets, exec_gets. destruct (find_worker _ _) as [wr|]; [|done].
  case_bool_decide; [done|]. rewrite exec_bind, result_gets, exec_gets.
  set (reqs := works_of _ _). case_bool_decide; [done|].
  rewrite !exec_bind, on_ex_result, exec_ret, exec_modify. cbn [ld_sched].
  set (w := dout_worker_id out). set (boot := reg_boot_id wr).
  set (d2 := exec (on_ex _) d1). assert (ld_sched d2 = ld_sched d1) as E2 by apply on_ex_sched.
  destruct (starts_round ld_sched _ w reqs d2 (confirm_starts w boot) ltac:(by rewrite E2)) as (R3 & _ & K3 & _).
  set (d3 := exec (foreach reqs _) d2) in *. rewrite E2 in R3.
  pose proof (ex_answers reqs (ld_ex d1)) as Hans.
  set (results := result (ex_run reqs) (ld_ex d1)) in *.
  pose proof (works_of_ids (ld_sched d1) (dout_batch_members out)) as Hsub. fold reqs in Hsub.
  assert (wres_request_id <$> results = wq_request_id <$> reqs) as Hids.
  { apply (f_equal (fmap (fun k => k.1.1))) in Hans. by rewrite <- !list_fmap_compose in Hans. }
  etrans; [exact Hp|]. etrans; [exact R3|].
  apply (completes_round ld_sched _ _ _ _ _ results d3 (complete_completes w boot)); [by eapply runs_Inv| |].
  - change (NoDup (wres_request_id <$> results)). rewrite Hids. by eapply sublist_NoDup.
  - intros r Hr. apply K3. rewrite E2. destruct (result_key r) as [[i a] g] eqn:Ek.
    apply reserved_held; [done|]. apply HH.
    assert (i ∈ wres_request_id <$> results) as Hi.
    { replace i with (wres_request_id r) by (by injection Ek). by apply list_elem_of_fmap_2. }
    rewrite Hids in Hi. by eapply elem_of_sublist.
Qed.

(** ** The whole run *)

Lemma run_loop_runs fuel b n d :
  Inv (ld_sched d) -> Scheduler.runs (ld_sched d) (ld_sched (exec (run_loop fuel b n) d)).
Proof.
  revert b d. induction fuel as [|fuel IH]; intros b d I; cbn [run_loop]; [done|].
  destruct (b <? n); [|done]. rewrite exec_bind.
  assert (exec (on_sched Scheduler.queued_count) d = d) as -> by (by destruct d).
  destruct (_ =? 0); [done|]. rewrite exec_bind. pose proof (dispatch_one_runs d I) as Hr.
  destruct (result dispatch_one d); [|done]. etrans; [exact Hr|]. apply IH. by eapply runs_Inv.
Qed.

Lemma run_loop_ends fuel b n d :
  n - b < Z.of_nat fuel -> 0 < Z.of_nat fuel -> is_Some (result (run_loop fuel b n) d).
Proof.
  revert b d. induction fuel as [|fuel IH]; intros b d Hf Hp; [lia|]. cbn [run_loop].
  destruct (Z.ltb_spec b n); [|by eexists]. rewrite result_bind. destruct (_ =? 0); [by eexists|].
  rewrite result_bind. destruct (result dispatch_one _); [|by eexists]. apply IH; lia.
Qed.

End Driver.

(** C13: The driver.  Whatever executor it is given, as long as that answers each
    request of a batch under its identifiers, [run_until_idle] ends, and what it
    has done to the scheduler is a sequence of the scheduler's operations as
    its contract wants them: every report comes from the worker that holds the
    attempt.  All the theorems on reachable states apply to the result. *)
Theorem driver_runs_the_scheduler `{Env} {E} `{!Executor E, !LawfulExecutor E} c ep salt
    (d : LocalDriver E) (max_batches : Z) :
  reachable c ep salt (ld_sched d) ->
  is_Some (result (run_until_idle max_batches) d) /\
  reachable c ep salt (ld_sched (exec (run_until_idle max_batches) d)).
Proof.
  intros Hd. pose proof (reachable_Inv _ _ _ _ Hd) as I. unfold run_until_idle.
  rewrite result_bind, exec_bind. split.
  - rewrite result_bind, result_ret.
    destruct (run_loop_ends (Datatypes.S (Z.to_nat max_batches)) 0 max_batches d) as [x ->]; [lia..|by eexists].
  - rewrite exec_bind, exec_gets, exec_ret. eapply run_reachable; [exact Hd|]. by apply run_loop_runs.
Qed.

(** The demonstration queue, driven by the CPU executor. *)
Definition demo_driver : LocalDriver CpuExecutor :=
  new_driver demo_queued (mkCpuExecutor 10 400000) [demo_reg].

Lemma driver_runs_the_scheduler_witness :
  is_Some (result (run_until_idle 10) demo_driver) /\
  demo_reachable (ld_sched (exec (run_until_idle 10) demo_driver)).
Proof. exact (driver_runs_the_scheduler _ _ _ demo_driver 10 demo_queued_reachable). Defined.

Example demo_driver_run :
  result (run_until_idle 10) demo_driver = Some 2 /\
  ld_requests_completed (exec (run_until_idle 10) demo_driver) = 3 /\
  do_queued_count (ld_sched (exec (run_until_idle 10) demo_driver)) = 0.
Proof. by vm_compute. Qed.

(** ** The batch *)

Section Batch.
  Context `{Env} {E : Type} `{!Executor E, !LawfulExecutor E}.
  Implicit Types d : LocalDriver E.

(** Every member of the batch has its work. *)
Lemma works_of_all s l :
  (forall m, m ∈ l -> is_Some (requests s !! m)) ->
  wq_request_id <$> works_of s l = l /\
  forall q, q ∈ works_of s l -> exists r, requests s !! wq_request_id q = Some r /\
    work_key q = (wq_request_id q, rec_current_attempt r, rec_generation r) /\ wq_cancel_requested q = false.
Proof.
  unfold works_of. intros HL.
  assert (forall f : nat -> Z -> option WorkRequest, (forall i rid, rid ∈ l -> exists q r, f i rid = Some q /\ wq_request_id q = rid /\
      requests s !! rid = Some r /\ work_key q = (rid, rec_current_attempt r, rec_generation r) /\ wq_cancel_requested q = false) ->
    wq_request_id <$> omap id (imap f l) = l /\
    forall q, q ∈ omap id (imap f l) -> exists r, requests s !! wq_request_id q = Some r /\
      work_key q = (wq_request_id q, rec_current_attempt r, rec_generation r) /\ wq_cancel_requested q = false) as Hgen.
  { clear HL. induction l as [|x l IH]; intros f Hf; [split; [done|set_solver]|].
    rewrite imap_cons. cbn [omap list_omap].
    destruct (Hf 0%nat x ltac:(set_solver)) as (q & r & Eq & Hid & Hr & Hk & Hc). rewrite Eq. cbn.
    destruct (IH (f ∘ Datatypes.S)) as [H1 H2]; [intros i rid Hrid; apply Hf; set_solver|].
    split; [by rewrite H1, Hid|]. intros q' [->|Hq]%elem_of_cons; [|by apply H2].
    exists r. by rewrite Hid. }
  apply Hgen. intros i rid Hrid. destruct (HL rid Hrid) as [r Hr]. unfold work_of, do_request_snapshot, do_request_spec.
  rewrite Hr. eexists _, r. split; [reflexivity|]. done.
Qed.

(** The work of reserved requests is on open attempts. *)
Lemma works_open s l q :
  Inv s -> (forall m, m ∈ l -> reserved_at s m) -> q ∈ works_of s l -> open_at (work_key q) s.
Proof.
  intros I HM Hq. destruct (works_of_all s l) as [Hids HQ]; [intros m Hm; destruct (HM m Hm) as (r & Hr & _); by exists r|].
  destruct (HQ q Hq) as (r & Hr & -> & _).
  destruct (HM (wq_request_id q)) as (r' & Hr' & Hst); [rewrite <- Hids; by apply list_elem_of_fmap_2|].
  rewrite Hr in Hr'. injection Hr' as <-. by apply reserved_open.
Qed.

Lemma dispatch_one_finishes d out wr :
  Inv (ld_sched d) ->
  (forall qs e, Forall (fun q => wq_cancel_requested q = false) qs ->
     Forall (fun r => wres_status r = CS_Succeeded) (result (ex_run qs) e)) ->
  result (Scheduler.plan_next_dispatch false) (ld_sched d) = Ok out -> dout_decision out = DD_Dispatch ->
  find_worker (dout_worker_id out) (ld_workers d) = Some wr ->
  boot_of (ld_sched d) (dout_worker_id out) = Some (reg_boot_id wr) ->
  result dispatch_one d = true /\
  forall m, m ∈ dout_batch_members out -> finished (ld_sched (exec dispatch_one d)) m.
Proof.
  intros I HX Er Hd Hw Hb. unfold dispatch_one. rewrite exec_bind, result_bind, on_sched_result, Er.
  pose proof (on_sched_exec (Scheduler.plan_next_dispatch false) d) as Es.
  pose proof (Scheduler.plan_next_dispatch_runs false (ld_sched d)) as Hp. unfold steps in Hp. rewrite <- Es in Hp.
  pose proof (on_sched_other (Scheduler.plan_next_dispatch false) ld_workers d ltac:(done)) as Ew.
  pose proof (flushed_kept _ _ (plan_next_kept false (ld_sched d))) as Ka. unfold steps in Ka.
  set (d1 := exec (on_sched _) d) in *.
  assert (Inv (ld_sched d1)) as I1 by (by eapply runs_Inv).
  assert (boot_of (ld_sched d1) (dout_worker_id out) = Some (reg_boot_id wr)) as Hb1
    by (rewrite Es; by apply (ak_boot _ _ Ka)).
  destruct (plan_next_reserved false (ld_sched d) out I Er Hd) as (ND & Hne & HM). rewrite <- Es in HM.
  rewrite bool_decide_eq_true_2 by done. cbn [negb]. rewrite exec_bind, result_bind, result_gets, exec_gets, Ew, Hw.
  rewrite bool_decide_eq_false_2 by done. rewrite exec_bind, result_bind, result_gets, exec_gets.
  destruct (works_of_all (ld_sched d1) (dout_batch_members out)) as [Hids HQ].
  { intros m Hm. destruct (HM m Hm) as (r & Hr & _). by exists r. }
  set (reqs := works_of _ _) in *.
  rewrite bool_decide_eq_false_2.
  2:{ intros El. apply nil_length_inv in El. rewrite El in Hids. cbn in Hids. congruence. }
  rewrite !exec_bind, !result_bind, on_ex_result, exec_ret, result_ret, exec_modify. cbn [ld_sched].
  split; [done|]. set (w := dout_worker_id out) in *. set (boot := reg_boot_id wr) in *.
  set (d2 := exec (on_ex _) d1). assert (ld_sched d2 = ld_sched d1) as E2 by apply on_ex_sched.
  destruct (starts_round ld_sched _ w reqs d2 (confirm_starts w boot) ltac:(by rewrite E2)) as (_ & K3 & _ & O3).
  rewrite E2 in K3, O3.
  set (d3 := exec (foreach reqs _) d2) in *.
  pose proof (ex_answers reqs (ld_ex d1)) as Hans.
  assert (Forall (fun r => wres_status r = CS_Succeeded) (result (ex_run reqs) (ld_ex d1))) as HS.
  { apply HX, Forall_forall. intros q Hq. by destruct (HQ q Hq) as (r & _ & _ & ?). }
  set (results := result (ex_run reqs) (ld_ex d1)) in *.
  assert (wres_request_id <$> results = dout_batch_members out) as Hres.
  { rewrite <- Hids. apply (f_equal (fmap (fun k => k.1.1))) in Hans. by rewrite <- !list_fmap_compose in Hans. }
  assert (forall r, r ∈ results -> wres_status r = CS_Succeeded /\ open_at (result_key r) (ld_sched d3)) as Hopen.
  { intros r Hr. rewrite Forall_forall in HS. split; [by apply HS|]. apply O3.
    assert (result_key r ∈ work_key <$> reqs) as (q & -> & Hq)%list_elem_of_fmap
      by (rewrite <- Hans; by apply list_elem_of_fmap_2).
    by apply (works_open (ld_sched d1) (dout_batch_members out)). }
  destruct (completes_finishes ld_sched _ _ _ _ _ results d3 (complete_completes w boot)) as [HF _];
    [by apply (ak_boot _ _ K3)|change (NoDup (wres_request_id <$> results)); by rewrite Hres|intros r Hr _; by apply Hopen|].
  intros m Hm. rewrite <- Hres in Hm. apply list_elem_of_fmap in Hm as (r & -> & Hr).
  apply HF; [done|]. by apply Hopen.
Qed.

End Batch.

(** C14: Nothing a driver dispatches is left behind.  When the next plan is a
    dispatch to a worker the driver knows under its current boot id, the driver
    with the CPU executor runs the batch, and afterwards every member of it is
    completed, or cancelled if its cancellation had been requested. *)
Theorem driver_finishes_its_batches `{Env} c ep salt (d : LocalDriver CpuExecutor) out wr :
  reachable c ep salt (ld_sched d) ->
  result (Scheduler.plan_next_dispatch false) (ld_sched d) = Ok out -> dout_decision out = DD_Dispatch ->
  find_worker (dout_worker_id out) (ld_workers d) = Some wr ->
  boot_of (ld_sched d) (dout_worker_id out) = Some (reg_boot_id wr) ->
  result dispatch_one d = true /\
  dout_batch_members out <> [] /\
  forall m, m ∈ dout_batch_members out -> finished (ld_sched (exec dispatch_one d)) m.
Proof.
  intros I%reachable_Inv Er Hd Hw Hb.
  destruct (plan_next_reserved false (ld_sched d) out I Er Hd) as (_ & Hne & _).
  destruct (dispatch_one_finishes d out wr) as [H1 H2]; try done.
  intros qs e Hqs. unfold result. cbn [ex_run cpu_executor cpu_run fst].
  apply Forall_fmap. eapply Forall_impl; [exact Hqs|]. intros q Hq. cbn. unfold cpu_one. by rewrite Hq.
Qed.

Definition demo_next : DispatchOutcome :=
  match result (Scheduler.plan_next_dispatch false) demo_queued with
  | Ok out => out
  | Err _ => default_dispatch_outcome
  end.

Lemma driver_finishes_its_batches_witness :
  result dispatch_one demo_driver = true /\ dout_batch_members demo_next <> [] /\
  forall m, m ∈ dout_batch_members demo_next -> finished (ld_sched (exec dispatch_one demo_driver)) m.
Proof.
  apply (driver_finishes_its_batches _ _ _ demo_driver demo_next demo_reg demo_queued_reachable); by vm_compute.
Defined.
