(* ===== verification/Worker.v ===== *)
(** * The worker process

    [src/worker_app.cpp]: the registration message, and the loop that answers
    each [run] message with a [completed] message.  The worker's own state is
    the set [seen] of requests that have already failed once; running a batch
    is an [Executor] on that state.

    The argument vector is given as its parsed values. *)

From S2P Require Import Prelude Enums Ids Float64 Types State Bytes Envelope Net Decimal Json JsonSpec Protocol Executor.
Open Scope Z_scope.

Record WorkerArgs := mkWorkerArgs {
  wa_worker : Z;
  wa_boot : Z;
  wa_units : Z;
  wa_backend : string;
  wa_models : option string
}.

(** The comma-separated pieces of the model list; nothing after a final
    comma. *)
Fixpoint pieces (l cur : text) : list text :=
  match l with
  | [] => match cur with [] => [] | _ => [cur] end
  | c :: l' => if Byte.eqb c x2c then cur :: pieces l' [] else pieces l' (cur ++ [c])
  end.

Definition models_json (a : WorkerArgs) : Json :=
  JArr match wa_models a with
       | Some m => (fun p => id_json (strtoull p)) <$> pieces (string_bytes m) []
       | None => []
       end.

Definition register_message (a : WorkerArgs) : Json :=
  jobject [ ("op", JStr "register");
            ("worker", id_json (wa_worker a));
            ("boot", id_json (wa_boot a));
            ("node", id_json (u64 (wa_worker a * 100 + 1)));
            ("accel", id_json (u64 (wa_worker a * 100 + 2)));
            ("units", int_json (wa_units a));
            ("backend", JStr (wa_backend a));
            ("device", JStr (wa_backend a +:+ "-" +:+ bytes_string (dec (wa_worker a))));
            ("models", models_json a) ]%string.

(** ** Running a batch *)

(** One turn of the loop over the batch: a [fail_once] request fails the first
    time it is seen. *)
Definition run_one (w : WorkRequest) : ST (gset Z) WorkResult :=
  seen ← gets (fun seen => bool_decide (wq_request_id w ∈ seen));
  let r := default_work_result
    <| wres_request_id := wq_request_id w |> <| wres_attempt_id := wq_attempt_id w |>
    <| wres_generation := wq_generation w |> in
  if String.eqb (wq_payload w) "fail_once" && negb seen then
    modify (fun seen => {[wq_request_id w]} ∪ seen) ;;
    mret (r <| wres_status := CS_Failed |> <| wres_failure_class := FC_RetryableWorker |>
            <| wres_work_units := wq_cost_units w |>
            <| wres_error_message := "one-shot retryable failure" |>)
  else
    mret (r <| wres_status := CS_Succeeded |>
            <| wres_output_tokens_produced := te_output (wq_tokens w) |>
            <| wres_work_units := wq_cost_units w |>
            <| wres_duration_us := i64 (wq_cost_units w * 3) |>).

Fixpoint run_batch (ws : list WorkRequest) : ST (gset Z) (list WorkResult) :=
  match ws with
  | [] => mret []
  | w :: ws' => r ← run_one w; rs ← run_batch ws'; mret (r :: rs)
  end.

#[export] Instance worker_executor : Executor (gset Z) := {|
  ex_name _ := "worker"%string;
  ex_run := run_batch
|}.

(** ** Messages *)

Section Worker.
  Context `{Env}.

(** A member of a [run] message; [None]: its phase is no enumerator. *)
Definition member_work (mj : Json) : option WorkRequest :=
  phase ← RequestPhase_of_int (int_of mj "phase" 1);
  Some (default_work_request
    <| wq_request_id := num_u64 mj "req" 0 |> <| wq_attempt_id := num_u64 mj "attempt" 0 |>
    <| wq_generation := num_u64 mj "gen" 0 |> <| wq_phase := phase |>
    <| wq_model := num_u64 mj "model" 0 |> <| wq_revision := num_u64 mj "rev" 0 |>
    <| wq_adapter := num_u64 mj "adapter" 0 |>
    <| wq_tokens := default_tokens <| te_input := i64_of mj "tin" 0 |> <| te_output := i64_of mj "tout" 0 |> |>
    <| wq_cost_units := to_i64 (getnum mj "cost" fone) |>
    <| wq_payload := getstr mj "payload" EmptyString |>).

(** The elements of an array field, none if it is no array. *)
Definition array_field (j : Json) (k : string) : list Json :=
  match jget j k with Some (JArr l) => l | _ => [] end.

Definition result_fields (r : WorkResult) : list (string * Json) :=
  [ ("req", id_json (wres_request_id r));
    ("attempt", id_json (wres_attempt_id r));
    ("gen", id_json (wres_generation r));
    ("status", int_json (CompletionStatus_int (wres_status r)));
    ("failure", int_json (FailureClass_int (wres_failure_class r)));
    ("out", int_json (wres_output_tokens_produced r));
    ("work", int_json (wres_work_units r));
    ("dur", int_json (wres_duration_us r));
    ("msg", JStr (wres_error_message r)) ]%string.

Definition completed_message (batch_id units : Z) (rs : list WorkResult) : Json :=
  jobject [ ("op", JStr "completed");
            ("batch_id", id_json batch_id);
            ("units", id_json (u64 units));
            ("results", JArr ((fun r => jobject (result_fields r)) <$> rs)) ]%string.

(** The answer to a [run] message. *)
Definition handle_run (a : WorkerArgs) (msg : Json) : ST (gset Z) (option Json) :=
  match mapM member_work (array_field msg "members") with
  | None => mret None
  | Some reqs =>
      results ← run_batch reqs;
      mret (Some (completed_message (num_u64 msg "batch_id" 0) (wa_units a) results))
  end.

(** ** The message loop *)

Context {K : Type} `{!Socket K}.

(** How the process ends, on its connection's socket and the set [seen]: its
    loop is over, it could not register, the fuel ran out, or a message was out
    of the model. *)
Inductive WorkerEnd := Finished | NotRegistered | OutOfFuel | Unmodelled.

Fixpoint worker_loop (fuel : nat) (a : WorkerArgs) (c : FramedConnection) : ST (K * gset Z) WorkerEnd :=
  match fuel with
  | O => mret OutOfFuel
  | Datatypes.S fuel' => fun '(k, seen) =>
      let '(m, k1) := recv_json (Some c) k in
      match m with
      | None => (OutOfFuel, (k1, seen))
      | Some msg =>
          if is_null msg then (Finished, (k1, seen))
          else if String.eqb (getstr msg "op" "") "run" then
            match handle_run a msg seen with
            | (None, seen1) => (Unmodelled, (k1, seen1))
            | (Some done, seen1) =>
                let '(_, k2) := send_json (Some c) done k1 in
                worker_loop fuel' a c (k2, seen1)
            end
          else if String.eqb (getstr msg "op" "") "shutdown" then (Finished, (k1, seen))
          else worker_loop fuel' a c (k1, seen)
      end
  end.

(** Register, then serve; nothing if the registration cannot be sent. *)
Definition worker_main (fuel : nat) (a : WorkerArgs) (c : FramedConnection) : ST (K * gset Z) WorkerEnd :=
  fun '(k, seen) =>
    match send_json (Some c) (register_message a) k with
    | (Some true, k1) => worker_loop fuel a c (k1, seen)
    | (Some false, k1) => (NotRegistered, (k1, seen))
    | (None, k1) => (OutOfFuel, (k1, seen))
    end.

End Worker.

(** ** The executor law *)

Lemma run_one_key w seen : result_key (result (run_one w) seen) = work_key w.
Proof. unfold run_one. rewrite result_bind, result_gets, exec_gets. cbv zeta. by destruct (_ && _). Qed.

#[export] Instance worker_lawful : LawfulExecutor (gset Z).
Proof.
  intros ws. induction ws as [|w ws IH]; intros seen; [done|]. cbn [ex_run worker_executor run_batch].
  rewrite !result_bind, result_ret. cbn [fmap list_fmap]. by rewrite run_one_key, IH.
Qed.

(** A request fails for the reason of [fail_once] at most once. *)
Lemma run_one_status w seen :
  wres_status (result (run_one w) seen) =
    (if String.eqb (wq_payload w) "fail_once" && negb (bool_decide (wq_request_id w ∈ seen))
     then CS_Failed else CS_Succeeded) /\
  exec (run_one w) seen =
    (if String.eqb (wq_payload w) "fail_once" && negb (bool_decide (wq_request_id w ∈ seen))
     then {[wq_request_id w]} ∪ seen else seen).
Proof.
  unfold run_one. rewrite result_bind, exec_bind, result_gets, exec_gets. cbv zeta.
  destruct (_ && _); [|done]. by rewrite result_bind, exec_bind, exec_modify.
Qed.
