(* ===== verification/Coordinator.v ===== *)
(** * The coordinator process

    [src/coordinator_app.cpp]: one scheduler, a slot per registered worker, a
    thread per worker that turns its [completed] messages into reports, and a
    thread per client that answers its messages.  A slot is shared between the
    maps of the coordinator and its thread, so slots live in a list and are
    referred to by their position.

    A client's [dispatch] message is answered in two parts: [handle_one] plans
    the dispatch and sends the batch to the worker, then waits until the
    worker's thread has stored the outcome in the slot, and [dispatch_ack] is
    the answer.  What happens in between is up to the other threads.  The calls
    one handler makes before it waits, and those a worker's thread makes for one
    message, are taken to run with no other thread's call between them. *)

From S2P Require Import Prelude Enums Ids Float64 Types State Admission Queue Batch Dispatch Completion Control Bytes Envelope Net Decimal Json JsonSpec Protocol Executor Worker Api.
Open Scope Z_scope.

Record WorkerSlot := mkWorkerSlot {
  slot_worker : Z;
  slot_boot : Z;
  slot_units : Z;
  slot_has_result : bool;
  slot_result : Json
}.

#[export] Instance WorkerSlot_eta : Eta WorkerSlot :=
  fun r => mkWorkerSlot (slot_worker r) (slot_boot r) (slot_units r) (slot_has_result r) (slot_result r).
#[export] Instance upd_slot_has_result : Update slot_has_result. Proof. derive_update. Defined.
#[export] Instance upd_slot_result : Update slot_result. Proof. derive_update. Defined.

Record Coordinator := mkCoordinator {
  co_sched : Impl;
  co_workers : list WorkerSlot;
  co_by_worker : gmap Z nat
}.

#[export] Instance Coordinator_eta : Eta Coordinator :=
  fun r => mkCoordinator (co_sched r) (co_workers r) (co_by_worker r).
#[export] Instance upd_co_sched : Update co_sched. Proof. derive_update. Defined.
#[export] Instance upd_co_workers : Update co_workers. Proof. derive_update. Defined.
#[export] Instance upd_co_by_worker : Update co_by_worker. Proof. derive_update. Defined.

Abbreviation CM := (ST Coordinator).

Definition new_coordinator (s : Impl) : Coordinator := mkCoordinator s [] ∅.

Definition worker_count : CM Z := gets (fun c => i32 (Z.of_nat (length (co_workers c)))).
Definition find (w : Z) : CM (option nat) := gets (fun c => co_by_worker c !! w).

Section Coordinator.
  Context `{Env}.

Definition on_scheduler {A} (m : M A) : CM A :=
  fun c => let '(a, s) := m (co_sched c) in (a, c <| co_sched := s |>).

(** ** Registration *)

Definition registration (first : Json) : WorkerRegistration :=
  let units := i32 (num_u64 first "units" 1) in
  default_registration
    <| reg_worker := num_u64 first "worker" 0 |> <| reg_node := num_u64 first "node" 0 |>
    <| reg_accelerator := num_u64 first "accel" 0 |> <| reg_boot_id := num_u64 first "boot" 0 |>
    <| reg_state := WS_Online |>
    <| reg_capability := default_capability
         <| cap_backend := getstr first "backend" "cpu" |> <| cap_device_name := getstr first "device" "cpu" |>
         <| cap_total_capacity_units := units |> <| cap_available_capacity_units := units |>
         <| cap_models := match jget first "models" with
                          | Some m => (fun x => jsu64 x 0) <$> elems m
                          | None => []
                          end |> |>.

(** The [register] branch of [main]: the position of the new slot. *)
Definition register (first : Json) : CM nat :=
  let reg := registration first in
  on_scheduler (Scheduler.register_worker reg) ;;
  i ← gets (fun c => length (co_workers c));
  modify (fun c => c
    <| co_workers ::= fun ws => ws ++ [mkWorkerSlot (reg_worker reg) (reg_boot_id reg)
         (cap_total_capacity_units (reg_capability reg)) false JNull] |>
    <| co_by_worker ::= <[reg_worker reg := i]> |>) ;;
  mret i.

(** ** The thread of a worker *)

Definition snapshot_of (avail : Z) : ResourceSnapshot :=
  default_resource <| res_available_capacity_units := avail |> <| res_total_capacity_units := avail |>.

Definition start_of (ep w boot avail : Z) (rj : Json) : CompletionReport :=
  default_report <| cr_epoch := ep |> <| cr_worker := w |> <| cr_boot_id := boot |>
    <| cr_request_id := num_u64 rj "req" 0 |> <| cr_attempt_id := num_u64 rj "attempt" 0 |>
    <| cr_generation := num_u64 rj "gen" 0 |> <| cr_worker_snapshot := snapshot_of avail |>.

(** The report made of a result; status and failure class are given as read. *)
Definition report_of (ep w boot avail : Z) (rj : Json) (st : CompletionStatus) (fc : FailureClass)
    : CompletionReport :=
  (start_of ep w boot avail rj) <| cr_status := st |> <| cr_failure_class := fc |>
    <| cr_output_tokens_produced := i64_of rj "out" 0 |> <| cr_work_units := i64_of rj "work" 0 |>
    <| cr_duration_us := i64_of rj "dur" 0 |> <| cr_error_message := getstr rj "msg" "" |>.

(** A result with its enumerators, [None] when an integer has none. *)
Definition read_result (rj : Json) : option (Json * CompletionStatus * FailureClass) :=
  st ← CompletionStatus_of_int (int_of rj "status" 0);
  fc ← FailureClass_of_int (int_of rj "failure" 8);
  Some (rj, st, fc).

Definition CompletionAcceptance_int (a : CompletionAcceptance) : Z :=
  match a with
  | CA_Accepted => 0
  | CA_CancelledOutcome => 1
  | CA_StaleEpoch => 2
  | CA_StaleWorker => 3
  | CA_StaleAttempt => 4
  | CA_Duplicate => 5
  | CA_Invalid => 6
  end.

Definition outcome_json (id : Z) (co : Result CompletionOutcome) : Json :=
  jobject [ ("req", id_json id);
            ("acceptance", int_json (CompletionAcceptance_int
               (match co with Ok o => co_acceptance o | Err _ => CA_Invalid end)));
            ("reason", JStr (match co with Ok o => co_reason_code o | Err _ => "error" end)) ]%string.

Definition confirm_result (w boot avail : Z) (rj : Json) : CM unit :=
  ep ← gets (fun c => epoch (co_sched c));
  on_scheduler (Scheduler.confirm_dispatch_start (start_of ep w boot avail rj)) ;; mret tt.

Definition complete_result (w boot avail : Z) (x : Json * CompletionStatus * FailureClass) : CM Json :=
  let '(rj, st, fc) := x in
  ep ← gets (fun c => epoch (co_sched c));
  let rp := report_of ep w boot avail rj st fc in
  co ← on_scheduler (Scheduler.complete_attempt rp);
  mret (outcome_json (cr_request_id rp) co).

Fixpoint complete_results (w boot avail : Z) (l : list (Json * CompletionStatus * FailureClass)) : CM (list Json) :=
  match l with
  | [] => mret []
  | x :: l' => j ← complete_result w boot avail x; js ← complete_results w boot avail l'; mret (j :: js)
  end.

Definition dispatch_done (batch : Z) (results : list Json) : Json :=
  jobject [ ("op", JStr "dispatch_done"); ("batch_id", id_json batch); ("results", JArr results) ]%string.

(** A [completed] message of the worker of slot [i]: false when a result is out
    of the model. *)
Definition on_completed (i : nat) (msg : Json) : CM bool :=
  o ← gets (fun c => co_workers c !! i);
  match o, mapM read_result (array_field msg "results") with
  | Some slot, Some rs =>
      let avail := i32 (num_u64 msg "units" 0) in
      foreach (array_field msg "results") (confirm_result (slot_worker slot) (slot_boot slot) avail) ;;
      outs ← complete_results (slot_worker slot) (slot_boot slot) avail rs;
      modify (fun c => c <| co_workers ::= alter (fun sl => sl
        <| slot_result := dispatch_done (num_u64 msg "batch_id" 0) outs |>
        <| slot_has_result := true |>) i |>) ;;
      mret true
  | _, _ => mret false
  end.

(** ** The answers to a client *)

Inductive Answer :=
| Reply (j : Json)
| Waiting (slot : nat) (run : Json) (o : DispatchOutcome)
| Silence
| OutOfModel.

Definition ready_reply (n : Z) : Json := jobject [("op", JStr "ready_ack"); ("workers", int_json n)]%string.

Definition submit_reply (ad : Result AdmissionOutput) : Json :=
  jobject (("op"%string, JStr "submit_ack") :: match ad with
    | Ok o => [ ("decision", int_json (AdmissionDecision_int (ao_decision o)));
                ("reason", JStr (ao_reason_code o)); ("request_id", id_json (ao_request_id o));
                ("attempt", id_json (ao_attempt_id o)); ("generation", id_json (ao_generation o)) ]%string
    | Err e => [ ("decision", int_json (AdmissionDecision_int AD_Reject));
                 ("reason", JStr (err_message e)); ("request_id", int_json 0) ]%string
    end).

Definition held_reply (rid : Z) (d : DispatchDecision) (reason : string) : Json :=
  jobject [ ("op", JStr "dispatch_ack"); ("request_id", id_json rid);
            ("decision", int_json (DispatchDecision_int d)); ("reason", JStr reason); ("members", JArr []) ]%string.

(** One member of the [run] message. *)
Definition member_fields (s : Impl) (mid : Z) : list (string * Json) :=
  let snap := do_request_snapshot s mid in
  let spr := do_request_spec s mid in
  let of_snap {A} (f : RequestSnapshot -> A) (d : A) := match snap with Ok x => f x | Err _ => d end in
  let of_spec {A} (f : RequestSpec -> A) (d : A) := match spr with Ok x => f x | Err _ => d end in
  [ ("req", id_json mid);
    ("attempt", id_json (of_snap rsn_attempt_id 0));
    ("gen", id_json (of_snap rsn_generation 0));
    ("phase", int_json (RequestPhase_int (of_snap rsn_phase RP_Prefill)));
    ("model", id_json (of_snap rsn_model 0));
    ("rev", id_json (of_snap rsn_revision 0));
    ("adapter", id_json 0);
    ("tin", int_json (of_spec (fun sp => te_input (spec_tokens sp)) 0));
    ("tout", int_json (of_spec (fun sp => te_output (spec_tokens sp)) 0));
    ("cost", JNum (of_spec (fun sp => rd_cost_units (spec_demand sp)) fone));
    ("payload", JStr (of_spec spec_payload EmptyString)) ]%string.

Definition run_message (s : Impl) (o : DispatchOutcome) : Json :=
  jobject [ ("op", JStr "run");
            ("batch_id", id_json (dout_batch_id o));
            ("members", JArr ((fun mid => jobject (member_fields s mid)) <$> dout_batch_members o)) ]%string.

(** The last part of the [dispatch] branch, when the slot has a result. *)
Definition dispatch_ack (rid : Z) (o : DispatchOutcome) (done : Json) : Json :=
  jobject [ ("op", JStr "dispatch_ack"); ("request_id", id_json rid);
            ("decision", int_json (DispatchDecision_int DD_Dispatch));
            ("worker", id_json (dout_worker_id o)); ("batch", id_json (dout_batch_id o));
            ("reason", JStr "dispatched");
            ("members", default (JArr []) (jget done "results")); ("done", done) ]%string.

Definition handle_dispatch (rid : Z) (explain : bool) : CM Answer :=
  out ← on_scheduler (Scheduler.plan_dispatch rid explain);
  match out with
  | Err e => mret (Reply (held_reply rid DD_Hold (err_message e)))
  | Ok o =>
      if negb (bool_decide (dout_decision o = DD_Dispatch))
      then mret (Reply (held_reply rid (dout_decision o) (dout_reason_code o)))
      else
        slot ← find (dout_worker_id o);
        match slot with
        | None => mret (Reply (held_reply rid DD_NoEligibleWorker "worker_gone"))
        | Some i =>
            modify (fun c => c <| co_workers ::= alter (fun sl => sl <| slot_has_result := false |>) i |>) ;;
            run ← gets (fun c => run_message (co_sched c) o);
            mret (Waiting i run o)
        end
  end.

Definition stats_reply (st : SchedulerStats) : Json :=
  jobject [ ("op", JStr "stats_ack");
            ("admitted", int_json (st_requests_admitted st)); ("completed", int_json (st_requests_completed st));
            ("cancelled", int_json (st_requests_cancelled st)); ("expired", int_json (st_requests_expired st));
            ("failed", int_json (st_requests_failed st)); ("current_queued", int_json (st_current_queued st));
            ("current_running", int_json (st_current_running st));
            ("current_admitted", int_json (st_current_admitted st));
            ("stale_rejected", int_json (st_stale_rejected st)); ("retries", int_json (st_retries st)) ]%string.

Definition info_reply (sn : Result RequestSnapshot) : Json :=
  jobject (("op"%string, JStr "request_info_ack") :: match sn with
    | Ok x => [ ("exists", JBool true); ("attempt", id_json (rsn_attempt_id x));
                ("generation", id_json (rsn_generation x));
                ("state", int_json (RequestState_int (rsn_state x))) ]%string
    | Err _ => [ ("exists", JBool false) ]%string
    end).

(** The report a client sends with [complete]. *)
Definition client_report (req : Json) (st : CompletionStatus) : CompletionReport :=
  default_report <| cr_epoch := num_u64 req "epoch" 0 |> <| cr_worker := num_u64 req "worker" 0 |>
    <| cr_boot_id := num_u64 req "boot" 0 |> <| cr_request_id := num_u64 req "request" 0 |>
    <| cr_attempt_id := num_u64 req "attempt" 0 |> <| cr_generation := num_u64 req "generation" 0 |>
    <| cr_status := st |> <| cr_worker_snapshot := snapshot_of (int_of req "units" 0) |>.

Definition complete_reply (co : Result CompletionOutcome) : Json :=
  jobject [ ("op", JStr "complete_ack");
            ("acceptance", int_json (CompletionAcceptance_int
               (match co with Ok o => co_acceptance o | Err _ => CA_Invalid end)));
            ("reason", JStr (match co with Ok o => co_reason_code o | Err _ => "error" end)) ]%string.

Definition handle_one (req : Json) : CM Answer :=
  let op := getstr req "op" "" in
  let rid := num_u64 req "request_id" 0 in
  if String.eqb op "ready" then
    n ← worker_count; mret (Reply (ready_reply n))
  else if String.eqb op "submit" then
    match spec_from_json req with
    | None => mret OutOfModel
    | Some spec => ad ← on_scheduler (Scheduler.submit spec None); mret (Reply (submit_reply ad))
    end
  else if String.eqb op "dispatch" then handle_dispatch rid (getbool req "explain" false)
  else if String.eqb op "cancel" then
    cr ← on_scheduler (Scheduler.cancel rid CR_ClientRequested "client");
    mret (Reply (jobject [ ("op", JStr "cancel_ack");
      ("ok", JBool (match cr with Ok _ => true | Err _ => false end));
      ("reason", JStr (match cr with Ok _ => "cancelled" | Err e => err_message e end)) ]%string))
  else if String.eqb op "stats" then
    st ← on_scheduler Scheduler.stats; mret (Reply (stats_reply st))
  else if String.eqb op "roll_epoch" then
    on_scheduler Scheduler.roll_epoch ;;
    ep ← on_scheduler Scheduler.get_epoch;
    mret (Reply (jobject [ ("op", JStr "roll_epoch_ack"); ("epoch", id_json ep) ]%string))
  else if String.eqb op "request_info" then
    sn ← on_scheduler (Scheduler.request_snapshot rid); mret (Reply (info_reply sn))
  else if String.eqb op "complete" then
    match CompletionStatus_of_int (int_of req "status" 0) with
    | None => mret OutOfModel
    | Some st =>
        co ← on_scheduler (Scheduler.complete_attempt (client_report req st)); mret (Reply (complete_reply co))
    end
  else if String.eqb op "shutdown" then mret (Reply (jobject [ ("op", JStr "bye") ]%string))
  else mret Silence.

(** ** The threads *)

Context {K : Type} `{!Socket K}.

(** How a loop over messages ended: the connection gave none or the loop was
    left; the fuel ran out; a message was out of the model. *)
Inductive LoopEnd := Ended | NoFuel | NotModelled.

Fixpoint worker_thread (fuel : nat) (conn : FramedConnection) (i : nat) : ST (K * Coordinator) LoopEnd :=
  match fuel with
  | O => mret NoFuel
  | Datatypes.S fuel' => fun '(k, c) =>
      let '(m, k1) := recv_json (Some conn) k in
      match m with
      | None => (NoFuel, (k1, c))
      | Some msg =>
          if is_null msg then (Ended, (k1, c))
          else if String.eqb (getstr msg "op" "") "completed" then
            let '(ok, c1) := on_completed i msg c in
            if ok : bool then worker_thread fuel' conn i (k1, c1) else (NotModelled, (k1, c1))
          else if String.eqb (getstr msg "op" "") "shutdown" then (Ended, (k1, c))
          else worker_thread fuel' conn i (k1, c)
      end
  end.

(** What the worker and its thread do while a client's thread waits for the
    result of slot [i] after the message [run] was sent there. *)
Context (await : nat -> Json -> CM (option Json)).

(** One client message with its answer, [Some None] when there is none. *)
Definition respond (req : Json) : CM (option (option Json)) :=
  a ← handle_one req;
  match a with
  | Reply j => mret (Some (Some j))
  | Silence => mret (Some None)
  | OutOfModel => mret None
  | Waiting i run o =>
      done ← await i run;
      mret match done with
           | Some d => Some (Some (dispatch_ack (num_u64 req "request_id" 0) o d))
           | None => None
           end
  end.

Fixpoint client_loop (fuel : nat) (conn : FramedConnection) (req : Json) : ST (K * Coordinator) LoopEnd :=
  match fuel with
  | O => mret NoFuel
  | Datatypes.S fuel' => fun '(k, c) =>
      if is_null req then (Ended, (k, c)) else
      match respond req c with
      | (None, c1) => (NotModelled, (k, c1))
      | (Some ack, c1) =>
          let k1 := match ack with Some j => exec (send_json (Some conn) j) k | None => k end in
          if String.eqb (getstr req "op" "") "shutdown" then (Ended, (k1, c1)) else
          match recv_json (Some conn) k1 with
          | (None, k2) => (NoFuel, (k2, c1))
          | (Some req', k2) => client_loop fuel' conn req' (k2, c1)
          end
      end
  end.

(** What [main] starts for the first message of an accepted connection. *)
Inductive Thread := NoThread | WorkerThread (slot : nat) | ClientThread (first : Json).

Definition serve_connection (first : Json) : CM Thread :=
  if is_null first then mret NoThread
  else if String.eqb (getstr first "op" "") "register" then i ← register first; mret (WorkerThread i)
  else mret (ClientThread first).

End Coordinator.
