(* ===== verification/CoordinatorSpec.v ===== *)
(** * The coordinator keeps the scheduler's contract

    Whatever messages arrive, the scheduler inside the coordinator is in a state
    its own operations reach, and the coordinator's map of workers agrees with
    the scheduler's registrations. *)

From S2P Require Import Prelude Enums Ids Float64 Types State Admission Queue Batch Dispatch Completion Control Frames Lifecycle Index Accounts Micro Refine Seed BatchSpec Handlers Machine Demo Safety CompletionSpec DispatchSpec Bytes Envelope Net Decimal Json JsonSpec Protocol ProtocolSpec Executor Worker Api Reports Rounds Coordinator.
Open Scope Z_scope.

(** ** Boot ids *)

(** No registered worker changes its boot id. *)
Definition boots (s s' : Impl) : Prop := forall w b, boot_of s w = Some b -> boot_of s' w = Some b.

#[export] Instance boots_preorder : PreOrder boots.
Proof. split; [by intros ???|]. intros s1 s2 s3 H1 H2 w b Hb. auto. Qed.

Lemma auth_kept_boots s s' : auth_kept s s' -> boots s s'.
Proof. by intros [_ Hb]. Qed.

Section Boots.
  Context `{Env}.

#[local] Hint Resolve tenant_of_auth dequeue_auth emit_event_auth release_batch_member_auth
  release_admitted_auth release_running_auth enqueue_auth : frame.

Lemma submit_boots sp s : steps same_auth s (Scheduler.submit sp None).
Proof.
  unfold Scheduler.submit, Scheduler.flushed, do_submit, submit_admitted, insert_if_absent, flush_events,
    next_id, clock_now, modify_stats, modify_tenant.
  mwalk auth_base. all: by case_match; constructor.
Qed.

Lemma cancel_boots id reason d s : steps same_auth s (Scheduler.cancel id reason d).
Proof.
  unfold Scheduler.cancel, Scheduler.flushed, do_cancel, finish_cancelled, flush_events, modify_rec, modify_stats.
  mwalk auth_base.
Qed.

Lemma roll_epoch_boots s : steps boots s Scheduler.roll_epoch.
Proof.
  unfold Scheduler.roll_epoch, Scheduler.flushed, do_roll_epoch, flush_events.
  mwalk ltac:(by intros ???).
Qed.

Lemma recover_in_flight_auth w s : steps same_auth s (recover_in_flight w).
Proof.
  unfold recover_in_flight, recover_one, make_retry, finish_failed, finish_cancelled, modify_rec, modify_stats, modify_worker,
    clock_now, next_id. mwalk auth_base.
Qed.

(** A registration sets the worker's boot id and no other. *)
Lemma register_boots reg s :
  let s' := exec (Scheduler.register_worker reg) s in
  boot_of s' (reg_worker reg) = Some (reg_boot_id reg) /\
  forall w b, w <> reg_worker reg -> boot_of s w = Some b -> boot_of s' w = Some b.
Proof.
  cbv zeta. unfold Scheduler.register_worker, boot_of at 1 3. rewrite (Scheduler.flushed_same _ workers) by done.
  change (boot_of (exec (do_register_worker reg) s) (reg_worker reg) = Some (reg_boot_id reg) /\
    forall w b, w <> reg_worker reg -> boot_of s w = Some b -> boot_of (exec (do_register_worker reg) s) w = Some b).
  unfold do_register_worker. rewrite !exec_bind, result_gets, exec_gets.
  set (s1 := exec (worker_slot _) s).
  assert (boots s s1) as B1 by (apply auth_kept_boots, worker_slot_kept).
  set (s2 := exec (when _ _) s1).
  assert (same_auth s1 s2) as [_ B2] by (apply steps_when; [exact _|intros; apply recover_in_flight_auth]).
  set (s3 := exec (modify_worker _ _) s2).
  assert (is_Some (boot_of s2 (reg_worker reg))) as [b0 Hb0].
  { rewrite B2. unfold s1, worker_slot, boot_of. rewrite exec_modify.
    destruct (workers s !! reg_worker reg) as [x|] eqn:Hx; simpl; rewrite ?Hx, ?lookup_insert_eq; by eexists. }
  edestruct (emit_event_auth "worker_registered") as [_ B4]. rewrite !B4.
  setoid_rewrite B4. unfold s3, modify_worker. rewrite exec_modify. unfold boot_of. simpl. split.
  - unfold boot_of in Hb0. rewrite lookup_alter_eq. by destruct (workers s2 !! reg_worker reg).
  - intros w b Hw Hb. rewrite lookup_alter_ne by done. change (boot_of s2 w = Some b). rewrite B2. by apply B1.
Qed.

End Boots.

(** ** Slots *)

(** The slot of a worker is that of its last registration. *)
Definition slots_ok (c : Coordinator) : Prop :=
  forall w i, co_by_worker c !! w = Some i -> exists slot,
    co_workers c !! i = Some slot /\ slot_worker slot = w /\ boot_of (co_sched c) w = Some (slot_boot slot).

Section Serve.
  Context `{Env}.

(** A run of the scheduler that keeps the slots right. *)
Record serves (c c' : Coordinator) : Prop := {
  sv_runs : Scheduler.runs (co_sched c) (co_sched c');
  sv_slots : slots_ok c -> slots_ok c'
}.

#[global] Instance serves_preorder : PreOrder serves.
Proof. split; [by constructor|]. intros c1 c2 c3 [] []. constructor; [by etrans|auto]. Qed.

Lemma on_scheduler_exec {A} (m : M A) c : exec (on_scheduler m) c = c <| co_sched := exec m (co_sched c) |>.
Proof. unfold exec, on_scheduler. by destruct (m (co_sched c)). Qed.
Lemma on_scheduler_result {A} (m : M A) c : result (on_scheduler m) c = result m (co_sched c).
Proof. unfold result, on_scheduler. by destruct (m (co_sched c)). Qed.
Lemma co_sched_set c s : co_sched (c <| co_sched := s |>) = s.
Proof. done. Qed.

Lemma slots_boots c s : boots (co_sched c) s -> slots_ok c -> slots_ok (c <| co_sched := s |>).
Proof. intros Hb Hs w i Hw. destruct (Hs w i Hw) as (slot & H1 & H2 & H3). exists slot. split_and!; auto. Qed.

Lemma serves_sched {A} (m : M A) c :
  steps Scheduler.runs (co_sched c) m -> steps boots (co_sched c) m -> steps serves c (on_scheduler m).
Proof.
  intros Hr Hb. unfold steps in *. rewrite on_scheduler_exec. constructor; [exact Hr|]. by apply slots_boots.
Qed.

(** Reads leave the coordinator alone. *)
Lemma serves_read {A} (f : Impl -> A) c : steps serves c (on_scheduler (gets f)).
Proof. apply serves_sched; [apply rtc_refl|by intros w b]. Qed.

(** A slot's result is written without touching its worker. *)
Lemma serves_slot f i c :
  (forall sl, slot_worker (f sl) = slot_worker sl /\ slot_boot (f sl) = slot_boot sl) ->
  serves c (c <| co_workers ::= alter f i |>).
Proof.
  intros Hf. constructor; [done|]. intros Hs w j Hw. destruct (Hs w j Hw) as (slot & H1 & H2 & H3). simpl.
  destruct (decide (i = j)) as [->|Hij].
  - exists (f slot). rewrite list_lookup_alter_eq, H1. destruct (Hf slot) as [-> ->]. done.
  - exists slot. by rewrite list_lookup_alter_ne.
Qed.

Lemma plan_boots id ex s : steps boots s (Scheduler.plan_dispatch id ex).
Proof. apply auth_kept_boots, flushed_kept, plan_dispatch_kept. Qed.
Lemma start_boots rp s : steps boots s (Scheduler.confirm_dispatch_start rp).
Proof. apply auth_kept_boots, flushed_kept, confirm_start_kept. Qed.
Lemma complete_boots rp s : steps boots s (Scheduler.complete_attempt rp).
Proof. apply auth_kept_boots, flushed_kept, complete_kept. Qed.
Lemma same_auth_boots {A} (m : M A) s : steps same_auth s m -> steps boots s m.
Proof. intros Hm. by apply auth_kept_boots, same_auth_kept. Qed.

(** *** Registration *)

Lemma register_serves first c : steps serves c (register first).
Proof.
  unfold register. set (reg := registration first). unfold steps. rewrite !exec_bind, result_gets, exec_gets, exec_modify, exec_ret.
  rewrite on_scheduler_exec. destruct (register_boots reg (co_sched c)) as [B1 B2].
  constructor; [apply Scheduler.register_worker_runs|]. intros Hs w i. simpl. rewrite lookup_insert.
  case_decide as E; [subst w; intros [= <-]|intros Hw].
  - exists (mkWorkerSlot (reg_worker reg) (reg_boot_id reg) (cap_total_capacity_units (reg_capability reg)) false JNull).
    rewrite list_lookup_middle by done. split_and!; [done..|exact B1].
  - destruct (Hs w i Hw) as (slot & H1 & H2 & H3). exists slot. rewrite lookup_app_l; [|by eapply lookup_lt_Some].
    split_and!; [done..|]. by apply B2.
Qed.

(** *** Clients *)

(** What the scheduler's contract asks of a client message. *)
Definition client_guard (s : Impl) (req : Json) : Prop :=
  (getstr req "op" "" = "submit"%string -> requests s !! submit_id s None = None) /\
  (getstr req "op" "" = "complete"%string -> forall st,
    CompletionStatus_of_int (int_of req "status" 0) = Some st -> honest s (client_report req st)).

Ltac serve := apply steps_bind; [exact _| |apply steps_ret; exact _].

Lemma handle_dispatch_serves rid ex c : steps serves c (handle_dispatch rid ex).
Proof.
  unfold handle_dispatch. apply steps_bind; [exact _|apply serves_sched; [apply Scheduler.plan_dispatch_runs|apply plan_boots]|].
  destruct (result _ _) as [o|e]; [|apply steps_ret; exact _]. destruct (negb _); [apply steps_ret; exact _|].
  apply steps_gets_bind. destruct (_ !! _) as [i|]; [|apply steps_ret; exact _].
  apply steps_bind; [exact _|by apply steps_modify, serves_slot|]. apply steps_gets_bind, steps_ret. exact _.
Qed.

Lemma handle_one_serves req c : client_guard (co_sched c) req -> steps serves c (handle_one req).
Proof.
  intros [Gs Gc]. unfold handle_one. cbv zeta. set (op := getstr req "op" "") in *.
  destruct (String.eqb_spec op "ready"); [apply steps_gets_bind, steps_ret; exact _|].
  destruct (String.eqb_spec op "submit") as [Eo|_].
  { destruct (spec_from_json req) as [sp|]; [|apply steps_ret; exact _]. serve.
    apply serves_sched; [apply Scheduler.submit_runs; auto|apply same_auth_boots, submit_boots]. }
  destruct (String.eqb_spec op "dispatch"); [apply handle_dispatch_serves|].
  destruct (String.eqb_spec op "cancel").
  { serve. apply serves_sched; [apply Scheduler.cancel_runs|apply same_auth_boots, cancel_boots]. }
  destruct (String.eqb_spec op "stats"); [serve; apply serves_read|].
  destruct (String.eqb_spec op "roll_epoch").
  { apply steps_bind; [exact _|apply serves_sched; [apply Scheduler.roll_epoch_runs|apply roll_epoch_boots]|].
    serve. apply serves_read. }
  destruct (String.eqb_spec op "request_info"); [serve; apply serves_read|].
  destruct (String.eqb_spec op "complete") as [Eo|_].
  { destruct (CompletionStatus_of_int _) as [st|]; [|apply steps_ret; exact _]. serve.
    apply serves_sched; [apply Scheduler.complete_attempt_runs; auto|apply complete_boots]. }
  destruct (String.eqb_spec op "shutdown"); apply steps_ret; exact _.
Qed.

(** *** Workers *)

(** The attempt a result is about. *)
Definition result_of (rj : Json) : Z * Z * Z := (num_u64 rj "req" 0, num_u64 rj "attempt" 0, num_u64 rj "gen" 0).

Definition complete_turn (w boot avail : Z) (x : Json * CompletionStatus * FailureClass) : CM unit :=
  complete_result w boot avail x ;; mret tt.

Lemma confirm_result_starts w boot avail : Starts co_sched (confirm_result w boot avail) w.
Proof.
  intros rj c. unfold confirm_result. rewrite !exec_bind, result_gets, exec_gets, exec_ret, on_scheduler_exec.
  exists (start_of (epoch (co_sched c)) w boot avail rj). split; reflexivity.
Qed.

Lemma complete_turn_completes w boot avail :
  Completes co_sched (complete_turn w boot avail) w boot (fun x => result_of x.1.1) (fun x => x.1.2).
Proof.
  exists (fun ep x => report_of ep w boot avail x.1.1 x.1.2 x.2); [|done..].
  intros [[rj st] fc] c. unfold complete_turn, complete_result.
  rewrite !exec_bind, result_gets, exec_gets, !exec_ret, on_scheduler_exec. reflexivity.
Qed.

Lemma complete_results_loop w boot avail l c :
  exec (complete_results w boot avail l) c = exec (foreach l (complete_turn w boot avail)) c.
Proof.
  revert c. induction l as [|x l IH]; intros c; [done|]. cbn [complete_results foreach].
  rewrite !exec_bind, exec_ret, IH.
  assert (exec (complete_turn w boot avail x) c = exec (complete_result w boot avail x) c) as ->; [|reflexivity].
  unfold complete_turn. by rewrite exec_bind, exec_ret.
Qed.

Lemma read_results_fst l rs : mapM read_result l = Some rs -> (fun x => x.1.1) <$> rs = l.
Proof.
  revert rs. induction l as [|rj l IH]; intros rs; cbn [mapM]; [by intros [= <-]|].
  intros (x & Hx & (rs' & Hrs & [= <-])%bind_Some)%bind_Some. cbn [fmap list_fmap]. rewrite IH by done. f_equal.
  unfold read_result in Hx. by apply bind_Some in Hx as (st & _ & (fc & _ & [= <-])%bind_Some).
Qed.

(** The two rounds of a [completed] message, and what they leave in the slot. *)
Lemma on_completed_rounds i msg c slot rs :
  co_workers c !! i = Some slot -> mapM read_result (array_field msg "results") = Some rs ->
  let w := slot_worker slot in let boot := slot_boot slot in let avail := i32 (num_u64 msg "units" 0) in
  let c1 := exec (foreach (array_field msg "results") (confirm_result w boot avail)) c in
  let c2 := exec (foreach rs (complete_turn w boot avail)) c1 in
  exec (on_completed i msg) c = c2 <| co_workers ::= alter (fun sl => sl
    <| slot_result := dispatch_done (num_u64 msg "batch_id" 0) (result (complete_results w boot avail rs) c1) |>
    <| slot_has_result := true |>) i |> /\
  result (on_completed i msg) c = true.
Proof.
  intros Hi Hrs. unfold on_completed. rewrite exec_bind, result_bind, result_gets, exec_gets, Hi, Hrs. cbv zeta.
  by rewrite !exec_bind, !result_bind, exec_modify, exec_ret, result_ret, complete_results_loop.
Qed.

(** What the scheduler's contract asks of a [completed] message: different
    requests, of which the worker holds the attempts it names. *)
Definition completed_guard (c : Coordinator) (i : nat) (msg : Json) : Prop :=
  forall slot, co_workers c !! i = Some slot ->
    NoDup ((fun rj => num_u64 rj "req" 0) <$> array_field msg "results") /\
    forall rj, rj ∈ array_field msg "results" -> held (slot_worker slot) (result_of rj) (co_sched c).

Lemma turns_serve {X} (turn : X -> CM unit) l c :
  (forall x c, exists s, exec (turn x) c = c <| co_sched := s |> /\ boots (co_sched c) s) ->
  exists s, exec (foreach l turn) c = c <| co_sched := s |> /\ boots (co_sched c) s.
Proof.
  intros HT. revert c. induction l as [|x l IH]; intros c; cbn [foreach].
  - exists (co_sched c). by destruct c.
  - rewrite exec_bind. destruct (HT x c) as (s & -> & B). destruct (IH (c <| co_sched := s |>)) as (s' & -> & B').
    exists s'. split; [done|]. by etrans.
Qed.

Lemma confirm_results_state w boot avail l c :
  exists s, exec (foreach l (confirm_result w boot avail)) c = c <| co_sched := s |> /\ boots (co_sched c) s.
Proof.
  apply turns_serve. intros rj c'. unfold confirm_result.
  rewrite !exec_bind, result_gets, exec_gets, exec_ret, on_scheduler_exec.
  eexists. split; [reflexivity|]. apply start_boots.
Qed.

Lemma complete_turns_state w boot avail l c :
  exists s, exec (foreach l (complete_turn w boot avail)) c = c <| co_sched := s |> /\ boots (co_sched c) s.
Proof.
  apply turns_serve. intros [[rj st] fc] c'. unfold complete_turn, complete_result.
  rewrite !exec_bind, result_gets, exec_gets, !exec_ret, on_scheduler_exec.
  eexists. split; [reflexivity|]. apply complete_boots.
Qed.

Lemma on_completed_serves i msg c :
  Inv (co_sched c) -> completed_guard c i msg -> steps serves c (on_completed i msg).
Proof.
  intros I G. destruct (co_workers c !! i) as [slot|] eqn:Hi;
    [destruct (mapM read_result (array_field msg "results")) as [rs|] eqn:Hrs|].
  2,3: unfold steps, on_completed; rewrite exec_bind, result_gets, exec_gets, Hi, ?Hrs; done.
  destruct (G slot Hi) as [ND HH]. unfold steps.
  destruct (on_completed_rounds i msg c slot rs Hi Hrs) as [-> _]. cbv zeta.
  set (w := slot_worker slot). set (boot := slot_boot slot). set (avail := i32 _).
  destruct (starts_round co_sched _ w (array_field msg "results") c (confirm_result_starts w boot avail) I)
    as (R1 & _ & K1 & _).
  destruct (confirm_results_state w boot avail (array_field msg "results") c) as (s1 & E1 & B1).
  set (c1 := exec (foreach (array_field msg "results") _) c) in *.
  assert (Inv (co_sched c1)) as I1 by (by eapply runs_Inv).
  pose proof (completes_round co_sched _ w boot _ _ rs c1 (complete_turn_completes w boot avail) I1) as R2.
  destruct (complete_turns_state w boot avail rs c1) as (s2 & E2 & B2).
  set (c2 := exec (foreach rs _) c1) in *. pose proof (read_results_fst _ _ Hrs) as Hf.
  transitivity c2; [|by apply serves_slot]. constructor.
  - etrans; [exact R1|]. apply R2.
    + rewrite <- Hf, <- list_fmap_compose in ND. exact ND.
    + intros x Hx. apply K1, HH. rewrite <- Hf. by apply (list_elem_of_fmap_2 (fun x => x.1.1)).
  - intros Hs. rewrite E2. apply slots_boots; [done|]. rewrite E1. by apply slots_boots.
Qed.

End Serve.

(** ** What the coordinator can reach *)

(** A message, from where it came. *)
Inductive CoEvent :=
| Registered (first : Json)
| FromClient (req : Json)
| FromWorker (slot : nat) (msg : Json).

Section Reach.
  Context `{Env}.

Definition co_handle (e : CoEvent) : CM unit :=
  match e with
  | Registered first => register first ;; mret tt
  | FromClient req => handle_one req ;; mret tt
  | FromWorker i msg => on_completed i msg ;; mret tt
  end.

Definition co_guard (c : Coordinator) (e : CoEvent) : Prop :=
  match e with
  | Registered _ => True
  | FromClient req => client_guard (co_sched c) req
  | FromWorker i msg => completed_guard c i msg
  end.

Inductive co_reachable (cf : SchedulerConfig) (ep : option Z) (salt : Z) : Coordinator -> Prop :=
| co_init : co_reachable cf ep salt (new_coordinator (init_impl cf ep salt))
| co_step c e : co_reachable cf ep salt c -> co_guard c e -> co_reachable cf ep salt (exec (co_handle e) c).

Lemma co_handle_serves c e : Inv (co_sched c) -> co_guard c e -> steps serves c (co_handle e).
Proof.
  intros I G. destruct e as [first|req|i msg]; cbn [co_handle co_guard] in *;
    (apply steps_bind; [exact _| |apply steps_ret; exact _]).
  - apply register_serves.
  - by apply handle_one_serves.
  - by apply on_completed_serves.
Qed.

Lemma co_reachable_ok cf ep salt c :
  co_reachable cf ep salt c -> reachable cf ep salt (co_sched c) /\ slots_ok c.
Proof.
  induction 1 as [|c e _ [R S] G].
  - split; [apply reach_init|]. intros w i. simpl. by rewrite lookup_empty.
  - destruct (co_handle_serves c e (reachable_Inv _ _ _ _ R) G) as [R' S']. split; [|auto].
    by eapply run_reachable.
Qed.

End Reach.

(** C8: The coordinator refines the scheduler.  Whatever registrations, client
    messages and [completed] messages reach the coordinator, its scheduler is
    in a state that the scheduler's own operations reach, so every theorem on
    reachable states holds of it, and the slot under which the coordinator
    finds a worker is that of the worker's current registration: same worker,
    same boot id.  The messages have to respect the scheduler's contract: fresh
    request ids, and reports on attempts the reporting worker holds. *)
Theorem coordinator_refines_the_scheduler `{Env} cf ep salt (c : Coordinator) :
  co_reachable cf ep salt c ->
  reachable cf ep salt (co_sched c) /\
  forall w i, co_by_worker c !! w = Some i -> exists slot,
    co_workers c !! i = Some slot /\ slot_worker slot = w /\ boot_of (co_sched c) w = Some (slot_boot slot).
Proof. apply co_reachable_ok. Qed.

(** A worker registers and a client submits two requests of one model. *)
Definition demo_args : WorkerArgs := mkWorkerArgs 1 9 4 "cpu" None.
Definition demo_events : list CoEvent :=
  [Registered (register_message demo_args); FromClient (submit_message (demo_spec 3));
   FromClient (submit_message (demo_spec 3))].
Definition co_run (es : list CoEvent) (c : Coordinator) : Coordinator := exec (foreach es co_handle) c.
Definition demo_coordinator : Coordinator := co_run demo_events (new_coordinator demo_init).

Lemma demo_coordinator_reachable : co_reachable default_scheduler_config None 5 demo_coordinator.
Proof.
  unfold demo_coordinator, co_run, demo_events. cbn [foreach]. rewrite !exec_bind, exec_ret.
  apply co_step; [apply co_step; [apply co_step; [apply co_init|done]|]|];
    (split; [intros _; by vm_compute|by vm_compute]).
Qed.

Lemma coordinator_refines_the_scheduler_witness :
  demo_reachable (co_sched demo_coordinator) /\
  forall w i, co_by_worker demo_coordinator !! w = Some i -> exists slot,
    co_workers demo_coordinator !! i = Some slot /\ slot_worker slot = w /\
    boot_of (co_sched demo_coordinator) w = Some (slot_boot slot).
Proof. exact (coordinator_refines_the_scheduler _ _ _ _ demo_coordinator_reachable). Defined.
