(* ===== verification/Cli.v ===== *)
(** * The command line

    [src/cli.cpp]: each run makes a scheduler with one CPU worker, recovers the
    state file named by [-state], executes one command and, where the command
    changed something, saves the state.  The state of a run is its scheduler,
    the files and the lines it printed; [Host] is what surrounds the process:
    the salt its identifier factory draws, the results of the library calls on
    files, [std::system], and the readings of the steady clock that time the
    benchmark.  [None] stands for a state file outside the model of recovery
    (an integer that is no enumerator). *)

From S2P Require Import Prelude Enums Ids Float64 Types State Admission Queue Batch Dispatch Completion Control Bytes Envelope Persist Decimal Executor Api LocalDriver.
From stdpp Require Import pretty.
Open Scope Z_scope.

Class Host := {
  host_salt : Z;                    (* IdFactory::random_salt() *)
  host_reads : nat -> ReadCalls;    (* the n-th reading of a file *)
  host_writes : WriteCalls;         (* the writing of the file *)
  host_system : string -> Z;        (* std::system *)
  host_steady : nat -> Z            (* std::chrono::steady_clock::now(), ns *)
}.

Record Cli := mkCli {
  cl_sched : Impl;
  cl_files : FS;
  cl_out : list string
}.

#[export] Instance Cli_eta : Eta Cli := fun c => mkCli (cl_sched c) (cl_files c) (cl_out c).
#[export] Instance upd_cl_sched : Update cl_sched. Proof. derive_update. Defined.
#[export] Instance upd_cl_files : Update cl_files. Proof. derive_update. Defined.
#[export] Instance upd_cl_out : Update cl_out. Proof. derive_update. Defined.

(** ** Arguments *)

(** The loop of [cfg_from_args] over the arguments: the last [-state] counts. *)
Fixpoint scan_state (args : list string) (state : string) (persist : bool) : string * bool :=
  match args with
  | [] => (state, persist)
  | a :: rest =>
      if String.eqb a "-state" then
        match rest with
        | b :: rest' => scan_state rest' b true
        | [] => (state, persist)
        end
      else scan_state rest state persist
  end.

Definition cfg_from_args (args : list string) : SchedulerConfig * string :=
  let '(state, persist) := scan_state args EmptyString false in
  (default_scheduler_config <| cfg_persist_recovery := persist |> <| cfg_state_path := state |>, state).

(** [argc > n ? argv[n] : dflt], and the same read as an unsigned number. *)
Definition arg_or (argv : list string) (n : nat) (dflt : string) : string := default dflt (argv !! n).
Definition arg_u64 (argv : list string) (n : nat) (dflt : Z) : Z :=
  match argv !! n with Some a => strtoull (string_bytes a) | None => dflt end.
Definition arg_int (argv : list string) (n : nat) (dflt : Z) : Z :=
  match argv !! n with Some a => atoi (string_bytes a) | None => dflt end.

(** ** Output *)

(** The conversion [%.kf]. *)
Definition print_fixed (k : nat) (x : f64) : text :=
  match x with
  | S754_zero s => sign_text s ++ dec 0 ++ (if decide (k = 0%nat) then [] else x2e :: dec_pad k 0)
  | S754_infinity s => sign_text s ++ string_bytes "inf"
  | S754_nan => string_bytes "nan"
  | S754_finite s m e =>
      let p := 10 ^ Z.of_nat k in
      let d := div_nearest (Z.pos m * 2 ^ Z.max e 0 * p) (2 ^ Z.max (- e) 0) in
      sign_text s ++ dec (d / p) ++ (if decide (k = 0%nat) then [] else x2e :: dec_pad k (d mod p))
  end.
Definition fixed (k : nat) (x : f64) : string := bytes_string (print_fixed k x).

Definition print_admission (o : AdmissionOutput) : string :=
  "decision=" +:+ AdmissionDecision_name (ao_decision o) +:+ " reason=" +:+ ao_reason_code o +:+
  " request_id=" +:+ pretty (ao_request_id o) +:+ " attempt=" +:+ pretty (ao_attempt_id o).

Definition usage : list string :=
  ["usage: inference_scheduler <cmd> [args]";
   "  commands: serve worker submit cancel status queue workers stats snapshot explain drain recover bench"]%string.

(** The lines of [status], [workers], [stats] and [snapshot]. *)
Definition status_lines (st : SchedulerStats) : list string :=
  ["admitted=" +:+ pretty (st_requests_admitted st) +:+ " completed=" +:+ pretty (st_requests_completed st) +:+
   " cancelled=" +:+ pretty (st_requests_cancelled st) +:+ " failed=" +:+ pretty (st_requests_failed st) +:+
   " expired=" +:+ pretty (st_requests_expired st) +:+ " deferred=" +:+ pretty (st_requests_deferred st);
   "current: admitted=" +:+ pretty (st_current_admitted st) +:+ " queued=" +:+ pretty (st_current_queued st) +:+
   " running=" +:+ pretty (st_current_running st) +:+ " reserved=" +:+ pretty (st_current_reserved st)].

Definition worker_line (w : WorkerSnapshot) : string :=
  "worker=" +:+ pretty (wsn_worker w) +:+ " backend=" +:+ wsn_backend w +:+ " state=" +:+
  WorkerState_name (wsn_state w) +:+ " avail=" +:+ pretty (wsn_available_capacity_units w) +:+
  " reserved=" +:+ pretty (wsn_reserved_units w) +:+ " boot=" +:+ pretty (wsn_boot_id w).

Definition stats_line (st : SchedulerStats) : string :=
  "submitted=" +:+ pretty (st_requests_submitted st) +:+ " admitted=" +:+ pretty (st_requests_admitted st) +:+
  " completed=" +:+ pretty (st_requests_completed st) +:+ " cancelled=" +:+ pretty (st_requests_cancelled st) +:+
  " failed=" +:+ pretty (st_requests_failed st) +:+ " expired=" +:+ pretty (st_requests_expired st) +:+
  " retries=" +:+ pretty (st_retries st) +:+ " batches=" +:+ pretty (st_batches_formed st) +:+
  " stale_rejected=" +:+ pretty (st_stale_rejected st).

Definition request_line (r : RequestSnapshot) : string :=
  "  req=" +:+ pretty (rsn_request_id r) +:+ " state=" +:+ RequestState_name (rsn_state r) +:+
  " tenant=" +:+ pretty (rsn_tenant r) +:+ " phase=" +:+ RequestPhase_name (rsn_phase r).

Definition snapshot_lines (sn : SchedulerSnapshot) : list string :=
  ("epoch=" +:+ pretty (ssn_epoch sn) +:+ " workers=" +:+ pretty (length (ssn_workers sn)) +:+
   " tenants=" +:+ pretty (length (ssn_tenants sn)) +:+ " active_requests=" +:+ pretty (length (ssn_requests sn)))
  :: (request_line <$> ssn_requests sn).

Definition explain_lines (ex : ExplainResult) : list string :=
  ("request=" +:+ pretty (ex_request_id ex) +:+ " admission=" +:+ AdmissionDecision_name (ex_admission ex) +:+
   " reason=" +:+ ex_admission_reason_code ex)
  :: ((fun f => "  factor: " +:+ f) <$> ex_ordering_factors ex) ++
     ((fun c => "  candidate worker=" +:+ pretty (ws_worker c) +:+ " score=" +:+ fixed 3 (ws_total c))
        <$> List.filter ws_eligible (ex_candidates ex)).

(** ** Commands *)

Abbreviation CM := (ST Cli).

Section Cli.
  Context `{Env} `{Host}.

Definition with_scheduler {A} (m : M A) : CM A :=
  fun c => let '(a, s) := m (cl_sched c) in (a, c <| cl_sched := s |>).
Definition print (ls : list string) : CM unit := modify (fun c => c <| cl_out ::= fun o => o ++ ls |>).

(** The [n]-th call of [sched.recover(state)] in a run. *)
Definition recover_file (n : nat) (state : string) : CM (Outcome unit) :=
  fs ← gets cl_files;
  with_scheduler (Scheduler.recover (host_reads n) state fs).

(** [if (!state.empty()) sched.persist(state)]. *)
Definition persist_file (state : string) : CM unit :=
  when (negb (String.eqb state EmptyString))
    (fs ← gets cl_files;
     r ← with_scheduler (Scheduler.persist host_writes state fs);
     modify (fun c => c <| cl_files := r.2 |>)).

(** The registration made by [reg_worker]. *)
Definition cli_worker : WorkerRegistration :=
  default_registration <| reg_worker := 1 |> <| reg_node := 1 |> <| reg_accelerator := 1 |>
    <| reg_boot_id := 777 |> <| reg_state := WS_Online |>
    <| reg_capability := default_capability <| cap_backend := "cpu" |> <| cap_device_name := "cpu0" |>
         <| cap_total_capacity_units := 256 |> <| cap_available_capacity_units := 256 |> |>.
Definition reg_cli_worker : CM unit := with_scheduler (Scheduler.register_worker cli_worker).

(** The request of [submit]. *)
Definition cli_spec (tenant model : Z) (phase : RequestPhase) : RequestSpec :=
  default_spec <| spec_tenant := tenant |> <| spec_model := model |> <| spec_phase := phase |>
    <| spec_tokens := default_tokens <| te_input := 32 |> <| te_output := 16 |> |>
    <| spec_demand := default_demand <| rd_cost_units := fone |> |>.

Definition cmd_submit (argv : list string) (state : string) : CM Z :=
  ad ← with_scheduler (Scheduler.submit (cli_spec (arg_u64 argv 2 1) (arg_u64 argv 3 10) RP_Prefill) None);
  match ad with
  | Ok o => print [print_admission o] ;; persist_file state ;; mret 0
  | Err e => print ["error: [" +:+ error_code_name (err_code e) +:+ "] " +:+ err_message e] ;; mret 1
  end.

Definition cmd_cancel (argv : list string) (state : string) : CM Z :=
  c ← with_scheduler (Scheduler.cancel (arg_u64 argv 2 0) CR_ClientRequested "cli");
  match c with
  | Ok _ => print ["cancelled"%string] ;; persist_file state ;; mret 0
  | Err e => print ["error: " +:+ err_message e] ;; mret 1
  end.

Definition cmd_status : CM Z := st ← with_scheduler Scheduler.stats; print (status_lines st) ;; mret 0.
Definition cmd_queue : CM Z := q ← with_scheduler Scheduler.queued_count; print ["queued=" +:+ pretty q] ;; mret 0.
Definition cmd_workers : CM Z :=
  sn ← with_scheduler Scheduler.snapshot; print (worker_line <$> ssn_workers sn) ;; mret 0.
Definition cmd_stats : CM Z := st ← with_scheduler Scheduler.stats; print [stats_line st] ;; mret 0.
Definition cmd_snapshot : CM Z := sn ← with_scheduler Scheduler.snapshot; print (snapshot_lines sn) ;; mret 0.
Definition cmd_explain (argv : list string) : CM Z :=
  ex ← with_scheduler (Scheduler.explain (arg_u64 argv 2 0)); print (explain_lines ex) ;; mret 0.

Definition cmd_drain (state : string) : CM Z :=
  with_scheduler (Scheduler.begin_drain "cli") ;;
  with_scheduler (Scheduler.cancel_all_queued "cli drain") ;;
  persist_file state ;;
  print ["draining: queued work cancelled"%string] ;; mret 0.

Definition cmd_recover (state : string) : CM (option Z) :=
  if String.eqb state EmptyString then print ["recover requires -state <file>"%string] ;; mret (Some 1) else
  rc ← recover_file 1 state;
  match rc with
  | Unmodelled => mret None
  | Failed e =>
      print ["recover error: [" +:+ error_code_name (err_code e) +:+ "] " +:+ err_message e] ;; mret (Some 1)
  | Done _ =>
      st ← with_scheduler Scheduler.stats;
      print ["recovered: admitted=" +:+ pretty (st_requests_admitted st) +:+ " queued=" +:+ pretty (st_current_queued st)] ;;
      mret (Some 0)
  end.

(** The [k]-th request of the benchmark. *)
Definition bench_spec (k : Z) : RequestSpec :=
  cli_spec (1 + Z.rem k 3) (10 + Z.rem k 2) (if Z.rem k 2 =? 0 then RP_Decode else RP_Prefill).

(** [std::chrono::duration<double>(b - a).count()], at least a nanosecond. *)
Definition seconds (a b : Z) : f64 :=
  let d := fdiv (f64_of_Z (b - a)) (f64_of_Z 1000000000) in
  if fleb d fzero then flit 1 1000000000 else d.

Definition cmd_bench (argv : list string) : CM Z :=
  let n := arg_int argv 2 10000 in
  foreach (seqZ 0 n) (fun k =>
    with_scheduler (Scheduler.submit (bench_spec k) (Some (u64 (1000000 + k)))) ;; mret tt) ;;
  with_scheduler (fun s =>
    let d := new_driver s (mkCpuExecutor 2000 400000) [cli_worker] in
    let '(_, d') := run_until_idle 1000000 d in (tt, ld_sched d')) ;;
  st ← with_scheduler Scheduler.stats;
  let submit_s := seconds (host_steady 0) (host_steady 1) in
  let total_s := seconds (host_steady 0) (host_steady 2) in
  print ["bench: n=" +:+ pretty n +:+ " completed=" +:+ pretty (st_requests_completed st) +:+
         " submit=" +:+ fixed 3 submit_s +:+ "s (" +:+ fixed 0 (fdiv (f64_of_Z n) submit_s) +:+ "/s) total=" +:+
         fixed 3 total_s +:+ "s (" +:+ fixed 0 (fdiv (f64_of_Z (st_requests_completed st)) total_s) +:+ " completed/s)"] ;;
  mret 0.

(** The commands that need a scheduler. *)
Definition exits (m : CM Z) : CM (option Z) := code ← m; mret (Some code).

Definition command (argv : list string) (cmd state : string) : CM (option Z) :=
  if String.eqb cmd "submit" then exits (cmd_submit argv state)
  else if String.eqb cmd "cancel" then exits (cmd_cancel argv state)
  else if String.eqb cmd "status" then exits (cmd_status)
  else if String.eqb cmd "queue" then exits (cmd_queue)
  else if String.eqb cmd "workers" then exits (cmd_workers)
  else if String.eqb cmd "stats" then exits (cmd_stats)
  else if String.eqb cmd "snapshot" then exits (cmd_snapshot)
  else if String.eqb cmd "explain" then exits (cmd_explain argv)
  else if String.eqb cmd "drain" then exits (cmd_drain state)
  else if String.eqb cmd "recover" then cmd_recover state
  else if String.eqb cmd "bench" then exits (cmd_bench argv)
  else print ["unknown command: " +:+ cmd] ;; mret (Some 2).

(** What every such command starts with. *)
Definition start_up (state : string) : CM (Outcome unit) :=
  reg_cli_worker ;;
  if String.eqb state EmptyString then mret (Done tt) else
  rc ← recover_file 0 state;
  reg_cli_worker ;;
  mret rc.

(** The commands that run another program. *)
Definition serve_command (argv : list string) : string :=
  "inference_scheduler_coordinator " +:+ arg_or argv 2 "127.0.0.1" +:+ " " +:+ to_string (arg_int argv 3 29840) +:+ " 2".
Definition worker_command (argv : list string) : string :=
  let models := arg_or argv 8 "" in
  "inference_scheduler_worker " +:+ arg_or argv 2 "127.0.0.1" +:+ " " +:+ to_string (arg_int argv 3 29840) +:+ " " +:+
  to_string (arg_u64 argv 4 11) +:+ " " +:+ to_string (arg_u64 argv 5 1001) +:+ " " +:+ to_string (arg_int argv 6 8) +:+ " " +:+
  arg_or argv 7 "cpu" +:+ (if String.eqb models EmptyString then EmptyString else " " +:+ models).

(** A run: the exit code, the files and the lines printed. *)
Definition main (argv : list string) (fs : FS) : option (Z * FS * list string) :=
  match argv !! 1%nat with
  | None => Some (2, fs, usage)
  | Some cmd =>
      if String.eqb cmd "serve" then
        let c := serve_command argv in
        Some (host_system c, fs, ["serving coordinator: " +:+ c])
      else if String.eqb cmd "worker" then Some (host_system (worker_command argv), fs, [])
      else
        let '(cfg, state) := cfg_from_args (drop 2 argv) in
        let c0 := mkCli (Scheduler.make cfg host_salt) fs [] in
        match start_up state c0 with
        | (Unmodelled, _) => None
        | (_, c1) =>
            let '(r, c2) := command argv cmd state c1 in
            (fun code => (code, cl_files c2, cl_out c2)) <$> r
        end
  end.

End Cli.
