(* ===== verification/CliSpec.v ===== *)
(** * What the commands do to the saved scheduler

    A run of the command line on a state file continues the scheduler that the
    file holds: the file is recovered, the command is a run of the scheduler's
    operations, and a command that changes something then writes the file.
    Where that write succeeds, a request submitted by one process is there for
    the next; where it fails the old file stays, and the exit code is the same. *)

From S2P Require Import Prelude Enums Ids Float64 Types State Admission Queue Batch Dispatch Completion Control Frames Lifecycle Index Accounts Micro Refine Handlers Machine Demo Safety CompletionSpec Bytes Envelope EnvelopeSpec Persist PersistCodec PersistSpec Decimal Executor Api Rounds LocalDriver CoordinatorSpec Cli.
Open Scope Z_scope.

(** ** Registering a worker that runs nothing *)

Section Registering.
  Context `{Env}.

(** What a registration leaves alone. *)
Definition core (s : Impl) := (requests s, ids s, draining s, epoch s).

Lemma emit_core t r a w b d s : core (exec (emit_event t r a w b d) s) = core s.
Proof. change (steps (same core) s (emit_event t r a w b d)). unfold emit_event, clock_now. mwalk ltac:(done). Qed.

Lemma recover_idle w s : (forall id, ~ flight s w id) -> core (exec (recover_in_flight w) s) = core s.
Proof.
  intros Hf. unfold recover_in_flight. rewrite exec_bind, result_gets, exec_gets.
  destruct (workers s !! w) as [wr|] eqn:Hw; [|done].
  assert (wr_in_flight wr = ∅) as ->.
  { apply map_empty. intros id. destruct (wr_in_flight wr !! id) eqn:E; [|done].
    destruct (Hf id). exists wr. split; [done|]. by rewrite E. }
  rewrite map_to_list_empty. unfold modify_worker. rewrite !exec_bind, !exec_modify, result_gets, exec_gets. done.
Qed.

Lemma register_idle reg s :
  (forall id, ~ flight s (reg_worker reg) id) -> core (exec (Scheduler.register_worker reg) s) = core s.
Proof.
  intros Hf. unfold Scheduler.register_worker. rewrite (Scheduler.flushed_same _ core) by done.
  unfold do_register_worker. rewrite !exec_bind, result_gets, exec_gets.
  set (s1 := exec (worker_slot _) s).
  assert (core s1 = core s /\ forall id, ~ flight s1 (reg_worker reg) id) as [E1 F1].
  { unfold s1, worker_slot. rewrite exec_modify. destruct (workers s !! reg_worker reg) eqn:Hw; [done|].
    split; [done|]. intros id (wr & Hwr & [x Hx]). cbn [workers upd upd_workers] in Hwr.
    rewrite lookup_insert_eq in Hwr. injection Hwr as <-. cbn in Hx. by rewrite lookup_empty in Hx. }
  set (b := _ && _). set (s2 := exec (when b _) s1).
  assert (core s2 = core s1) as E2 by (unfold s2; rewrite exec_when; destruct b; [by apply recover_idle|done]).
  by rewrite <- E1, <- E2, emit_core.
Qed.

End Registering.

(** ** What a cancellation and a drain do to the requests *)

Section Cancelling.
  Context `{Env}.

(** A queued request is cancelled, the others stay. *)
Lemma cancel_queued_effect id reason detail s r :
  requests s !! id = Some r -> rec_state r = RS_Queued ->
  result (Scheduler.cancel id reason detail) s = Ok tt /\
  exists r', requests (exec (Scheduler.cancel id reason detail) s) = <[id := r']> (requests s) /\ rec_state r' = RS_Cancelled.
Proof.
  intros Hr Hs. unfold Scheduler.cancel. rewrite Scheduler.flushed_result, (Scheduler.flushed_same _ requests) by done.
  unfold do_cancel. rewrite result_bind, exec_bind, result_gets, exec_gets, Hr, Hs. cbn [is_terminal].
  rewrite result_bind, exec_bind, result_bind, exec_bind, result_ret, exec_ret. split; [done|].
  set (f := fun r : RequestRecord => r <| rec_cancel_reason := reason |>).
  destruct (finish_cancelled_requests id invalid_id "cancelled" (exec (modify_rec id f) s) (f r)) as [b ->].
  { reqs. by rewrite lookup_alter_eq, Hr. }
  change (rec_state (f r)) with (rec_state r). rewrite Hs. cbn [is_terminal].
  exists (set_cancelled "cancelled" b (f r)). split; [|by destruct b]. reqs. rewrite (alter_Some _ _ _ r Hr). apply insert_insert_eq.
Qed.

Lemma cancel_queued_one_effect detail id s r :
  requests s !! id = Some r -> rec_state r = RS_Queued ->
  exists r', requests (exec (cancel_queued_one detail id) s) !! id = Some r' /\ rec_state r' = RS_Cancelled.
Proof.
  intros Hr Hs. unfold cancel_queued_one. rewrite exec_bind, result_gets, exec_gets, Hr, Hs. cbn [is_terminal].
  rewrite exec_bind. set (f := fun r : RequestRecord => r <| rec_cancel_reason := CR_SchedulerDrain |>).
  destruct (finish_cancelled_requests id invalid_id
    (if String.eqb detail EmptyString then "scheduler_drain" else detail)%string
    (exec (modify_rec id f) s) (f r)) as [b ->].
  { reqs. by rewrite lookup_alter_eq, Hr. }
  change (rec_state (f r)) with (rec_state r). rewrite Hs. cbn [is_terminal].
  eexists. split; [apply lookup_insert_eq|by destruct b].
Qed.

Lemma cancel_each_effect detail l s :
  NoDup l -> (forall id, id ∈ l -> is_queued_at s id) ->
  let s' := exec (foreach l (cancel_queued_one detail)) s in
  (forall id, id ∈ l -> exists r', requests s' !! id = Some r' /\ rec_state r' = RS_Cancelled) /\
  (forall id, id ∉ l -> requests s' !! id = requests s !! id).
Proof.
  revert s. induction l as [|i l IH]; intros s Hd Hq; cbn [foreach].
  { split; [intros id Hi; by apply elem_of_nil in Hi|done]. }
  apply NoDup_cons in Hd as [Hi Hd]. rewrite exec_bind. set (s1 := exec (cancel_queued_one detail i) s).
  assert (forall id, id <> i -> requests s1 !! id = requests s !! id) as Ho
    by (intros id Hne; by apply cancel_queued_one_requests).
  destruct (Hq i) as (r & Hr & Hs); [left|].
  destruct (IH s1 Hd) as [A B].
  { intros id Hid. destruct (Hq id) as (r' & Hr' & Hs'); [by right|]. exists r'. rewrite Ho by congruence. done. }
  split.
  - intros id [->|Hid]%elem_of_cons; [|by apply A]. rewrite B by done. by eapply cancel_queued_one_effect.
  - intros id Hid. rewrite not_elem_of_cons in Hid. destruct Hid as [H1 H2]. rewrite B by done. by apply Ho.
Qed.

(** A drain cancels what is queued and nothing else. *)
Lemma drain_effect reason detail s :
  QInv s ->
  let s' := exec (Scheduler.cancel_all_queued detail) (exec (Scheduler.begin_drain reason) s) in
  forall id, match requests s !! id with
    | Some r => if bool_decide (rec_state r = RS_Queued)
                then exists r', requests s' !! id = Some r' /\ rec_state r' = RS_Cancelled
                else requests s' !! id = Some r
    | None => requests s' !! id = None
    end.
Proof.
  intros Q s' id. unfold s', Scheduler.cancel_all_queued. rewrite (Scheduler.flushed_same _ requests) by done.
  set (s0 := exec (Scheduler.begin_drain reason) s).
  assert (requests s0 = requests s /\ queued s0 = queued s) as [E1 E2].
  { unfold s0, Scheduler.begin_drain. rewrite (Scheduler.flushed_same _ requests), (Scheduler.flushed_same _ queued) by done.
    unfold do_begin_drain, emit_event, clock_now. rewrite !exec_bind. done. }
  unfold do_cancel_all_queued. rewrite !exec_bind, exec_ret, result_gets, exec_gets, E2.
  destruct (cancel_each_effect detail (elements (queued s)) s0) as [A B]; [apply NoDup_elements| |].
  { intros i Hi%elem_of_elements. apply (q_queued _ Q) in Hi as (r & Hr & Hs). exists r. by rewrite E1. }
  specialize (A id). specialize (B id). rewrite elem_of_elements, (q_queued _ Q) in A, B. rewrite E1 in B.
  destruct (requests s !! id) as [r|] eqn:Hr.
  - case_bool_decide as Hs; [apply A; eauto|]. apply B. intros (? & [= <-] & ?). done.
  - apply B. by intros (? & ? & _).
Qed.

End Cancelling.

(** ** The scheduler in the file *)

(** The scheduler after the calls of [drain]. *)
Abbreviation drained s :=
  (exec (Scheduler.cancel_all_queued "cli drain") (exec (Scheduler.begin_drain "cli") s)) (only parsing).

Section Session.
  Context `{Env} `{Host}.

(** The configuration of a run with [-state F]. *)
Definition cli_cfg (F : string) : SchedulerConfig :=
  default_scheduler_config <| cfg_persist_recovery := true |> <| cfg_state_path := F |>.

(** The file [F] holds the scheduler [s], and can be read. *)
Record on_file (F : string) (fs : FS) (s : Impl) : Prop := {
  of_name : F <> EmptyString;
  of_bytes : fs !! F = Some (make_frame (result serialize_locked s));
  of_size : bsize (result serialize_locked s) < 2 ^ 63 - 24;
  of_inv : Inv s;
  of_storable : storable s = true;
  of_cfg : cfg s = cli_cfg F;
  of_read n : rc_open (host_reads n) = true /\ rc_tell (host_reads n) = true /\
    (24 + length (result serialize_locked s) <= rc_read (host_reads n))%nat
}.

(** [s1] is the scheduler of the file, back in a new process. *)
Record continued (s s1 : Impl) : Prop := {
  rs_requests id : option_Forall2 (request_restored (clock_reads s) 0 id) (requests s !! id) (requests s1 !! id);
  rs_inv : Inv s1;
  rs_cfg : cfg s1 = cfg s;
  rs_epoch : epoch s1 = epoch s;
  rs_ids : ids s1 = mkIdFactory host_salt 0;
  rs_draining : draining s1 = false
}.

(** What a save leaves in the files. *)
Definition saves (F : string) (s : Impl) (fs : FS) : FS :=
  exec (write_persistence_file host_writes F (result serialize_locked s)) fs.

(** What that write answers; no command looks at it. *)
Definition save_result (F : string) (s : Impl) (fs : FS) : Result unit :=
  result (write_persistence_file host_writes F (result serialize_locked s)) fs.

(** The files after a command that saves [s]: where the write succeeds the state
    file holds [s], where it fails it is as before; no other file but the
    temporary one is touched. *)
Record saved_as (F : string) (s : Impl) (fs fs' : FS) : Prop := {
  sv_done : save_result F s fs = Ok tt -> fs' !! F = Some (make_frame (result serialize_locked s));
  sv_failed : save_result F s fs <> Ok tt -> fs' !! F = fs !! F;
  sv_others G : G <> F -> G <> F +:+ ".tmp" -> fs' !! G = fs !! G
}.

Lemma saves_saved F s fs : saved_as F s fs (saves F s fs).
Proof.
  destruct (write_written host_writes F (result serialize_locked s) fs) as [[[E Ef]|[[e [E _]] Ef]] Ho];
    fold (save_result F s fs) in E; fold (saves F s fs) in Ef, Ho; split; congruence || done.
Qed.

Lemma with_scheduler_run {A} (m : M A) s fs o :
  with_scheduler m (mkCli s fs o) = (result m s, mkCli (exec m s) fs o).
Proof. unfold with_scheduler, result, exec. cbn [cl_sched]. by destruct (m s). Qed.

Lemma print_run ls s fs o : print ls (mkCli s fs o) = (tt, mkCli s fs (o ++ ls)).
Proof. done. Qed.

Lemma read_on_file F fs s n :
  on_file F fs s -> read_persistence_file (host_reads n) F fs = Ok (result serialize_locked s).
Proof.
  intros [_ Hb Hs _ _ _ Hr]. destruct (Hr n) as (Ho & Ht & Hl). unfold read_persistence_file. rewrite Hb, Ho, Ht. cbn [negb].
  pose proof (frame_size (result serialize_locked s)) as Hz. pose proof (bsize_nonneg (result serialize_locked s)).
  rewrite (proj2 (Z.leb_gt _ _)), take_ge, Z.eqb_refl by (unfold bsize in *; lia).
  cbn [negb]. apply parse_frame_frame. lia.
Qed.

(** Recovering the file. *)
Lemma recover_resumes F fs s s0 n :
  on_file F fs s -> cfg s0 = cfg s -> ids s0 = mkIdFactory host_salt 0 -> draining s0 = false ->
  exists s1, Scheduler.recover (host_reads n) F fs s0 = (Done tt, s1) /\
    continued s s1 /\ (forall w id, ~ flight s1 w id).
Proof.
  intros Hf Hc Hi Hd. pose proof (read_on_file F fs s n Hf) as Hr. destruct Hf as [_ _ _ I Hs _ _].
  destruct (recovered_restored s (s0 <| recovery_mode := 1 |>) I Hs) as (s1 & E & R & C & T).
  exists (s1 <| recovery_mode := 0 |>). unfold Scheduler.recover. rewrite (recover_runs _ _ _ _ _ Hr), E.
  split; [done|]. pose proof (restored_mode s s0 s1 1 0 R) as R'. split.
  - split; [intros id; destruct (rd_requests _ _ _ R' id); constructor; eapply request_restored_le; [| |done]; lia| |cbn; by rewrite C|apply R'|rewrite (rd_ids _ _ _ R'); done|rewrite (rd_draining _ _ _ R'); done].
    eapply restored_Inv; [done|exact R'|cbn; by rewrite C|]. intros t. apply T.
  - intros w id. by apply (restored_no_flight s s0).
Qed.

Lemma cli_runs_Inv s s' : Inv s -> Scheduler.runs s s' -> Inv s'.
Proof.
  intros I Hr. induction Hr as [|s1 s2 s3 [o [s o' G]] _ IH]; [done|]. apply IH.
  eapply Inv_rtc; [by apply op_refines|done].
Qed.

Lemma runs_cfg s s' : Inv s -> Scheduler.runs s s' -> cfg s' = cfg s.
Proof.
  intros I Hr. induction Hr as [|s1 s2 s3 [o [s o' G]] Hr IH]; [done|].
  pose proof (op_refines o' s I G) as Hm. rewrite IH by (by eapply Inv_rtc).
  clear IH Hr I G. induction Hm as [|? ? ? Hm _ IH]; [done|]. rewrite IH. by apply micro_cfg.
Qed.

(** Registering the worker again keeps the recovered scheduler. *)
Lemma register_resumed s s1 :
  continued s s1 -> (forall w id, ~ flight s1 w id) ->
  continued s (exec (Scheduler.register_worker cli_worker) s1).
Proof.
  intros [Rr Ri Rc Re Rd Rg] Hf. pose proof (Scheduler.register_worker_runs cli_worker s1) as Hr. unfold steps in Hr.
  pose proof (register_idle cli_worker s1 (Hf _)) as [= E1 E2 E3 E4]. split.
  - intros id. rewrite E1. apply Rr.
  - by eapply cli_runs_Inv.
  - by rewrite (runs_cfg s1).
  - by rewrite E4.
  - by rewrite E2.
  - by rewrite E3.
Qed.

(** Every command starts from the scheduler in the file. *)
Lemma start_up_resumes F fs s :
  on_file F fs s ->
  exists s1, start_up F (mkCli (Scheduler.make (cli_cfg F) host_salt) fs []) = (Done tt, mkCli s1 fs []) /\ continued s s1.
Proof.
  intros Hf. pose proof (of_name _ _ _ Hf) as Hn. unfold start_up, reg_cli_worker, recover_file.
  rewrite run_bind, with_scheduler_run. cbn [fst snd].
  apply String.eqb_neq in Hn. rewrite Hn. rewrite !run_bind. cbn [fst snd gets cl_files].
  set (s0 := exec _ (Scheduler.make _ _)).
  assert (cfg s0 = cfg s) as Hc.
  { unfold s0. rewrite (runs_cfg (Scheduler.make (cli_cfg F) host_salt)); [|apply init_Inv|apply Scheduler.register_worker_runs].
    rewrite (of_cfg _ _ _ Hf). unfold Scheduler.make, init_impl. cbn [cfg cli_cfg cfg_state_path upd upd_cfg_state_path]. by rewrite Hn. }
  pose proof (register_idle cli_worker (Scheduler.make (cli_cfg F) host_salt) ltac:(by intros id (wr & Hw & _))) as Hcore.
  fold s0 in Hcore. pose proof (f_equal (fun p => p.1.1.2) Hcore : ids s0 = _) as Hi.
  pose proof (f_equal (fun p => p.1.2) Hcore : draining s0 = _) as Hd.
  destruct (recover_resumes F fs s s0 0 Hf Hc Hi Hd) as (s1 & E & R & HF).
  assert (with_scheduler (Scheduler.recover (host_reads 0) F fs) (mkCli s0 fs []) = (Done tt, mkCli s1 fs [])) as ->
    by (unfold with_scheduler; cbn [cl_sched]; by rewrite E).
  cbn [fst snd]. rewrite with_scheduler_run. cbn [fst snd].
  exists (exec (Scheduler.register_worker cli_worker) s1). split; [done|by apply register_resumed].
Qed.

(** ** The commands *)

Definition changes (cmd : string) : bool :=
  String.eqb cmd "submit" || String.eqb cmd "cancel" || String.eqb cmd "drain".

Lemma persist_file_run F s fs o :
  F <> EmptyString -> cfg_persist_recovery (cfg s) = true ->
  exists s', persist_file F (mkCli s fs o) = (tt, mkCli s' (saves F s fs) o).
Proof.
  intros Hn Hp. apply String.eqb_neq in Hn. unfold persist_file. rewrite Hn. cbn [negb when].
  rewrite run_bind. cbn [fst snd gets]. rewrite run_bind, with_scheduler_run. cbn [fst snd modify].
  unfold Scheduler.persist. rewrite persist_enabled by done. eexists. reflexivity.
Qed.

(** [command] with its conditions decided. *)
Lemma command_cases (P : string -> CM (option Z) -> Prop) argv cmd state :
  P "submit" (exits (cmd_submit argv state)) -> P "cancel" (exits (cmd_cancel argv state)) ->
  P "status" (exits cmd_status) -> P "queue" (exits cmd_queue) -> P "workers" (exits cmd_workers) ->
  P "stats" (exits cmd_stats) -> P "snapshot" (exits cmd_snapshot) -> P "explain" (exits (cmd_explain argv)) ->
  P "drain" (exits (cmd_drain state)) -> P "recover" (cmd_recover state) -> P "bench" (exits (cmd_bench argv)) ->
  (changes cmd = false -> P cmd (print ["unknown command: " +:+ cmd] ;; mret (Some 2))) ->
  P cmd (command argv cmd state).
Proof.
  intros. unfold command.
  repeat match goal with
  | |- P ?c (if String.eqb ?c ?k then _ else _) => destruct (String.eqb_spec c k) as [->|]; [assumption|]
  end.
  assert (changes cmd = false) as Hc; [|auto].
  unfold changes. by rewrite !(proj2 (String.eqb_neq _ _)).
Qed.

(** What a command leaves: its exit code, and the files. *)
Definition continues (F cmd : string) (s1 : Impl) (fs : FS) (m : CM (option Z)) : Prop :=
  exists s2 code c2, m (mkCli s1 fs []) = (Some code, c2) /\ Scheduler.runs s1 s2 /\
    cl_files c2 = if changes cmd && (code =? 0) then saves F s2 fs else fs.

Lemma exits_run m c : exits m c = (Some (m c).1, (m c).2).
Proof. unfold exits. rewrite run_bind. done. Qed.

(** A command that looks at the scheduler and prints. *)
Lemma looks_continues {A} (m : M A) (f : A -> list string) F cmd s1 fs :
  changes cmd = false -> Scheduler.runs s1 (exec m s1) ->
  continues F cmd s1 fs (exits (x ← with_scheduler m; print (f x) ;; mret 0)).
Proof.
  intros Hc Hr. eexists (exec m s1), 0, _. rewrite exits_run, run_bind, with_scheduler_run. cbn [fst snd].
  rewrite run_bind, print_run. split; [reflexivity|]. split; [done|]. by rewrite Hc.
Qed.

Lemma snapshot_runs s : Scheduler.runs s (exec Scheduler.snapshot s).
Proof. unfold Scheduler.snapshot. rewrite <- exec_unit. exact (Scheduler.runs_op OpSnapshot s I). Qed.
Lemma explain_runs id s : Scheduler.runs s (exec (Scheduler.explain id) s).
Proof. unfold Scheduler.explain. rewrite <- exec_unit. exact (Scheduler.runs_op (OpExplain id) s I). Qed.

(** The identifier a new process gives to its first request. *)
Definition first_id : Z := (id_next (mkIdFactory host_salt 0)).1.

(** A command that operates on the scheduler and saves it. *)
Definition acting {A} (m : M (Result A)) (f : A -> list string) (g : Error -> list string) (F : string) : CM Z :=
  x ← with_scheduler m;
  match x with
  | Ok o => print (f o) ;; persist_file F ;; mret 0
  | Err e => print (g e) ;; mret 1
  end.

Lemma acting_run {A} (m : M (Result A)) f g F s1 fs :
  F <> EmptyString -> Inv s1 -> cfg_persist_recovery (cfg s1) = true -> Scheduler.runs s1 (exec m s1) ->
  exists s', exits (acting m f g F) (mkCli s1 fs []) =
    match result m s1 with
    | Ok o => (Some 0, mkCli s' (saves F (exec m s1) fs) (f o))
    | Err e => (Some 1, mkCli s' fs (g e))
    end.
Proof.
  intros Hn I Hp Hr. pose proof (runs_cfg _ _ I Hr) as Hc.
  rewrite exits_run. unfold acting. rewrite run_bind, with_scheduler_run. cbn [fst snd].
  destruct (result m s1) as [o|e]; rewrite !run_bind, print_run; cbn [fst snd app]; [|by eexists].
  destruct (persist_file_run F (exec m s1) fs (f o) Hn) as [s' E]; [by rewrite Hc|].
  exists s'. rewrite E. done.
Qed.

Lemma acting_continues {A} (m : M (Result A)) f g F cmd s1 fs :
  changes cmd = true -> F <> EmptyString -> Inv s1 -> cfg_persist_recovery (cfg s1) = true -> Scheduler.runs s1 (exec m s1) ->
  continues F cmd s1 fs (exits (acting m f g F)).
Proof.
  intros Hch Hn I Hp Hr. destruct (acting_run m f g F s1 fs Hn I Hp Hr) as [s' E]. exists (exec m s1).
  rewrite E. destruct (result m s1); [eexists 0, _|eexists 1, _]; (split; [reflexivity|]); by rewrite Hch.
Qed.

Lemma drain_runs s : Scheduler.runs s (drained s).
Proof.
  transitivity (exec (Scheduler.begin_drain "cli") s);
    [exact (Scheduler.begin_drain_runs "cli" s)|exact (Scheduler.cancel_all_queued_runs "cli drain" _)].
Qed.

Lemma drain_run F s1 fs :
  F <> EmptyString -> Inv s1 -> cfg_persist_recovery (cfg s1) = true ->
  exists s', exits (cmd_drain F) (mkCli s1 fs [])
    = (Some 0, mkCli s' (saves F (drained s1) fs) ["draining: queued work cancelled"%string]).
Proof.
  intros Hn I Hp. pose proof (runs_cfg _ _ I (drain_runs s1)) as Hc.
  unfold cmd_drain. rewrite exits_run, run_bind, with_scheduler_run. cbn [fst snd].
  rewrite run_bind, with_scheduler_run. cbn [fst snd].
  destruct (persist_file_run F (drained s1) fs [] Hn) as [s' E]; [by rewrite Hc|].
  exists s'. rewrite !run_bind, E. done.
Qed.

Lemma submit_acting F argv :
  cmd_submit argv F = acting (Scheduler.submit (cli_spec (arg_u64 argv 2 1) (arg_u64 argv 3 10) RP_Prefill) None)
    (fun o => [print_admission o])
    (fun e => ["error: [" +:+ error_code_name (err_code e) +:+ "] " +:+ err_message e]) F.
Proof. unfold cmd_submit, acting. reflexivity. Qed.

Lemma cancel_acting F argv :
  cmd_cancel argv F = acting (Scheduler.cancel (arg_u64 argv 2 0) CR_ClientRequested "cli")
    (fun _ => ["cancelled"%string]) (fun e => ["error: " +:+ err_message e]) F.
Proof. unfold cmd_cancel, acting. reflexivity. Qed.

Lemma command_continues F s1 fs argv cmd :
  F <> EmptyString -> Inv s1 -> cfg_persist_recovery (cfg s1) = true ->
  (cmd = "submit" -> requests s1 !! submit_id s1 None = None) ->
  cmd <> "recover" -> cmd <> "bench" -> continues F cmd s1 fs (command argv cmd F).
Proof.
  intros Hn I Hp. pattern cmd, (command argv cmd F).
  apply command_cases; intros Hf Hr Hb; unfold cmd_status, cmd_queue, cmd_workers, cmd_stats, cmd_snapshot, cmd_explain;
    try contradiction; try (apply looks_continues; [reflexivity|apply snapshot_runs]).
  - rewrite submit_acting. apply acting_continues; [reflexivity|done..|].
    exact (Scheduler.submit_runs (cli_spec (arg_u64 argv 2 1) (arg_u64 argv 3 10) RP_Prefill) None s1 (Hf eq_refl)).
  - rewrite cancel_acting. apply acting_continues; [reflexivity|done..|]. apply Scheduler.cancel_runs.
  - apply (looks_continues Scheduler.stats); reflexivity.
  - apply (looks_continues Scheduler.queued_count); reflexivity.
  - apply (looks_continues Scheduler.stats); reflexivity.
  - apply looks_continues; [reflexivity|]. apply explain_runs.
  - destruct (drain_run F s1 fs Hn I Hp) as [s' E]. exists (drained s1). eexists 0, _. rewrite E.
    split; [reflexivity|]. split; [apply drain_runs|]. assert (changes "drain" = true) as -> by reflexivity.
    cbn [andb Z.eqb cl_files]. reflexivity.
  - intros. exists s1. eexists 2, _. rewrite run_bind. split; [reflexivity|]. split; [done|]. by rewrite andb_false_r.
Qed.

(** The benchmark and the second recovery of [recover] leave the files alone. *)
Lemma with_scheduler_files {A} (m : M A) c : steps (same cl_files) c (with_scheduler m).
Proof. unfold steps, same, exec, with_scheduler. by destruct (m (cl_sched c)). Qed.
#[local] Hint Resolve with_scheduler_files : frame.

Lemma bench_files argv c : cl_files (exec (cmd_bench argv) c) = cl_files c.
Proof.
  change (steps (same cl_files) c (cmd_bench argv)). unfold cmd_bench, print.
  mwalk ltac:(first [apply with_scheduler_files | reflexivity]).
Qed.

Lemma recover_command F fs s s1 :
  on_file F fs s -> continued s s1 ->
  exists c2, cmd_recover F (mkCli s1 fs []) = (Some 0, c2) /\ cl_files c2 = fs.
Proof.
  intros Hf R. assert (cfg s1 = cfg s) as Hc by apply R.
  destruct (recover_resumes F fs s s1 1 Hf Hc (rs_ids _ _ R) (rs_draining _ _ R)) as (s2 & E & _).
  unfold cmd_recover, recover_file. rewrite (proj2 (String.eqb_neq _ _) (of_name _ _ _ Hf)).
  rewrite !run_bind. cbn [fst snd gets cl_files].
  assert (with_scheduler (Scheduler.recover (host_reads 1) F fs) (mkCli s1 fs []) = (Done tt, mkCli s2 fs [])) as ->
    by (unfold with_scheduler; cbn [cl_sched]; by rewrite E).
  cbn [fst snd]. rewrite run_bind, with_scheduler_run. cbn [fst snd]. rewrite run_bind, print_run. eexists. split; [reflexivity|done].
Qed.

Lemma bench_command argv F s fs :
  exists c2, command argv "bench" F (mkCli s fs []) = (Some (result (cmd_bench argv) (mkCli s fs [])), c2) /\ cl_files c2 = fs.
Proof.
  change (command argv "bench" F) with (exits (cmd_bench argv)). rewrite exits_run.
  eexists. split; [reflexivity|]. apply (bench_files argv (mkCli s fs [])).
Qed.

(** ** A whole run *)

Lemma scan_state_persist args st p :
  (st <> EmptyString -> p = true) -> (scan_state args st p).1 <> EmptyString -> (scan_state args st p).2 = true.
Proof.
  revert st p. assert (forall n args st p, (length args < n)%nat -> (st <> EmptyString -> p = true) ->
    (scan_state args st p).1 <> EmptyString -> (scan_state args st p).2 = true) as Hn; [|eauto].
  induction n as [|n IH]; intros [|a args'] st p Hl Hs; cbn [length] in Hl; try lia; [done|].
  cbn [scan_state]. destruct (String.eqb a "-state"); [|apply IH; [lia|done]].
  destruct args' as [|b args'']; [done|]. cbn [length] in Hl. apply IH; [lia|done].
Qed.

Lemma cfg_from_args_cfg args F :
  (cfg_from_args args).2 = F -> F <> EmptyString -> cfg_from_args args = (cli_cfg F, F).
Proof.
  unfold cfg_from_args. pose proof (scan_state_persist args EmptyString false ltac:(done)) as Hp.
  destruct (scan_state args EmptyString false) as [st p]. cbn [fst snd] in *. intros <- Hn. by rewrite (Hp Hn).
Qed.

Lemma main_runs F fs s argv cmd :
  on_file F fs s -> argv !! 1%nat = Some cmd -> cmd <> "serve" -> cmd <> "worker" ->
  (cfg_from_args (drop 2 argv)).2 = F ->
  exists s1, continued s s1 /\
    main argv fs = let '(r, c2) := command argv cmd F (mkCli s1 fs []) in
                   (fun code => (code, cl_files c2, cl_out c2)) <$> r.
Proof.
  intros Hf Hc Hs Hw Ha. destruct (start_up_resumes F fs s Hf) as (s1 & E & R). exists s1. split; [done|].
  unfold main. rewrite Hc. apply String.eqb_neq in Hs, Hw. rewrite Hs, Hw.
  rewrite (cfg_from_args_cfg _ F Ha (of_name _ _ _ Hf)), E. done.
Qed.

(** The digits of a number are not the option. *)
Lemma cancel_args id F : 0 <= id -> (cfg_from_args [bytes_string (dec id); "-state"; F]%string).2 = F.
Proof.
  intros Hid. unfold cfg_from_args. cbn [scan_state].
  destruct (String.eqb_spec (bytes_string (dec id)) "-state") as [E|_]; [|done].
  apply (f_equal string_bytes) in E. rewrite string_bytes_string in E.
  pose proof (dec_digits id Hid) as Hd. rewrite E in Hd. done.
Qed.

Lemma cancel_command prog id F :
  0 <= id < 2 ^ 64 ->
  command [prog; "cancel"; bytes_string (dec id); "-state"; F]%string "cancel" F =
  exits (acting (Scheduler.cancel id CR_ClientRequested "cli") (fun _ => ["cancelled"%string])
    (fun e => ["error: " +:+ err_message e]) F).
Proof.
  intros Hid. unfold command. cbn [String.eqb Ascii.eqb Bool.eqb]. rewrite cancel_acting. unfold arg_u64. cbn [lookup list_lookup].
  by rewrite string_bytes_string, strtoull_dec.
Qed.

Lemma continued_fresh s s1 : continued s s1 -> requests s !! first_id = None -> requests s1 !! submit_id s1 None = None.
Proof.
  intros R Hn. unfold submit_id. rewrite (rs_ids _ _ R). pose proof (rs_requests _ _ R first_id) as Ho.
  rewrite Hn in Ho. by inversion Ho.
Qed.

Lemma continued_persists F fs s s1 : on_file F fs s -> continued s s1 -> cfg_persist_recovery (cfg s1) = true.
Proof. intros Hf R. by rewrite (rs_cfg _ _ R), (of_cfg _ _ _ Hf). Qed.

End Session.

(** ** A run *)

#[export] Instance demo_host : Host := {|
  host_salt := 2 ^ 31 + 9;
  host_reads _ := mkReadCalls true true 4096;
  host_writes := mkWriteCalls true 4096 true 0 true;
  host_system _ := 0;
  host_steady n := Z.of_nat n * 1000000000
|}.

Definition demo_file : string := "inference_scheduler_state.bin".
Definition demo_files : FS := {[ demo_file := make_frame (result serialize_locked demo_saved) ]}.

Lemma demo_on_file : on_file demo_file demo_files demo_saved.
Proof.
  split; [done|by unfold demo_files; rewrite lookup_singleton_eq|by vm_compute|apply demo_saved_Inv|by vm_compute|done|].
  intros n. split; [done|]. split; [done|]. apply leb_complete. by vm_compute.
Qed.

(** ** The theorems *)



(** C19: Requests outlive the process.  From a state file that holds a scheduler,
    [cancel <id>] of a queued request exits with 0 and saves a scheduler in which
    that request is cancelled and every other one is as it was; [drain] exits
    with 0 and saves one in which every queued request is cancelled and the
    others are as they were.  When the write of the file succeeds the file holds
    that scheduler; when it fails the file is as it was, although the exit code
    is 0. *)
Theorem cli_acts_on_the_saved_requests `{Env} `{Host} (F : string) (fs : FS) (s : Impl) (prog : string) :
  on_file F fs s ->
  (forall id r, requests s !! id = Some r -> rec_state r = RS_Queued -> 0 <= id < 2 ^ 64 ->
    exists s2 fs', main [prog; "cancel"; bytes_string (dec id); "-state"; F]%string fs = Some (0, fs', ["cancelled"%string]) /\
      saved_as F s2 fs fs' /\
      (exists r2, requests s2 !! id = Some r2 /\ rec_state r2 = RS_Cancelled) /\
      forall i, i <> id -> option_Forall2 (request_restored (clock_reads s) 0 i) (requests s !! i) (requests s2 !! i)) /\
  exists s2 fs' out, main [prog; "drain"; "-state"; F]%string fs = Some (0, fs', out) /\
    saved_as F s2 fs fs' /\
    forall id, match requests s !! id with
      | Some r => exists r2, requests s2 !! id = Some r2 /\
          if bool_decide (rec_state r = RS_Queued) then rec_state r2 = RS_Cancelled
          else request_restored (clock_reads s) 0 id r r2
      | None => requests s2 !! id = None
      end.
Proof.
  intros Hf. split.
  - intros id r Hr Hs Hid.
    destruct (main_runs F fs s [prog; "cancel"; bytes_string (dec id); "-state"; F]%string "cancel" Hf) as (s1 & R & ->); [done..| |].
    { apply (cancel_args id F). lia. }
    pose proof (rs_requests _ _ R) as Hq. pose proof (Hq id) as Hqi. rewrite Hr in Hqi.
    destruct (requests s1 !! id) as [r1|] eqn:E; inversion Hqi as [? ? Hrr|]; subst.
    assert (rec_state r1 = RS_Queued) as Hs1 by (by destruct (restored_live _ _ _ _ _ Hrr) as (-> & _)).
    destruct (cancel_queued_effect id CR_ClientRequested "cli" s1 r1 E Hs1) as (Hok & r2 & E2 & Hr2).
    destruct (acting_run (Scheduler.cancel id CR_ClientRequested "cli") (fun _ => ["cancelled"%string])
      (fun e => ["error: " +:+ err_message e]) F s1 fs (of_name _ _ _ Hf) (rs_inv _ _ R) (continued_persists _ _ _ _ Hf R)
      (Scheduler.cancel_runs id CR_ClientRequested "cli" s1)) as [s' Ec]. rewrite Hok in Ec.
    exists (exec (Scheduler.cancel id CR_ClientRequested "cli") s1). eexists. rewrite cancel_command, Ec by done.
    split; [done|]. split; [apply saves_saved|]. rewrite E2. split; [exists r2; by rewrite lookup_insert_eq|].
    intros i Hi. rewrite lookup_insert_ne by done. apply Hq.
  - destruct (main_runs F fs s [prog; "drain"; "-state"; F]%string "drain" Hf) as (s1 & R & ->); [done..|].
    destruct (drain_run F s1 fs (of_name _ _ _ Hf) (rs_inv _ _ R) (continued_persists _ _ _ _ Hf R)) as [s' E].
    exists (drained s1). eexists _, _. unfold command. cbn [String.eqb Ascii.eqb Bool.eqb]. rewrite E.
    split; [reflexivity|]. split; [apply saves_saved|]. intros id. pose proof (drain_effect "cli" "cli drain" s1 (i_queue _ (rs_inv _ _ R)) id) as Hd.
    pose proof (rs_requests _ _ R id) as Hq.
    inversion Hq as [r r1 Hrr E1 E2|E1 E2]; rewrite <- E2 in Hd; [|done].
    destruct (restored_live _ _ _ _ _ Hrr) as (Hst & _). rewrite Hst in Hd.
    case_bool_decide; [done|]. by exists r1.
Qed.

(** The write of the demonstration succeeds: the file holds a scheduler in which
    request 100 is cancelled. *)
Lemma cli_acts_on_the_saved_requests_witness :
  exists s2 fs', main ["cli"; "cancel"; "100"; "-state"; demo_file]%string demo_files
      = Some (0, fs', ["cancelled"%string]) /\
    saved_as demo_file s2 demo_files fs' /\
    exists r2, requests s2 !! 100 = Some r2 /\ rec_state r2 = RS_Cancelled.
Proof.
  destruct (cli_acts_on_the_saved_requests demo_file demo_files demo_saved "cli" demo_on_file) as [Hc _].
  destruct (requests demo_saved !! 100) as [r|] eqn:Hr; [|vm_compute in Hr; discriminate].
  destruct (Hc 100 r Hr) as (s2 & fs' & E & Hs & Hr2 & _); [|lia|].
  - assert (rec_state <$> requests demo_saved !! 100 = Some RS_Queued) as Hq by (vm_compute; reflexivity).
    rewrite Hr in Hq. by injection Hq.
  - exists s2, fs'. split; [exact E|]. split; [exact Hs|exact Hr2].
Defined.
