(* ===== verification/Interleaving.v ===== *)
(** * Interleavings of the coordinator's threads

    The coordinator's threads share the scheduler, which takes its mutex in each
    call, and the slots, each behind a mutex of its own.  Here a step is one such
    call of one thread, in any order: the handlers of [Coordinator] are
    sequences of these calls, and whatever the threads do between them, the
    scheduler stays in a state its operations reach. *)

From S2P Require Import Prelude Enums Ids Float64 Types State Admission Queue Batch Dispatch Completion Control Frames Lifecycle Index Accounts Micro Refine Seed BatchSpec Handlers Machine Demo Safety CompletionSpec DispatchSpec Bytes Envelope Net Decimal Json JsonSpec Protocol ProtocolSpec Executor Worker Api Reports Rounds Coordinator CoordinatorSpec.
Open Scope Z_scope.

(** What a thread does while it holds a mutex. *)
Inductive Call :=
| CallSubmit (sp : RequestSpec)
| CallCancel (id : Z)
| CallPlan (id : Z) (explain : bool)
| CallStart (rp : CompletionReport)
| CallComplete (rp : CompletionReport)
| CallRollEpoch
| CallRegister (reg : WorkerRegistration)
| CallPublish (slot : WorkerSlot)
| CallClear (i : nat)
| CallStore (i : nat) (done : Json).

Section Calls.
  Context `{Env}.

Definition publish (slot : WorkerSlot) (c : Coordinator) : Coordinator :=
  c <| co_workers ::= fun ws => ws ++ [slot] |>
    <| co_by_worker ::= <[slot_worker slot := length (co_workers c)]> |>.

Definition run_call (a : Call) : CM unit :=
  match a with
  | CallSubmit sp => on_scheduler (Scheduler.submit sp None) ;; mret tt
  | CallCancel id => on_scheduler (Scheduler.cancel id CR_ClientRequested "client") ;; mret tt
  | CallPlan id ex => on_scheduler (Scheduler.plan_dispatch id ex) ;; mret tt
  | CallStart rp => on_scheduler (Scheduler.confirm_dispatch_start rp) ;; mret tt
  | CallComplete rp => on_scheduler (Scheduler.complete_attempt rp) ;; mret tt
  | CallRollEpoch => on_scheduler Scheduler.roll_epoch
  | CallRegister reg => on_scheduler (Scheduler.register_worker reg)
  | CallPublish slot => modify (publish slot)
  | CallClear i => modify (fun c => c <| co_workers ::= alter (fun sl => sl <| slot_has_result := false |>) i |>)
  | CallStore i done => modify (fun c => c <| co_workers ::= alter (fun sl => sl
      <| slot_result := done |> <| slot_has_result := true |>) i |>)
  end.

(** The scheduler's contract. *)
Definition call_guard (s : Impl) (a : Call) : Prop :=
  match a with
  | CallSubmit _ => requests s !! submit_id s None = None
  | CallComplete rp => honest s rp
  | _ => True
  end.

Definition run_calls (l : list Call) (c : Coordinator) : Coordinator := exec (foreach l run_call) c.

Lemma run_calls_app l1 l2 c : run_calls (l1 ++ l2) c = run_calls l2 (run_calls l1 c).
Proof.
  unfold run_calls. revert c. induction l1 as [|a l1 IH]; intros c; [done|]. cbn [app foreach].
  by rewrite !exec_bind, IH.
Qed.

Lemma run_call_runs a c :
  call_guard (co_sched c) a -> Scheduler.runs (co_sched c) (co_sched (exec (run_call a) c)).
Proof.
  intros G. destruct a; cbn [run_call call_guard] in *; rewrite ?exec_bind, ?exec_ret, ?on_scheduler_exec, ?exec_modify;
    cbn [co_sched].
  - by apply Scheduler.submit_runs.
  - apply Scheduler.cancel_runs.
  - apply Scheduler.plan_dispatch_runs.
  - apply Scheduler.confirm_dispatch_start_runs.
  - by apply Scheduler.complete_attempt_runs.
  - apply Scheduler.roll_epoch_runs.
  - apply Scheduler.register_worker_runs.
  - apply rtc_refl.
  - apply rtc_refl.
  - apply rtc_refl.
Qed.

(** ** The handlers as sequences of calls *)

(** The calls of one handler, in its order; the reports of a [completed] message
    carry the epoch at the time of their call. *)
Definition calls_of (c c' : Coordinator) : Prop := exists l, c' = run_calls l c.

#[global] Instance calls_of_preorder : PreOrder calls_of.
Proof.
  split; [by exists []|]. intros c1 c2 c3 [l1 ->] [l2 ->]. exists (l1 ++ l2). by rewrite run_calls_app.
Qed.

Lemma one_call a c : calls_of c (exec (run_call a) c).
Proof. exists [a]. unfold run_calls. cbn [foreach]. by rewrite exec_bind, exec_ret. Qed.

(** A call whose result is used. *)
Lemma calls_sched {A} (m : M A) a c :
  exec (run_call a) c = c <| co_sched := exec m (co_sched c) |> -> steps calls_of c (on_scheduler m).
Proof. intros E. unfold steps. rewrite on_scheduler_exec, <- E. apply one_call. Qed.

Ltac by_call a :=
  apply (calls_sched _ a); cbn [run_call]; rewrite ?exec_bind, ?exec_ret, on_scheduler_exec; reflexivity.

Lemma calls_read {A} (f : Impl -> A) c : steps calls_of c (on_scheduler (gets f)).
Proof. unfold steps. rewrite on_scheduler_exec, exec_gets. exists []. by destruct c. Qed.

Lemma register_calls first c : steps calls_of c (register first).
Proof.
  unfold register. set (reg := registration first). apply steps_bind; [exact _|by_call (CallRegister reg)|].
  apply steps_gets_bind. apply steps_bind; [exact _| |apply steps_ret; exact _].
  apply steps_modify. set (c1 := exec _ c).
  pose proof (one_call (CallPublish (mkWorkerSlot (reg_worker reg) (reg_boot_id reg)
    (cap_total_capacity_units (reg_capability reg)) false JNull)) c1) as Hc. exact Hc.
Qed.

Lemma handle_dispatch_calls rid ex c : steps calls_of c (handle_dispatch rid ex).
Proof.
  unfold handle_dispatch, find. apply steps_bind; [exact _|by_call (CallPlan rid ex)|].
  destruct (result _ _) as [o|e]; [|apply steps_ret; exact _]. destruct (negb _); [apply steps_ret; exact _|].
  apply steps_gets_bind. destruct (_ !! _) as [i|]; [|apply steps_ret; exact _].
  apply steps_bind; [exact _|apply (one_call (CallClear i))|]. apply steps_gets_bind, steps_ret. exact _.
Qed.

Ltac then_ret := apply steps_bind; [exact _| |apply steps_ret; exact _].

Lemma handle_one_calls req c : steps calls_of c (handle_one req).
Proof.
  unfold handle_one. cbv zeta. set (op := getstr req "op" "").
  destruct (String.eqb op "ready"); [apply steps_gets_bind, steps_ret; exact _|].
  destruct (String.eqb op "submit").
  { destruct (spec_from_json req) as [sp|]; [|apply steps_ret; exact _]. then_ret. by_call (CallSubmit sp). }
  destruct (String.eqb op "dispatch"); [apply handle_dispatch_calls|].
  destruct (String.eqb op "cancel"); [then_ret; by_call (CallCancel (num_u64 req "request_id" 0))|].
  destruct (String.eqb op "stats"); [then_ret; apply calls_read|].
  destruct (String.eqb op "roll_epoch").
  { apply steps_bind; [exact _|by_call CallRollEpoch|]. then_ret. apply calls_read. }
  destruct (String.eqb op "request_info"); [then_ret; apply calls_read|].
  destruct (String.eqb op "complete").
  { destruct (CompletionStatus_of_int _) as [st|]; [|apply steps_ret; exact _].
    then_ret. by_call (CallComplete (client_report req st)). }
  destruct (String.eqb op "shutdown"); apply steps_ret; exact _.
Qed.

Lemma complete_results_calls w boot avail l c : steps calls_of c (complete_results w boot avail l).
Proof.
  revert c. induction l as [|[[rj st] fc] l IH]; intros c; cbn [complete_results]; [apply steps_ret; exact _|].
  apply steps_bind; [exact _| |then_ret; apply IH]. unfold complete_result. apply steps_gets_bind. then_ret.
  by_call (CallComplete (report_of (epoch (co_sched c)) w boot avail rj st fc)).
Qed.

Lemma on_completed_calls i msg c : steps calls_of c (on_completed i msg).
Proof.
  unfold on_completed. apply steps_gets_bind. destruct (co_workers c !! i) as [slot|]; [|apply steps_ret; exact _].
  destruct (mapM _ _); [|apply steps_ret; exact _]. cbv zeta. apply steps_bind; [exact _| |].
  { apply steps_foreach; [exact _|]. intros rj c' _ _. unfold confirm_result. apply steps_gets_bind. then_ret.
    by_call (CallStart (start_of (epoch (co_sched c')) (slot_worker slot) (slot_boot slot) (i32 (num_u64 msg "units" 0)) rj)). }
  apply steps_bind; [exact _|apply complete_results_calls|]. then_ret.
  set (outs := result _ _). exact (one_call (CallStore i (dispatch_done (num_u64 msg "batch_id" 0) outs)) _).
Qed.

End Calls.

(** ** Any interleaving *)

Inductive interleaved `{Env} (cf : SchedulerConfig) (ep : option Z) (salt : Z) : Coordinator -> Prop :=
| il_init : interleaved cf ep salt (new_coordinator (init_impl cf ep salt))
| il_call c a : interleaved cf ep salt c -> call_guard (co_sched c) a ->
    interleaved cf ep salt (exec (run_call a) c).

(** However guarded calls interleave, the scheduler is in a state its operations
    reach. *)
Lemma interleaved_reachable `{Env} cf ep salt c : interleaved cf ep salt c -> reachable cf ep salt (co_sched c).
Proof.
  induction 1 as [|c a _ IH G]; [apply reach_init|]. eapply run_reachable; [exact IH|]. by apply run_call_runs.
Qed.

(** Every handler of the coordinator is a sequence of calls that each hold one
    mutex. *)
Lemma handler_calls `{Env} e c : exists calls, exec (co_handle e) c = run_calls calls c.
Proof.
  change (steps calls_of c (co_handle e)). destruct e as [first|req|i msg]; cbn [co_handle];
    (apply steps_bind; [exact _| |apply steps_ret; exact _]).
  - apply register_calls.
  - apply handle_one_calls.
  - apply on_completed_calls.
Qed.

(** A client's request is planned between the two halves of a registration, and
    the epoch rolls over before the slot is published. *)
Definition demo_registration : WorkerRegistration := registration (register_message demo_args).
Definition half_registered : Coordinator :=
  run_calls [CallSubmit (demo_spec 3); CallRegister demo_registration] (new_coordinator demo_init).
Definition demo_interleaved : Coordinator :=
  run_calls [CallPlan (submit_id demo_init None) false; CallRollEpoch; CallPublish (mkWorkerSlot 1 9 4 false JNull)]
    half_registered.
