(* ===== verification/Fresh.v ===== *)
(** * The scheduler's own identifiers never collide

    [submit] expects an identifier that is not in use.  A caller that lets the
    scheduler choose keeps this contract without checking anything, as long as
    the factory's low 32 bits last: every request carries an identifier that
    the factory has issued, and the next one is new.  So the operations alone,
    and the coordinator's threads in any interleaving, reach only states that
    the theorems on reachable states speak of. *)

From S2P Require Import Prelude Enums Ids Float64 Types State Admission Queue Batch Dispatch Completion Control Frames Lifecycle Index Accounts Micro Refine Seed BatchSpec Handlers Machine Demo Safety Journal Ordering CompletionSpec DispatchSpec Bytes Envelope Net Decimal Json JsonSpec Protocol ProtocolSpec Executor Worker Api Reports Rounds Coordinator CoordinatorSpec Interleaving.
Open Scope Z_scope.

(** ** What the operations do to the identifiers *)

(** At most the request [rid] is new; the factory moves forward. *)
Definition grown_by (rid : Z) (s s' : Impl) : Prop :=
  dom (requests s') ⊆ {[rid]} ∪ dom (requests s) /\ issues (ids s) (ids s').

#[export] Instance grown_by_loud `{Env} rid : Loud (grown_by rid).
Proof.
  split.
  - split; [intros s; split; [apply union_subseteq_r|reflexivity]|].
    intros s1 s2 s3 [A B] [C D]. split; [|by etrans]. etrans; [exact C|]. apply union_least; [apply union_subseteq_l|exact A].
  - intros s s' [_ _ _ E1 E2]. split; [rewrite E1; apply union_subseteq_r|done].
  - intros. split; [apply union_subseteq_r|by exists 0%nat].
Qed.

(** No request is new. *)
Definition grown (s s' : Impl) : Prop := dom (requests s') = dom (requests s) /\ issues (ids s) (ids s').

#[export] Instance grown_loud `{Env} : Loud grown.
Proof.
  split.
  - split; [by intros s; split|]. intros s1 s2 s3 [A B] [C D]. split; [congruence|by etrans].
  - by intros s s' [_ _ _ E1 E2].
  - intros. split; [done|by exists 0%nat].
Qed.

Definition forward (s s' : Impl) : Prop := issues (ids s) (ids s').

#[export] Instance forward_loud `{Env} : Loud forward.
Proof.
  split.
  - split; [by intros s; exists 0%nat|]. intros s1 s2 s3 A B. unfold forward in *. by etrans.
  - by intros s s' [_ _ _ _ E].
  - intros. by exists 0%nat.
Qed.

Section Operations.
  Context `{Env}.

Lemma op_grown o s :
  match o with OpSubmit _ _ => False | _ => True end -> grown s (exec (run_op o) s).
Proof.
  intros Ho. destruct o; try (destruct Ho); try (by apply op_loud); cbn [run_op]; rewrite ?exec_unit.
  - apply begin_drain_loud. intros. split; [done|by exists 0%nat].
  - done.
  - unfold flush_events. rewrite exec_bind, result_gets, exec_gets. destruct (negb _); [reflexivity|].
    rewrite !exec_bind, !exec_gets, exec_ret, exec_modify. done.
Qed.

Lemma submit_grown sp s : steps (grown_by (submit_id s None)) s (do_submit sp None).
Proof.
  apply submit_loud_at. intros r s'. unfold insert_if_absent, steps. rewrite exec_modify.
  destruct (requests s' !! submit_id s None); [reflexivity|]. split; [|by exists 0%nat].
  cbn [requests upd upd_requests]. by rewrite dom_insert_L.
Qed.

(** ** The identifiers a submission takes *)

Definition same_ids (s s' : Impl) : Prop := ids s' = ids s.

#[local] Instance same_ids_preorder : PreOrder same_ids.
Proof. split; [done|]. intros s1 s2 s3 A B. unfold same_ids in *. congruence. Qed.

Ltac same_ids_base := unfold same_ids; simpl; repeat case_match; done.

(** At most [n] identifiers are taken. *)
Definition spends (n : nat) (s s' : Impl) : Prop := exists i, (i <= n)%nat /\ ids s' = issue i (ids s).

Lemma spends_same {A B} n (m : M A) (k : A -> M B) s :
  steps same_ids s m -> (forall v s, steps (spends n) s (k v)) -> steps (spends n) s (m ≫= k).
Proof.
  unfold steps, same_ids. intros Hm Hk. rewrite exec_bind. destruct (Hk (result m s) (exec m s)) as (i & Hi & E).
  exists i. by rewrite E, Hm.
Qed.

Lemma spends_next {B} n (k : Z -> M B) s :
  (forall v s, steps (spends n) s (k v)) -> steps (spends (S n)) s (next_id ≫= k).
Proof.
  unfold steps. intros Hk. rewrite exec_bind. destruct (Hk (result next_id s) (exec next_id s)) as (i & Hi & E).
  exists (S i). split; [lia|]. rewrite E. change (ids (exec next_id s)) with (issue 1 (ids s)).
  unfold issue. by rewrite <- Nat.iter_add, Nat.add_comm.
Qed.

Lemma spends_none {A} n (m : M A) s : steps same_ids s m -> steps (spends n) s m.
Proof. intros E. exists 0%nat. split; [lia|exact E]. Qed.

Lemma submit_admitted_spends sp rid now reason s : steps (spends 2) s (submit_admitted sp rid now reason).
Proof.
  unfold submit_admitted, enqueue_request, put_flow, emit_event, clock_now, modify_stats, modify_tenant, tenant_of, insert_if_absent.
  apply spends_next. intros gen s1. apply spends_same; [mwalk same_ids_base|]. intros _ s2.
  destruct (is_expired sp now); [apply spends_none; mwalk same_ids_base|].
  apply spends_next. intros att s3. apply spends_none. mwalk same_ids_base.
Qed.

(** A submission that adds a request has taken its identifier, and few others. *)
Lemma submit_takes sp s :
  let s' := exec (do_submit sp None) s in
  requests s' = requests s \/ exists i, (i <= 2)%nat /\ ids s' = issue (S i) (ids s).
Proof.
  cbv zeta. unfold do_submit. destruct (validate_spec sp); [|by left]. right.
  rewrite exec_bind.
  match goal with |- context [exec ?m (exec next_id s)] => assert (steps (spends 2) (exec next_id s) m) as (i & Hi & E) end.
  { generalize (exec next_id s). intros s1. apply spends_same; [unfold clock_now; mwalk same_ids_base|]. intros now s2.
    apply spends_same; [mwalk same_ids_base|]. intros [d reason] s3. cbn [fst snd]. destruct d.
    - apply submit_admitted_spends.
    - apply spends_none. unfold modify_stats. mwalk same_ids_base.
    - apply spends_same; [unfold modify_stats; mwalk same_ids_base|]. intros _ s4. apply spends_next. intros gen s5.
      apply spends_none. unfold insert_if_absent, emit_event, clock_now. mwalk same_ids_base. }
  exists i. split; [exact Hi|]. rewrite E. change (ids (exec next_id s)) with (issue 1 (ids s)).
  unfold issue. by rewrite <- Nat.iter_add, Nat.add_comm.
Qed.

(** ** Requests under issued identifiers *)

Definition factory0 (salt : Z) : IdFactory := mkIdFactory salt 0.

Lemma issue_counter k salt :
  0 <= salt < 2 ^ 32 -> Z.of_nat k < 2 ^ 64 -> issue k (factory0 salt) = mkIdFactory salt (Z.of_nat k).
Proof.
  intros Hs. induction k as [|k IH]; intros Hk; [done|]. change (issue (S k) (factory0 salt)) with (id_next (issue k (factory0 salt))).2.
  rewrite IH by lia. replace (Z.of_nat (S k)) with (Z.of_nat k + 1) by lia. unfold id_next.
  cbn [idf_counter idf_salt snd]. rewrite u64_id by lia. reflexivity.
Qed.

(** After [k] identifiers, every request carries one of them. *)
Record owned (salt : Z) (k : nat) (s : Impl) : Prop := {
  ow_ids : ids s = issue k (factory0 salt);
  ow_requests : forall id, is_Some (requests s !! id) -> issued (ids s) id
}.

Lemma issue_add j k f : issue j (issue k f) = issue (k + j) f.
Proof. unfold issue. by rewrite <- Nat.iter_add, Nat.add_comm. Qed.

Section Owned.
  Context (salt : Z) (Hsalt : 0 <= salt < 2 ^ 32).

Lemma owned_factory k s : owned salt k s -> Z.of_nat k < 2 ^ 32 -> ids s = mkIdFactory salt (Z.of_nat k).
Proof. intros [E _] Hk. rewrite E. apply issue_counter; [done|lia]. Qed.

Lemma owned_ok k s : owned salt k s -> Z.of_nat k < 2 ^ 32 -> factory_ok (ids s).
Proof. intros O Hk. rewrite (owned_factory k s O Hk). split; cbn; lia. Qed.

(** The next identifier is not in use. *)
Lemma owned_fresh k s : owned salt k s -> Z.of_nat k + 1 < 2 ^ 32 -> requests s !! submit_id s None = None.
Proof.
  intros O Hk. destruct (requests s !! submit_id s None) as [r|] eqn:E; [|done]. exfalso.
  apply (id_next_fresh (ids s)); [by apply (owned_ok k); [|lia]| |].
  - rewrite (owned_factory k s O) by lia. cbn. lia.
  - apply (ow_requests _ _ _ O). by exists r.
Qed.

Lemma issued_forward k j s s' id :
  ids s = issue k (factory0 salt) -> ids s' = issue j (ids s) -> Z.of_nat (k + j) < 2 ^ 32 ->
  issued (ids s) id -> issued (ids s') id.
Proof.
  intros E E' Hk. rewrite E', E, issue_add, !issue_counter by (done || lia).
  intros (c & Hc & ->). exists c. cbn in *. split; [lia|done].
Qed.

Lemma owned_grown k j s s' :
  owned salt k s -> dom (requests s') = dom (requests s) -> ids s' = issue j (ids s) -> Z.of_nat (k + j) < 2 ^ 32 ->
  owned salt (k + j) s'.
Proof.
  intros [E O] Hd E' Hk. split; [by rewrite E', E, issue_add|]. intros id Hi.
  apply (issued_forward k j s); [done..|]. apply O. apply elem_of_dom. rewrite <- Hd. by apply elem_of_dom.
Qed.

Lemma owned_submit sp k j s s' :
  owned salt k s -> dom (requests s') = dom (requests (exec (do_submit sp None) s)) ->
  ids s' = ids (exec (do_submit sp None) s) -> ids s' = issue j (ids s) -> Z.of_nat (k + j) < 2 ^ 32 ->
  owned salt (k + j) s'.
Proof.
  intros O Hd Ei E' Hk. destruct (submit_takes sp s) as [Hr|(i & Hi & Et)].
  { apply (owned_grown k j s); [done| |done..]. by rewrite Hd, Hr. }
  pose proof O as [E Oq]. assert (j = S i) as ->.
  { rewrite <- Ei, E', E, !issue_add, !issue_counter in Et by (done || lia). injection Et as Et. lia. }
  split; [by rewrite E', E, issue_add|]. intros id Hs. apply elem_of_dom in Hs. rewrite Hd in Hs.
  apply (proj1 (submit_grown sp s)), elem_of_union in Hs as [Hs%elem_of_singleton|Hs].
  - subst id. rewrite E', E, issue_add, issue_counter by (done || lia). cbn [submit_id].
    rewrite (owned_factory k s O) by lia. exists (Z.of_nat k + 1). cbn. rewrite u64_id; [split; [lia|done]|lia].
  - apply (issued_forward k (S i) s); [done..|]. apply Oq. by apply elem_of_dom.
Qed.

End Owned.

End Operations.

(** ** The coordinator's threads *)

(** A thread's own obligation: it reports only what a worker did. *)
Definition own_call (s : Impl) (a : Call) : Prop := match a with CallComplete rp => honest s rp | _ => True end.

(** The calls of the threads, with the number of identifiers taken. *)
Inductive threads `{Env} (cf : SchedulerConfig) (ep : option Z) (salt : Z) : nat -> Coordinator -> Prop :=
| th_init : threads cf ep salt 0 (new_coordinator (init_impl cf ep salt))
| th_call k j c a : threads cf ep salt k c -> own_call (co_sched c) a ->
    ids (co_sched (exec (run_call a) c)) = issue j (ids (co_sched c)) ->
    threads cf ep salt (k + j) (exec (run_call a) c).

Section Threads.
  Context `{Env}.

Lemma flushed_ids {A} (m : M A) s : ids (exec (Scheduler.flushed m) s) = ids (exec m s).
Proof. by apply (Scheduler.flushed_same m ids). Qed.

Lemma flushed_requests {A} (m : M A) s : requests (exec (Scheduler.flushed m) s) = requests (exec m s).
Proof. by apply (Scheduler.flushed_same m requests). Qed.

Lemma flushed_grown {A} (m : M A) o s :
  exec (run_op o) s = exec m s -> match o with OpSubmit _ _ => False | _ => True end ->
  grown s (exec (Scheduler.flushed m) s).
Proof.
  intros E Ho. pose proof (op_grown o s Ho) as G. rewrite E in G. unfold grown.
  by rewrite flushed_ids, flushed_requests.
Qed.

Lemma call_grown a c :
  match a with CallSubmit _ => False | _ => True end -> grown (co_sched c) (co_sched (exec (run_call a) c)).
Proof.
  intros Ha. destruct a; try (destruct Ha); cbn [run_call];
    rewrite ?exec_bind, ?exec_ret, ?on_scheduler_exec, ?exec_modify; cbn [co_sched]; try reflexivity.
  - eapply (flushed_grown _ (OpCancel id CR_ClientRequested "client")); [apply exec_unit|done].
  - eapply (flushed_grown _ (OpPlan id explain)); [apply exec_unit|done].
  - eapply (flushed_grown _ (OpStart rp)); [apply exec_unit|done].
  - eapply (flushed_grown _ (OpComplete rp)); [apply exec_unit|done].
  - by eapply (flushed_grown _ OpRollEpoch).
  - by eapply (flushed_grown _ (OpRegister reg)).
Qed.

Lemma call_issues a c : issues (ids (co_sched c)) (ids (co_sched (exec (run_call a) c))).
Proof.
  destruct a as [sp| | | | | | | | |] eqn:Ea; try (rewrite <- Ea; apply call_grown; by rewrite Ea).
  cbn [run_call]. rewrite exec_bind, exec_ret, on_scheduler_exec, co_sched_set. unfold Scheduler.submit.
  rewrite flushed_ids. apply (submit_grown sp).
Qed.

Lemma threads_owned cf ep salt k c :
  0 <= salt < 2 ^ 32 -> threads cf ep salt k c -> Z.of_nat k < 2 ^ 32 -> owned salt k (co_sched c).
Proof.
  intros Hs. induction 1 as [|k j c a _ IH Ho Hj]; intros Hk.
  { split; [done|]. intros id [r Hr]. cbn in Hr. by rewrite lookup_empty in Hr. }
  specialize (IH ltac:(lia)). destruct a as [sp| | | | | | | | |] eqn:Ea.
  2-10: rewrite <- Ea in *; apply (owned_grown salt Hs k j (co_sched c)); [done|apply call_grown; by rewrite Ea|done|lia].
  cbn [run_call] in *. rewrite exec_bind, exec_ret, on_scheduler_exec, co_sched_set in *. unfold Scheduler.submit in *.
  apply (owned_submit salt Hs sp k j (co_sched c)); [done|by rewrite flushed_requests|apply flushed_ids|done|lia].
Qed.

Lemma own_guard salt k s a :
  0 <= salt < 2 ^ 32 -> owned salt k s -> Z.of_nat k + 1 < 2 ^ 32 -> own_call s a -> call_guard s a.
Proof. intros Hs O Hk Ha. destruct a; try done. by apply (owned_fresh salt Hs k). Qed.

Lemma threads_interleaved cf ep salt k c :
  0 <= salt < 2 ^ 32 -> threads cf ep salt k c -> Z.of_nat k < 2 ^ 32 - 1 -> interleaved cf ep salt c.
Proof.
  intros Hs. induction 1 as [|k j c a Ht IH Ho Hj]; intros Hk; [apply il_init|]. apply il_call; [apply IH; lia|].
  apply (own_guard salt k); [done|apply (threads_owned cf ep); [done..|lia]|lia|done].
Qed.

End Threads.

(** C9: The coordinator's threads need no care with identifiers.  Every handler
    of the coordinator is a sequence of calls that each hold one mutex; and while
    fewer than [2^32 - 1] identifiers have been taken, however the calls of the
    threads interleave, owing nothing but honest completion reports, no
    submission meets an identifier in use: the scheduler is in a state its
    operations reach, every request carries an identifier the factory has
    issued, and every next call keeps this up. *)
Theorem interleaved_threads_keep_the_contract `{Env} cf ep salt k (c : Coordinator) :
  0 <= salt < 2 ^ 32 -> threads cf ep salt k c -> Z.of_nat k < 2 ^ 32 - 1 ->
  reachable cf ep salt (co_sched c) /\
  (forall e, exists calls, exec (co_handle e) c = run_calls calls c) /\
  (forall id, is_Some (requests (co_sched c) !! id) -> issued (ids (co_sched c)) id) /\
  (forall a, own_call (co_sched c) a ->
     call_guard (co_sched c) a /\ exists j, threads cf ep salt (k + j) (exec (run_call a) c)).
Proof.
  intros Hs Ht Hk. assert (owned salt k (co_sched c)) as O by (apply (threads_owned cf ep); [done..|lia]).
  assert (interleaved cf ep salt c) as Hi by (by apply (threads_interleaved cf ep salt k)).
  split; [by apply interleaved_reachable|split; [intros e; apply handler_calls|split; [apply O|]]].
  - intros a Ha. split; [apply (own_guard salt k); [done..|lia|done]|].
    destruct (call_issues a c) as [j Hj]. exists j. by apply th_call.
Qed.

Lemma interleaved_threads_keep_the_contract_witness :
  demo_reachable (co_sched demo_interleaved) /\
  (forall e, exists calls, exec (co_handle e) demo_interleaved = run_calls calls demo_interleaved) /\
  (forall id, is_Some (requests (co_sched demo_interleaved) !! id) -> issued (ids (co_sched demo_interleaved)) id) /\
  (forall a, own_call (co_sched demo_interleaved) a ->
     call_guard (co_sched demo_interleaved) a /\
     exists j, threads default_scheduler_config None 5 (4 + j) (exec (run_call a) demo_interleaved)).
Proof.
  apply (interleaved_threads_keep_the_contract default_scheduler_config None 5 4 demo_interleaved); [lia| |lia].
  unfold demo_interleaved, half_registered, run_calls. cbn [foreach]. rewrite !exec_bind, !exec_ret.
  apply (th_call _ _ _ 4 0); [|done|by vm_compute]. apply (th_call _ _ _ 4 0); [|done|by vm_compute].
  apply (th_call _ _ _ 3 1); [|done|by vm_compute]. apply (th_call _ _ _ 3 0); [|done|by vm_compute].
  apply (th_call _ _ _ 0 3); [|done|by vm_compute]. apply th_init.
Defined.
