(* ===== verification/Cluster.v ===== *)
(** * Coordinator and worker together

    The round trip of a dispatch through both programs: the coordinator plans
    the batch and prints the [run] message, the worker parses it, runs the
    members and prints the [completed] message, the coordinator's thread parses
    that and reports to the scheduler, and the client gets the answer. *)

From S2P Require Import Prelude Enums Ids Float64 Types State Admission Queue Batch Dispatch Completion Control Frames Lifecycle Index Accounts Micro Refine Seed BatchSpec Handlers Machine Demo Safety CompletionSpec DispatchSpec Bytes Envelope Net Decimal Json JsonSpec Protocol ProtocolSpec Executor Worker Api Reports Rounds Coordinator CoordinatorSpec.
Open Scope Z_scope.

(** What the other end of a connection makes of a message. *)
Definition over_wire (j : Json) : option Json := parsed_or_null (dump_json j).

Lemma over_wire_ok j : json_ok j -> over_wire j = Some j.
Proof. intros Hj. unfold over_wire, parsed_or_null. by rewrite parse_dump. Qed.

Lemma mapM_each {A B C} (f : B -> option C) (g : A -> B) (h : A -> C) l :
  (forall x, x ∈ l -> f (g x) = Some (h x)) -> mapM f (g <$> l) = Some (h <$> l).
Proof.
  intros Hl. apply mapM_Some, Forall2_fmap, Forall_Forall2_diag, Forall_forall. exact Hl.
Qed.

Section Cluster.
  Context `{Env}.

(** What happens while the client's thread waits: the worker, whose set of
    failed requests is [seen], answers the [run] message, and the worker's
    thread at the coordinator handles the answer. *)
Definition worker_round (a : WorkerArgs) (seen : gset Z) (i : nat) (run : Json) : CM (option Json) :=
  match (msg ← over_wire run; done ← result (handle_run a msg) seen; over_wire done) with
  | None => mret None
  | Some msg =>
      ok ← on_completed i msg;
      slot ← gets (fun c => co_workers c !! i);
      mret (if ok : bool then slot_result <$> slot else None)
  end.

(** ** The run message *)

Definition seen_cost (r : RequestRecord) : Z := to_i64 (rd_cost_units (spec_demand (rec_spec r))).

(** The values of a record that messages carry without loss. *)
Record member_ok (m : Z) (r : RequestRecord) : Prop := {
  mo_ids : Forall u64_ok [m; rec_current_attempt r; rec_generation r; spec_model (rec_spec r);
    spec_revision (rec_spec r)];
  mo_counts : Forall exact [te_input (spec_tokens (rec_spec r)); te_output (spec_tokens (rec_spec r));
    seen_cost r; 3 * seen_cost r];
  mo_cost : num_ok (rd_cost_units (spec_demand (rec_spec r)))
}.

Lemma array_of_field kvs k l : obj_find k (rev kvs) = Some (JArr l) -> array_field (jobject kvs) k = l.
Proof. intros E. unfold array_field. by rewrite jget_object, E. Qed.

(** The worker's view of a member. *)
Definition member_request (m : Z) (r : RequestRecord) : WorkRequest :=
  default_work_request
    <| wq_request_id := m |> <| wq_attempt_id := rec_current_attempt r |>
    <| wq_generation := rec_generation r |> <| wq_phase := spec_phase (rec_spec r) |>
    <| wq_model := spec_model (rec_spec r) |> <| wq_revision := spec_revision (rec_spec r) |>
    <| wq_adapter := 0 |>
    <| wq_tokens := default_tokens <| te_input := te_input (spec_tokens (rec_spec r)) |>
                                   <| te_output := te_output (spec_tokens (rec_spec r)) |> |>
    <| wq_cost_units := seen_cost r |> <| wq_payload := spec_payload (rec_spec r) |>.

#[local] Opaque num_u64 int_of i64_of.

Lemma member_arrives s m r :
  requests s !! m = Some r -> member_ok m r ->
  json_ok (jobject (member_fields s m)) /\
  member_work (jobject (member_fields s m)) = Some (member_request m r).
Proof.
  intros Hr [HI HC Hn]. rewrite !Forall_cons in HI. rewrite !Forall_cons in HC.
  destruct HI as (I1 & I2 & I3 & I4 & I5 & _), HC as (C1 & C2 & _).
  unfold member_fields, do_request_snapshot, do_request_spec. rewrite Hr. cbv beta iota.
  set (kvs := [_; _; _; _; _; _; _; _; _; _; _]).
  pose proof (phase_exact (spec_phase (rec_spec r))) as [P1 P2]. split.
  - apply json_ok_object. unfold kvs. repeat (apply Forall_cons; split; [split; [reflexivity|]|]); try apply Forall_nil_2;
      cbn [snd]; first [constructor; done | apply json_ok_int; assumption].
  - unfold member_work.
    rewrite (int_of_field kvs "phase" 1 (RequestPhase_int (spec_phase (rec_spec r))) eq_refl P2).
    assert (RequestPhase_of_int (RequestPhase_int (spec_phase (rec_spec r))) = Some (spec_phase (rec_spec r))) as ->
      by (by destruct (spec_phase (rec_spec r))). cbn [mbind option_bind].
    rewrite (num_u64_field kvs "req" 0 m eq_refl I1).
    rewrite (num_u64_field kvs "attempt" 0 (rec_current_attempt r) eq_refl I2).
    rewrite (num_u64_field kvs "gen" 0 (rec_generation r) eq_refl I3).
    rewrite (num_u64_field kvs "model" 0 (spec_model (rec_spec r)) eq_refl I4).
    rewrite (num_u64_field kvs "rev" 0 (spec_revision (rec_spec r)) eq_refl I5).
    rewrite (i64_of_field kvs "tin" 0 (te_input (spec_tokens (rec_spec r))) eq_refl C1).
    rewrite (i64_of_field kvs "tout" 0 (te_output (spec_tokens (rec_spec r))) eq_refl C2).
    unfold getnum, getstr. rewrite !jget_object. reflexivity.
Qed.

Lemma run_arrives s o :
  (forall m, m ∈ dout_batch_members o -> is_Some (requests s !! m) /\ member_ok m (request_of s m)) ->
  json_ok (run_message s o) /\
  mapM member_work (array_field (run_message s o) "members")
    = Some ((fun m => member_request m (request_of s m)) <$> dout_batch_members o).
Proof.
  intros HM.
  assert (forall m, m ∈ dout_batch_members o -> json_ok (jobject (member_fields s m)) /\
    member_work (jobject (member_fields s m)) = Some (member_request m (request_of s m))) as HA.
  { intros m Hm. destruct (HM m Hm) as [[r Hr] Ho]. apply member_arrives; [|done].
    unfold request_of. by rewrite Hr. }
  unfold run_message. set (ms := _ <$> _). split.
  - apply json_ok_object. repeat (apply Forall_cons; split; [split; [reflexivity|]|]); try apply Forall_nil_2;
      cbn [snd]; constructor. intros j (m & -> & Hm)%list_elem_of_fmap. by apply HA.
  - rewrite (array_of_field _ "members" ms) by reflexivity. apply mapM_each. intros m Hm. by apply HA.
Qed.

(** ** The completed message *)

Record result_sendable (r : WorkResult) : Prop := {
  rk_ids : Forall u64_ok [wres_request_id r; wres_attempt_id r; wres_generation r];
  rk_counts : Forall exact [wres_output_tokens_produced r; wres_work_units r; wres_duration_us r]
}.

(** The work whose results can be sent. *)
Record work_ok (q : WorkRequest) : Prop := {
  wk_ids : Forall u64_ok [wq_request_id q; wq_attempt_id q; wq_generation q];
  wk_counts : Forall exact [te_output (wq_tokens q); wq_cost_units q; 3 * wq_cost_units q]
}.

Lemma member_work_ok m r : member_ok m r -> work_ok (member_request m r).
Proof.
  intros [HI HC _]. rewrite !Forall_cons in HI. rewrite !Forall_cons in HC.
  destruct HI as (? & ? & ? & _), HC as (? & C2 & C3 & C4 & _).
  constructor; repeat (apply Forall_cons; split; [assumption|]); apply Forall_nil_2.
Qed.

Lemma run_batch_ok qs seen : Forall work_ok qs -> Forall result_sendable (result (run_batch qs) seen).
Proof.
  intros HQ. revert seen. induction HQ as [|q qs [HI HC] _ IH]; intros seen; [constructor|]. cbn [run_batch].
  rewrite !result_bind, result_ret. constructor; [|apply IH].
  rewrite !Forall_cons in HI. rewrite !Forall_cons in HC. destruct HI as (? & ? & ? & _), HC as (? & C2 & C3 & _).
  unfold run_one. rewrite result_bind, result_gets, exec_gets. cbv zeta.
  destruct (_ && _); rewrite ?result_bind, !result_ret; constructor;
    repeat (apply Forall_cons; split; [try assumption|]); try apply Forall_nil_2.
  all: cbn; unfold exact in *; rewrite ?i64_id; lia.
Qed.

(** The members that do not fail. *)
Definition runs_well (seen : gset Z) (payload : string) (m : Z) : Prop :=
  payload <> "fail_once"%string \/ m ∈ seen.

Lemma run_batch_succeeds qs seen r :
  r ∈ result (run_batch qs) seen -> exists q, q ∈ qs /\ result_key r = work_key q /\
    (runs_well seen (wq_payload q) (wq_request_id q) -> wres_status r = CS_Succeeded).
Proof.
  revert seen. induction qs as [|q qs IH]; intros seen; cbn [run_batch]; [set_solver|].
  rewrite !result_bind, result_ret. destruct (run_one_status q seen) as [Es Ee]. intros [->|Hr]%elem_of_cons.
  - exists q. split; [set_solver|]. split; [apply run_one_key|]. intros [Hp%String.eqb_neq|Hs]; rewrite Es.
    + by rewrite Hp.
    + by rewrite bool_decide_eq_true_2, andb_false_r.
  - destruct (IH _ Hr) as (q' & Hq & Hk & Hw). exists q'. split; [set_solver|]. split; [done|].
    intros [Hp|Hs]; apply Hw; [by left|right]. rewrite Ee. case_match; set_solver.
Qed.

Lemma CompletionStatus_exact st : exact (CompletionStatus_int st) /\ - 2 ^ 31 <= CompletionStatus_int st < 2 ^ 31.
Proof. unfold exact. destruct st; cbn; lia. Qed.
Lemma FailureClass_exact fc : exact (FailureClass_int fc) /\ - 2 ^ 31 <= FailureClass_int fc < 2 ^ 31.
Proof. unfold exact. destruct fc; cbn; lia. Qed.

Lemma result_arrives r :
  result_sendable r ->
  json_ok (jobject (result_fields r)) /\ result_of (jobject (result_fields r)) = result_key r /\
  read_result (jobject (result_fields r)) = Some (jobject (result_fields r), wres_status r, wres_failure_class r).
Proof.
  intros [HI HC]. rewrite !Forall_cons in HI. rewrite !Forall_cons in HC.
  destruct HI as (I1 & I2 & I3 & _), HC as (C1 & C2 & C3 & _).
  destruct (CompletionStatus_exact (wres_status r)) as [S1 S2]. destruct (FailureClass_exact (wres_failure_class r)) as [F1 F2].
  set (kvs := result_fields r). split_and!.
  - apply json_ok_object. unfold kvs, result_fields.
    repeat (apply Forall_cons; split; [split; [reflexivity|]|]); try apply Forall_nil_2;
      cbn [snd]; first [constructor; done | apply json_ok_int; assumption].
  - unfold result_of.
    rewrite (num_u64_field kvs "req" 0 (wres_request_id r) eq_refl I1).
    rewrite (num_u64_field kvs "attempt" 0 (wres_attempt_id r) eq_refl I2).
    by rewrite (num_u64_field kvs "gen" 0 (wres_generation r) eq_refl I3).
  - unfold read_result.
    rewrite (int_of_field kvs "status" 0 (CompletionStatus_int (wres_status r)) eq_refl S2).
    rewrite (int_of_field kvs "failure" 8 (FailureClass_int (wres_failure_class r)) eq_refl F2).
    by destruct (wres_status r), (wres_failure_class r).
Qed.

Lemma completed_arrives b u rs :
  Forall result_sendable rs ->
  let msg := completed_message b u rs in let jr := fun r => jobject (result_fields r) in
  json_ok msg /\ array_field msg "results" = jr <$> rs /\
  mapM read_result (array_field msg "results")
    = Some ((fun r => (jr r, wres_status r, wres_failure_class r)) <$> rs).
Proof.
  intros HR. cbv zeta. unfold completed_message. set (js := _ <$> rs).
  rewrite (array_of_field _ "results" js) by reflexivity. split_and!; [|done|].
  - apply json_ok_object. repeat (apply Forall_cons; split; [split; [reflexivity|]|]); try apply Forall_nil_2;
      cbn [snd]; constructor. intros j (r & -> & Hr)%list_elem_of_fmap. rewrite Forall_forall in HR.
    by apply result_arrives, HR.
  - apply mapM_each. intros r Hr. rewrite Forall_forall in HR. by apply result_arrives, HR.
Qed.

(** ** The coordinator's part *)

Lemma handle_one_dispatch req :
  getstr req "op" "" = "dispatch"%string ->
  handle_one req = handle_dispatch (num_u64 req "request_id" 0) (getbool req "explain" false).
Proof. intros E. unfold handle_one. cbv zeta. by rewrite E. Qed.

Lemma handle_dispatch_waiting rid ex c i run o :
  result (handle_dispatch rid ex) c = Waiting i run o ->
  let c1 := exec (handle_dispatch rid ex) c in
  result (Scheduler.plan_dispatch rid ex) (co_sched c) = Ok o /\ dout_decision o = DD_Dispatch /\
  co_by_worker c1 !! dout_worker_id o = Some i /\
  co_sched c1 = exec (Scheduler.plan_dispatch rid ex) (co_sched c) /\ run = run_message (co_sched c1) o.
Proof.
  cbv zeta. unfold handle_dispatch. rewrite result_bind, exec_bind, on_scheduler_result, on_scheduler_exec.
  destruct (result (Scheduler.plan_dispatch rid ex) (co_sched c)) as [out|e]; [|done].
  case_bool_decide as Hd; cbn [negb]; [|done]. rewrite result_bind, exec_bind. unfold find.
  rewrite result_gets, exec_gets. cbn [co_by_worker].
  change (co_by_worker (c <| co_sched := exec (Scheduler.plan_dispatch rid ex) (co_sched c) |>)) with (co_by_worker c).
  destruct (co_by_worker c !! dout_worker_id out) as [j|] eqn:Hj; [|done].
  rewrite !result_bind, !exec_bind, result_gets, exec_gets, result_ret, exec_ret, exec_modify.
  intros [= <- <- <-]. done.
Qed.

Lemma outcome_req id co : u64_ok id -> num_u64 (outcome_json id co) "req" 0 = id.
Proof. intros Hid. unfold outcome_json. by apply num_u64_field. Qed.

Lemma outcome_reason id co :
  getstr (outcome_json id co) "reason" "" = match co with Ok x => co_reason_code x | Err _ => "error"%string end.
Proof. unfold getstr, outcome_json. rewrite jget_object. by destruct co. Qed.

Lemma outcomes_named w boot avail l c :
  (forall x, x ∈ l -> u64_ok (num_u64 x.1.1 "req" 0)) ->
  (fun rj => num_u64 rj "req" 0) <$> result (complete_results w boot avail l) c
    = (fun x => num_u64 x.1.1 "req" 0) <$> l.
Proof.
  revert c. induction l as [|[[rj st] fc] l IH]; intros c HL; [done|]. cbn [complete_results].
  rewrite !result_bind, result_ret. cbn [fmap list_fmap]. f_equal.
  - unfold complete_result. rewrite !result_bind, result_ret, result_gets.
    apply outcome_req. apply (HL (rj, st, fc)). set_solver.
  - apply IH. intros x Hx. apply HL. set_solver.
Qed.

Lemma outcome_ok id co : json_ok (outcome_json id co).
Proof.
  apply json_ok_object. repeat (apply Forall_cons; split; [split; [reflexivity|]|]); try apply Forall_nil_2;
    cbn [snd]; first [constructor; done | apply json_ok_int].
  destruct co as [x|e]; [destruct (co_acceptance x)|]; cbn; lia.
Qed.

Lemma outcomes_ok w boot avail l c : forall rj, rj ∈ result (complete_results w boot avail l) c -> json_ok rj.
Proof.
  revert c. induction l as [|[[rj st] fc] l IH]; intros c rj0; [intros []%elem_of_nil|]. cbn [complete_results].
  rewrite !result_bind, result_ret. intros [->|Hin]%elem_of_cons; [|by eapply IH].
  unfold complete_result. rewrite !result_bind, result_ret. apply outcome_ok.
Qed.

Lemma complete_result_sched w boot avail x c :
  co_sched (exec (complete_result w boot avail x) c) =
  exec (Scheduler.complete_attempt (report_of (epoch (co_sched c)) w boot avail x.1.1 x.1.2 x.2)) (co_sched c).
Proof.
  destruct x as [[rj st] fc]. unfold complete_result.
  rewrite !exec_bind, result_gets, exec_gets, exec_ret, on_scheduler_exec. reflexivity.
Qed.

(** The requests a message does not name are left alone. *)
Lemma complete_results_other w boot avail l c j :
  j ∉ (fun x => num_u64 x.1.1 "req" 0) <$> l ->
  requests (co_sched (exec (complete_results w boot avail l) c)) !! j = requests (co_sched c) !! j.
Proof.
  revert c. induction l as [|x l IH]; intros c Hj; [done|]. apply not_elem_of_cons in Hj as [Hx Hj].
  cbn [complete_results]. rewrite !exec_bind, exec_ret, IH, complete_result_sched by done.
  by apply complete_elsewhere.
Qed.

(** An outcome passed on to the client says that a request is over only if it
    is. *)
Definition says_over (rj : Json) : bool := bool_decide (getstr rj "reason" "" ∈ final_reasons).

Lemma complete_result_value w boot avail x c :
  result (complete_result w boot avail x) c = outcome_json (num_u64 x.1.1 "req" 0)
    (result (Scheduler.complete_attempt (report_of (epoch (co_sched c)) w boot avail x.1.1 x.1.2 x.2)) (co_sched c)).
Proof.
  destruct x as [[rj st] fc]. unfold complete_result.
  rewrite !result_bind, result_ret, result_gets, on_scheduler_result, exec_gets. reflexivity.
Qed.

Lemma report_of_request ep w boot avail rj st fc :
  cr_request_id (report_of ep w boot avail rj st fc) = num_u64 rj "req" 0.
Proof. reflexivity. Qed.

Lemma complete_result_final w boot avail x c :
  (forall r, requests (co_sched c) !! num_u64 x.1.1 "req" 0 = Some r -> live r = true ->
     rec_cancellation_committed r = false) ->
  says_over (result (complete_result w boot avail x) c) = true ->
  terminal_at (co_sched (exec (complete_result w boot avail x) c)) (num_u64 x.1.1 "req" 0).
Proof.
  intros HC. unfold says_over. rewrite complete_result_value, complete_result_sched, outcome_reason.
  pose proof (report_of_request (epoch (co_sched c)) w boot avail x.1.1 x.1.2 x.2) as Eid.
  generalize dependent (report_of (epoch (co_sched c)) w boot avail x.1.1 x.1.2 x.2). intros rp Eid Hover.
  rewrite <- Eid in *. apply bool_decide_eq_true in Hover.
  destruct (result (Scheduler.complete_attempt rp) (co_sched c)) as [co|e] eqn:Er; [|exfalso; clear - Hover; set_solver].
  by apply (complete_final rp (co_sched c) co).
Qed.

Lemma outcomes_final w boot avail l c :
  NoDup ((fun x => num_u64 x.1.1 "req" 0) <$> l) ->
  (forall x, x ∈ l -> u64_ok (num_u64 x.1.1 "req" 0)) ->
  (forall x r, x ∈ l -> requests (co_sched c) !! num_u64 x.1.1 "req" 0 = Some r -> live r = true ->
     rec_cancellation_committed r = false) ->
  forall rj, rj ∈ result (complete_results w boot avail l) c -> says_over rj = true ->
  terminal_at (co_sched (exec (complete_results w boot avail l) c)) (num_u64 rj "req" 0).
Proof.
  revert c. induction l as [|x l IH]; intros c ND HU HC rj0; [intros []%elem_of_nil|].
  cbn [complete_results]. rewrite !result_bind, !exec_bind, result_ret, exec_ret. apply NoDup_cons in ND as [Hni ND].
  pose proof (complete_result_final w boot avail x c) as HF. pose proof (complete_result_value w boot avail x c) as HV.
  pose proof (complete_result_sched w boot avail x c) as HS.
  set (c1 := exec (complete_result w boot avail x) c) in *. intros [->|Hin]%elem_of_cons Hover.
  - destruct HF as (r & Hr & HT); [intros r; apply HC; set_solver|done|]. exists r. split; [|done].
    rewrite HV, outcome_req by (apply HU; set_solver). by rewrite complete_results_other.
  - apply IH; try done.
    + intros y Hy. apply HU. set_solver.
    + intros y r Hy. rewrite HS, complete_elsewhere; [apply HC; set_solver|]. rewrite report_of_request.
      intros Heq. apply Hni. rewrite <- Heq. by apply (list_elem_of_fmap_2 (fun x => num_u64 x.1.1 "req" 0)).
Qed.

(** ** The round trip *)

Section Round.
  Context (a : WorkerArgs) (seen : gset Z) (i : nat) (o : DispatchOutcome) (c : Coordinator) (slot : WorkerSlot).
Let s := co_sched c.
Let qs := (fun m => member_request m (request_of s m)) <$> dout_batch_members o.
Let rs := result (run_batch qs) seen.
Let done := completed_message (num_u64 (run_message s o) "batch_id" 0) (wa_units a) rs.

  (** The batch is reserved on the worker of the slot, and its members can be
      sent. *)
  Context (I : Inv s) (ND : NoDup (dout_batch_members o))
    (HR : forall m, m ∈ dout_batch_members o -> reserved_at s m)
    (HO : forall m, m ∈ dout_batch_members o -> member_ok m (request_of s m))
    (Hi : co_workers c !! i = Some slot) (Hb : boot_of s (slot_worker slot) = Some (slot_boot slot)).

Lemma round_results_ok : Forall result_sendable rs.
Proof.
  unfold rs. apply run_batch_ok. unfold qs. apply Forall_fmap, Forall_forall. intros m Hm.
  exact (member_work_ok m _ (HO m Hm)).
Qed.

Lemma round_message :
  (msg ← over_wire (run_message s o); d ← result (handle_run a msg) seen; over_wire d) = Some done.
Proof.
  destruct (run_arrives s o) as [Hj Hw].
  { intros m Hm. split; [|by apply HO]. destruct (HR m Hm) as (r & Hr & _). by exists r. }
  rewrite over_wire_ok by done. cbn [mbind option_bind]. unfold handle_run. rewrite Hw, result_bind, result_ret.
  cbn [mbind option_bind]. apply over_wire_ok. by apply (completed_arrives _ _ rs), round_results_ok.
Qed.

Lemma round_keys r : r ∈ rs -> exists m, m ∈ dout_batch_members o /\
  result_of (jobject (result_fields r)) = (m, rec_current_attempt (request_of s m), rec_generation (request_of s m)) /\
  (runs_well seen (spec_payload (rec_spec (request_of s m))) m -> wres_status r = CS_Succeeded).
Proof.
  intros Hr. pose proof round_results_ok as Hok. rewrite Forall_forall in Hok.
  destruct (result_arrives r (Hok r Hr)) as (_ & -> & _).
  apply run_batch_succeeds in Hr as (q & (m & -> & Hm)%list_elem_of_fmap & Hk & Hw). by exists m.
Qed.

Lemma round_ids : (fun r => num_u64 (jobject (result_fields r)) "req" 0) <$> rs = dout_batch_members o.
Proof.
  pose proof round_results_ok as Hok. transitivity ((fun k => k.1.1) <$> (result_key <$> rs)).
  - rewrite <- list_fmap_compose. apply list_fmap_ext. intros k r Hr%list_elem_of_lookup_2. cbn.
    rewrite Forall_forall in Hok. destruct (result_arrives _ (Hok r Hr)) as (_ & E & _).
    exact (f_equal (fun k => k.1.1) E).
  - etrans; [exact (f_equal (fmap (M:=list) (fun k => k.1.1)) (ex_answers qs seen))|].
    unfold qs. rewrite <- !list_fmap_compose. apply list_fmap_id.
Qed.

Lemma round_guard : completed_guard c i done.
Proof.
  intros slot' Hs. rewrite Hi in Hs. injection Hs as <-.
  destruct (completed_arrives (num_u64 (run_message s o) "batch_id" 0) (wa_units a) rs round_results_ok) as (_ & Ea & _).
  fold done in Ea. rewrite Ea. split.
  { rewrite <- list_fmap_compose. change (NoDup ((fun r => num_u64 (jobject (result_fields r)) "req" 0) <$> rs)).
    by rewrite round_ids. }
  intros rj (r & -> & Hr)%list_elem_of_fmap. destruct (round_keys r Hr) as (m & Hm & -> & _).
  by apply reserved_held, HR.
Qed.

Lemma co_sched_workers (c0 : Coordinator) f : co_sched (c0 <| co_workers ::= f |>) = co_sched c0.
Proof. reflexivity. Qed.

(** What a message is answered with: for each member its outcome, which says it
    is over only if it is, and which finishes it when the worker ran it well; the
    outcomes can be sent. *)
Definition answered (seen : gset Z) (s s' : Impl) (members : list Z) (outs : list Json) : Prop :=
  (fun rj => num_u64 rj "req" 0) <$> outs = members /\ (forall rj, rj ∈ outs -> json_ok rj) /\
  (forall rj, rj ∈ outs -> says_over rj = true -> terminal_at s' (num_u64 rj "req" 0)) /\
  forall m, m ∈ members -> runs_well seen (spec_payload (rec_spec (request_of s m))) m -> finished s' m.

Lemma round_open r : r ∈ rs -> open_at (result_of (jobject (result_fields r))) s.
Proof.
  intros Hr. destruct (round_keys r Hr) as (m & Hm & -> & _). destruct (HR m Hm) as (r0 & Hr0 & Hst).
  unfold request_of. rewrite Hr0. by apply reserved_open.
Qed.

Lemma round_answers :
  result (on_completed i done) c = true /\
  exists b outs, slot_result <$> co_workers (exec (on_completed i done) c) !! i = Some (dispatch_done b outs) /\
    answered seen s (co_sched (exec (on_completed i done) c)) (dout_batch_members o) outs.
Proof.
  destruct (completed_arrives (num_u64 (run_message s o) "batch_id" 0) (wa_units a) rs round_results_ok) as (_ & Ea & Er).
  fold done in Ea, Er. set (xs := _ <$> rs) in Er.
  assert ((fun x => num_u64 x.1.1 "req" 0) <$> xs = dout_batch_members o) as Hids
    by (unfold xs; rewrite <- list_fmap_compose; exact round_ids).
  destruct (on_completed_rounds i done c slot xs Hi Er) as [-> ->]. cbv zeta.
  set (w := slot_worker slot) in *. set (boot := slot_boot slot) in *. set (avail := i32 _).
  destruct (starts_round co_sched _ w (array_field done "results") c (confirm_result_starts w boot avail) I)
    as (R1 & [_ B1] & _ & O1).
  destruct (confirm_results_state w boot avail (array_field done "results") c) as (s1 & E1 & _).
  set (c1 := exec (foreach _ _) c) in *. assert (Inv (co_sched c1)) as I1 by (by eapply runs_Inv).
  destruct (complete_turns_state w boot avail xs c1) as (s2 & E2 & _).
  destruct (completes_finishes co_sched _ _ _ _ _ xs c1 (complete_turn_completes w boot avail)) as [HF _].
  { by apply B1. }
  { change (NoDup ((fun x => num_u64 x.1.1 "req" 0) <$> xs)). by rewrite Hids. }
  { intros x (r & -> & Hr)%list_elem_of_fmap _. apply O1. by apply round_open. }
  pose proof (outcomes_final w boot avail xs c1) as HT. rewrite complete_results_loop in HT.
  pose proof (outcomes_named w boot avail xs c1) as HN.
  assert (forall x, x ∈ xs -> u64_ok (num_u64 x.1.1 "req" 0)) as HU.
  { intros x Hx. apply (list_elem_of_fmap_2 (fun x => num_u64 x.1.1 "req" 0)) in Hx. rewrite Hids in Hx.
    exact (Forall_inv (mo_ids _ _ (HO _ Hx))). }
  split; [done|]. eexists _, _. split.
  { assert (co_workers (exec (foreach xs (complete_turn w boot avail)) c1) !! i = Some slot) as Hi2 by (by rewrite E2, E1).
    simpl. rewrite list_lookup_alter_eq, Hi2. reflexivity. }
  rewrite co_sched_workers. split_and!.
  - by rewrite HN, Hids.
  - apply outcomes_ok.
  - apply HT; [by rewrite Hids|done|]. intros x r _ Hr. apply (ro_cancelled _ _ (i_records _ I1 _ _ Hr)).
  - intros m Hm Hw. rewrite <- round_ids in Hm. apply list_elem_of_fmap in Hm as (r & -> & Hr).
    destruct (round_keys r Hr) as (m & _ & Ek & Hst). pose proof (f_equal (fun k => k.1.1) Ek) as Em. cbn [fst] in Em.
    unfold result_of in Em. cbn [fst] in Em. rewrite Em in Hw.
    apply (HF (jobject (result_fields r), wres_status r, wres_failure_class r)); [|by apply Hst].
    by apply (list_elem_of_fmap_2 (fun r => (jobject (result_fields r), wres_status r, wres_failure_class r))).
Qed.

End Round.

(** The coordinator after the round. *)
Lemma round_of_dispatch cf ep salt c req i run o a seen :
  co_reachable cf ep salt c -> getstr req "op" "" = "dispatch"%string ->
  result (handle_one req) c = Waiting i run o ->
  let c1 := exec (handle_one req) c in
  (forall m, m ∈ dout_batch_members o -> member_ok m (request_of (co_sched c1) m)) ->
  dout_batch_members o <> [] /\ exists b outs,
    result (worker_round a seen i run) c1 = Some (dispatch_done b outs) /\
    let c2 := exec (worker_round a seen i run) c1 in
    co_reachable cf ep salt c2 /\ Scheduler.runs (co_sched c) (co_sched c2) /\
    answered seen (co_sched c1) (co_sched c2) (dout_batch_members o) outs.
Proof.
  cbv zeta. intros Rc Eop Ew HO.
  assert (client_guard (co_sched c) req) as G0 by (by split; rewrite Eop).
  pose proof (handle_one_serves req c G0) as [V1 _].
  assert (co_reachable cf ep salt (exec (handle_one req) c)) as R1.
  { pose proof (co_step _ _ _ c (FromClient req) Rc) as St. cbn [co_handle] in St. rewrite exec_bind, exec_ret in St.
    by apply St. }
  pose proof (reachable_Inv _ _ _ _ (proj1 (co_reachable_ok _ _ _ _ Rc))) as I.
  destruct (co_reachable_ok _ _ _ _ R1) as [I1%reachable_Inv S1].
  rewrite (handle_one_dispatch req Eop) in *. set (rid := num_u64 req _ _) in *. set (ex := getbool req _ _) in *.
  destruct (handle_dispatch_waiting rid ex c i run o Ew) as (Ep & Hd & Hf & Es & ->).
  destruct (plan_dispatch_reserved rid ex (co_sched c) o I Ep Hd) as (ND & Hne & HR). rewrite <- Es in HR.
  set (c1 := exec (handle_dispatch rid ex) c) in *. split; [done|].
  destruct (S1 _ _ Hf) as (slot & Hi & Hw & Hb). rewrite <- Hw in Hb.
  unfold worker_round. rewrite (round_message a seen o c1 HR HO).
  destruct (round_answers a seen i o c1 slot I1 ND HR HO Hi Hb) as (Ht & b & outs & Hs & HA).
  pose proof (round_guard a seen i o c1 slot I1 ND HR HO Hi) as HG.
  set (msg := completed_message _ _ _) in *.
  exists b, outs. rewrite !result_bind, !exec_bind, !result_ret, !exec_ret, !result_gets, !exec_gets, Ht, Hs.
  pose proof (on_completed_serves i msg c1 I1 HG) as [V2 _].
  split_and!; [done| |by etrans|exact HA].
  pose proof (co_step _ _ _ c1 (FromWorker i msg) R1 HG) as St. cbn [co_handle] in St. by rewrite exec_bind, exec_ret in St.
Qed.

End Cluster.

(** C7: A dispatch goes all the way.  When the coordinator answers a client's
    [dispatch] by sending a batch to a worker, then with the worker's answer
    back (both messages printed, sent as text and parsed again), the client is
    told the outcome of every member of the batch, in order.  An outcome that
    says a request is over is true in the scheduler; every member the worker
    ran well is completed, or cancelled if that had been requested; and the
    coordinator's state is again one that its messages reach.  The members'
    numbers have to be ones that messages carry without loss. *)
Theorem dispatches_are_run_to_the_end `{Env} cf ep salt (c : Coordinator) (req : Json) i run o
    (a : WorkerArgs) (seen : gset Z) :
  co_reachable cf ep salt c -> getstr req "op" "" = "dispatch"%string ->
  result (handle_one req) c = Waiting i run o ->
  let s1 := co_sched (exec (handle_one req) c) in
  (forall m, m ∈ dout_batch_members o -> member_ok m (request_of s1 m)) ->
  dout_batch_members o <> [] /\ exists ack,
    result (respond (worker_round a seen) req) c = Some (Some ack) /\
    getstr ack "reason" "" = "dispatched"%string /\
    let c' := exec (respond (worker_round a seen) req) c in
    co_reachable cf ep salt c' /\
    answered seen s1 (co_sched c') (dout_batch_members o) (array_field ack "members").
Proof.
  cbv zeta. intros Rc Eop Ew HO.
  destruct (round_of_dispatch cf ep salt c req i run o a seen Rc Eop Ew HO) as (Hne & b & outs & Hr & R2 & _ & HA).
  split; [done|]. unfold respond.
  rewrite !result_bind, !exec_bind, Ew, !result_bind, !exec_bind, Hr, result_ret, exec_ret.
  eexists. split; [reflexivity|]. split_and!; [unfold getstr, dispatch_ack; by rewrite jget_object|done|].
  unfold dispatch_ack, dispatch_done. rewrite (jget_object _ "results"), (array_of_field _ "members" outs) by reflexivity.
  exact HA.
Qed.

(** The client asks for the first of its two requests; both go as one batch. *)
Definition demo_dispatch : Json :=
  jobject [("op", JStr "dispatch"); ("request_id", id_json (submit_id demo_idle None))]%string.
Definition demo_waiting : Answer := result (handle_one demo_dispatch) demo_coordinator.
Definition demo_batch : DispatchOutcome :=
  match demo_waiting with Waiting _ _ o => o | _ => default_dispatch_outcome end.
Definition demo_run : Json := match demo_waiting with Waiting _ run _ => run | _ => JNull end.

Example demo_batch_members : length (dout_batch_members demo_batch) = 2%nat.
Proof. by vm_compute. Qed.

Lemma dispatches_are_run_to_the_end_witness :
  dout_batch_members demo_batch <> [] /\ exists ack,
    result (respond (worker_round demo_args ∅) demo_dispatch) demo_coordinator = Some (Some ack) /\
    getstr ack "reason" "" = "dispatched"%string /\
    let c' := exec (respond (worker_round demo_args ∅) demo_dispatch) demo_coordinator in
    co_reachable default_scheduler_config None 5 c' /\
    answered ∅ (co_sched (exec (handle_one demo_dispatch) demo_coordinator)) (co_sched c')
      (dout_batch_members demo_batch) (array_field ack "members").
Proof.
  apply (dispatches_are_run_to_the_end default_scheduler_config None 5 demo_coordinator demo_dispatch 0 demo_run
    demo_batch demo_args ∅ demo_coordinator_reachable).
  - by vm_compute.
  - by vm_compute.
  - intros m Hm. set (l := dout_batch_members demo_batch) in Hm. vm_compute in l. subst l.
    apply elem_of_cons in Hm as [->|[->|[]%elem_of_nil]%elem_of_cons].
    all: split; [repeat constructor; by vm_compute|repeat constructor; by vm_compute|split_and!; by vm_compute].
Defined.
