(* ===== verification/Carried.v ===== *)
(** * Identifiers stay in range

    The identifiers of requests, attempts and generations are 64-bit words and
    stay so, whatever dispatches, starts and completions do: the factory issues
    no others.  Messages can carry them. *)

From S2P Require Import Prelude Enums Ids Float64 Types State Admission Queue Batch Dispatch Completion Control Api.
Open Scope Z_scope.

(** The identifiers of a record. *)
Definition ids_in_range (id : Z) (r : RequestRecord) : Prop :=
  Forall (fun v => 0 <= v < 2 ^ 64) [id; rec_current_attempt r; rec_generation r].

(** Every request has identifiers in range and a specification that [P]. *)
Definition carried (P : RequestSpec -> Prop) (s : Impl) : Prop :=
  map_Forall (fun id r => ids_in_range id r /\ P (rec_spec r)) (requests s).

Lemma id_next_range f : 0 <= (id_next f).1 < 2 ^ 64.
Proof.
  cbn. unfold id_value. pose proof (u64_range (Z.shiftl (idf_salt f) 32)) as H1.
  pose proof (u64_range (idf_counter f + 1)) as H2. split; [apply Z.lor_nonneg; lia|].
  assert (forall x, 0 <= x < 2 ^ 64 -> Z.log2 x < 64) as Hl.
  { intros x Hx. destruct (decide (x = 0)) as [->|]; [by vm_compute|]. apply Z.log2_lt_pow2; lia. }
  destruct (decide (Z.lor (u64 (Z.shiftl (idf_salt f) 32)) (u64 (idf_counter f + 1)) = 0)) as [->|Hne]; [lia|].
  pose proof (proj2 (Z.lor_nonneg (u64 (Z.shiftl (idf_salt f) 32)) (u64 (idf_counter f + 1))) ltac:(lia)).
  apply Z.log2_lt_pow2; [lia|]. rewrite Z.log2_lor by lia. apply Z.max_lub_lt; by apply Hl.
Qed.

(** ** The walk *)

Lemma carried_alter P s id f :
  (forall r, rec_current_attempt (f r) = rec_current_attempt r /\ rec_generation (f r) = rec_generation r /\
     rec_spec (f r) = rec_spec r) ->
  keeps (carried P) s (s <| requests ::= alter f id |>).
Proof.
  intros Hf Hs i r. simpl. rewrite lookup_alter. case_decide as E; [subst i|by apply Hs].
  destruct (requests s !! id) as [x|] eqn:Hx; [|done]. intros [= <-]. unfold ids_in_range.
  destruct (Hf x) as (-> & -> & ->). exact (Hs id x Hx).
Qed.

Lemma carried_same P s s' : requests s' = requests s -> keeps (carried P) s s'.
Proof. intros E. unfold keeps, carried. by rewrite E. Qed.

Ltac carried_base :=
  first [ apply carried_same; reflexivity | apply carried_alter; intros; split_and!; reflexivity
        | apply carried_same; repeat case_match; reflexivity ].

Section Carried.
  Context `{Env} (P : RequestSpec -> Prop).

(** Past the issue of an identifier. *)
Lemma next_id_carried {A} (k : Z -> M A) s :
  (forall v s, 0 <= v < 2 ^ 64 -> steps (keeps (carried P)) s (k v)) -> steps (keeps (carried P)) s (next_id ≫= k).
Proof.
  intros Hk. apply steps_bind; [exact _|by apply carried_same|]. apply Hk.
  change (result next_id s) with (id_next (ids s)).1. apply id_next_range.
Qed.

Lemma retry_carried id gen att s h :
  0 <= gen < 2 ^ 64 -> 0 <= att < 2 ^ 64 ->
  keeps (carried P) s (s <| requests ::= alter (fun r => r <| rec_generation := gen |> <| rec_current_attempt := att |>
    <| rec_history ::= h |>) id |>).
Proof.
  intros Hg Ha Hs i r. simpl. rewrite lookup_alter. case_decide as E; [subst i|by apply Hs].
  destruct (requests s !! id) as [x|] eqn:Hx; [|done]. intros [= <-]. unfold ids_in_range.
  destruct (Hs id x Hx) as [Hi Hp]. split; [|exact Hp].
  constructor; [exact (Forall_inv Hi)|]. repeat constructor; cbn; lia.
Qed.

Lemma make_retry_carried id rp s : steps (keeps (carried P)) s (make_retry id rp).
Proof.
  unfold make_retry, release_batch_member, release_batch, release_running, enqueue_request, emit_event, put_flow, tenant_of, modify_rec,
    modify_stats, modify_tenant, modify_worker, clock_now.
  repeat first [ apply next_id_carried; intros ?? ? | mstep ].
  all: try carried_base. by apply retry_carried.
Qed.
#[local] Hint Resolve make_retry_carried : frame.

Lemma settle_carried id rp now s : steps (keeps (carried P)) s (settle id rp now).
Proof.
  unfold settle, finish_success, finish_failed, finish_cancelled, complete_expired, bump_stale, release_batch_member, release_batch,
    release_running, release_admitted, dequeue_request, emit_event, tenant_of, modify_rec, modify_stats, modify_tenant, modify_worker, clock_now.
  mwalk carried_base.
Qed.
#[local] Hint Resolve settle_carried : frame.

Lemma flushed_carried {A} (m : M A) s : steps (keeps (carried P)) s m -> steps (keeps (carried P)) s (Scheduler.flushed m).
Proof.
  intros Hm. unfold Scheduler.flushed, flush_events. apply steps_bind; [exact _|exact Hm|]. mwalk carried_base.
Qed.

Lemma complete_carried rp s : steps (keeps (carried P)) s (Scheduler.complete_attempt rp).
Proof. apply flushed_carried. unfold do_complete, bump_stale, modify_stats, clock_now. mwalk carried_base. Qed.

Lemma start_carried rp s : steps (keeps (carried P)) s (Scheduler.confirm_dispatch_start rp).
Proof.
  apply flushed_carried. unfold do_confirm_start, start_batch, emit_event, tenant_of, modify_rec, modify_worker,
    modify_tenant, modify_stats, clock_now. mwalk carried_base.
Qed.

Lemma expire_request_carried id s : steps (keeps (carried P)) s (expire_request id).
Proof.
  unfold expire_request, dequeue_request, release_admitted, emit_event, tenant_of, modify_rec, modify_stats,
    modify_tenant, clock_now. mwalk carried_base.
Qed.
#[local] Hint Resolve expire_request_carried : frame.

Lemma reserve_member_carried w bid now id s : steps (keeps (carried P)) s (reserve_member w bid now id).
Proof.
  unfold reserve_member, account_flow, dequeue_request, emit_event, put_flow, tenant_of, modify_rec, modify_tenant, clock_now.
  mwalk carried_base.
Qed.
#[local] Hint Resolve reserve_member_carried : frame.

Lemma plan_carried id ex s : steps (keeps (carried P)) s (Scheduler.plan_dispatch id ex).
Proof.
  apply flushed_carried. unfold do_plan_dispatch, expire_scan, reserve_on, worker_slot, emit_event, next_id, modify_rec,
    modify_stats, modify_worker, clock_now. mwalk carried_base.
Qed.

End Carried.
