(* ===== verification/Client.v ===== *)
(** * The client process

    [src/client_app.cpp]: a client that waits for the workers, submits its
    requests, cancels one, dispatches the others in rounds until they are over
    and checks the statistics; and the extended scenario with reports under
    stale authority.  A client works on a [Channel], one message with its
    answer; [send_wait] is the channel of a framed connection.

    What is printed, the sleeps between polls and, in the extended scenario, the
    two files by which it is told to go on are left out: nothing a client does
    depends on them. *)

From S2P Require Import Prelude Enums Ids Float64 Types State Bytes Envelope Net Decimal Json JsonSpec Protocol ProtocolSpec Worker Coordinator.
Open Scope Z_scope.

(** ** Calls *)

(** [None]: the call does not return. *)
Class Channel (S : Type) := call : Json -> ST S (option Json).

Definition obind {S A B} (m : ST S (option A)) (k : A -> ST S (option B)) : ST S (option B) :=
  o ← m; match o with Some a => k a | None => mret None end.
Notation "x ←? m ; k" := (obind m (fun x => k)) (at level 20, m at level 100, k at level 200, right associativity).

Lemma obind_run {S A B} (m : ST S (option A)) (k : A -> ST S (option B)) s a s' :
  m s = (Some a, s') -> obind m k s = k a s'.
Proof. intros E. unfold obind. by rewrite run_bind, E. Qed.

Definition send_wait {K} `{!Socket K} (c : option FramedConnection) (req : Json) : ST K (option Json) :=
  ok ←? send_json c req;
  if ok : bool then recv_json c else mret (Some JNull).

(** ** The steps of the client *)

Section Client.
  Context `{Env} {S : Type} `{!Channel S}.

Definition op_message (op : string) (kvs : list (string * Json)) : Json := jobject (("op"%string, JStr op) :: kvs).

(** Poll until [need] workers are there, [n] times at most. *)
Fixpoint wait_ready (n : nat) (need : f64) : ST S (option unit) :=
  match n with
  | O => mret (Some tt)
  | Datatypes.S n' =>
      ack ←? call (op_message "ready" []);
      if is_obj ack && fleb need (getnum ack "workers" fzero) then mret (Some tt) else wait_ready n' need
  end.

(** The decision and the id of a submission. *)
Definition submit_request (sp : RequestSpec) : ST S (option (Z * Z)) :=
  ack ←? call (submit_message sp);
  mret (Some (int_of ack "decision" 2, num_u64 ack "request_id" 0)).

(** Submissions of the same specification; the ids of the admitted ones. *)
Fixpoint submit_times (n : nat) (sp : RequestSpec) : ST S (option (list Z)) :=
  match n with
  | O => mret (Some [])
  | Datatypes.S n' =>
      d ←? submit_request sp;
      ids ←? submit_times n' sp;
      mret (Some (if d.1 =? 0 then d.2 :: ids else ids))
  end.

(** *** Rounds of dispatches *)

Definition over (rj : Json) : bool :=
  let reason := getstr rj "reason" "" in
  String.eqb reason "success" || String.eqb reason "failed" || String.eqb reason "expired"
    || String.eqb reason "cancelled".

(** What a round has found: requests to dispatch again, requests that are over. *)
Record Round := mkRound { rd_next : list Z; rd_done : gset Z }.

Definition note_member (rd : Round) (m : Json) : Round :=
  let req := num_u64 m "req" 0 in
  if over m then mkRound (rd_next rd) ({[req]} ∪ rd_done rd) else mkRound (rd_next rd ++ [req]) (rd_done rd).

Definition dispatch_message (explain : bool) (id : Z) : Json :=
  op_message "dispatch" (("request_id"%string, id_json id) ::
    (if explain then [("explain"%string, JBool true)] else [])).

Definition dispatch_request (explain : bool) (id : Z) (rd : Round) : ST S (option Round) :=
  ack ←? call (dispatch_message explain id);
  mret (Some (if int_of ack "decision" 1 =? 0
              then fold_left note_member (array_field ack "members") rd
              else mkRound (rd_next rd ++ [id]) (rd_done rd))).

Fixpoint dispatch_round (explain : bool) (pending : list Z) (rd : Round) : ST S (option Round) :=
  match pending with
  | [] => mret (Some rd)
  | id :: l => rd' ←? dispatch_request explain id rd; dispatch_round explain l rd'
  end.

(** The loop of [main] on its pending requests and the set of admitted requests
    not yet known to be over; [fuel] is the number of rounds left. *)
Fixpoint dispatch_loop (fuel : nat) (pending : list Z) (admitted : gset Z) : ST S (option (list Z * gset Z)) :=
  match fuel, pending with
  | O, _ | _, [] => mret (Some (pending, admitted))
  | Datatypes.S fuel', _ :: _ =>
      rd ←? dispatch_round true pending (mkRound [] ∅);
      let admitted' := admitted ∖ rd_done rd in
      let pending' := List.filter (fun x => bool_decide (x ∈ admitted')) (rd_next rd) in
      if bool_decide (rd_done rd = ∅) && bool_decide (rd_next rd = []) then mret (Some (pending', admitted'))
      else dispatch_loop fuel' pending' admitted'
  end.

Definition max_rounds : nat := 100.

(** ** The first scenario *)

Definition model_spec (tenant model : Z) (ph : RequestPhase) (lc : LatencyClass) (tin tout cost : Z)
    (name : string) : RequestSpec :=
  default_spec <| spec_tenant := tenant |> <| spec_model := model |> <| spec_revision := 1 |>
    <| spec_phase := ph |> <| spec_latency_class := lc |>
    <| spec_tokens := default_tokens <| te_input := tin |> <| te_output := tout |> |>
    <| spec_demand := default_demand <| rd_cost_units := f64_of_Z cost |> |> <| spec_model_name := name |>.

Definition m10a : RequestSpec := model_spec 1 10 RP_Prefill LC_Standard 32 16 1 "model-a".
Definition m20a : RequestSpec := model_spec 2 20 RP_Decode LC_Interactive 8 64 1 "model-b".
Definition m30a : RequestSpec := model_spec 3 30 RP_Prefill LC_Throughput 64 8 2 "model-c".
Definition fr : RequestSpec := m10a <| spec_payload := "fail_once" |> <| spec_model_name := "failonce" |>.

(** The count [g_fail] of failed checks; 0 is a pass. *)
Definition failed (b : bool) : Z := if b then 0 else 1.

(** The checks on the statistics. *)
Definition check_stats (st : Json) (total : Z) : Z :=
  let completed := getnum st "completed" (f64_of_Z (-1)) in
  let cancelled := getnum st "cancelled" fzero in
  failed (feqb (getnum st "current_queued" (f64_of_Z (-1))) fzero
          && feqb (getnum st "current_running" (f64_of_Z (-1))) fzero)
  + failed (fleb fone cancelled)
  + failed (fleb (f64_of_Z total) (fadd completed cancelled)).

(** Everything after the connection; the count of failed checks. *)
Definition client_main : ST S (option Z) :=
  _ ←? wait_ready 200 (f64_of_Z 2);
  a ←? submit_times 4 m10a;
  b ←? submit_times 4 m20a;
  c ←? submit_times 4 m30a;
  f ←? submit_times 1 fr;
  d ←? submit_request m20a;
  cack ←? call (op_message "cancel" [("request_id"%string, id_json d.2)]);
  let pending := a ++ b ++ c ++ f in
  let admitted : gset Z := list_to_set pending ∪ (if d.1 =? 0 then {[d.2]} else ∅) in
  _ ←? dispatch_loop max_rounds pending admitted;
  st ←? call (op_message "stats" []);
  _ ←? call (op_message "shutdown" []);
  mret (Some (failed (getbool cack "ok" false) + check_stats st (i32 (Z.of_nat (size admitted))))).

(** ** The extended scenario *)

(** Its dispatch loop keeps no set of admitted requests. *)
Fixpoint extended_loop (fuel : nat) (pending : list Z) (done : gset Z) : ST S (option (list Z * gset Z)) :=
  match fuel, pending with
  | O, _ | _, [] => mret (Some (pending, done))
  | Datatypes.S fuel', _ :: _ =>
      rd ←? dispatch_round false pending (mkRound [] ∅);
      if bool_decide (rd_done rd = ∅) && bool_decide (rd_next rd = []) then mret (Some (rd_next rd, done ∪ rd_done rd))
      else extended_loop fuel' (rd_next rd) (done ∪ rd_done rd)
  end.

Definition Ss : RequestSpec :=
  m10a <| spec_model := 40 |> <| spec_model_name := "resume" |> <| spec_payload := "resume" |>.

(** Up to the file that tells the resume id: the id, or none when the request
    was not admitted (exit status 1). *)
Definition extended_first : ST S (option (option Z)) :=
  _ ←? wait_ready 200 (f64_of_Z 2);
  a ←? submit_times 4 m10a;
  b ←? submit_times 4 m20a;
  c ←? submit_times 4 m30a;
  d ←? submit_request Ss;
  if d.1 =? 0 then _ ←? extended_loop max_rounds (a ++ b ++ c) ∅; mret (Some (Some d.2))
  else mret (Some None).

Definition complete_message (ep wid boot req attempt gen : Z) : Json :=
  op_message "complete" [ ("epoch", id_json ep); ("worker", id_json wid); ("boot", id_json boot);
    ("request", id_json req); ("attempt", id_json attempt); ("generation", id_json gen);
    ("status", int_json 0); ("units", int_json 8) ]%string.

Definition check_acceptance (ack : Json) (a : CompletionAcceptance) : Z :=
  failed (is_obj ack && (int_of ack "acceptance" (-1) =? CompletionAcceptance_int a)).

Definition resumed (ack : Json) : bool :=
  is_obj ack && (int_of ack "decision" (-1) =? 0)
  && existsb (fun m => String.eqb (getstr m "reason" "") "success") (array_field ack "members").

Definition field_or (j : Json) (k : string) (dflt : Z) : Z := if is_obj j then num_u64 j k dflt else dflt.

Definition check_extended (st : Json) : Z :=
  failed (negb (fltb (getnum st "stale_rejected" fzero) (f64_of_Z 3)))
  + failed (negb (fltb (getnum st "completed" fzero) (f64_of_Z 13)))
  + failed (feqb (getnum st "current_queued" fzero) fzero && feqb (getnum st "current_running" fzero) fzero).

(** From the wait for the third worker on; the count of failed checks. *)
Definition extended_second (S_id : Z) : ST S (option Z) :=
  _ ←? wait_ready 200 (f64_of_Z 3);
  ri ←? call (op_message "request_info" [("request_id"%string, id_json S_id)]);
  let att := field_or ri "attempt" 0 in
  let gen := field_or ri "generation" 0 in
  re ←? call (op_message "roll_epoch" []);
  let cur := field_or re "epoch" 2 in
  a1 ←? call (complete_message (u64 (cur - 1)) 11 1001 S_id att gen);
  a2 ←? call (complete_message cur 11 1001 S_id att gen);
  a3 ←? call (complete_message cur 11 9999 S_id att (u64 (gen + 1)));
  dack ←? call (dispatch_message false S_id);
  st ←? call (op_message "stats" []);
  _ ←? call (op_message "shutdown" []);
  mret (Some (check_acceptance a1 CA_StaleEpoch + check_acceptance a2 CA_StaleWorker
    + check_acceptance a3 CA_StaleAttempt + failed (resumed dack) + check_extended st)).

End Client.
