(* ===== verification/Programs.v ===== *)
(** * The entry points of the distributed programs

    [main] of [src/coordinator_app.cpp], [src/worker_app.cpp] and
    [src/client_app.cpp]: the arguments, the connection and the exit status.
    The command line starts the first two with [std::system]; here its command
    is what the program reads. *)

From S2P Require Import Prelude Enums Ids Float64 Types State Bytes Envelope Net Decimal Json JsonSpec Protocol Worker Coordinator Client Cli.
Open Scope Z_scope.

(** ** Arguments *)

(** Host, port and the rest; [None] where the usage is printed. *)
Definition worker_args (argv : list string) : option (string * Z * WorkerArgs) :=
  match argv with
  | _ :: h :: p :: wid :: bid :: units :: backend :: rest =>
      Some (h, atoi (string_bytes p),
            mkWorkerArgs (strtoull (string_bytes wid)) (strtoull (string_bytes bid)) (atoi (string_bytes units)) backend (head rest))
  | _ => None
  end.

Definition coordinator_args (argv : list string) : option (string * Z * Z) :=
  match argv with
  | _ :: h :: p :: min_workers :: _ => Some (h, atoi (string_bytes p), atoi (string_bytes min_workers))
  | _ => None
  end.

(** The directory of the extended scenario, if it is asked for. *)
Definition client_args (argv : list string) : option (string * Z * option string) :=
  match argv with
  | _ :: h :: p :: rest =>
      Some (h, atoi (string_bytes p),
            match rest with
            | m :: rest' => if String.eqb m "extended" then Some (default "scratch"%string (head rest')) else None
            | [] => None
            end)
  | _ => None
  end.

(** ** Processes *)

(** [!conn || !conn->valid()]. *)
Definition connected (c : option FramedConnection) : option FramedConnection :=
  match c with Some c => if conn_valid c then Some c else None | None => None end.

Section Processes.
  Context `{Env}.

(** The exit status of the worker on the connection that [connect] gave;
    [None]: it does not end within the fuel, or a message is outside the
    model. *)
Definition worker_program {K} `{!Socket K} (fuel : nat) (connect : string -> Z -> option FramedConnection) (argv : list string)
    : ST (K * gset Z) (option Z) :=
  match worker_args argv with
  | None => mret (Some 2)
  | Some (host, port, a) =>
      match connected (connect host port) with
      | None => mret (Some 1)
      | Some c =>
          e ← worker_main fuel a c;
          mret match e with Finished => Some 0 | NotRegistered => Some 1 | OutOfFuel | Unmodelled => None end
      end
  end.

(** The exit status of the client; [proceed] is what happens around it while the
    extended scenario waits for the file that lets it go on. *)
Definition client_program {S} `{!Channel S} (connect : string -> Z -> bool) (proceed : string -> ST S unit) (argv : list string)
    : ST S (option Z) :=
  match client_args argv with
  | None => mret (Some 2)
  | Some (host, port, extended) =>
      if negb (connect host port) then mret (Some 1) else
      match extended with
      | Some scratch =>
          r ←? extended_first;
          match r with
          | None => mret (Some 1)
          | Some id => proceed scratch ;; fails ←? extended_second id; mret (Some (if fails =? 0 then 0 else 1))
          end
      | None => fails ←? client_main; mret (Some (if fails =? 0 then 0 else 1))
      end
  end.

(** One turn of the accept loop: nothing without a connection, and otherwise the
    thread for its first message. *)
Definition accept_one (first : option Json) : ST Coordinator Thread :=
  match first with None => mret NoThread | Some j => serve_connection j end.

(** The accept loop on the connections that arrive; it has no end of its own. *)
Fixpoint accept_loop (arrivals : list (option Json)) : ST Coordinator (list Thread) :=
  match arrivals with
  | [] => mret []
  | a :: arrivals' => t ← accept_one a; ts ← accept_loop arrivals'; mret (t :: ts)
  end.

(** An exit status, or the coordinator that serves the arrivals. *)
Definition coordinator_program (listens : string -> Z -> bool) (salt : Z) (argv : list string) (arrivals : list (option Json))
    : Z + list Thread * Coordinator :=
  match coordinator_args argv with
  | None => inl 2
  | Some (host, port, _) =>
      if negb (listens host port) then inl 1
      else inr (accept_loop arrivals (new_coordinator (init_impl default_scheduler_config None salt)))
  end.

End Processes.
