(* ===== verification/ProgramsSpec.v ===== *)
(** * The commands start the programs they name

    What the command line passes to [std::system] is read by the started
    program as the arguments meant, and the worker so started is registered by
    the coordinator under them. *)

From S2P Require Import Prelude Enums Ids Float64 FloatExact Types State Bytes Envelope Net Decimal Json JsonSpec Protocol ProtocolSpec Demo Worker Coordinator Client Cli CliSpec Programs.
Open Scope Z_scope.

(** ** The shell

    A command of words without any character that the shell treats specially
    is split at the blanks. *)

Definition word_byte (b : byte) : bool :=
  let v := byte_val b in
  is_digit b || ((97 <=? v) && (v <=? 122)) || ((65 <=? v) && (v <=? 90)) || ((43 <=? v) && (v <=? 47)) || (v =? 58) || (v =? 95).

Definition is_word (l : text) : bool := negb (bool_decide (l = [])) && forallb word_byte l.

Fixpoint words (l cur : text) : list text :=
  match l with
  | [] => match cur with [] => [] | _ => [cur] end
  | b :: l' => if Byte.eqb b x20 then match cur with [] => words l' [] | _ => cur :: words l' [] end
               else words l' (cur ++ [b])
  end.

Definition shell_args (cmd : string) : list string := bytes_string <$> words (string_bytes cmd) [].

(** A command line of words. *)
Fixpoint join_words (ws : list text) : text :=
  match ws with
  | [] => []
  | [w] => w
  | w :: ws' => w ++ x20 :: join_words ws'
  end.

Lemma words_word w cur rest : forallb word_byte w = true -> words (w ++ rest) cur = words rest (cur ++ w).
Proof.
  revert cur. induction w as [|b w IH]; intros cur Hw; [by rewrite app_nil_r|]. cbn [forallb app words] in *.
  apply andb_true_iff in Hw as [Hb Hw]. destruct (Byte.eqb b x20) eqn:E.
  - apply Byte.byte_dec_bl in E. by subst.
  - rewrite IH, <- app_assoc by done. done.
Qed.

Lemma words_join ws : Forall (fun w => is_word w = true) ws -> words (join_words ws) [] = ws.
Proof.
  induction 1 as [|w ws Hw _ IH]; [done|]. apply andb_true_iff in Hw as [Hne Hw].
  apply negb_true_iff, bool_decide_eq_false in Hne. destruct ws as [|w' ws].
  - cbn [join_words]. rewrite <- (app_nil_r w) at 1. rewrite words_word by done. by destruct w.
  - change (join_words (w :: w' :: ws)) with (w ++ x20 :: join_words (w' :: ws)). rewrite words_word by done.
    cbn [words]. change (Byte.eqb x20 x20) with true. cbv iota. rewrite IH. by destruct w.
Qed.

Lemma string_bytes_app a b : string_bytes (a +:+ b) = string_bytes a ++ string_bytes b.
Proof.
  unfold string_bytes, String.list_byte_of_string. induction a as [|c a IH]; [done|].
  change (String c a +:+ b) with (String c (a +:+ b)). cbn. by rewrite IH.
Qed.

Lemma shell_args_join cmd (ws : list string) :
  string_bytes cmd = join_words (string_bytes <$> ws) -> Forall (fun w => is_word (string_bytes w) = true) ws ->
  shell_args cmd = ws.
Proof.
  intros E Hw. unfold shell_args. rewrite E, words_join by (by apply Forall_fmap).
  rewrite <- list_fmap_compose. transitivity (id <$> ws); [|apply list_fmap_id].
  apply list_fmap_ext. intros _ w _. apply bytes_string_bytes.
Qed.

(** Numbers are words. *)
Lemma digits_are_word_bytes l : forallb is_digit l = true -> forallb word_byte l = true.
Proof.
  rewrite !forallb_forall. intros Hl b Hb. unfold word_byte. by rewrite (Hl b Hb).
Qed.

Lemma number_is_word z : is_word (string_bytes (to_string z)) = true.
Proof.
  unfold to_string. rewrite string_bytes_string. unfold dec_int, is_word.
  pose proof (dec_nonempty (Z.abs z) ltac:(lia)) as Hn.
  pose proof (digits_are_word_bytes _ (dec_digits (Z.abs z) ltac:(lia))) as Hd.
  rewrite forallb_app, Hd, andb_true_r. apply andb_true_iff. split; [|by destruct (z <? 0)].
  apply negb_true_iff, bool_decide_eq_false. by intros [_ E]%app_nil.
Qed.

(** ** The commands *)

Definition words_only (argv : list string) : Prop := Forall (fun w => is_word (string_bytes w) = true) argv.

Lemma arg_or_word argv n d : words_only argv -> is_word (string_bytes d) = true -> is_word (string_bytes (arg_or argv n d)) = true.
Proof.
  intros Hw Hd. unfold arg_or. destruct (argv !! n) as [w|] eqn:E; [|done]. by apply (Forall_lookup_1 _ _ _ _ Hw E).
Qed.

(** The command of [serve] and that of [worker], word by word. *)
Definition serve_words (argv : list string) : list string :=
  ["inference_scheduler_coordinator"; arg_or argv 2 "127.0.0.1"; to_string (arg_int argv 3 29840); "2"]%string.
Definition worker_words (argv : list string) : list string :=
  ["inference_scheduler_worker"; arg_or argv 2 "127.0.0.1"; to_string (arg_int argv 3 29840); to_string (arg_u64 argv 4 11);
   to_string (arg_u64 argv 5 1001); to_string (arg_int argv 6 8); arg_or argv 7 "cpu"]%string
  ++ option_list (argv !! 8%nat).

Lemma serve_shell_args argv : words_only argv -> shell_args (serve_command argv) = serve_words argv.
Proof.
  intros Hw. apply shell_args_join.
  - unfold serve_command, serve_words. rewrite !string_bytes_app. cbn [fmap list_fmap join_words].
    change (string_bytes "inference_scheduler_coordinator ") with (string_bytes "inference_scheduler_coordinator" ++ [x20]).
    by rewrite <- !app_assoc.
  - unfold serve_words. repeat apply Forall_cons_2; [done|by apply arg_or_word|apply number_is_word|done|apply Forall_nil_2].
Qed.

Lemma worker_shell_args argv : words_only argv -> shell_args (worker_command argv) = worker_words argv.
Proof.
  intros Hw. assert (forall w, argv !! 8%nat = Some w -> is_word (string_bytes w) = true) as H8
    by (intros w E; by apply (Forall_lookup_1 _ _ _ _ Hw E)).
  apply shell_args_join.
  - unfold worker_command, worker_words. cbv zeta. rewrite !string_bytes_app. unfold arg_or at 3 4.
    change (string_bytes "inference_scheduler_worker ") with (string_bytes "inference_scheduler_worker" ++ [x20]).
    rewrite <- !app_assoc. destruct (argv !! 8%nat) as [w|]; cbn [default option_list app fmap list_fmap join_words].
    + change (id w) with w. destruct (String.eqb_spec w EmptyString) as [->|_]; [by specialize (H8 _ eq_refl)|]. by rewrite string_bytes_app.
    + cbn. by rewrite !app_nil_r.
  - unfold worker_words. apply Forall_app. split; [|by destruct (argv !! 8%nat); [apply Forall_singleton, H8|apply Forall_nil_2]].
    repeat apply Forall_cons_2; first [done | by apply arg_or_word | apply number_is_word | apply Forall_nil_2].
Qed.

(** A number that was printed is read back. *)
Lemma arg_int_range argv n d : - 2 ^ 31 <= d < 2 ^ 31 -> - 2 ^ 31 <= arg_int argv n d < 2 ^ 31.
Proof. intros. unfold arg_int. destruct (argv !! n); [apply atoi_range|done]. Qed.
Lemma arg_u64_range argv n d : 0 <= d < 2 ^ 64 -> 0 <= arg_u64 argv n d < 2 ^ 64.
Proof. intros. unfold arg_u64. destruct (argv !! n); [apply strtoull_range|done]. Qed.
Lemma atoi_to_string z : - 2 ^ 31 <= z < 2 ^ 31 -> atoi (string_bytes (to_string z)) = z.
Proof. intros. unfold to_string. rewrite string_bytes_string. by apply atoi_dec_int. Qed.
Lemma strtoull_to_string z : 0 <= z < 2 ^ 64 -> strtoull (string_bytes (to_string z)) = z.
Proof. intros. unfold to_string. rewrite string_bytes_string, dec_int_nonneg by lia. by apply strtoull_dec. Qed.

(** The worker that [worker] means. *)
Definition meant_worker (argv : list string) : WorkerArgs :=
  mkWorkerArgs (arg_u64 argv 4 11) (arg_u64 argv 5 1001) (arg_int argv 6 8) (arg_or argv 7 "cpu"%string) (argv !! 8%nat).

Lemma worker_args_meant argv :
  words_only argv ->
  worker_args (shell_args (worker_command argv))
  = Some (arg_or argv 2 "127.0.0.1"%string, arg_int argv 3 29840, meant_worker argv).
Proof.
  intros Hw. rewrite worker_shell_args by done. unfold worker_words, worker_args, meant_worker. cbn [app].
  rewrite !atoi_to_string, !strtoull_to_string by (apply arg_int_range || apply arg_u64_range; lia).
  by destruct (argv !! 8%nat).
Qed.

Lemma coordinator_args_meant argv :
  words_only argv ->
  coordinator_args (shell_args (serve_command argv)) = Some (arg_or argv 2 "127.0.0.1"%string, arg_int argv 3 29840, 2).
Proof.
  intros Hw. rewrite serve_shell_args by done. unfold serve_words, coordinator_args.
  by rewrite atoi_to_string by (apply arg_int_range; lia).
Qed.

(** ** The registration *)

(** The registration the coordinator should make for a worker. *)
Definition registers (a : WorkerArgs) : WorkerRegistration :=
  default_registration
    <| reg_worker := wa_worker a |> <| reg_boot_id := wa_boot a |>
    <| reg_node := u64 (wa_worker a * 100 + 1) |> <| reg_accelerator := u64 (wa_worker a * 100 + 2) |>
    <| reg_state := WS_Online |>
    <| reg_capability := default_capability
         <| cap_backend := wa_backend a |> <| cap_device_name := wa_backend a +:+ "-" +:+ to_string (wa_worker a) |>
         <| cap_total_capacity_units := wa_units a |> <| cap_available_capacity_units := wa_units a |>
         <| cap_models := match wa_models a with
                          | Some m => strtoull <$> pieces (string_bytes m) []
                          | None => []
                          end |> |>.

Section Registration.
  Context `{Env} (a : WorkerArgs).
  Context (Hworker : 0 <= wa_worker a < 2 ^ 64) (Hboot : 0 <= wa_boot a < 2 ^ 64) (Hunits : 0 <= wa_units a < 2 ^ 31).

Lemma num_u64_int kvs k d z :
  obj_find k (rev kvs) = Some (int_json z) -> 0 <= z < 2 ^ 53 -> num_u64 (jobject kvs) k d = z.
Proof.
  intros E Hz. unfold num_u64. rewrite jget_object, E. apply cast_int; [lia|]. apply andb_true_iff. lia.
Qed.

Lemma register_message_ok : json_ok (register_message a).
Proof.
  apply json_ok_object. repeat (apply Forall_cons; split; [split; [done|]|]); try apply Forall_nil; cbn [snd];
    first [constructor; done | apply json_ok_int; lia | idtac].
  unfold models_json. constructor. intros j Hj. destruct (wa_models a); [|by apply elem_of_nil in Hj].
  apply list_elem_of_fmap in Hj as (p & -> & _). apply json_ok_id.
Qed.

Lemma registration_registers : registration (register_message a) = registers a.
Proof.
  unfold registration, register_message. set (kvs := _ :: _).
  rewrite (num_u64_int kvs "units" 1 (wa_units a) eq_refl) by lia.
  rewrite (num_u64_field kvs "worker" 0 (wa_worker a) eq_refl) by done.
  rewrite (num_u64_field kvs "boot" 0 (wa_boot a) eq_refl) by done.
  rewrite (num_u64_field kvs "node" 0 (u64 (wa_worker a * 100 + 1)) eq_refl) by apply u64_range.
  rewrite (num_u64_field kvs "accel" 0 (u64 (wa_worker a * 100 + 2)) eq_refl) by apply u64_range.
  unfold getstr. rewrite !jget_object. unfold registers, to_string. rewrite dec_int_nonneg by lia.
  assert (i32 (wa_units a) = wa_units a) as -> by (unfold i32; rewrite Z.mod_small; lia).
  assert (obj_find "models" (rev kvs) = Some (models_json a)) as -> by done.
  assert ((fun x => jsu64 x 0) <$> Json.elems (models_json a)
          = match wa_models a with Some m => strtoull <$> pieces (string_bytes m) [] | None => [] end) as ->; [|done].
  unfold models_json. cbn [Json.elems]. destruct (wa_models a) as [m|]; [|done].
  rewrite <- list_fmap_compose. apply list_fmap_ext. intros _ p _. unfold compose, id_json, jsu64.
  rewrite string_bytes_string. apply strtoull_dec, strtoull_range.
Qed.

End Registration.

(** The command line starts the worker it names.  [worker] with plain words
    as arguments leaves the files alone and hands the shell a command that the
    worker program reads as the host, port, worker id, boot id, capacity,
    backend and models that were given (or their defaults); and the message by
    which the worker so started announces itself, once it was sent over a
    connection, arrives and makes the coordinator register an online worker
    with exactly that identity, capacity and list of models. *)
Theorem command_line_starts_the_named_worker {K1 K2} `{Env} `{Host}
    `{!Socket K1, !StreamSocket K1, !Socket K2, !StreamSocket K2, !LiveSocket K2}
    (argv : list string) (fs : FS) (c1 c2 : FramedConnection) (s1 : K1) (s2 : K2) :
  argv !! 1%nat = Some "worker"%string -> words_only argv -> 0 <= arg_int argv 6 8 ->
  let a := meant_worker argv in
  result (send_json (Some c1) (register_message a)) s1 = Some true ->
  k_arriving s2 = sent (send_json (Some c1) (register_message a)) s1 -> 0 <= fc_fd c2 ->
  main argv fs = Some (host_system (worker_command argv), fs, []) /\
  worker_args (shell_args (worker_command argv)) = Some (arg_or argv 2 "127.0.0.1"%string, arg_int argv 3 29840, a) /\
  exists first, result (recv_json (Some c2)) s2 = Some first /\ getstr first "op" "" = "register"%string /\
    registration first = registers a.
Proof.
  intros Hc Hw Hu a Hs Ha Hfd. pose proof (arg_int_range argv 6 8 ltac:(lia)) as Hr.
  split; [|split; [by apply worker_args_meant|]].
  { unfold main. by rewrite Hc. }
  exists (register_message a). split_and!; [|by unfold getstr, register_message; rewrite jget_object|].
  - apply (json_arrives c1 c2 _ s1 s2); [|done..]. apply register_message_ok. unfold a, meant_worker. cbn. lia.
  - apply registration_registers; unfold a, meant_worker; cbn [wa_worker wa_boot wa_units]; [apply arg_u64_range; lia..|lia].
Qed.

Definition demo_command : list string := ["cli"; "worker"; "10.0.0.7"; "29840"; "22"; "2002"; "8"; "cpu"; "20,30"]%string.

Lemma command_line_starts_the_named_worker_witness :
  worker_args (shell_args (worker_command demo_command))
    = Some ("10.0.0.7"%string, 29840, mkWorkerArgs 22 2002 8 "cpu" (Some "20,30"%string)) /\
  exists first,
    result (recv_json (Some (mkFramedConnection 4)))
      (mkPipe 6 [] (pp_out (exec (send_json (Some (mkFramedConnection 3)) (register_message (meant_worker demo_command))) net_writer)))
      = Some first /\ getstr first "op" "" = "register"%string /\
    cap_models (reg_capability (registration first)) = [20; 30].
Proof.
  edestruct (command_line_starts_the_named_worker demo_command ∅ (mkFramedConnection 3) (mkFramedConnection 4) net_writer)
    as (_ & Ea & first & Ef & Eo & Er).
  - reflexivity.
  - apply Forall_forall. intros w Hw. repeat (apply elem_of_cons in Hw as [->|Hw]; [by vm_compute|]). by apply elem_of_nil in Hw.
  - vm_compute. discriminate.
  - by vm_compute.
  - shelve.
  - simpl. lia.
  - split; [exact Ea|]. exists first. split; [exact Ef|]. split; [exact Eo|]. rewrite Er. by vm_compute.
  Unshelve. by vm_compute.
Defined.
