(* ===== verification/System.v ===== *)
(** * The whole system

    A coordinator with a worker process at the end of each worker's connection,
    as the channel of a client: a call goes through the text of the message to
    [handle_one], for a dispatch to the worker and back, and through the text
    of the answer to the client. *)

From S2P Require Import Prelude Enums Ids Float64 Types State Admission Queue Batch Dispatch Completion Control Frames Lifecycle Index Accounts Micro Refine Seed BatchSpec Handlers Machine Demo Safety CompletionSpec DispatchSpec Bytes Envelope Net Decimal Json JsonSpec Protocol ProtocolSpec Executor Worker Api Reports Rounds Coordinator CoordinatorSpec Cluster Carried Client.
Open Scope Z_scope.

(** The worker of each slot: its arguments and the requests it has failed. *)
Record System := mkSystem { sy_co : Coordinator; sy_workers : list (WorkerArgs * gset Z) }.

Section System.
  Context `{Env}.

(** The worker's own state after a [run] message. *)
Definition worker_after (a : WorkerArgs) (seen : gset Z) (run : Json) : gset Z :=
  match over_wire run with Some msg => exec (handle_run a msg) seen | None => seen end.

(** The answer to a parsed message. *)
Definition serve (m : Json) : ST System (option Json) := fun y =>
  let ws := sy_workers y in
  match handle_one m (sy_co y) with
  | (Reply j, c) => (over_wire j, mkSystem c ws)
  | (Waiting i run o, c) =>
      match ws !! i with
      | None => (None, mkSystem c ws)
      | Some (a, seen) =>
          let '(d, c') := worker_round a seen i run c in
          (d ← d; over_wire (dispatch_ack (num_u64 m "request_id" 0) o d),
           mkSystem c' (<[i := (a, worker_after a seen run)]> ws))
      end
  | (Silence, c) | (OutOfModel, c) => (None, mkSystem c ws)
  end.

(** A message that cannot be parsed ends the connection. *)
#[global] Instance system_channel : Channel System := fun req =>
  match over_wire req with
  | None => mret None
  | Some m => if is_null m then mret (Some JNull) else serve m
  end.

(** A worker process connects. *)
Definition worker_joins (a : WorkerArgs) : ST System unit := fun y =>
  match over_wire (register_message a) with
  | Some first => (tt, mkSystem (exec (co_handle (Registered first)) (sy_co y)) (sy_workers y ++ [(a, ∅)]))
  | None => (tt, y)
  end.

Definition new_system (s : Impl) : System := mkSystem (new_coordinator s) [].

End System.

(** ** The client's scenarios, run

    With the workers of [scripts/multiprocess_proof.ps1]. *)

Definition worker1a : WorkerArgs := mkWorkerArgs 11 1001 8 "cpu" (Some "10,30,40").
Definition worker2 : WorkerArgs := mkWorkerArgs 22 2002 8 "cpu" (Some "20").
Definition worker1b : WorkerArgs := mkWorkerArgs 11 9999 8 "cpu" (Some "10,30,40").

Definition demo_system : System := exec (worker_joins worker1a ;; worker_joins worker2) (new_system demo_init).

(** The first phase, the restart of worker 1, the second phase. *)
Definition extended_run : ST System (option Z) :=
  r ←? extended_first;
  match r with Some id => worker_joins worker1b ;; extended_second id | None => mret (Some 1) end.

(** The client's scenarios pass.  With two workers the client's first scenario
    (thirteen requests, one of which fails once, and a cancellation) ends with
    every check passed; so does the extended one, in which a worker restarts
    under a new boot id and reports under a stale epoch, boot id and generation
    are refused before the queued request runs on the restarted worker. *)
Theorem client_scenarios_pass :
  result client_main demo_system = Some 0 /\ result extended_run demo_system = Some 0.
Proof. by vm_compute. Qed.
