(* ===== verification/ClientSpec.v ===== *)
(** * What the client believes is true

    Against a coordinator with its workers the client's dispatch loop ends, and
    the requests it takes off its list are over in the scheduler. *)

From S2P Require Import Prelude Enums Ids Float64 Types State Admission Queue Batch Dispatch Completion Control Frames Lifecycle Index Accounts Micro Refine Seed BatchSpec Handlers Machine Demo Safety CompletionSpec DispatchSpec Bytes Envelope Net Decimal Json JsonSpec Protocol ProtocolSpec Executor Worker Api Reports Rounds Coordinator CoordinatorSpec Cluster Carried Client System.
Open Scope Z_scope.

(** ** The numbers in messages *)

Section Carry.
  Context `{Env}.

(** A specification whose numbers messages carry without loss. *)
Record spec_carried (sp : RequestSpec) : Prop := {
  sc_ids : Forall u64_ok [spec_model sp; spec_revision sp];
  sc_counts : Forall exact [te_input (spec_tokens sp); te_output (spec_tokens sp);
    to_i64 (rd_cost_units (spec_demand sp)); 3 * to_i64 (rd_cost_units (spec_demand sp))];
  sc_cost : num_ok (rd_cost_units (spec_demand sp))
}.

Lemma carried_member s m r : carried spec_carried s -> requests s !! m = Some r -> member_ok m r.
Proof.
  intros Hs Hr. destruct (Hs m r Hr) as [Hi [HI HC Hn]]. constructor; [|exact HC|exact Hn].
  unfold ids_in_range in Hi. rewrite !Forall_cons in Hi. rewrite !Forall_cons in HI.
  destruct Hi as (? & ? & ? & _), HI as (? & ? & _).
  repeat (apply Forall_cons; split; [assumption|]). apply Forall_nil_2.
Qed.

(** The relation between coordinators that keeps them carried and keeps their
    slots in number. *)
Record co_carries (c c' : Coordinator) : Prop := {
  cc_carried : keeps (carried spec_carried) (co_sched c) (co_sched c');
  cc_slots : length (co_workers c') = length (co_workers c)
}.

#[global] Instance co_carries_preorder : PreOrder co_carries.
Proof.
  split; [by constructor|]. intros c1 c2 c3 [H1 L1] [H2 L2]. constructor; [by etrans|congruence].
Qed.

Lemma carries_sched {A} (m : M A) c :
  steps (keeps (carried spec_carried)) (co_sched c) m -> steps co_carries c (on_scheduler m).
Proof. intros Hm. unfold steps in *. rewrite on_scheduler_exec. by constructor. Qed.

Lemma carries_slot f i c : co_carries c (c <| co_workers ::= alter f i |>).
Proof. constructor; [done|]. simpl. apply length_alter. Qed.

Lemma handle_dispatch_carries rid ex c : steps co_carries c (handle_dispatch rid ex).
Proof.
  unfold handle_dispatch, find.
  apply steps_bind; [exact _|apply carries_sched, plan_carried|].
  destruct (result _ _) as [o|e]; [|apply steps_ret; exact _]. destruct (negb _); [apply steps_ret; exact _|].
  apply steps_gets_bind. destruct (_ !! _) as [i|]; [|apply steps_ret; exact _].
  apply steps_bind; [exact _|apply steps_modify, carries_slot|]. apply steps_gets_bind, steps_ret. exact _.
Qed.

Lemma complete_results_carries w boot avail l c : steps co_carries c (complete_results w boot avail l).
Proof.
  revert c. induction l as [|[[rj st] fc] l IH]; intros c; cbn [complete_results]; [apply steps_ret; exact _|].
  apply steps_bind; [exact _| |apply steps_bind; [exact _|apply IH|apply steps_ret; exact _]].
  unfold complete_result. apply steps_gets_bind. apply steps_bind; [exact _|apply carries_sched, complete_carried|apply steps_ret; exact _].
Qed.

Lemma on_completed_carries i msg c : steps co_carries c (on_completed i msg).
Proof.
  unfold on_completed. apply steps_gets_bind. destruct (co_workers c !! i); [|apply steps_ret; exact _].
  destruct (mapM _ _); [|apply steps_ret; exact _]. cbv zeta. apply steps_bind; [exact _| |].
  { apply steps_foreach; [exact _|]. intros rj c' _ _. unfold confirm_result. apply steps_gets_bind.
    apply steps_bind; [exact _|apply carries_sched, start_carried|apply steps_ret; exact _]. }
  apply steps_bind; [exact _|apply complete_results_carries|].
  apply steps_bind; [exact _|apply steps_modify, carries_slot|apply steps_ret; exact _].
Qed.

Lemma worker_round_carries a seen i run c : steps co_carries c (worker_round a seen i run).
Proof.
  unfold worker_round. destruct (over_wire run ≫= _); [|apply steps_ret; exact _].
  apply steps_bind; [exact _|apply on_completed_carries|]. apply steps_gets_bind, steps_ret. exact _.
Qed.

End Carry.

(** ** One dispatch *)

Section Calls.
  Context `{Env} (cf : SchedulerConfig) (ep : option Z) (salt : Z).

(** The state of a system between two calls. *)
Record sys_ok (y : System) : Prop := {
  so_reach : co_reachable cf ep salt (sy_co y);
  so_carried : carried spec_carried (co_sched (sy_co y));
  so_workers : length (sy_workers y) = length (co_workers (sy_co y))
}.

Lemma sys_ok_Inv y : sys_ok y -> Inv (co_sched (sy_co y)).
Proof. intros [R _ _]. eapply reachable_Inv. by apply (co_reachable_ok _ _ _ _ R). Qed.

Lemma dispatch_message_ok ex id :
  over_wire (dispatch_message ex id) = Some (dispatch_message ex id) /\
  is_null (dispatch_message ex id) = false /\ getstr (dispatch_message ex id) "op" "" = "dispatch"%string.
Proof.
  split_and!; [|by destruct ex|by destruct ex]. apply over_wire_ok, json_ok_object.
  destruct ex; repeat (apply Forall_cons; split; [split; [reflexivity|constructor]|]); apply Forall_nil_2.
Qed.

Lemma held_reply_ok rid d reason :
  json_ok (held_reply rid d reason) /\ array_field (held_reply rid d reason) "members" = [].
Proof.
  split; [|unfold held_reply; by apply array_of_field]. apply json_ok_object.
  repeat (apply Forall_cons; split; [split; [reflexivity|]|]); try apply Forall_nil_2;
    cbn [snd]; first [apply json_ok_id | apply json_ok_int; destruct d; cbn; lia | constructor; set_solver].
Qed.

Lemma handle_dispatch_answers rid ex c :
  (exists d reason, result (handle_dispatch rid ex) c = Reply (held_reply rid d reason)) \/
  exists i run o, result (handle_dispatch rid ex) c = Waiting i run o.
Proof.
  unfold handle_dispatch, find. rewrite result_bind.
  destruct (result (on_scheduler (Scheduler.plan_dispatch rid ex)) c) as [o|e]; [|left; by eexists _, _].
  destruct (negb _); [left; by eexists _, _|]. rewrite result_bind, result_gets.
  destruct (_ !! _); [right; by eexists _, _, _|left; by eexists _, _].
Qed.

Lemma dispatch_done_ok b outs : (forall rj, rj ∈ outs -> json_ok rj) -> json_ok (dispatch_done b outs).
Proof.
  intros Ho. apply json_ok_object. repeat (apply Forall_cons; split; [split; [reflexivity|]|]); try apply Forall_nil_2;
    cbn [snd]; constructor. exact Ho.
Qed.

Lemma dispatch_ack_ok rid o b outs :
  (forall rj, rj ∈ outs -> json_ok rj) ->
  json_ok (dispatch_ack rid o (dispatch_done b outs)) /\
  array_field (dispatch_ack rid o (dispatch_done b outs)) "members" = outs.
Proof.
  intros Ho. assert (default (JArr []) (jget (dispatch_done b outs) "results") = JArr outs) as Ej
    by (unfold dispatch_done; by rewrite jget_object).
  unfold dispatch_ack. rewrite Ej. split; [|by apply array_of_field]. apply json_ok_object.
  repeat (apply Forall_cons; split; [split; [reflexivity|]|]); try apply Forall_nil_2;
    cbn [snd]; first [apply json_ok_id | apply json_ok_int; cbn; lia | by apply dispatch_done_ok | constructor; done].
Qed.

Lemma serve_reply m y j :
  result (handle_one m) (sy_co y) = Reply j ->
  serve m y = (over_wire j, mkSystem (exec (handle_one m) (sy_co y)) (sy_workers y)).
Proof. unfold result, exec, serve. destruct (handle_one m (sy_co y)). by intros [= ->]. Qed.

Lemma serve_waiting m y i run o a seen d :
  result (handle_one m) (sy_co y) = Waiting i run o -> sy_workers y !! i = Some (a, seen) ->
  let c1 := exec (handle_one m) (sy_co y) in
  result (worker_round a seen i run) c1 = Some d ->
  serve m y = (over_wire (dispatch_ack (num_u64 m "request_id" 0) o d),
    mkSystem (exec (worker_round a seen i run) c1) (<[i := (a, worker_after a seen run)]> (sy_workers y))).
Proof.
  unfold result, exec, serve. destruct (handle_one m (sy_co y)) as [ans c]. cbn [fst snd]. intros -> ->.
  destruct (worker_round a seen i run c). by intros [= ->].
Qed.

(** The call returns, and what its answer calls over is over. *)
Lemma call_dispatch ex id y :
  sys_ok y -> exists ack y', call (dispatch_message ex id) y = (Some ack, y') /\
  sys_ok y' /\ Scheduler.runs (co_sched (sy_co y)) (co_sched (sy_co y')) /\
  forall rj, rj ∈ array_field ack "members" -> says_over rj = true ->
    terminal_at (co_sched (sy_co y')) (num_u64 rj "req" 0).
Proof.
  intros [R0 C0 L0]. destruct (dispatch_message_ok ex id) as (Hm & Hn & Hop).
  unfold call, system_channel. rewrite Hm, Hn. set (m := dispatch_message ex id) in *.
  assert (client_guard (co_sched (sy_co y)) m) as G by (by split; rewrite Hop).
  pose proof (handle_one_serves m (sy_co y) G) as [V1 _].
  pose proof (co_step _ _ _ (sy_co y) (FromClient m) R0 G) as R1. cbn [co_handle] in R1. rewrite exec_bind, exec_ret in R1.
  pose proof (handle_one_dispatch m Hop) as Eh. set (rid := num_u64 m "request_id" 0) in *.
  set (ex' := getbool m "explain" false) in *.
  pose proof (handle_dispatch_carries rid ex' (sy_co y)) as [C1 L1].
  destruct (handle_dispatch_answers rid ex' (sy_co y)) as [(d & reason & E)|(i & run & o & E)]; rewrite <- Eh in E, C1, L1.
  - rewrite (serve_reply m y _ E). destruct (held_reply_ok rid d reason) as [Hj Ha].
    rewrite over_wire_ok by done. eexists _, _. split; [reflexivity|]. cbn [sy_co].
    split_and!; [|done|rewrite Ha; intros rj []%elem_of_nil].
    constructor; cbn [sy_co sy_workers]; [done|by apply C1|congruence].
  - set (c1 := exec (handle_one m) (sy_co y)) in *.
    destruct (handle_dispatch_waiting rid ex' (sy_co y) i run o ltac:(by rewrite <- Eh)) as (Ep & Hd & Hf & Es & _).
    rewrite <- Eh in Hf, Es. fold c1 in Hf, Es.
    destruct (co_reachable_ok _ _ _ _ R1) as [_ S1]. destruct (S1 _ _ Hf) as (slot & Hi & _).
    assert (is_Some (sy_workers y !! i)) as [[a seen] Hw].
    { apply lookup_lt_is_Some. rewrite L0, <- L1. by eapply lookup_lt_Some. }
    pose proof (reachable_Inv _ _ _ _ (proj1 (co_reachable_ok _ _ _ _ R0))) as I0.
    destruct (plan_dispatch_reserved rid ex' (co_sched (sy_co y)) o I0 Ep Hd) as (_ & _ & HR). rewrite <- Es in HR.
    destruct (round_of_dispatch cf ep salt (sy_co y) m i run o a seen R0 Hop E) as (_ & b & outs & Hr & R2 & V2 & _ & Hok & HT & _).
    { intros x Hx. destruct (HR x Hx) as (r & Hr & _). unfold request_of. fold c1. rewrite Hr.
      eapply carried_member; [by apply C1|exact Hr]. }
    fold c1 in Hr, R2, V2, HT. rewrite (serve_waiting m y i run o a seen _ E Hw Hr). fold c1 rid.
    destruct (dispatch_ack_ok rid o b outs Hok) as [Hj Ha]. rewrite over_wire_ok by done.
    pose proof (worker_round_carries a seen i run c1) as [C2 L2].
    eexists _, _. split; [reflexivity|]. cbn [sy_co]. split_and!; [|done|by rewrite Ha].
    constructor; cbn [sy_co sy_workers]; [done|by apply C2, C1|]. rewrite length_insert. congruence.
Qed.

(** ** Rounds and the loop *)

(** The requests of [D] are over. *)
Definition believed (y : System) (D : gset Z) : Prop := forall x, x ∈ D -> terminal_at (co_sched (sy_co y)) x.

Lemma runs_terminal s s' x : Inv s -> Scheduler.runs s s' -> terminal_at s x -> terminal_at s' x.
Proof.
  intros I Hr (r & Hx & HT). destruct (run_evolution s s' I Hr x r Hx) as (r' & Hr' & He).
  exists r'. by rewrite <- (e_frozen _ _ He HT) in HT.
Qed.

Lemma believed_later y y' D :
  sys_ok y -> Scheduler.runs (co_sched (sy_co y)) (co_sched (sy_co y')) -> believed y D -> believed y' D.
Proof. intros Hy Hr HD x Hx. eapply runs_terminal; [by apply sys_ok_Inv|done|by apply HD]. Qed.

Lemma over_says rj : over rj = true -> says_over rj = true.
Proof.
  unfold over, says_over. intros Ho. apply bool_decide_eq_true. unfold final_reasons. rewrite !orb_true_iff, !String.eqb_eq in Ho.
  destruct Ho as [[[->| ->]| ->]| ->]; set_solver.
Qed.

Lemma noted_done ms rd x :
  x ∈ rd_done (fold_left note_member ms rd) ->
  x ∈ rd_done rd \/ exists rj, rj ∈ ms /\ over rj = true /\ num_u64 rj "req" 0 = x.
Proof.
  revert rd. induction ms as [|m ms IH]; intros rd; cbn [fold_left]; [by left|].
  intros [Hx|(rj & Hrj & Ho & Ex)]%IH; [|right; exists rj; set_solver].
  unfold note_member in Hx. destruct (over m) eqn:Ho; cbn [rd_done] in Hx; [|by left].
  apply elem_of_union in Hx as [->%elem_of_singleton|Hx]; [right; exists m; set_solver|by left].
Qed.

Lemma dispatch_request_true ex id rd y :
  sys_ok y -> believed y (rd_done rd) -> exists rd' y', dispatch_request ex id rd y = (Some rd', y') /\
  sys_ok y' /\ Scheduler.runs (co_sched (sy_co y)) (co_sched (sy_co y')) /\ believed y' (rd_done rd').
Proof.
  intros Hy HB. destruct (call_dispatch ex id y Hy) as (ack & y' & E & Hy' & Hr & HT).
  unfold dispatch_request. rewrite (obind_run _ _ _ _ _ E).
  eexists _, y'. split; [reflexivity|]. split_and!; [done..|].
  pose proof (believed_later y y' _ Hy Hr HB) as HB'. destruct (_ =? 0); [|done].
  intros x [Hx|(rj & Hrj & Ho & <-)]%noted_done; [by apply HB'|]. by apply HT, over_says.
Qed.

Lemma dispatch_round_true ex pending rd y :
  sys_ok y -> believed y (rd_done rd) -> exists rd' y', dispatch_round ex pending rd y = (Some rd', y') /\
  sys_ok y' /\ Scheduler.runs (co_sched (sy_co y)) (co_sched (sy_co y')) /\ believed y' (rd_done rd').
Proof.
  revert rd y. induction pending as [|id l IH]; intros rd y Hy HB; cbn [dispatch_round].
  { exists rd, y. by split_and!. }
  destruct (dispatch_request_true ex id rd y Hy HB) as (rd1 & y1 & E1 & Hy1 & R1 & B1).
  destruct (IH rd1 y1 Hy1 B1) as (rd2 & y2 & E2 & Hy2 & R2 & B2).
  exists rd2, y2. rewrite (obind_run _ _ _ _ _ E1), E2. split_and!; [done..|by etrans|done].
Qed.

Lemma dispatch_loop_step {S} `{!Channel S} fuel id pending admitted (y y1 : S) rd :
  dispatch_round true (id :: pending) (mkRound [] ∅) y = (Some rd, y1) ->
  let admitted' := admitted ∖ rd_done rd in
  exists pending', dispatch_loop (Datatypes.S fuel) (id :: pending) admitted y = (Some (pending', admitted'), y1) \/
    dispatch_loop (Datatypes.S fuel) (id :: pending) admitted y = dispatch_loop fuel pending' admitted' y1.
Proof.
  intros E. cbv zeta. exists (List.filter (fun x => bool_decide (x ∈ admitted ∖ rd_done rd)) (rd_next rd)).
  cbn [dispatch_loop]. rewrite (obind_run _ _ _ _ _ E). cbv zeta. destruct (_ && _); [by left|by right].
Qed.

Lemma dispatch_loop_stops {S} `{!Channel S} fuel pending admitted (y : S) :
  fuel = 0%nat \/ pending = [] -> dispatch_loop fuel pending admitted y = (Some (pending, admitted), y).
Proof. intros [->| ->]; [done|by destruct fuel]. Qed.

Lemma believed_none y D : believed y (D ∖ D).
Proof. intros x. rewrite elem_of_difference. tauto. Qed.

Lemma believed_more y A D a : believed y D -> believed y (A ∖ D ∖ a) -> believed y (A ∖ a).
Proof.
  intros H1 H2 x [Hx Hn]%elem_of_difference. destruct (decide (x ∈ D)) as [Hd|Hd]; [by apply H1|].
  apply H2. by rewrite !elem_of_difference.
Qed.

Lemma dispatch_loop_true fuel pending admitted y :
  sys_ok y -> exists p a y', dispatch_loop fuel pending admitted y = (Some (p, a), y') /\ sys_ok y' /\
  Scheduler.runs (co_sched (sy_co y)) (co_sched (sy_co y')) /\ a ⊆ admitted /\ believed y' (admitted ∖ a).
Proof.
  revert pending admitted y. induction fuel as [|fuel IH]; intros pending admitted y Hy.
  { exists pending, admitted, y. rewrite dispatch_loop_stops by (by left).
    split_and!; [reflexivity|exact Hy|apply rtc_refl|reflexivity|apply believed_none]. }
  destruct pending as [|id pending].
  { exists [], admitted, y. rewrite dispatch_loop_stops by (by right).
    split_and!; [reflexivity|exact Hy|apply rtc_refl|reflexivity|apply believed_none]. }
  destruct (dispatch_round_true true (id :: pending) (mkRound [] ∅) y Hy) as (rd & y1 & E1 & Hy1 & R1 & B1).
  { intros x []%elem_of_empty. }
  destruct (dispatch_loop_step fuel id pending admitted y y1 rd E1) as [pending' [->| ->]].
  { exists pending', (admitted ∖ rd_done rd), y1.
    split_and!; [reflexivity|exact Hy1|exact R1|apply subseteq_difference_l; reflexivity|].
    exact (believed_more y1 admitted (rd_done rd) _ B1 (believed_none y1 _)). }
  destruct (IH pending' (admitted ∖ rd_done rd) y1 Hy1) as (p & a & y2 & -> & Hy2 & R2 & Ha & B2).
  exists p, a, y2. split_and!; [reflexivity|exact Hy2|by etrans|etrans; [exact Ha|apply subseteq_difference_l; reflexivity]|].
  exact (believed_more y2 admitted (rd_done rd) a (believed_later y1 y2 _ Hy1 R2 B1) B2).
Qed.

End Calls.

(** C12: The client believes what is so.  Against a coordinator in any state its
    messages reach, with a worker behind every slot, the client's dispatch loop
    ends, whatever is pending and however the workers fail; every request it
    takes off its set of admitted requests is completed, failed, expired or
    cancelled in the scheduler, and the coordinator is again in a state its
    messages reach.  The numbers in the requests have to be ones messages
    carry without loss. *)
Theorem client_believes_what_is_so `{Env} cf ep salt (y : System) (pending : list Z) (admitted : gset Z) :
  co_reachable cf ep salt (sy_co y) -> carried spec_carried (co_sched (sy_co y)) ->
  length (sy_workers y) = length (co_workers (sy_co y)) ->
  exists left open, result (dispatch_loop max_rounds pending admitted) y = Some (left, open) /\ open ⊆ admitted /\
  let y' := exec (dispatch_loop max_rounds pending admitted) y in
  co_reachable cf ep salt (sy_co y') /\
  forall x, x ∈ admitted -> x ∉ open -> terminal_at (co_sched (sy_co y')) x.
Proof.
  intros R C L. destruct (dispatch_loop_true cf ep salt max_rounds pending admitted y) as (p & a & y' & E & Hy' & _ & Ha & HB);
    [by constructor|].
  exists p, a. unfold result, exec. rewrite E. cbn [fst snd]. split_and!; [done..|apply Hy'|].
  intros x Hx Hn. apply HB. by apply elem_of_difference.
Qed.

(** The coordinator of the demonstration, with its worker. *)
Definition demo_two : System :=
  mkSystem demo_coordinator [(demo_args, ∅)].
Definition demo_ids : list Z := (map_to_list (requests (co_sched demo_coordinator))).*1.

Lemma client_believes_what_is_so_witness :
  exists left open, result (dispatch_loop max_rounds demo_ids (list_to_set demo_ids)) demo_two = Some (left, open) /\
  open ⊆ list_to_set demo_ids /\
  let y' := exec (dispatch_loop max_rounds demo_ids (list_to_set demo_ids)) demo_two in
  co_reachable default_scheduler_config None 5 (sy_co y') /\
  forall x, x ∈ (list_to_set demo_ids : gset Z) -> x ∉ open -> terminal_at (co_sched (sy_co y')) x.
Proof.
  apply (client_believes_what_is_so default_scheduler_config None 5 demo_two).
  - exact demo_coordinator_reachable.
  - apply map_Forall_to_list. set (l := map_to_list _). vm_compute in l. subst l.
    repeat (apply Forall_cons; split; [split; [|split]|]); try apply Forall_nil_2.
    all: repeat (apply Forall_cons; split); try apply Forall_nil_2; split_and?; by vm_compute.
  - by vm_compute.
Defined.
