(* ===== verification/Interference.v ===== *)
(** * What a client is told, under interference

    A worker's thread completes the results of a message one call at a time,
    and between any two of its calls the other threads make theirs.  Whatever
    they do, an outcome that says a request is over is true when the client
    learns it, and stays true. *)

From S2P Require Import Prelude Enums Ids Float64 Types State Admission Queue Batch Dispatch Completion Control Frames Lifecycle Index Accounts Micro Refine Handlers Machine Demo Safety CompletionSpec DispatchSpec Bytes Envelope Net Decimal Json JsonSpec Protocol ProtocolSpec Executor Worker Api Reports Rounds Coordinator CoordinatorSpec Interleaving Fresh Cluster Carried Client System ClientSpec.
Open Scope Z_scope.

(** One result of a [completed] message. *)
Definition Reported : Type := Json * CompletionStatus * FailureClass.

Definition reported_id `{Env} (x : Reported) : Z := num_u64 x.1.1 "req" 0.

Section Interference.
  Context `{Env} (w boot avail : Z).

(** The report the thread makes of a result. *)
Definition own_report (c : Coordinator) (x : Reported) : CompletionReport :=
  report_of (epoch (co_sched c)) w boot avail x.1.1 x.1.2 x.2.

(** The thread's loop over the results [l], with the calls of other threads in
    between: the outcomes, the identifiers taken and the coordinator. *)
Inductive completing : nat -> Coordinator -> list Reported -> list Json -> nat -> Coordinator -> Prop :=
| cm_end k c : completing k c [] [] k c
| cm_other k j c a l outs k' c' :
    own_call (co_sched c) a -> ids (co_sched (exec (run_call a) c)) = issue j (ids (co_sched c)) ->
    completing (k + j) (exec (run_call a) c) l outs k' c' -> completing k c l outs k' c'
| cm_own k j c x l outs k' c' :
    honest (co_sched c) (own_report c x) ->
    ids (co_sched (exec (complete_result w boot avail x) c)) = issue j (ids (co_sched c)) ->
    completing (k + j) (exec (complete_result w boot avail x) c) l outs k' c' ->
    completing k c (x :: l) (result (complete_result w boot avail x) c :: outs) k' c'.

(** The thread's own step is a call like the others. *)
Lemma complete_result_call x c :
  exec (complete_result w boot avail x) c = exec (run_call (CallComplete (own_report c x))) c.
Proof.
  destruct x as [[rj st] fc]. unfold complete_result. cbn [run_call].
  by rewrite !exec_bind, !exec_ret, result_gets, exec_gets, !on_scheduler_exec.
Qed.

Section Salted.
  Context (cf : SchedulerConfig) (ep : option Z) (salt : Z) (Hsalt : 0 <= salt < 2 ^ 32).

Lemma completing_grows k c l outs k' c' : completing k c l outs k' c' -> (k <= k')%nat.
Proof. induction 1; lia. Qed.

Lemma threads_Inv k c : threads cf ep salt k c -> Z.of_nat k < 2 ^ 32 - 1 -> Inv (co_sched c).
Proof.
  intros Ht Hk. eapply reachable_Inv, interleaved_reachable, threads_interleaved; [exact Hsalt|exact Ht|exact Hk].
Qed.

(** No call of a thread reopens a request. *)
Lemma call_terminal k c a id :
  threads cf ep salt k c -> Z.of_nat k < 2 ^ 32 - 1 -> own_call (co_sched c) a ->
  terminal_at (co_sched c) id -> terminal_at (co_sched (exec (run_call a) c)) id.
Proof.
  intros Ht Hk Ha. apply runs_terminal; [by apply (threads_Inv k)|]. apply run_call_runs.
  apply (own_guard salt k); [done|apply (threads_owned cf ep); [done..|lia]|lia|done].
Qed.

Lemma completing_threads k c l outs k' c' :
  completing k c l outs k' c' -> threads cf ep salt k c -> threads cf ep salt k' c'.
Proof.
  induction 1 as [|k j c a l outs k' c' Ha Hj _ IH|k j c x l outs k' c' Hx Hj _ IH]; intros Ht; [done|..]; apply IH.
  - by apply th_call.
  - rewrite complete_result_call in *. by apply th_call.
Qed.

Lemma completing_terminal k c l outs k' c' id :
  completing k c l outs k' c' -> threads cf ep salt k c -> Z.of_nat k' < 2 ^ 32 - 1 ->
  terminal_at (co_sched c) id -> terminal_at (co_sched c') id.
Proof.
  induction 1 as [|k j c a l outs k' c' Ha Hj HC IH|k j c x l outs k' c' Hx Hj HC IH]; intros Ht Hk HT; [done|..];
    pose proof (completing_grows _ _ _ _ _ _ HC).
  - apply IH; [by apply th_call|done|]. apply (call_terminal k); [done|lia|done|done].
  - rewrite complete_result_call in *. apply IH; [by apply th_call|done|]. apply (call_terminal k); [done|lia|done|done].
Qed.

Lemma completing_outcomes k c l outs k' c' :
  completing k c l outs k' c' -> threads cf ep salt k c -> Z.of_nat k' < 2 ^ 32 - 1 ->
  Forall2 (fun x rj => (u64_ok (reported_id x) -> num_u64 rj "req" 0 = reported_id x) /\
    (says_over rj = true -> terminal_at (co_sched c') (reported_id x))) l outs.
Proof.
  induction 1 as [|k j c a l outs k' c' Ha Hj HC IH|k j c x l outs k' c' Hx Hj HC IH]; intros Ht Hk; [constructor|..];
    pose proof (completing_grows _ _ _ _ _ _ HC).
  - apply IH; [by apply th_call|done].
  - assert (threads cf ep salt (k + j) (exec (complete_result w boot avail x) c)) as Ht'
      by (rewrite complete_result_call in *; by apply th_call).
    constructor; [|by apply IH]. split.
    + unfold reported_id. intros Hu. rewrite complete_result_value. by apply outcome_req.
    + intros Hov. apply (completing_terminal _ _ _ _ _ _ _ HC); [done..|]. apply complete_result_final; [|done].
      intros r Hr. pose proof (threads_Inv k c Ht ltac:(lia)) as I. apply (ro_cancelled _ _ (i_records _ I _ _ Hr)).
Qed.

End Salted.

End Interference.

(** C10: Outcomes are true under interference.  While a worker's thread reports
    the results of a message one by one, and the other threads make any calls
    between its own, the client gets one outcome for each result, in order and
    under its request's id; and every request that an outcome calls completed,
    failed, expired or cancelled is so in the scheduler when the loop is done,
    whatever happened since.  The threads owe honest completion reports and may
    take [2^32 - 2] identifiers. *)
Theorem told_outcomes_hold_under_interference `{Env} (w boot avail : Z) cf ep salt k c l outs k' c' :
  0 <= salt < 2 ^ 32 -> threads cf ep salt k c -> completing w boot avail k c l outs k' c' -> Z.of_nat k' < 2 ^ 32 - 1 ->
  reachable cf ep salt (co_sched c') /\
  Forall2 (fun x rj => (u64_ok (reported_id x) -> num_u64 rj "req" 0 = reported_id x) /\
    (says_over rj = true -> terminal_at (co_sched c') (reported_id x))) l outs.
Proof.
  intros Hs Ht HC Hk. split; [|by eapply completing_outcomes].
  eapply interleaved_reachable, threads_interleaved; [exact Hs|by eapply completing_threads|exact Hk].
Qed.

(** Two clients' requests run as one batch; between the reports of the two results
    another client submits and cancels one of them. *)
Definition two_ids : list Z := [submit_id demo_init None; submit_id demo_init None + 3].
Definition planned : Coordinator :=
  run_calls [CallSubmit (demo_spec 3); CallSubmit (demo_spec 3); CallRegister demo_registration;
             CallPlan (submit_id demo_init None) false] (new_coordinator demo_init).
Definition demo_result (id : Z) : Json :=
  jobject [("req", id_json id); ("attempt", id_json (rec_current_attempt (request_of (co_sched planned) id)));
           ("gen", id_json (rec_generation (request_of (co_sched planned) id)))]%string.
Definition demo_reported : list Reported := (fun id => (demo_result id, CS_Succeeded, FC_Internal)) <$> two_ids.
Definition started : Coordinator := run_calls ((fun id => CallStart (start_of 1 1 9 4 (demo_result id))) <$> two_ids) planned.

(** A report on a request in flight on its worker is honest. *)
Lemma flight_honest s rp :
  Inv s -> flight s (cr_worker rp) (cr_request_id rp) ->
  (forall r, requests s !! cr_request_id rp = Some r -> occupies_worker (rec_state r) = true) -> honest s rp.
Proof.
  intros [_ _ _ [_ U] _] Hf Ho r Hr _ _. split; [by apply Ho|]. intros w Hw Hfw. by apply Hw, (U w (cr_worker rp) (cr_request_id rp)).
Qed.

Lemma started_threads : threads default_scheduler_config None 5 7 started.
Proof.
  unfold started, planned, run_calls, two_ids. cbn [foreach fmap list_fmap]. rewrite !exec_bind, !exec_ret.
  do 2 (apply (th_call _ _ _ 7 0); [|done|by vm_compute]). apply (th_call _ _ _ 6 1); [|done|by vm_compute].
  apply (th_call _ _ _ 6 0); [|done|by vm_compute]. apply (th_call _ _ _ 3 3); [|done|by vm_compute].
  apply (th_call _ _ _ 0 3); [|done|by vm_compute]. apply th_init.
Qed.

(** After the first result, and after the other client's calls. *)
Definition first_result : Reported := (demo_result (submit_id demo_init None), CS_Succeeded, FC_Internal).
Definition second_result : Reported := (demo_result (submit_id demo_init None + 3), CS_Succeeded, FC_Internal).
Abbreviation one_done := (exec (complete_result 1 9 4 first_result) started).
Abbreviation joined_by_other := (exec (run_call (CallSubmit (demo_spec 3))) one_done).
Abbreviation cancelled_by_other := (exec (run_call (CallCancel (submit_id demo_init None + 3))) joined_by_other).
Abbreviation both_done := (exec (complete_result 1 9 4 second_result) cancelled_by_other).

Ltac in_flight k Ht :=
  match goal with |- honest ?s _ =>
    apply flight_honest;
    [ apply (threads_Inv default_scheduler_config None 5 ltac:(lia) k); [apply Ht|lia]
    | exists (worker_of s 1); split; [by vm_compute|eexists; by vm_compute]
    | let r := fresh in let Hr := fresh in intros r Hr; vm_compute in Hr; injection Hr as <-; reflexivity ]
  end.

Lemma first_honest : honest (co_sched started) (own_report 1 9 4 started first_result).
Proof. in_flight 7%nat started_threads. Qed.

Lemma other_threads : threads default_scheduler_config None 5 10 cancelled_by_other.
Proof.
  apply (th_call _ _ _ 10 0); [|done|by vm_compute]. apply (th_call _ _ _ 7 3); [|done|by vm_compute].
  rewrite complete_result_call. apply (th_call _ _ _ 7 0); [apply started_threads|apply first_honest|by vm_compute].
Qed.

Lemma second_honest : honest (co_sched cancelled_by_other) (own_report 1 9 4 cancelled_by_other second_result).
Proof. in_flight 10%nat other_threads. Qed.

Lemma first_ids : ids (co_sched (exec (complete_result 1 9 4 first_result) started)) = issue 0 (ids (co_sched started)).
Proof. by vm_compute. Qed.
Lemma joined_ids : ids (co_sched (exec (run_call (CallSubmit (demo_spec 3))) one_done)) = issue 3 (ids (co_sched one_done)).
Proof. by vm_compute. Qed.
Lemma cancelled_ids :
  ids (co_sched (exec (run_call (CallCancel (submit_id demo_init None + 3))) joined_by_other)) = issue 0 (ids (co_sched joined_by_other)).
Proof. by vm_compute. Qed.
Lemma second_ids :
  ids (co_sched (exec (complete_result 1 9 4 second_result) cancelled_by_other)) = issue 0 (ids (co_sched cancelled_by_other)).
Proof. by vm_compute. Qed.

Lemma told_outcomes_hold_under_interference_witness :
  demo_reachable (co_sched both_done) /\
  Forall2 (fun x rj => (u64_ok (reported_id x) -> num_u64 rj "req" 0 = reported_id x) /\
    (says_over rj = true -> terminal_at (co_sched both_done) (reported_id x)))
    [first_result; second_result]
    [result (complete_result 1 9 4 first_result) started; result (complete_result 1 9 4 second_result) cancelled_by_other].
Proof.
  apply (told_outcomes_hold_under_interference 1 9 4 default_scheduler_config None 5 7 started _ _ 10 both_done);
    [lia|apply started_threads| |lia].
  apply (cm_own 1 9 4 7 0 started first_result [second_result]); [exact first_honest|exact first_ids|].
  apply (cm_other 1 9 4 7 3 one_done (CallSubmit (demo_spec 3))); [exact I|exact joined_ids|].
  apply (cm_other 1 9 4 10 0 joined_by_other (CallCancel (submit_id demo_init None + 3))); [exact I|exact cancelled_ids|].
  apply (cm_own 1 9 4 10 0 cancelled_by_other second_result []); [exact second_honest|exact second_ids|].
  apply (cm_end 1 9 4 10 both_done).
Defined.
