(* ===== verification/Findings.v ===== *)
(** * Concrete runs that show departures from the intended behaviour

    Each lemma evaluates the model on a small run; the comment says what one
    would expect instead. *)

From S2P Require Import Prelude Enums Ids Float64 Types State Admission Queue Batch Dispatch Completion Control Accounts Handlers Machine Demo Bytes Envelope Wire Persist Net Decimal Json Protocol Executor Api LocalDriver Worker Coordinator CoordinatorSpec Interleaving System.
Open Scope Z_scope.

(** Both members of a reserved batch are cancelled before they start: no request
    is reserved any more, but the worker keeps the two units. *)
Definition cancelled_batch : Impl :=
  exec (run_op (OpCancel 101 CR_ClientRequested ""))
    (exec (run_op (OpCancel 100 CR_ClientRequested "")) demo_reserved).

Lemma cancelled_reservation_leaks :
  do_reserved_count cancelled_batch = 0 /\ wr_reserved_units (worker_of cancelled_batch 1) = 2.
Proof. by vm_compute. Qed.

(** Cancelling the reserved requests takes the still queued request 102 out of
    its tenant's queue counter. *)
Lemma cancelled_reservation_undercounts :
  do_queued_count cancelled_batch = 1 /\ from_option ten_queued 0 (tenants cancelled_batch !! 7) = 0.
Proof. by vm_compute. Qed.

(** Submitting the id of a completed request puts the old record back in the
    queue. *)
Definition resubmitted : Impl := exec (run_op (OpSubmit (demo_spec 3) (Some 100))) demo_done.

Lemma duplicate_submission_requeues :
  rec_state (request_of demo_done 100) = RS_Completed /\ rec_state (request_of resubmitted 100) = RS_Queued.
Proof. by vm_compute. Qed.

(** A report of status [Stale] takes the attempt off its worker and leaves the
    request running. *)
Definition stranded : Impl :=
  exec (run_op (OpComplete (demo_report demo_running 100 CS_Stale FC_Internal))) demo_running.

Lemma stale_report_strands :
  rec_state (request_of stranded 100) = RS_Running /\ wr_in_flight (worker_of stranded 1) !! 100 = None.
Proof. by vm_compute. Qed.

(** A worker that returns with a new boot id holds no batch, but its running units
    are not given back. *)
Definition rebooted : Impl :=
  exec (run_op (OpRegister (demo_reg <| reg_boot_id := 10 |>))) demo_running.

Lemma reboot_keeps_running_units :
  wr_batch_units (worker_of rebooted 1) = ∅ /\ wr_running_units (worker_of rebooted 1) = 2.
Proof. by vm_compute. Qed.

(** A payload that ends after its header is refused, but only after the requests
    of the recovering scheduler have been dropped. *)
Lemma failed_recovery_clears :
  let '(o, s1) := deserialize_locked (put_header demo_queued) demo_queued in
  (exists e, o = Failed e) /\ requests s1 = ∅ /\ requests demo_queued <> ∅.
Proof. vm_compute. split_and!; [by eexists|done|done]. Qed.

(** A request that was running when the state was saved comes back as running,
    although no worker has it in flight.  When its worker returns under a new
    boot id there is nothing to recover, and a cancellation only marks it: it is
    admitted and running for good. *)
Definition crashed : Impl := exec (deserialize_locked (result serialize_locked demo_running)) demo_init.
Definition crashed_later : Impl :=
  exec (run_op (OpCancel 100 CR_ClientRequested ""))
    (exec (run_op (OpRegister (demo_reg <| reg_boot_id := 10 |>))) crashed).

Lemma recovered_requests_stay_running :
  rec_state (request_of crashed 100) = RS_Running /\ wr_in_flight (worker_of crashed 1) = ∅ /\
  rec_state (request_of crashed_later 100) = RS_Running /\ global_admitted crashed_later = 3.
Proof. by vm_compute. Qed.

(** A report of success for a request that is reserved and was never started
    completes it. *)
Definition unstarted : Impl :=
  exec (run_op (OpComplete (demo_report demo_reserved 100 CS_Succeeded FC_Internal))) demo_reserved.

Lemma reserved_requests_complete :
  rec_state (request_of demo_reserved 100) = RS_Reserved /\ rec_state (request_of unstarted 100) = RS_Completed.
Proof. by vm_compute. Qed.

(** A tenant that may have no request at a time is admitted its first one. *)
Definition no_concurrency : SchedulerConfig :=
  default_scheduler_config <| cfg_admission := mkAdmissionLimits 1024 4096 64 0 512 0 true |>.
Definition one_too_many : Impl :=
  exec (run_op (OpSubmit (demo_spec 3) (Some 100))) (init_impl no_concurrency None 5).

Lemma first_request_bypasses_concurrency :
  al_default_tenant_concurrency (cfg_admission (cfg one_too_many)) = 0 /\
  rec_state (request_of one_too_many 100) = RS_Queued /\ tenant_admitted one_too_many 7 = 1.
Proof. by vm_compute. Qed.

(** A request of the same flow, enqueued sixty milliseconds after another one with
    a deadline thirty milliseconds later, stands before it. *)
Definition due_at (ms : Z) : RequestSpec := (demo_spec 3) <| spec_deadline := mkDeadline (ms * 1000000) true |>.
Definition overtaken : Impl :=
  exec (run_op (OpSubmit (due_at 130) (Some 101)))
    (Nat.iter 60 (exec (run_op OpSnapshot)) (exec (run_op (OpSubmit (due_at 100) (Some 100))) demo_init)).

Lemma later_deadlines_overtake :
  (re_id <$> fl_pending (flow_of overtaken (flow_key (due_at 100)))) = [101; 100].
Proof. by vm_compute. Qed.

(** A report on an unknown request, and a second report on a finished one, are
    refused without being counted. *)
Lemma refusals_are_not_all_counted :
  let count s := st_stale_rejected (stats s) in
  let late := demo_report demo_running 100 CS_Succeeded FC_Internal in
  count (exec (run_op (OpComplete (late <| cr_request_id := 999 |>))) demo_running) = count demo_running /\
  count (exec (run_op (OpComplete late)) demo_done) = count demo_done.
Proof. by vm_compute. Qed.

(** Bytes after the last record are not noticed. *)
Lemma trailing_bytes_are_accepted :
  result (deserialize_locked (result serialize_locked demo_queued ++ [x00; x01])) demo_init = Done tt.
Proof. by vm_compute. Qed.

(** ** Messages *)

(** Malformed input is reported, and what was read before it is returned. *)
Lemma malformed_input_gives_a_value :
  parse_json (string_bytes "7 x") = Some (JNum (f64_of_Z 7), false).
Proof. by vm_compute. Qed.

(** A cost of 2^-14 is printed with an exponent of two digits and a sign, as
    [6.103515625e-05]; the parser takes it for malformed, so the message is lost. *)
Lemma small_numbers_are_lost :
  let j := JNum (flit 1 16384) in
  dump_json j = string_bytes "6.103515625e-05" /\ parsed_or_null (dump_json j) = Some JNull.
Proof. by vm_compute. Qed.

(** Keys are printed without escapes: an object with a quote in a key is not read
    back. *)
Definition quoted_key : string := bytes_string [x61; x22; x62].
Lemma keys_are_not_escaped : parsed_or_null (dump_json (JObj [(quoted_key, JNull)])) = Some JNull.
Proof. by vm_compute. Qed.

(** The deadline is sent and not read: the request arrives without one. *)
Definition dated_spec : RequestSpec :=
  (demo_spec 3) <| spec_deadline := mkDeadline 5000000000 true |>.
Lemma deadlines_are_dropped :
  getnum (spec_to_json dated_spec) "deadline_ms" fzero = f64_of_Z 5000 /\
  (spec_deadline <$> spec_from_json (spec_to_json dated_spec)) = Some (spec_deadline default_spec).
Proof. by vm_compute. Qed.

(** An unknown operation is not answered, so the client waits for ever. *)
Lemma unknown_operations_are_not_answered :
  result (handle_one (jobject [("op", JStr "status")]%string)) demo_coordinator = Silence.
Proof. by vm_compute. Qed.

(** ** The driver *)

(** A driver that does not know the worker of the plan leaves the batch reserved. *)
Definition stranger : LocalDriver CpuExecutor := new_driver demo_queued (mkCpuExecutor 10 400000) [].
Lemma unknown_workers_leak_reservations :
  result dispatch_one stranger = false /\
  do_reserved_count (ld_sched (exec dispatch_one stranger)) = 2.
Proof. by vm_compute. Qed.

(** A worker registered again is counted again: two workers, three slots. *)
Lemma returning_workers_are_counted_twice :
  let y := exec (worker_joins worker1b) demo_system in
  result worker_count (sy_co y) = 3 /\ size (co_by_worker (sy_co y)) = 2%nat.
Proof. by vm_compute. Qed.

(** A dispatch between the two halves of a registration finds no slot for the
    worker the scheduler chose: the client is told that the worker is gone and
    the batch stays reserved. *)
Lemma dispatch_during_registration_leaks :
  let id := submit_id demo_init None in
  result (handle_dispatch id false) half_registered = Reply (held_reply id DD_NoEligibleWorker "worker_gone") /\
  do_reserved_count (co_sched (exec (handle_dispatch id false) half_registered)) = 1.
Proof. by vm_compute. Qed.
