(* ===== verification/Departures.v ===== *)
(** * Departures of the CUDA executor and of the command line

    As in [Findings], each lemma evaluates the model on a small run; the comment
    says what one would expect instead. *)

From S2P Require Import Prelude Enums Ids Float64 FloatExact Types State Admission Queue Batch Dispatch Completion Control Handlers Machine Demo Bytes Envelope EnvelopeSpec Persist PersistCodec PersistSpec Decimal Protocol Executor Api LocalDriver Cuda CudaSpec Cli CliSpec.
Open Scope Z_scope.

(** ** The CUDA executor *)

(** A device that runs, but to which nothing can be copied. *)
Definition broken_upload : CudaRuntime := {|
  rt_device_count := rt_device_count; rt_properties := rt_properties; rt_meminfo := rt_meminfo;
  rt_error_string := rt_error_string; rt_malloc := rt_malloc; rt_cudaMalloc := rt_cudaMalloc;
  rt_contents := rt_contents; rt_upload _ := 1; rt_launch := rt_launch; rt_schedule := rt_schedule;
  rt_mad := rt_mad; rt_synchronize := rt_synchronize; rt_download := rt_download; rt_cudaFree := rt_cudaFree
|}.

(** The copy fails, and the request is reported as a success with the checksum
    of whatever the device's memory held. *)
Lemma failed_uploads_succeed :
  (fun r => (wres_status r, wres_duration_us r)) <$>
    result (ex_run (Executor := @cuda_executor _ broken_upload) [demo_decode]) (@new_cuda_executor broken_upload, memory0)
  = [(CS_Succeeded, 0)].
Proof. vm_compute. reflexivity. Qed.

(** A launch that has no effect is reported as a success as well. *)
Definition broken_launch : CudaRuntime := {|
  rt_device_count := rt_device_count; rt_properties := rt_properties; rt_meminfo := rt_meminfo;
  rt_error_string := rt_error_string; rt_malloc := rt_malloc; rt_cudaMalloc := rt_cudaMalloc;
  rt_contents := rt_contents; rt_upload := rt_upload; rt_launch _ := false; rt_schedule := rt_schedule;
  rt_mad := rt_mad; rt_synchronize := rt_synchronize; rt_download := rt_download; rt_cudaFree := rt_cudaFree
|}.

Definition demo_small : WorkRequest := demo_decode <| wq_tokens := default_tokens |>.

Lemma failed_launches_succeed :
  (fun r => (wres_status r, wres_duration_us r)) <$>
    result (ex_run (Executor := @cuda_executor _ broken_launch) [demo_small]) (@new_cuda_executor broken_launch, memory0)
  = [(CS_Succeeded, low_byte_sum (cuda_elems default_tokens))].
Proof. vm_compute. reflexivity. Qed.

(** A device that releases nothing: the blocks of both requests stay allocated, and
    both are reported as successes. *)
Definition broken_free : CudaRuntime := {|
  rt_device_count := rt_device_count; rt_properties := rt_properties; rt_meminfo := rt_meminfo;
  rt_error_string := rt_error_string; rt_malloc := rt_malloc; rt_cudaMalloc := rt_cudaMalloc;
  rt_contents := rt_contents; rt_upload := rt_upload; rt_launch := rt_launch; rt_schedule := rt_schedule;
  rt_mad := rt_mad; rt_synchronize := rt_synchronize; rt_download := rt_download; rt_cudaFree _ _ := (1, false)
|}.

Lemma failed_frees_are_ignored :
  let x := ex_run (Executor := @cuda_executor _ broken_free) [demo_small; demo_small] (@new_cuda_executor broken_free, memory0) in
  wres_status <$> x.1 = [CS_Succeeded; CS_Succeeded] /\ size (device x.2.2) = 2%nat /\ length (refused x.2.2) = 2%nat.
Proof. vm_compute. split_and!; reflexivity. Qed.

(** ** The command line *)

(** The state file has lost its last byte. *)
Definition damaged_files : FS := alter (fun l => take (length l - 1) l) demo_file demo_files.

Definition requests_in (fs : FS) : option (list Z) :=
  let '(r, s) := Scheduler.recover (host_reads 0) demo_file fs demo_init in
  match r with Done _ => Some (map fst (map_to_list (requests s))) | _ => None end.

(** [submit] does not notice and replaces the file by one that holds the new
    request only. *)
Lemma submit_replaces_a_damaged_file :
  requests_in damaged_files = None /\
  (fun '(code, fs, _) => (code, length <$> requests_in fs)) <$>
    main ["cli"; "submit"; "1"; "10"; "-state"; demo_file]%string damaged_files = Some (0, Some 1%nat).
Proof. split; vm_compute; reflexivity. Qed.

(** A disk on which nothing can be renamed: the cancellation is announced and the
    exit code is 0, but the file is as it was, and the next process finds the
    request queued. *)
Definition full_disk : Host := {|
  host_salt := host_salt; host_reads := host_reads; host_writes := mkWriteCalls true 4096 true 0 false;
  host_system := host_system; host_steady := host_steady
|}.

Lemma failed_saves_exit_zero :
  (fun '(code, fs, out) => (code, fs !! demo_file, out)) <$>
    @main _ full_disk ["cli"; "cancel"; "100"; "-state"; demo_file]%string demo_files
  = Some (0, demo_files !! demo_file, ["cancelled"%string]).
Proof. vm_compute. reflexivity. Qed.

(** [-state] in the place of the tenant is taken for a tenant. *)
Lemma options_are_taken_for_arguments :
  (fun '(code, _, out) => (code, out)) <$> main ["cli"; "submit"; "-state"; "7"]%string ∅
  = (fun '(code, _, out) => (code, out)) <$> main ["cli"; "submit"; "0"; "7"; "-state"; "7"]%string ∅ /\
  arg_u64 ["cli"; "submit"; "-state"; "7"]%string 2 1 = 0 /\
  arg_u64 ["cli"; "submit"; "-state"; "7"]%string 3 10 = 7.
Proof. split_and!; vm_compute; reflexivity. Qed.

(** A drained scheduler refuses submissions; the next process on its state file
    takes them again. *)
Definition drained_files : FS :=
  match main ["cli"; "drain"; "-state"; demo_file]%string demo_files with Some (_, fs, _) => fs | None => ∅ end.

Lemma drains_end_with_the_process :
  ao_decision <$> match result (Scheduler.submit (cli_spec 1 10 RP_Prefill) None) (exec (Scheduler.begin_drain "cli") demo_saved) with
                  | Ok o => Some o | Err _ => None end = Some AD_Reject /\
  (fun '(_, _, out) => String.prefix "decision=admit" (default EmptyString (out !! 0%nat))) <$>
    main ["cli"; "submit"; "1"; "10"; "-state"; demo_file]%string drained_files = Some true.
Proof. split; vm_compute; reflexivity. Qed.
