(* ===== verification/Ledger.v ===== *)
(** * The reservation ledger of the workers

    Each worker's record carries a table of its batches with their units, the
    set of those that have started, and a counter of the reserved units that
    the dispatcher compares with what the worker has available.  The counter is
    changed by six methods ([reserve_on], [start_batch], [release_batch],
    [recover_in_flight], [do_register_worker], and through it the creation of a
    record); here it is shown to be the sum of the units of the batches that
    have not started, within the range of an [int]. *)

From S2P Require Import Prelude Enums Ids Float64 Types State Admission Queue Batch Dispatch Completion Control Frames Lifecycle Index Accounts Micro Refine Seed BatchSpec Handlers Machine Demo Safety Selection DispatchSpec Interleaving Fresh.
Open Scope Z_scope.

(** ** Sums over a table of units *)

Definition msum (m : gmap Z Z) : Z := map_fold (fun _ u acc => u + acc) 0 m.

Lemma msum_insert m b u : m !! b = None -> msum (<[b := u]> m) = u + msum m.
Proof. intros Hb. unfold msum. rewrite map_fold_insert_L; [done|intros; lia|done]. Qed.

Lemma msum_delete m b : msum (delete b m) = msum m - default 0 (m !! b).
Proof.
  destruct (m !! b) as [u|] eqn:E; cbn [default].
  - rewrite <- (insert_delete_id m b u E) at 2. rewrite msum_insert by apply lookup_delete_eq. unfold id. lia.
  - rewrite delete_id by done. lia.
Qed.

Lemma msum_nonneg m : map_Forall (fun _ u => 0 <= u) m -> 0 <= msum m.
Proof.
  induction m as [|b u m Hb IH] using map_ind; [done|]. intros [Hu Hm]%map_Forall_insert; [|done].
  rewrite msum_insert by done. specialize (IH Hm). lia.
Qed.

(** A part of a table holds no more than the table. *)
Lemma msum_filter_le m (P : Z * Z -> Prop) `{!forall p, Decision (P p)} :
  map_Forall (fun _ u => 0 <= u) m -> msum (filter P m) <= msum m.
Proof.
  induction m as [|b u m Hb IH] using map_ind; [by rewrite map_filter_empty|].
  intros [Hu Hm]%map_Forall_insert; [|done]. specialize (IH Hm). rewrite (msum_insert m) by done.
  destruct (decide (P (b, u))).
  - rewrite map_filter_insert_True, msum_insert by (done || by apply map_lookup_filter_None_2; left). lia.
  - rewrite map_filter_insert_False, delete_id by done. lia.
Qed.

Lemma msum_to_list m : msum m = fold_right (fun p acc => p.2 + acc) 0 (map_to_list m).
Proof. unfold msum. rewrite map_fold_foldr. induction (map_to_list m) as [|[b u] l IH]; simpl; congruence. Qed.

(** ** A worker's books *)

(** The batches that are reserved and have not started. *)
Definition waiting (wr : WorkerRecord) : gmap Z Z :=
  filter (fun p => p.1 ∉ wr_started_batches wr) (wr_batch_units wr).

Record book (wr : WorkerRecord) : Prop := {
  bk_sum : wr_reserved_units wr = msum (waiting wr);
  bk_units : map_Forall (fun _ u => 0 <= u) (wr_batch_units wr);
  bk_max : wr_reserved_units wr < 2 ^ 31
}.

Lemma book_nonneg wr : book wr -> 0 <= wr_reserved_units wr.
Proof.
  intros [-> Hu _]. apply msum_nonneg. intros b u [Hb _]%map_lookup_filter_Some. by apply (Hu b).
Qed.

Lemma clamp0_id x : 0 <= x -> clamp0 x = x.
Proof. intros Hx. unfold clamp0. destruct (Z.ltb_spec x 0); lia. Qed.

(** Only four fields matter. *)
Lemma book_quiet wr wr' :
  wr_reserved_units wr' = wr_reserved_units wr -> wr_batch_units wr' = wr_batch_units wr ->
  wr_started_batches wr' = wr_started_batches wr -> book wr -> book wr'.
Proof. intros E1 E2 E3 [A B C]. unfold waiting in *. split; unfold waiting; rewrite ?E1, ?E2, ?E3; done. Qed.

Lemma waiting_lookup wr b :
  waiting wr !! b = if decide (b ∈ wr_started_batches wr) then None else wr_batch_units wr !! b.
Proof.
  apply option_eq. intros u. unfold waiting. rewrite map_lookup_filter_Some. cbn [fst]. case_decide; naive_solver.
Qed.

Lemma waiting_units wr : map_Forall (fun _ u => 0 <= u) (wr_batch_units wr) -> map_Forall (fun _ u => 0 <= u) (waiting wr).
Proof. intros Hu b u Hb. rewrite waiting_lookup in Hb. case_decide; [done|]. by apply (Hu b). Qed.

(** One entry of the table. *)
Lemma waiting_part wr b : book wr -> 0 <= default 0 (waiting wr !! b) <= wr_reserved_units wr.
Proof.
  intros [Hs Hu _]. pose proof (waiting_units wr Hu) as Hw. pose proof (msum_delete (waiting wr) b) as Hd.
  pose proof (msum_nonneg (delete b (waiting wr)) ltac:(by apply map_Forall_delete)). rewrite Hs.
  destruct (waiting wr !! b) as [u|] eqn:E; cbn in *; [|lia]. pose proof (Hw b u E). unfold id in *. cbn in *. lia.
Qed.

(** A waiting batch, if it was one, leaves the table or starts. *)
Lemma book_leaves b wr wr' :
  book wr -> waiting wr' = delete b (waiting wr) -> wr_reserved_units wr' = wr_reserved_units wr - default 0 (waiting wr !! b) ->
  map_Forall (fun _ u => 0 <= u) (wr_batch_units wr') -> book wr'.
Proof.
  intros B Ew Er Hu. pose proof (waiting_part wr b B). pose proof B as [Hs _ Hm]. split; [|done|lia].
  by rewrite Ew, msum_delete, Er, Hs.
Qed.

Lemma waiting_release bid wr : waiting (release_on_worker bid wr) = delete bid (waiting wr).
Proof.
  apply map_eq. intros b. rewrite waiting_lookup. cbn. destruct (decide (b = bid)) as [->|Hne].
  - rewrite !lookup_delete_eq. by case_decide.
  - rewrite !lookup_delete_ne, waiting_lookup by done. repeat case_decide; set_solver.
Qed.

Lemma book_release bid wr : book wr -> book (release_on_worker bid wr).
Proof.
  intros B. pose proof (book_nonneg wr B). pose proof (waiting_part wr bid B) as Hp. pose proof B as [_ Hu Hm].
  apply (book_leaves bid wr); [done|apply waiting_release| |by apply map_Forall_delete].
  rewrite waiting_lookup in *. cbn. case_bool_decide as Hb; [rewrite decide_True in * by done|rewrite decide_False in * by done].
  - rewrite clamp0_id by done. simpl. lia.
  - rewrite i64_id, clamp0_id by lia. done.
Qed.

(** The start of a batch that waits moves its units to the running ones. *)
Definition start_on_worker (bid : Z) (wr : WorkerRecord) : WorkerRecord :=
  let units := default 0 (wr_batch_units wr !! bid) in
  wr <| wr_reserved_units ::= fun u => i64 (u - units) |>
     <| wr_running_units ::= fun u => i64 (u + units) |>
     <| wr_started_batches ::= fun b => {[bid]} ∪ b |>.

Lemma waiting_start bid wr : waiting (start_on_worker bid wr) = delete bid (waiting wr).
Proof.
  apply map_eq. intros b. rewrite waiting_lookup. cbn. destruct (decide (b = bid)) as [->|Hne].
  - rewrite lookup_delete_eq, decide_True by set_solver. done.
  - rewrite lookup_delete_ne, waiting_lookup by done. repeat case_decide; set_solver.
Qed.

Lemma book_start bid wr : book wr -> bid ∉ wr_started_batches wr -> book (start_on_worker bid wr).
Proof.
  intros B Hb. pose proof (waiting_part wr bid B) as Hp. pose proof B as [_ Hu Hm].
  apply (book_leaves bid wr); [done|apply waiting_start| |done].
  rewrite waiting_lookup, decide_False in * by done. cbn. rewrite i64_id by lia. done.
Qed.

(** A new batch that fits. *)
Lemma book_reserve bid units members wr :
  book wr -> wr_batch_units wr !! bid = None -> bid ∉ wr_started_batches wr -> 0 <= units ->
  wr_reserved_units wr + units < 2 ^ 31 -> book (reserved_on bid units members wr).
Proof.
  intros B Hn Hb Hu Hm. pose proof (book_nonneg wr B). pose proof B as [Hs Hus _].
  assert (wr_reserved_units (reserved_on bid units members wr) = wr_reserved_units wr + units) as E
    by (cbn; rewrite i64_id; lia).
  split; [|cbn; by apply map_Forall_insert_2|by rewrite E].
  assert (waiting (reserved_on bid units members wr) = <[bid := units]> (waiting wr)) as ->.
  { apply map_eq. intros b. rewrite waiting_lookup. cbn. destruct (decide (b = bid)) as [->|Hne].
    - by rewrite decide_False, !lookup_insert_eq.
    - by rewrite !lookup_insert_ne, waiting_lookup. }
  rewrite msum_insert, E, Hs; [lia|]. by rewrite waiting_lookup, decide_False.
Qed.

(** Recovery empties the table, and the counter with it. *)
Lemma sub_units_sum us t :
  Forall (fun p => 0 <= p.2) us -> - 2 ^ 62 <= t - fold_right (fun p acc => p.2 + acc) 0 us -> t < 2 ^ 62 ->
  sub_units us t = t - fold_right (fun p acc => p.2 + acc) 0 us.
Proof.
  unfold sub_units. revert t. induction us as [|p us IH]; intros t Hus Hl Ht; simpl in *; [lia|].
  apply Forall_cons in Hus as [Hp Hus].
  assert (0 <= fold_right (fun p acc => p.2 + acc) 0 us) by (clear - Hus; induction Hus; simpl; lia).
  rewrite i64_id by lia. rewrite IH by (done || lia). lia.
Qed.

(** The units of all batches of a worker, the running ones included. *)
Definition held_units (wr : WorkerRecord) : Z := msum (wr_batch_units wr).

Lemma recover_clears wr :
  book wr -> held_units wr < 2 ^ 62 -> clamp0 (sub_units (map_to_list (wr_batch_units wr)) (wr_reserved_units wr)) = 0.
Proof.
  intros B Hh. pose proof (book_nonneg wr B). pose proof B as [Hs Hu Hm]. unfold held_units in Hh.
  pose proof (msum_filter_le (wr_batch_units wr) (fun p => p.1 ∉ wr_started_batches wr) Hu) as Hle.
  fold (waiting wr) in Hle. rewrite msum_to_list in Hh. rewrite (msum_to_list (wr_batch_units wr)) in Hle.
  rewrite sub_units_sum; [|by rewrite map_Forall_to_list in Hu; eapply Forall_impl; [exact Hu|intros []]|lia..].
  unfold clamp0. destruct (Z.ltb_spec (wr_reserved_units wr - fold_right (fun p acc => p.2 + acc) 0 (map_to_list (wr_batch_units wr))) 0); lia.
Qed.

(** ** The operations, worker by worker *)

Definition ledger (Q : Z -> WorkerRecord -> Prop) (s : Impl) : Prop := map_Forall Q (workers s).

Lemma ledger_same Q s s' : workers s' = workers s -> keeps (ledger Q) s s'.
Proof. intros E. unfold keeps, ledger. by rewrite E. Qed.

Lemma ledger_alter Q f w s :
  (forall wr, workers s !! w = Some wr -> Q w wr -> Q w (f wr)) -> keeps (ledger Q) s (s <| workers ::= alter f w |>).
Proof.
  intros Hf HQ i wr. cbn. rewrite lookup_alter. case_decide as E; [subst i|by apply HQ].
  destruct (workers s !! w) as [wr0|] eqn:E; [|done]. intros [= <-]. apply Hf; [done|by apply HQ].
Qed.

(** Nothing but the flight list, the count of pending members and the state of a
    worker changes. *)
Record bookless (wr wr' : WorkerRecord) : Prop := {
  bl_reserved : wr_reserved_units wr' = wr_reserved_units wr;
  bl_units : wr_batch_units wr' = wr_batch_units wr;
  bl_started : wr_started_batches wr' = wr_started_batches wr;
  bl_registration : wr_registration wr' = wr_registration wr;
  bl_resource : wr_resource wr' = wr_resource wr
}.

(** A property of workers that releases and bookless changes keep. *)
Class Releases (Q : Z -> WorkerRecord -> Prop) : Prop := {
  q_bookless w wr wr' : bookless wr wr' -> Q w wr -> Q w wr';
  q_release w bid wr : Q w wr -> Q w (release_on_worker bid wr)
}.

Ltac ledger_base :=
  first [ apply ledger_same; first [reflexivity | by repeat case_match]
        | apply ledger_alter; intros ? _; first [apply q_release | apply q_bookless; by constructor ] ].

Section Walk.
  Context `{Env} (Q : Z -> WorkerRecord -> Prop) `{!Releases Q}.
  Abbreviation kept := (steps (keeps (ledger Q))).

Lemma release_batch_ledger w bid s : kept s (release_batch w bid).
Proof. unfold release_batch, modify_worker. mwalk ledger_base. Qed.
#[local] Hint Resolve release_batch_ledger : frame.
Lemma release_batch_member_ledger id w s : kept s (release_batch_member id w).
Proof. unfold release_batch_member, modify_worker, modify_rec. mwalk ledger_base. Qed.
#[local] Hint Resolve release_batch_member_ledger : frame.

Lemma make_retry_ledger id rp s : kept s (make_retry id rp).
Proof.
  unfold make_retry, release_running, enqueue_request, emit_event, put_flow, tenant_of, modify_rec, modify_stats,
    modify_tenant, next_id, clock_now. mwalk ledger_base.
Qed.
Lemma finish_failed_ledger id rp s : kept s (finish_failed id rp).
Proof.
  unfold finish_failed, release_running, release_admitted, dequeue_request, emit_event, tenant_of, modify_rec, modify_stats,
    modify_tenant, clock_now. mwalk ledger_base.
Qed.
Lemma finish_cancelled_ledger id w reason s : kept s (finish_cancelled id w reason).
Proof.
  unfold finish_cancelled, release_running, release_admitted, dequeue_request, emit_event, tenant_of, modify_rec, modify_stats,
    modify_tenant, clock_now. mwalk ledger_base.
Qed.
#[local] Hint Resolve make_retry_ledger finish_failed_ledger finish_cancelled_ledger : frame.

Lemma complete_ledger rp s : kept s (do_complete rp).
Proof.
  unfold do_complete, settle, finish_success, complete_expired, bump_stale, release_running, release_admitted, dequeue_request,
    emit_event, tenant_of, modify_rec, modify_stats, modify_tenant, clock_now. mwalk ledger_base.
Qed.
Lemma cancel_ledger id reason d s : kept s (do_cancel id reason d).
Proof. unfold do_cancel, emit_event, modify_rec, clock_now. mwalk ledger_base. Qed.
Lemma cancel_all_ledger d s : kept s (do_cancel_all_queued d).
Proof. unfold do_cancel_all_queued, cancel_queued_one, modify_rec. mwalk ledger_base. Qed.
Lemma recover_one_ledger w boot id s : kept s (recover_one w boot id).
Proof. unfold recover_one, modify_tenant, clock_now. mwalk ledger_base. Qed.

Lemma submit_ledger sp pre s : kept s (do_submit sp pre).
Proof.
  unfold do_submit, submit_admitted, insert_if_absent, enqueue_request, put_flow, emit_event, tenant_of, modify_tenant, modify_stats,
    next_id, clock_now. mwalk ledger_base.
Qed.

Lemma emit_ledger kind req att w bid detail s : kept s (emit_event kind req att w bid detail).
Proof. unfold emit_event, clock_now. mwalk ledger_base. Qed.

(** Picking, expiring and the read-only operations leave the workers alone. *)
Lemma idle_ledger s s' : same_workers s s' -> keeps (ledger Q) s s'.
Proof. intros E. apply ledger_same. by injection E. Qed.

End Walk.

(** ** What the counters rely on *)

Definition int32 (z : Z) : Prop := - 2 ^ 31 <= z < 2 ^ 31.

Section Ops.
  Context `{Env}.

(** A request whose cost fits in an [int], and whose batch limit is one. *)
Definition modest (sp : RequestSpec) : Prop :=
  0 <= ceil_cost (rd_cost_units (spec_demand sp)) < 2 ^ 31 /\ spec_max_batch_size sp < 2 ^ 31.

Definition modest_requests (s : Impl) : Prop := map_Forall (fun _ r => modest (rec_spec r)) (requests s).

Lemma modest_default : modest (rec_spec default_request).
Proof. split; [by vm_compute|done]. Qed.

Lemma modest_request_of s id : modest_requests s -> modest (rec_spec (request_of s id)).
Proof.
  intros Hm. unfold request_of. destruct (requests s !! id) as [r|] eqn:E; cbn [default]; [by apply (Hm id)|apply modest_default].
Qed.

Lemma batch_units_range s members :
  modest_requests s -> Z.of_nat (length members) <= 2 ^ 31 -> 0 <= batch_units_of s members < 2 ^ 62.
Proof.
  intros Hm. unfold batch_units_of.
  enough (forall acc, 0 <= acc -> acc + Z.of_nat (length members) * 2 ^ 31 <= 2 ^ 62 ->
    0 <= fold_left (fun acc id => i64 (acc + ceil_cost (rd_cost_units (spec_demand (rec_spec (request_of s id)))))) members acc
      <= acc + Z.of_nat (length members) * (2 ^ 31 - 1)) as Hf.
  { intros Hl. specialize (Hf 0 ltac:(lia) ltac:(lia)). lia. }
  induction members as [|id members IH]; intros acc H0 Hacc; cbn [fold_left length] in *; [lia|].
  destruct (modest_request_of s id Hm) as [Hc _]. set (c := ceil_cost _) in *. rewrite i64_id by lia.
  specialize (IH (acc + c) ltac:(lia) ltac:(lia)). lia.
Qed.

Lemma plan_members_length s request now :
  modest_requests s -> bc_max_batch_size (cfg_batch (cfg s)) < 2 ^ 31 ->
  Z.of_nat (length (plan_members s request now)) <= 2 ^ 31.
Proof.
  intros Hm Hc. unfold plan_members, form_batch. destruct (requests s !! request); [|cbn; lia].
  destruct (modest_request_of s request Hm) as [_ Hb].
  assert (1 <= batch_limit s request < 2 ^ 31) as Hl.
  { unfold batch_limit. destruct (0 <? spec_max_batch_size _) eqn:?; case_match; lia. }
  pose proof (fill_batch_length s (batch_limit s request) (request_tokens s request) [request] (batch_candidates s request now)
    ltac:(cbn; lia)) as Hf.
  destruct (fill_batch _ _ _ _ _); cbn [length] in *; lia.
Qed.

(** A worker that announced a positive capacity. *)
Record announced (w : Z) (wr : WorkerRecord) : Prop := {
  an_key : reg_worker (wr_registration wr) = w;
  an_total : 0 < cap_total_capacity_units (reg_capability (wr_registration wr));
  an_avail : int32 (res_available_capacity_units (wr_resource wr))
}.

Definition account (w : Z) (wr : WorkerRecord) : Prop := book wr /\ announced w wr.

#[export] Instance account_releases : Releases account.
Proof.
  split.
  - intros w wr wr' [E1 E2 E3 E4 E5] [B [A1 A2 A3]]. split; [by apply (book_quiet wr)|]. by split; rewrite ?E4, ?E5.
  - intros w bid wr [B A]. split; [by apply book_release|by destruct A].
Qed.

(** While a worker is registered anew or leaves. *)
Definition account_but (x w : Z) (wr : WorkerRecord) : Prop :=
  book wr /\ (w <> x -> announced w wr) /\ (w = x -> held_units wr < 2 ^ 62).

#[export] Instance account_but_releases x : Releases (account_but x).
Proof.
  split.
  - intros w wr wr' [E1 E2 E3 E4 E5] (B & A & D). unfold held_units in *. split_and!; [by apply (book_quiet wr)| |intros Hw; unfold held_units; rewrite E2; by apply D].
    intros Hw. destruct (A Hw) as [A1 A2 A3]. by split; rewrite ?E4, ?E5.
  - intros w bid wr (B & A & D). split_and!; [by apply book_release|intros Hw; by destruct (A Hw)|].
    intros Hw. specialize (D Hw). unfold held_units in *. cbn. rewrite msum_delete.
    destruct (wr_batch_units wr !! bid) as [u|] eqn:E; cbn; [|lia]. pose proof (bk_units _ B bid u E). cbn in *. unfold id. lia.
Qed.

(** ** The operations that keep books *)

Lemma start_batch_ledger w bid s : steps (keeps (ledger account)) s (start_batch w bid).
Proof.
  unfold start_batch, modify_worker. apply steps_gets_bind. apply steps_when; [exact _|]. intros Hb.
  apply steps_bind; [exact _| |apply steps_modify, ledger_same; reflexivity].
  apply steps_modify. change (keeps (ledger account) s (s <| workers ::= alter (fun wr => wr
     <| wr_reserved_units ::= fun u => i64 (u - default 0 (wr_batch_units (worker_of s w) !! bid)) |>
     <| wr_running_units ::= fun u => i64 (u + default 0 (wr_batch_units (worker_of s w) !! bid)) |>
     <| wr_started_batches ::= fun b => {[bid]} ∪ b |>) w |>)).
  apply ledger_alter. intros wr Hw [B A]. unfold worker_of in *. rewrite Hw in *. cbn [default] in *.
  split; [|by destruct A]. apply (book_start bid); [done|]. apply negb_true_iff, bool_decide_eq_false in Hb. done.
Qed.
#[local] Hint Resolve start_batch_ledger : frame.

Lemma confirm_ledger rp s :
  int32 (res_available_capacity_units (cr_worker_snapshot rp)) -> steps (keeps (ledger account)) s (do_confirm_start rp).
Proof.
  intros Hi. unfold do_confirm_start, emit_event, tenant_of, modify_rec, modify_worker, modify_tenant, modify_stats, clock_now.
  mwalk ltac:(first [ledger_base | apply ledger_alter; intros wr _ [B [A1 A2 A3]]; split; [by apply (book_quiet wr)|by split]]).
Qed.

Lemma waiting_empty wr : wr_batch_units wr = ∅ -> waiting wr = ∅.
Proof. intros E. unfold waiting. by rewrite E, map_filter_empty. Qed.

Lemma recover_ledger w s : steps (keeps (ledger (account_but w))) s (recover_in_flight w).
Proof.
  unfold recover_in_flight, modify_worker. apply steps_gets_bind. destruct (workers s !! w); [|apply steps_ret; exact _].
  apply steps_bind; [exact _|apply steps_foreach; [exact _|intros; by apply recover_one_ledger, _]|].
  set (s1 := exec _ s). apply steps_gets_bind. apply steps_bind; [exact _| |apply steps_modify, ledger_same; reflexivity].
  apply steps_modify, ledger_alter. intros wr Hw (B & A & D). unfold worker_of. rewrite Hw. cbn [default].
  pose proof (recover_clears wr B (D eq_refl)) as E. split_and!; [|done|intros _; by vm_compute].
  split; cbn; unfold id; rewrite ?E; [by rewrite waiting_empty|apply map_Forall_empty|lia].
Qed.

Lemma account_opens w s : ledger account s -> held_units (worker_of s w) < 2 ^ 62 -> ledger (account_but w) s.
Proof.
  intros HL Hh i wr Hi. destruct (HL i wr Hi) as [B A]. split_and!; [done..|]. intros ->. unfold worker_of in Hh. by rewrite Hi in Hh.
Qed.

Lemma slot_ledger w s : keeps (ledger (account_but w)) s (exec (worker_slot w) s).
Proof.
  intros HL. unfold worker_slot. rewrite exec_modify. destruct (workers s !! w) eqn:E; [done|].
  intros i wr. cbn. destruct (decide (i = w)) as [->|Hne].
  - rewrite lookup_insert_eq. intros [= <-]. split_and!; [|done|intros _; by vm_compute].
    split; [by vm_compute|apply map_Forall_empty|done].
  - rewrite lookup_insert_ne by done. apply HL.
Qed.

Definition sound_capability (cap : WorkerCapability) : Prop :=
  0 < cap_total_capacity_units cap /\ int32 (cap_available_capacity_units cap).

Lemma register_ledger reg s :
  sound_capability (reg_capability reg) -> held_units (worker_of s (reg_worker reg)) < 2 ^ 62 ->
  ledger account s -> ledger account (exec (do_register_worker reg) s).
Proof.
  intros [Ht Ha] Hh HL. unfold do_register_worker. cbv zeta. set (w := reg_worker reg) in *.
  rewrite exec_bind, exec_bind, exec_gets, exec_bind.
  assert (ledger (account_but w) (exec (worker_slot w) s)) as H1 by (by apply slot_ledger, account_opens).
  set (s1 := exec (worker_slot w) s) in *.
  match goal with |- context [exec (when ?b (recover_in_flight w)) s1] =>
    assert (steps (keeps (ledger (account_but w))) s1 (when b (recover_in_flight w))) as H2
      by (apply steps_when; [exact _|]; intros _; apply recover_ledger); specialize (H2 H1);
    set (s2 := exec (when b (recover_in_flight w)) s1) in * end.
  rewrite exec_bind. unfold modify_worker. rewrite exec_modify. apply (emit_ledger account).
  intros i wr. cbn. rewrite lookup_alter. case_decide as E; [subst i|].
  - destruct (workers s2 !! w) as [wr0|] eqn:E; [|done]. intros [= <-]. destruct (H2 w wr0 E) as (B & _ & _).
    split; [|by split]. apply (book_quiet wr0); cbn; [|done..]. apply clamp0_id. by apply book_nonneg.
  - intros Hi. destruct (H2 i wr Hi) as (B & A & _). split; [done|]. apply A. congruence.
Qed.

Lemma unregister_ledger w s :
  held_units (worker_of s w) < 2 ^ 62 -> ledger account s -> ledger account (exec (do_unregister_worker w) s).
Proof.
  intros Hh HL. unfold do_unregister_worker. rewrite exec_bind, exec_gets, result_gets. destruct (workers s !! w); [|done].
  rewrite !exec_bind. pose proof (recover_ledger w s (account_opens w s HL Hh)) as H2. set (s2 := exec _ s) in *.
  rewrite exec_ret. apply (emit_ledger account).
  rewrite exec_modify. intros i wr. cbn. intros [Hne Hi]%lookup_delete_Some. destruct (H2 i wr Hi) as (B & A & _).
  split; [done|]. apply A. congruence.
Qed.

Lemma capability_ledger w cap s :
  sound_capability cap -> steps (keeps (ledger account)) s (do_update_capability w cap).
Proof.
  intros [Ht Ha]. unfold do_update_capability, emit_event, modify_worker, clock_now.
  mwalk ltac:(first [ledger_base | apply ledger_alter; intros wr _ [B [A1 A2 A3]]; split; [by apply (book_quiet wr)|by split]]).
Qed.

Lemma worker_state_ledger w st snap s :
  match snap with Some x => int32 (res_available_capacity_units x) | None => True end ->
  steps (keeps (ledger account)) s (do_set_worker_state w st snap).
Proof.
  intros Hs. unfold do_set_worker_state, emit_event, modify_worker, clock_now.
  mwalk ltac:(first [ledger_base | apply ledger_alter; intros wr _ [B [A1 A2 A3]];
    split; [by apply (book_quiet wr)|split; [done..|by destruct snap]]]).
Qed.

(** ** The costs of the requests *)

Lemma modest_same s s' : requests s' = requests s -> keeps modest_requests s s'.
Proof. intros E. unfold keeps, modest_requests. by rewrite E. Qed.

Lemma modest_alter f id s :
  (forall r, rec_spec (f r) = rec_spec r) -> keeps modest_requests s (s <| requests ::= alter f id |>).
Proof.
  intros Hf Hm i r. cbn. rewrite lookup_alter. case_decide as E; [subst i|by apply Hm].
  destruct (requests s !! id) as [r0|] eqn:E; [|done]. intros [= <-]. rewrite Hf. by apply (Hm id).
Qed.

Lemma modest_put id r s : modest (rec_spec r) -> keeps modest_requests s (s <| requests ::= <[id := r]> |>).
Proof. intros Hr Hm. cbn. by apply map_Forall_insert_2. Qed.

Ltac modest_base :=
  first [ apply modest_same; first [reflexivity | by repeat case_match] | apply modest_alter; by intros [] ].

Lemma expire_modest id s : steps (keeps modest_requests) s (expire_request id).
Proof.
  unfold expire_request, dequeue_request, release_admitted, tenant_of, emit_event, modify_tenant,
    modify_rec, modify_stats, clock_now. mwalk modest_base.
Qed.
#[local] Hint Resolve expire_modest : frame.
Lemma plan_state_modest s : keeps modest_requests s (plan_state s).
Proof.
  intros Hm. unfold plan_state. assert (modest_requests (exec clock_now s)) as Hc by exact Hm. revert Hc.
  change (steps (keeps modest_requests) (exec clock_now s) (expire_scan (result clock_now s))). unfold expire_scan. mwalk modest_base.
Qed.

Lemma submit_modest sp pre s : modest sp -> steps (keeps modest_requests) s (do_submit sp pre).
Proof.
  intros Hsp. unfold do_submit, submit_admitted, insert_if_absent, enqueue_request, put_flow, emit_event, tenant_of, modify_tenant,
    modify_stats, next_id, clock_now.
  mwalk ltac:(first [modest_base | case_match; [done|by apply modest_put]]).
Qed.

Lemma op_modest o s :
  Inv s -> guard s o -> match o with OpSubmit sp _ => modest sp | _ => True end ->
  keeps modest_requests s (exec (run_op o) s).
Proof.
  intros I G Ho. assert ((exists sp pre, o = OpSubmit sp pre) \/ match o with OpSubmit _ _ => False | _ => True end)
    as [(sp & pre & ->)|Hn] by (destruct o; eauto).
  { cbn [run_op]. rewrite exec_unit. by apply submit_modest. }
  intros Hm id r' Hr'. destruct (op_grown o s Hn) as [ED _].
  assert (is_Some (requests s !! id)) as [r Hr] by (apply elem_of_dom; rewrite <- ED; by apply elem_of_dom).
  destruct (evolution_rtc _ _ (op_refines o s I G) id r Hr) as (r2 & Hr2 & [[E _] _ _ _]). simplify_eq. rewrite E. by apply (Hm id).
Qed.

(** ** Planning *)

(** The dispatcher takes a worker it scored. *)
Lemma select_best_in scores b : select_best scores = Some b -> b ∈ scores.
Proof.
  unfold select_best.
  enough (forall o, fold_left (fun best sc => if ws_eligible sc then match best with
      | None => Some sc | Some b => if better_score sc b then Some sc else Some b end else best) scores o = Some b ->
      o = Some b \/ b ∈ scores) as Hf by (intros E; by destruct (Hf None E)).
  induction scores as [|sc scores IH]; intros o E; simpl in E; [by left|]. apply IH in E as [E|E]; [|right; by right].
  destruct (ws_eligible sc); [|by left]. destruct o as [b0|]; [destruct (better_score sc b0)|]; simplify_eq; set_solver.
Qed.

Lemma selected_exists s members cost now :
  ledger account s -> let w := (select_worker s members cost now).1 in id_valid w = true -> is_Some (workers s !! w).
Proof.
  intros HL. cbv zeta. unfold select_worker. destruct members as [|m ms]; [done|]. cbn [fst].
  destruct (select_best _) as [b|] eqn:E; [|done]. cbn [from_option]. intros _. apply select_best_in in E.
  apply list_elem_of_fmap in E as ([w wr] & -> & Hw%elem_of_map_to_list). cbn [snd].
  destruct (HL w wr Hw) as [_ [Hk _ _]]. unfold score_worker. rewrite <- Hk in Hw. case_match; cbn; by exists wr.
Qed.

(** The next identifier names no batch of a worker. *)
Definition fresh_batch (s : Impl) : Prop :=
  map_Forall (fun _ wr => wr_batch_units wr !! (id_next (ids s)).1 = None /\ (id_next (ids s)).1 ∉ wr_started_batches wr) (workers s).

Lemma plan_state_ids s : ids (plan_state s) = ids s /\ cfg (plan_state s) = cfg s.
Proof.
  assert (steps (same (fun s => (ids s, cfg s))) (exec clock_now s) (expire_scan (result clock_now s))) as E; [|by injection E].
  unfold expire_scan, expire_request, dequeue_request, release_admitted, tenant_of, emit_event, modify_tenant,
    modify_rec, modify_stats, clock_now. mwalk ltac:(unfold same; first [reflexivity | by repeat case_match]).
Qed.

Lemma slot_exists w s : is_Some (workers s !! w) -> exec (worker_slot w) s = s.
Proof. intros [wr Hw]. unfold worker_slot. rewrite exec_modify. by rewrite Hw. Qed.

Lemma reserve_account bid units members w wr :
  account w wr -> wr_batch_units wr !! bid = None -> bid ∉ wr_started_batches wr -> 0 <= units < 2 ^ 62 ->
  (0 <? cap_total_capacity_units (reg_capability (wr_registration wr))) && (avail_units wr <? units) = false ->
  account w (reserved_on bid units members wr).
Proof.
  intros [B [A1 A2 A3]] Hn Hs Hu HF. split; [|by split]. apply book_reserve; try (done || lia).
  rewrite (proj2 (Z.ltb_lt _ _) A2) in HF. apply Z.ltb_ge in HF. unfold avail_units, int32 in *.
  pose proof (book_nonneg wr B). pose proof (bk_max wr B). rewrite i64_id in HF by lia. lia.
Qed.

Lemma plan_ledger request explain s :
  modest_requests s -> bc_max_batch_size (cfg_batch (cfg s)) < 2 ^ 31 -> fresh_batch s ->
  keeps (ledger account) s (exec (do_plan_dispatch request explain) s).
Proof.
  intros Hm Hc Hf HL. unfold do_plan_dispatch. rewrite !exec_bind. fold (plan_state s).
  rewrite result_gets, exec_gets. set (now := result clock_now s).
  destruct (plan_state_workers s) as [EW _]. destruct (plan_state_ids s) as [EI EC]. pose proof (plan_state_modest s Hm) as Hm1.
  assert (ledger account (plan_state s)) as HL1 by (unfold ledger; by rewrite EW).
  assert (fresh_batch (plan_state s)) as Hf1 by (unfold fresh_batch; by rewrite EW, EI).
  rewrite <- EC in Hc. clear EC EI EW. set (s1 := plan_state s) in *. clearbody s1.
  destruct (requests s1 !! request) as [r|]; [|done].
  destruct (is_expired _ _).
  { rewrite exec_bind. destruct (bool_decide _); [|done]. revert HL1. apply idle_ledger, expire_workers. }
  destruct (negb _ && _); [done|]. rewrite !exec_bind, !result_gets, !exec_gets. fold (plan_members s1 request now).
  set (members := plan_members s1 request now). set (units := batch_units_of s1 members).
  assert (0 <= units < 2 ^ 62) as Hu by (by apply batch_units_range, plan_members_length).
  destruct (id_valid _) eqn:HV; cbn [negb]; [|done].
  pose proof (selected_exists s1 members _ now HL1 HV) as Hx. set (w := (select_worker _ _ _ _).1) in *.
  rewrite !exec_bind, result_gets, exec_gets, slot_exists by done. destruct Hx as [wr Hw]. unfold worker_of. rewrite Hw. cbn [default].
  destruct (_ && _) eqn:HF; [done|]. rewrite !exec_bind, exec_gets, exec_ret.
  unfold modify_stats. rewrite exec_modify. change (ledger account (exec (foreach members (reserve_member w (id_next (ids s1)).1 now))
    (exec (reserve_on w (id_next (ids s1)).1 units members) (exec next_id s1)))).
  eapply (idle_ledger account); [apply reserve_all_workers|].
  change (ledger account (exec next_id s1 <| workers ::= alter (reserved_on (id_next (ids s1)).1 units members) w |>)).
  apply ledger_alter; [|exact HL1]. intros wr' Hw' Ha. change (workers s1 !! w = Some wr') in Hw'.
  assert (wr' = wr) as -> by congruence. destruct (Hf1 w wr Hw) as [Hn Hs]. by apply reserve_account.
Qed.

(** ** Every operation *)

(** What the callers and the machine owe the counters: costs and capacities
    that fit in an [int], a worker that offers something, and an identifier
    factory that has not come round. *)
Definition sober (s : Impl) (o : Op) : Prop :=
  match o with
  | OpSubmit sp _ => modest sp
  | OpPlan _ _ => fresh_batch s
  | OpStart rp => int32 (res_available_capacity_units (cr_worker_snapshot rp))
  | OpRegister reg => sound_capability (reg_capability reg) /\ held_units (worker_of s (reg_worker reg)) < 2 ^ 62
  | OpCapability _ cap => sound_capability cap
  | OpWorkerState _ _ (Some snap) => int32 (res_available_capacity_units snap)
  | OpUnregister w => held_units (worker_of s w) < 2 ^ 62
  | _ => True
  end.

Lemma prune_pending_workers k now q s : steps same_workers s (prune_pending k now q).
Proof.
  revert s. induction q as [|e q IH]; intros s; cbn [prune_pending]; unfold put_flow; [mwalk workers_base|].
  mwalk ltac:(first [workers_base | apply expire_workers | apply IH]).
Qed.
#[local] Hint Resolve expire_workers expire_scan_workers prune_pending_workers : frame.
Lemma scan_flows_workers now ks best s : steps same_workers s (scan_flows now ks best).
Proof.
  revert best s. induction ks as [|k ks IH]; intros best s; cbn [scan_flows]; unfold put_flow; [mwalk workers_base|].
  mwalk ltac:(first [workers_base | apply IH]).
Qed.
#[local] Hint Resolve scan_flows_workers : frame.
Lemma pick_workers s : steps same_workers s pick_next.
Proof. unfold pick_next, pick_seed, clock_now. mwalk workers_base. Qed.

Lemma explain_workers id s : steps same_workers s (do_explain id).
Proof. unfold do_explain, clock_now. mwalk workers_base. Qed.
Lemma flush_workers s : steps same_workers s flush_events.
Proof. unfold flush_events. mwalk workers_base. Qed.

Lemma op_ledger o s :
  modest_requests s -> bc_max_batch_size (cfg_batch (cfg s)) < 2 ^ 31 -> sober s o -> keeps (ledger account) s (exec (run_op o) s).
Proof.
  intros Hm Hc Ho. destruct o; cbn [run_op sober] in *; rewrite ?exec_unit.
  - apply submit_ledger; exact _.
  - apply idle_ledger, pick_workers.
  - by apply plan_ledger.
  - by apply confirm_ledger.
  - apply complete_ledger; exact _.
  - apply cancel_ledger; exact _.
  - intros HL. destruct Ho. by apply register_ledger.
  - by apply capability_ledger.
  - apply worker_state_ledger. by destruct snap.
  - intros HL. by apply unregister_ledger.
  - unfold do_begin_drain, emit_event, clock_now. apply ledger_same. reflexivity.
  - apply cancel_all_ledger; exact _.
  - by apply ledger_same.
  - apply idle_ledger, explain_workers.
  - by apply ledger_same.
  - by apply ledger_same.
  - by apply ledger_same.
  - apply idle_ledger, flush_workers.
Qed.

(** The states that sober callers reach. *)
Inductive accounted (c : SchedulerConfig) (ep : option Z) (salt : Z) : Impl -> Prop :=
| acc_init : accounted c ep salt (init_impl c ep salt)
| acc_step s o s' : accounted c ep salt s -> sober s o -> step s o s' -> accounted c ep salt s'.

Lemma accounted_reachable c ep salt s : accounted c ep salt s -> reachable c ep salt s.
Proof. induction 1; [apply reach_init|by eapply reach_step]. Qed.

Lemma step_cfg s o s' : Inv s -> step s o s' -> cfg s' = cfg s.
Proof.
  intros I Hst. destruct Hst as [s o G]. pose proof (op_refines o s I G) as Hm. clear I G.
  induction Hm as [|? ? ? Hm _ IH]; [done|]. rewrite IH. by apply micro_cfg.
Qed.

Lemma init_batch_limit c ep salt : cfg_batch (cfg (init_impl c ep salt)) = cfg_batch c.
Proof. cbn. by destruct (String.eqb _ _). Qed.

Lemma accounted_ledger c ep salt s :
  bc_max_batch_size (cfg_batch c) < 2 ^ 31 -> accounted c ep salt s ->
  ledger account s /\ modest_requests s /\ cfg_batch (cfg s) = cfg_batch c.
Proof.
  intros Hc. induction 1 as [|s o s' Ha (HL & Hm & EC) Ho Hst].
  { split_and!; [apply map_Forall_empty..|apply init_batch_limit]. }
  pose proof (reachable_Inv _ _ _ _ (accounted_reachable _ _ _ _ Ha)) as I. rewrite (step_cfg _ _ _ I Hst).
  destruct Hst as [s o G]. split_and!; [by apply op_ledger; rewrite ?EC| |done]. apply op_modest; [done..| |done]. by destruct o.
Qed.

End Ops.

(** ** The theorem *)

(** C23: Reservations.  When requests and workers state costs and capacities that
    fit in an [int] and the identifier factory has not come round, the reserved
    units of every worker are the sum of the units of its batches that have not
    started, at least zero and below 2^31; and a dispatch adds the units of its
    batch, whatever it is, without exceeding what the worker has available. *)
Theorem reservations_are_accounted `{Env} c ep salt s w wr :
  bc_max_batch_size (cfg_batch c) < 2 ^ 31 -> accounted c ep salt s -> workers s !! w = Some wr ->
  wr_reserved_units wr = msum (filter (fun p => p.1 ∉ wr_started_batches wr) (wr_batch_units wr)) /\
  0 <= wr_reserved_units wr < 2 ^ 31 /\
  forall request explain out,
    result (do_plan_dispatch request explain) s = Ok out -> dout_decision out = DD_Dispatch ->
    dout_worker_id out = w ->
    let wr' := worker_of (exec (do_plan_dispatch request explain) s) w in
    0 <= dout_estimated_cost_units out /\
    wr_reserved_units wr' = wr_reserved_units wr + dout_estimated_cost_units out /\
    wr_reserved_units wr' <= res_available_capacity_units (wr_resource wr').
Proof.
  intros Hc Ha Hw. destruct (accounted_ledger c ep salt s Hc Ha) as (HL & Hm & EC). destruct (HL w wr Hw) as [B [_ A2 A3]].
  pose proof (book_nonneg wr B) as H0. split_and!; [by apply bk_sum|done|by apply bk_max|].
  intros request explain out Hres Hd <-. cbv zeta.
  pose proof (reachable_Inv _ _ _ _ (accounted_reachable _ _ _ _ Ha)) as I.
  destruct (plan_dispatch_dispatched request explain s out I Hres Hd) as [_ Em Eu _ _ HF _ -> _ _ _].
  cbv zeta in HF. unfold worker_of in *. rewrite Hw in *. cbn [default id] in *. specialize (HF A2). unfold avail_units, int32 in *.
  assert (0 <= dout_estimated_cost_units out) as Hu.
  { rewrite Eu, Em. apply batch_units_range; [by apply plan_state_modest|].
    apply plan_members_length; [by apply plan_state_modest|]. rewrite (proj2 (plan_state_ids s)). by rewrite EC. }
  pose proof (bk_max wr B). rewrite i64_id in HF by lia. cbn. rewrite i64_id by lia. lia.
Qed.

#[local] Instance fresh_batch_dec s : Decision (fresh_batch s).
Proof. unfold fresh_batch. apply _. Defined.

Lemma accounted_next o s :
  accounted default_scheduler_config None 5 s -> sober s o -> guard s o ->
  accounted default_scheduler_config None 5 (exec (run_op o) s).
Proof. intros Hs Ho G. eapply acc_step; [exact Hs|exact Ho|]. by constructor. Qed.

Lemma demo_reserved_accounted : accounted default_scheduler_config None 5 demo_reserved.
Proof.
  apply accounted_next; [|apply (bool_decide_unpack _); by vm_compute|done].
  do 4 (apply accounted_next; [|solve [repeat split; by vm_compute]|by vm_compute]). apply acc_init.
Qed.

(** With one batch of two units waiting, a second one is dispatched. *)
Lemma reservations_are_accounted_witness :
  wr_reserved_units (worker_of demo_reserved 1) =
    msum (filter (fun p => p.1 ∉ wr_started_batches (worker_of demo_reserved 1)) (wr_batch_units (worker_of demo_reserved 1))) /\
  wr_reserved_units (worker_of demo_reserved 1) = 2 /\
  wr_reserved_units (worker_of (exec (do_plan_dispatch 102 false) demo_reserved) 1) = 2 + 1.
Proof.
  destruct (reservations_are_accounted default_scheduler_config None 5 demo_reserved 1 (worker_of demo_reserved 1))
    as (E & _ & HD); [by vm_compute|exact demo_reserved_accounted|by vm_compute|].
  assert (wr_reserved_units (worker_of demo_reserved 1) = 2) as E2 by by vm_compute.
  split; [exact E|]. split; [exact E2|].
  pose proof (HD 102 false) as H3. clear HD.
  assert (match result (do_plan_dispatch 102 false) demo_reserved with
          | Ok out => (dout_decision out, dout_worker_id out, dout_estimated_cost_units out) = (DD_Dispatch, 1, 1)
          | Err _ => False end) as H4 by (vm_compute; reflexivity).
  revert H3 H4. generalize (result (do_plan_dispatch 102 false) demo_reserved). intros [out|]; [|done]. intros H3 [= H4 H5 H6].
  destruct (H3 out eq_refl H4 H5) as (_ & H7 & _). cbv zeta in H7. rewrite H7, E2, H6. reflexivity.
Defined.
