(* ===== verification/Tending.v ===== *)
(** * Batches finish under interference

    From the plan of a batch to the report of its last result a worker's thread
    makes one call at a time, and between any two of them the other threads of
    the coordinator make theirs: they submit, cancel, plan, register workers,
    roll the epoch, report on other requests.  As long as nobody else reports
    on the members of the batch and the worker does not come back under another
    boot id, every member whose success is reported is completed in the end, or
    cancelled where a client asked for it. *)

From S2P Require Import Prelude Enums Ids Float64 Types State Admission Queue Batch Dispatch Completion Control Frames Lifecycle Index Accounts Micro Refine Seed BatchSpec Handlers Machine Demo Safety CompletionSpec DispatchSpec Bytes Envelope Net Decimal Json JsonSpec Protocol ProtocolSpec Executor Worker Api Reports Rounds Coordinator CoordinatorSpec Interleaving Fresh Cluster Carried Client System ClientSpec Interference.
Open Scope Z_scope.

(** ** What the other calls leave alone *)

Section Frames.
  Context `{Env}.

Ltac fbase := apply acct_fewer; acct_base.

Lemma same_workers_fewer s s' : same_workers s s' -> fewer s s'.
Proof. intros E w id. unfold flight. by injection E as -> _ _. Qed.

Lemma submit_fewer sp pre s : steps fewer s (do_submit sp pre).
Proof.
  apply same_workers_fewer. as_steps. unfold do_submit, submit_admitted, insert_if_absent, enqueue_request, put_flow, emit_event,
    tenant_of, modify_tenant, modify_stats, next_id, clock_now. mwalk workers_base.
Qed.
Lemma cancel_fewer id reason d s : steps fewer s (do_cancel id reason d).
Proof. unfold do_cancel, finish_cancelled. mwalk fbase. Qed.
Lemma expire_fewer id s : steps fewer s (expire_request id).
Proof. apply same_workers_fewer, expire_workers. Qed.
#[local] Hint Resolve expire_fewer recover_one_fewer : frame.
Lemma plan_fewer id ex s : steps fewer s (do_plan_dispatch id ex).
Proof. unfold do_plan_dispatch, expire_scan, reserve_member, reserve_on, modify_worker. mwalk fbase. Qed.
Lemma register_fewer reg s : steps fewer s (do_register_worker reg).
Proof. unfold do_register_worker, recover_in_flight, modify_worker. mwalk fbase. Qed.

(** A request that is not queued is not touched by a plan. *)
Definition record_at (i : Z) (r : RequestRecord) (s : Impl) : Prop := requests s !! i = Some r.

Lemma record_same i r s s' : requests s' = requests s -> keeps (record_at i r) s s'.
Proof. intros E. unfold keeps, record_at. by rewrite E. Qed.

Ltac record_base := apply record_same; first [reflexivity | by repeat case_match].

Lemma submit_record i r sp pre s :
  requests s !! submit_id s pre = None -> keeps (record_at i r) s (exec (do_submit sp pre) s).
Proof.
  intros Hn Hr. assert (i <> submit_id s pre) as Hi by (intros ->; unfold record_at in Hr; congruence). revert Hr.
  unfold do_submit. destruct (validate_spec sp); [|done]. rewrite exec_bind.
  assert (result (match pre with Some p => mret p | None => next_id end) s = submit_id s pre) as -> by (by destruct pre).
  intros Hr. assert (record_at i r (exec (match pre with Some p => mret p | None => next_id end) s)) as Hr1 by (by destruct pre).
  clear Hr. revert Hr1. generalize (exec (match pre with Some p => mret p | None => next_id end) s). intros s1. revert Hi.
  generalize (submit_id s pre). intros rid Hi. clear - Hi.
  match goal with |- record_at i r s1 -> record_at i r (exec ?m s1) => change (steps (keeps (record_at i r)) s1 m) end.
  unfold submit_admitted, insert_if_absent, enqueue_request, put_flow, emit_event, tenant_of, modify_tenant, modify_stats,
    next_id, modify_rec, clock_now.
  mwalk ltac:(first [record_base | unfold keeps, record_at; cbn; by rewrite lookup_alter_ne | case_match; [done|]; unfold keeps, record_at; cbn; by rewrite lookup_insert_ne]).
Qed.

Lemma expire_record i r id s :
  rec_state r <> RS_Queued -> steps (keeps (record_at i r)) s (expire_request id).
Proof.
  intros Hq Hr. unfold record_at in *. destruct (requests s !! id) as [r0|] eqn:E.
  - rewrite (expire_requests id s r0 E). case_bool_decide as Hs; [|done]. rewrite lookup_insert_ne; [done|]. intros ->. congruence.
  - unfold expire_request. rewrite exec_bind, result_gets, exec_gets. unfold request_of. by rewrite E.
Qed.

Lemma expire_scan_record i r now s :
  rec_state r <> RS_Queued -> steps (keeps (record_at i r)) s (expire_scan now).
Proof.
  intros Hq. unfold expire_scan. apply steps_gets_bind, steps_foreach; [exact _|]. intros id s' _ _. apply steps_gets_bind.
  destruct (requests s' !! id); [by apply expire_record|apply steps_ret; exact _].
Qed.

Lemma reserve_record i r w bid now l s :
  i ∉ l -> steps (keeps (record_at i r)) s (foreach l (reserve_member w bid now)).
Proof.
  revert s. induction l as [|id l IH]; intros s Hi; [apply steps_ret; exact _|]. rewrite not_elem_of_cons in Hi.
  destruct Hi as [Hne Hi]. cbn [foreach]. apply steps_bind; [exact _| |by apply IH]. unfold steps, keeps, record_at.
  by rewrite reserve_member_requests, lookup_alter_ne.
Qed.

Lemma plan_record i r request ex s :
  Inv s -> rec_state r <> RS_Queued -> keeps (record_at i r) s (exec (do_plan_dispatch request ex) s).
Proof.
  intros I Hq Hr. unfold do_plan_dispatch. rewrite !exec_bind, result_gets, exec_gets. fold (plan_state s). generalize (result clock_now s). intros now.
  pose proof (plan_state_Inv s I) as I1. assert (record_at i r (plan_state s)) as Hr1 by (by apply expire_scan_record).
  generalize dependent (plan_state s). intros s1 I1 Hr1. clear s I Hr.
  destruct (requests s1 !! request) as [r0|] eqn:Hr0; [|done].
  destruct (is_expired _ _); [rewrite exec_bind; destruct (bool_decide _); [by apply expire_record|done]|].
  destruct (negb _ && _) eqn:HB; [done|].
  assert (rec_state r0 = RS_Queued) as Hs by (eapply resting_runnable; [by eapply i_records|done]).
  rewrite !exec_bind, !result_gets, !exec_gets. fold (plan_members s1 request now).
  destruct (plan_members_queued s1 request now r0 I1 Hr0 Hs) as [_ HQ]. set (members := plan_members s1 request now) in *.
  assert (i ∉ members) as Hi.
  { intros Hi. destruct (HQ i Hi) as (r' & Hr' & Hs'). unfold record_at in Hr1. congruence. }
  destruct (negb (id_valid _)); [done|]. rewrite !exec_bind, exec_gets.
  set (w := (select_worker _ _ _ _).1). assert (record_at i r (exec (worker_slot w) s1)) as Hr2.
  { revert Hr1. unfold worker_slot. rewrite exec_modify. apply record_same. by destruct (workers s1 !! w). }
  rewrite exec_if. case_match; [done|]. rewrite !exec_bind, exec_gets, exec_ret. unfold modify_stats. rewrite exec_modify.
  apply (reserve_record i r w); [done|]. exact Hr2.
Qed.

End Frames.

(** ** The members of a batch while they are being worked on *)

Definition concluded (r : RequestRecord) : Prop := rec_state r = RS_Completed \/ rec_state r = RS_Cancelled.

(** The attempt that [k] names is the request's current one and is reserved or
    runs, on no worker but [w]; or it is over.  Where cancelling is not
    foreseen ([can]) nobody has. *)
Definition tended (w : Z) (can : Prop) (k : Z * Z * Z) (s : Impl) : Prop :=
  exists r, requests s !! k.1.1 = Some r /\ rec_current_attempt r = k.1.2 /\ rec_generation r = k.2 /\
    (can \/ rec_cancellation_requested r = false /\ rec_state r <> RS_Cancelled) /\
    (occupies_worker (rec_state r) = true /\ (forall w', w' <> w -> ~ flight s w' k.1.1) \/ concluded r).

(** What the other threads may do meanwhile. *)
Definition polite (w boot : Z) (members : list Z) (can : Z -> Prop) (a : Call) : Prop :=
  match a with
  | CallCancel id => id ∈ members -> can id
  | CallStart rp => cr_request_id rp ∈ members -> cr_worker rp = w
  | CallComplete rp => cr_request_id rp ∉ members
  | CallRegister reg => reg_worker reg = w -> reg_boot_id reg = boot
  | _ => True
  end.

Section Tended.
  Context `{Env} (w : Z).

Lemma tended_same can k s s' :
  requests s' !! k.1.1 = requests s !! k.1.1 -> fewer s s' -> tended w can k s -> tended w can k s'.
Proof.
  intros E F (r & Hr & Ha & Hg & Hc & Ho). exists r. rewrite E. split_and!; [done..|].
  destruct Ho as [[Ho Hf]|Ho]; [left|by right]. split; [done|]. intros w' Hw Hfl. by apply (Hf w' Hw), F.
Qed.

Lemma tended_record can k s s' :
  (forall r, rec_state r <> RS_Queued -> keeps (record_at k.1.1 r) s s') -> fewer s s' -> tended w can k s -> tended w can k s'.
Proof.
  intros HK F Ht. apply (tended_same can k s); [|done..]. destruct Ht as (r & Hr & _ & _ & _ & Ho). rewrite Hr. apply HK; [|exact Hr].
  destruct Ho as [[Ho _]|[Ho|Ho]]; intros E; rewrite E in Ho; done.
Qed.

Lemma tended_flushed {A} (m : M A) can k s : tended w can k (exec m s) -> tended w can k (exec (Scheduler.flushed m) s).
Proof.
  unfold tended, flight. by rewrite (Scheduler.flushed_same m requests), (Scheduler.flushed_same m workers).
Qed.

(** What is over stays as it is. *)
Lemma over_stays s s' i r :
  Inv s -> Scheduler.runs s s' -> requests s !! i = Some r -> is_terminal (rec_state r) = true -> requests s' !! i = Some r.
Proof.
  intros I Hr Hi HT. destruct (run_evolution s s' I Hr i r Hi) as (r' & Hr' & He). by rewrite <- (e_frozen _ _ He HT).
Qed.

Lemma concluded_terminal r : concluded r -> is_terminal (rec_state r) = true.
Proof. by intros [-> | ->]. Qed.

Lemma start_tended can k rp s :
  Inv s -> (cr_request_id rp = k.1.1 -> cr_worker rp = w) -> tended w can k s -> tended w can k (exec (do_confirm_start rp) s).
Proof.
  intros I Hp Ht. destruct (confirm_start_case rp s I) as [->|(r0 & now & Hr0 & Hs & _ & _ & ER & _ & HS)]; [done|].
  destruct Ht as (r & Hr & Ha & Hg & Hc & Ho). unfold tended. rewrite ER, lookup_insert. case_decide as E.
  - rewrite <- E, Hr0 in Hr. injection Hr as <-. eexists. split; [reflexivity|]. cbn. split_and!; [done..|naive_solver|].
    left. split; [done|]. destruct Ho as [[_ Hf]|[Ho|Ho]]; [|congruence..]. intros w' Hw Hfl.
    destruct (sa_flight _ _ _ _ HS _ _ Hfl) as [Hfl'|[-> _]]; [by apply (Hf w' Hw)|by apply Hw, Hp].
  - exists r. split_and!; [done..|]. destruct Ho as [[Ho Hf]|Ho]; [left|by right]. split; [done|]. intros w' Hw Hfl.
    destruct (sa_flight _ _ _ _ HS _ _ Hfl) as [Hfl'|[_ Ek]]; [by apply (Hf w' Hw)|congruence].
Qed.

(** A cancellation touches one record: the request is cancelled, or marked. *)
Record recancelled (r r' : RequestRecord) : Prop := {
  rc_attempt : rec_current_attempt r' = rec_current_attempt r;
  rc_generation : rec_generation r' = rec_generation r;
  rc_state : rec_state r' = RS_Cancelled /\ rec_state r <> RS_Running /\ is_terminal (rec_state r) = false \/
    rec_state r' = rec_state r
}.

Lemma cancel_case id reason d s :
  requests (exec (do_cancel id reason d) s) = requests s \/
  exists r r', requests s !! id = Some r /\ requests (exec (do_cancel id reason d) s) = <[id := r']> (requests s) /\ recancelled r r'.
Proof.
  unfold do_cancel. rewrite exec_bind, result_gets, exec_gets. destruct (requests s !! id) as [r|] eqn:Hr; [|by left].
  destruct (is_terminal (rec_state r)) eqn:HT; [by left|]. right. exists r. rewrite exec_bind.
  set (f := fun r : RequestRecord => r <| rec_cancel_reason := reason |>). set (s1 := exec (modify_rec id f) s).
  assert (requests s1 = <[id := f r]> (requests s)) as E1 by (unfold s1; reqs; by apply alter_Some).
  assert (forall w' txt, rec_state r <> RS_Running -> exists r', Some r = Some r /\
    requests (exec (finish_cancelled id w' txt) s1) = <[id := r']> (requests s) /\ recancelled r r') as HC.
  { intros w' txt HR. destruct (finish_cancelled_requests id w' txt s1 (f r)) as [b E]; [by rewrite E1, lookup_insert_eq|].
    change (rec_state (f r)) with (rec_state r) in E. rewrite HT, E1, insert_insert_eq in E. rewrite E.
    eexists. split_and!; [done..|]. destruct b; split; auto; left; auto. }
  assert (exists r', Some r = Some r /\
    requests (exec (modify_rec id (fun r => r <| rec_cancellation_requested := true |>)) s1) = <[id := r']> (requests s) /\
    recancelled r r') as HM.
  { reqs. rewrite E1. erewrite alter_Some by apply lookup_insert_eq. rewrite insert_insert_eq. eexists. split_and!; [done..|]. split; auto. }
  destruct (rec_state r); try done; rewrite !exec_bind, ?exec_ret; try by apply HC.
  all: destruct HM as (r' & _ & EM & HR); exists r'; split_and!; [done| |done]; rewrite <- EM; by reqs.
Qed.

Lemma cancel_tended (can : Prop) k id reason d s :
  Inv s -> (id = k.1.1 -> can) -> tended w can k s -> tended w can k (exec (do_cancel id reason d) s).
Proof.
  intros I Hp Ht. pose proof (cancel_fewer id reason d s) as F.
  destruct (cancel_case id reason d s) as [E|(r0 & r' & Hr0 & E & [Ea Eg Es])]; [apply (tended_same can k s); [by rewrite E|done..]|].
  destruct (decide (id = k.1.1)) as [->|Ek]; [|apply (tended_same can k s); [by rewrite E, lookup_insert_ne|done..]].
  destruct Ht as (r & Hr & Ha & Hg & Hc & Ho). rewrite Hr0 in Hr. injection Hr as <-.
  exists r'. rewrite E, lookup_insert_eq. split_and!; [done|congruence..|left; by apply Hp|].
  destruct Es as [[Es _]|Es]; [right; by right|]. rewrite Es.
  destruct Ho as [[Ho Hf]|Ho]; [left|right; unfold concluded in *; by rewrite Es]. split; [done|]. intros w' Hw Hfl. exact (Hf w' Hw (F _ _ Hfl)).
Qed.

(** Another worker's return, or this one's under the same boot id. *)
Lemma recover_record i r w' s :
  ~ flight s w' i -> keeps (record_at i r) s (exec (recover_in_flight w') s).
Proof.
  intros Hf Hr. unfold recover_in_flight. rewrite exec_bind, result_gets, exec_gets.
  destruct (workers s !! w') as [wr|] eqn:Hw; [|done]. rewrite !exec_bind, exec_gets. unfold modify_worker. rewrite !exec_modify.
  apply (record_same i r _ _ eq_refl). change (record_at i r (exec (foreach (merge_sort Z.le (map_to_list (wr_in_flight wr)).*1)
    (recover_one w' (reg_boot_id (wr_registration wr)))) s)).
  assert (i ∉ merge_sort Z.le (map_to_list (wr_in_flight wr)).*1) as Hi.
  { rewrite merge_sort_Permutation. intros ([j a] & -> & Hin%elem_of_map_to_list)%list_elem_of_fmap. apply Hf. exists wr. eauto. }
  revert Hi Hr. generalize (merge_sort Z.le (map_to_list (wr_in_flight wr)).*1) (reg_boot_id (wr_registration wr)). intros l b. clear.
  revert s. induction l as [|j l IH]; intros s Hi Hr; [done|]. rewrite not_elem_of_cons in Hi. destruct Hi as [Hj Hi].
  cbn [foreach]. rewrite exec_bind. apply IH; [done|]. unfold record_at. by rewrite recover_one_other.
Qed.

Lemma register_record i r reg s :
  (boot_of s (reg_worker reg) = Some (reg_boot_id reg) \/ ~ flight s (reg_worker reg) i) ->
  keeps (record_at i r) s (exec (do_register_worker reg) s).
Proof.
  intros Hb Hr. unfold do_register_worker. cbv zeta. set (w' := reg_worker reg) in *. rewrite !exec_bind, result_gets, exec_gets.
  assert (record_at i r (exec (worker_slot w') s)) as Hr1.
  { revert Hr. unfold worker_slot. rewrite exec_modify. apply record_same. by destruct (workers s !! w'). }
  pose proof (worker_slot_of w' s) as Ew. unfold modify_worker. rewrite exec_modify.
  unfold record_at. reqs. cbn [requests upd upd_workers].
  match goal with |- requests ?x !! i = Some r => change (record_at i r x) end.
  rewrite exec_when. destruct (_ && _) eqn:EB; [|done]. apply recover_record; [|done].
  destruct Hb as [Hb|Hb]; [|intros Hfl; apply Hb; by apply (steps_fewer _ _ (worker_slot_acct w' s))].
  exfalso. rewrite Ew in EB. apply andb_true_iff in EB as [_ EB%negb_true_iff]. unfold boot_of, worker_of in *.
  destruct (workers s !! w') as [wr|]; [|done]. injection Hb as Hb. cbn [default id] in EB. rewrite Hb, Z.eqb_refl in EB. done.
Qed.

Lemma register_tended can k reg boot s :
  Inv s -> (reg_worker reg = w -> reg_boot_id reg = boot) -> boot_of s w = Some boot -> tended w can k s ->
  tended w can k (exec (do_register_worker reg) s).
Proof.
  intros I Hp Hb Ht. apply (tended_same can k s); [|apply register_fewer|done].
  destruct Ht as (r & Hr & _ & _ & _ & Ho). rewrite Hr. apply register_record; [|exact Hr].
  destruct (decide (reg_worker reg = w)) as [E|E]; [left; by rewrite E, Hp|right].
  destruct Ho as [[_ Hf]|Ho]; [by apply Hf|]. intros Hf. destruct (f_running _ (i_flight _ I) _ _ Hf) as (r' & Hr' & Hs).
  rewrite Hr in Hr'. injection Hr' as <-. destruct Ho; congruence.
Qed.

(** ** Calls of the other threads *)

Lemma call_tended boot members can a c k :
  Inv (co_sched c) -> call_guard (co_sched c) a -> polite w boot members can a -> k.1.1 ∈ members ->
  boot_of (co_sched c) w = Some boot -> tended w (can k.1.1) k (co_sched c) ->
  tended w (can k.1.1) k (co_sched (exec (run_call a) c)).
Proof.
  intros I G Hp Hk Hb Ht. destruct a; cbn [run_call call_guard polite] in *; rewrite ?exec_bind, ?exec_ret, ?on_scheduler_exec,
    ?exec_modify; cbn [co_sched upd upd_co_sched]; try exact Ht; apply tended_flushed.
  - apply (tended_record _ k (co_sched c)); [|apply submit_fewer|done]. intros r _. by apply submit_record.
  - apply cancel_tended; [done| |done]. intros ->. by apply Hp.
  - apply (tended_record _ k (co_sched c)); [|apply plan_fewer|done]. intros r Hq. by apply plan_record.
  - apply start_tended; [done| |done]. intros E. apply Hp. by rewrite E.
  - apply (tended_same _ k (co_sched c)); [|apply complete_fewer|done]. apply complete_other. intros E. by rewrite <- E in Hp.
  - exact Ht.
  - by apply (register_tended _ _ _ boot).
Qed.

Lemma call_boot boot members can a c :
  polite w boot members can a -> boot_of (co_sched c) w = Some boot -> boot_of (co_sched (exec (run_call a) c)) w = Some boot.
Proof.
  intros Hp Hb. destruct a; cbn [run_call polite] in *; rewrite ?exec_bind, ?exec_ret, ?on_scheduler_exec, ?exec_modify;
    cbn [co_sched upd upd_co_sched]; try exact Hb.
  - by rewrite (au_boot _ _ (submit_boots sp (co_sched c))).
  - by rewrite (au_boot _ _ (cancel_boots id CR_ClientRequested "client" (co_sched c))).
  - destruct (flushed_kept _ _ (plan_dispatch_kept id explain (co_sched c))) as [_ B]. exact (B w boot Hb).
  - destruct (flushed_kept _ _ (confirm_start_kept rp (co_sched c))) as [_ B]. exact (B w boot Hb).
  - by apply complete_boot.
  - exact (roll_epoch_boots (co_sched c) w boot Hb).
  - destruct (register_boots reg (co_sched c)) as [H1 H2]. destruct (decide (w = reg_worker reg)) as [E|E]; [|by apply H2].
    rewrite E, H1. by rewrite Hp.
Qed.

End Tended.

(** ** The thread's loop *)

Section Loop.
  Context `{Env} (w boot avail : Z) (can : Z -> Prop).

(** The loop over the results [l] with the calls of other threads in between. *)
Inductive attending : Coordinator -> list Reported -> list Json -> Coordinator -> Prop :=
| at_end c : attending c [] [] c
| at_other c a l outs c' :
    call_guard (co_sched c) a -> polite w boot (reported_id <$> l) can a ->
    attending (exec (run_call a) c) l outs c' -> attending c l outs c'
| at_own c x l outs c' :
    attending (exec (complete_result w boot avail x) c) l outs c' ->
    attending c (x :: l) (result (complete_result w boot avail x) c :: outs) c'.

Definition tended_result (c : Coordinator) (x : Reported) : Prop :=
  tended w (can (reported_id x)) (result_of x.1.1) (co_sched c).

(** Completed, or cancelled where that was foreseen. *)
Definition brought_to_end (x : Reported) (s : Impl) : Prop :=
  exists r, requests s !! reported_id x = Some r /\
    (rec_state r = RS_Completed \/ rec_state r = RS_Cancelled /\ can (reported_id x)).

Lemma brought_stays x s s' : Inv s -> Scheduler.runs s s' -> brought_to_end x s -> brought_to_end x s'.
Proof.
  intros I Hr (r & Hx & Hs). exists r. split; [|done]. eapply over_stays; [done..|]. by destruct Hs as [-> |[-> _]].
Qed.

Lemma tended_held p k s : tended w p k s -> held w k s.
Proof.
  intros (r0 & Hr0 & _ & _ & _ & Ho) r Hr _ _ HL. rewrite Hr0 in Hr. injection Hr as <-.
  destruct Ho as [Ho|Ho%concluded_terminal]; [done|]. unfold live in HL. by rewrite Ho in HL.
Qed.

Lemma own_runs x c : tended_result c x -> Scheduler.runs (co_sched c) (co_sched (exec (complete_result w boot avail x) c)).
Proof. intros Ht. rewrite complete_result_sched. apply (held_complete_runs w); [done|]. by apply (tended_held (can (reported_id x))). Qed.

(** The thread's own step leaves the other members as they were, *)
Lemma own_others x y c :
  reported_id x <> reported_id y -> tended_result c y -> tended_result (exec (complete_result w boot avail x) c) y.
Proof.
  intros Hne Ht. unfold tended_result. rewrite complete_result_sched. apply tended_flushed.
  eapply tended_same; [apply complete_other; exact (not_eq_sym Hne)|apply complete_fewer|exact Ht].
Qed.

(** and finishes the one whose success it reports. *)
Lemma own_ends x c :
  Inv (co_sched c) -> boot_of (co_sched c) w = Some boot -> x.1.2 = CS_Succeeded -> tended_result c x ->
  brought_to_end x (co_sched (exec (complete_result w boot avail x) c)).
Proof.
  intros I Hb Hst Ht. pose proof (own_runs x c Ht) as Hruns. destruct Ht as (r & Hr & Ha & Hg & Hc & Ho).
  change (result_of x.1.1).1.1 with (reported_id x) in *. destruct Ho as [[Ho _]|Ho].
  - pose proof (occupies_live _ Ho) as HL. rewrite complete_result_sched.
    set (rp := report_of (epoch (co_sched c)) w boot avail x.1.1 x.1.2 x.2).
    destruct (complete_ends rp (co_sched c) r) as (r' & Hr' & Eq & Hs); try done.
    + unfold live in HL. by apply negb_true_iff in HL.
    + by apply (ro_cancelled _ _ (i_records _ I _ _ Hr)).
    + exists r'. split; [exact Hr'|]. rewrite Hs. destruct Hc as [Hc|[Hc _]]; [destruct (rec_cancellation_requested r); auto|rewrite Hc; auto].
  - exists r. split; [by eapply over_stays; [..|apply concluded_terminal]|]. destruct Ho as [Ho|Ho]; [by left|right]. by destruct Hc as [Hc|[_ Hc]].
Qed.

Lemma attending_ends c l outs c' :
  attending c l outs c' -> Inv (co_sched c) -> boot_of (co_sched c) w = Some boot -> NoDup (reported_id <$> l) ->
  (forall x, x ∈ l -> tended_result c x) ->
  Scheduler.runs (co_sched c) (co_sched c') /\ forall x, x ∈ l -> x.1.2 = CS_Succeeded -> brought_to_end x (co_sched c').
Proof.
  induction 1 as [c|c a l outs c' G Hp _ IH|c x l outs c' _ IH]; intros I Hb ND HT.
  - split; [done|set_solver].
  - pose proof (run_call_runs a c G) as Hr. pose proof (runs_Inv _ _ I Hr) as I'.
    destruct IH as [Hr' HE]; [done|by eapply call_boot|done| |].
    + intros x Hx. apply (call_tended w boot (reported_id <$> l) can a c (result_of x.1.1)); try done; [|by apply HT].
      by apply (list_elem_of_fmap_2 reported_id).
    + split; [by etrans|exact HE].
  - pose proof (own_runs x c (HT x ltac:(set_solver))) as Hr. pose proof (runs_Inv _ _ I Hr) as I'.
    cbn [fmap list_fmap] in ND. apply NoDup_cons in ND as [Hni ND]. destruct IH as [Hr' HE]; [done| |done| |].
    + rewrite complete_result_sched. by apply complete_boot.
    + intros y Hy. apply own_others; [|apply HT; set_solver]. intros E. apply Hni. rewrite E. by apply (list_elem_of_fmap_2 reported_id).
    + split; [by etrans|]. intros y [->|Hy]%elem_of_cons Hst; [|by apply HE].
      apply (brought_stays _ _ _ I' Hr'). apply own_ends; [done..|]. apply HT. set_solver.
Qed.

End Loop.

(** ** The theorem *)

(** What a plan leaves is in the worker's hands. *)
Lemma planned_tended `{Env} w (can : Prop) s i r :
  Inv s -> reserved_at s i -> requests s !! i = Some r -> can \/ rec_cancellation_requested r = false ->
  tended w can (i, rec_current_attempt r, rec_generation r) s.
Proof.
  intros I Hres Hr Hc. destruct Hres as (r' & Hr' & Hs). rewrite Hr in Hr'. injection Hr' as <-.
  exists r. cbn [fst snd]. rewrite Hs. split_and!; [done..|destruct Hc; auto|]. left. split; [done|].
  intros w' _ Hf. destruct (f_running _ (i_flight _ I) _ _ Hf) as (r2 & ? & ?). congruence.
Qed.

(** The result [x] names the current attempt of a request, and nobody has asked to
    cancel it, or somebody may. *)
Definition names_attempt `{Env} (can : Z -> Prop) (s : Impl) (x : Reported) : Prop :=
  exists r, requests s !! reported_id x = Some r /\ result_of x.1.1 = (reported_id x, rec_current_attempt r, rec_generation r) /\
    (can (reported_id x) \/ rec_cancellation_requested r = false).

(** C11: Batches finish under interference.  After a dispatch the thread of the
    chosen worker reports starts and results one call at a time, and between
    its calls the other threads submit, cancel, plan, register workers, roll
    the epoch and report on other requests as they like.  If nobody else
    reports on the members that are not yet reported, and the worker is not
    registered anew under another boot id, the scheduler stays in a reachable
    state, and every member whose success is reported ends completed, or
    cancelled if it is one of those ([can]) a client may cancel. *)
Theorem batches_finish_under_interference `{Env} cf ep salt c0 id ex out boot avail can l outs c' :
  reachable cf ep salt (co_sched c0) -> result (Scheduler.plan_dispatch id ex) (co_sched c0) = Ok out ->
  dout_decision out = DD_Dispatch -> boot_of (co_sched c0) (dout_worker_id out) = Some boot ->
  let c := exec (run_call (CallPlan id ex)) c0 in
  NoDup (reported_id <$> l) -> (forall x, x ∈ l -> reported_id x ∈ dout_batch_members out /\ names_attempt can (co_sched c) x) ->
  attending (dout_worker_id out) boot avail can c l outs c' ->
  reachable cf ep salt (co_sched c') /\
  forall x, x ∈ l -> x.1.2 = CS_Succeeded -> exists r, requests (co_sched c') !! reported_id x = Some r /\
    (rec_state r = RS_Completed \/ rec_state r = RS_Cancelled /\ can (reported_id x)).
Proof.
  intros Hre Hp Hd Hb c ND Hl Hat. pose proof (reachable_Inv _ _ _ _ Hre) as I.
  pose proof (run_call_runs (CallPlan id ex) c0 Logic.I) as Hr. fold c in Hr. pose proof (runs_Inv _ _ I Hr) as I'.
  destruct (plan_dispatch_reserved id ex (co_sched c0) out I Hp Hd) as (_ & _ & HM).
  destruct (attending_ends (dout_worker_id out) boot avail can c l outs c' Hat I') as [Hr' HE]; [|done| |].
  - by apply (call_boot _ boot [] can (CallPlan id ex)).
  - intros x Hx. destruct (Hl x Hx) as (Hin & r & Hrq & Ek & Hc). unfold tended_result. rewrite Ek.
    apply planned_tended; [done| |done|done]. specialize (HM _ Hin). subst c. cbn [run_call].
    by rewrite exec_bind, exec_ret, on_scheduler_exec.
  - split; [|exact HE]. apply (run_reachable _ _ _ _ _ (run_reachable _ _ _ _ _ Hre Hr) Hr').
Qed.

(** Two requests are planned as one batch; both start, the first is reported, the
    epoch is rolled, another client cancels the second, and it is reported. *)
Definition demo_ready : Coordinator :=
  run_calls [CallSubmit (demo_spec 3); CallSubmit (demo_spec 3); CallRegister demo_registration] (new_coordinator demo_init).
Definition demo_can (i : Z) : Prop := i = submit_id demo_init None + 3.
Definition demo_plan : DispatchOutcome :=
  match result (Scheduler.plan_dispatch (submit_id demo_init None) false) (co_sched demo_ready) with
  | Ok out => out | Err _ => default_dispatch_outcome end.

Abbreviation at0 := (exec (run_call (CallPlan (submit_id demo_init None) false)) demo_ready).
Abbreviation at1 := (exec (run_call (CallStart (start_of 1 1 9 4 (demo_result (submit_id demo_init None))))) at0).
Abbreviation at2 := (exec (run_call (CallStart (start_of 1 1 9 4 (demo_result (submit_id demo_init None + 3))))) at1).
Abbreviation at3 := (exec (complete_result 1 9 4 first_result) at2).
Abbreviation at4 := (exec (run_call CallRollEpoch) at3).
Abbreviation at5 := (exec (run_call (CallCancel (submit_id demo_init None + 3))) at4).
Abbreviation at6 := (exec (complete_result 1 9 4 second_result) at5).

Lemma demo_ready_reachable : demo_reachable (co_sched demo_ready).
Proof.
  eapply interleaved_reachable, (threads_interleaved _ _ _ 6); [lia| |lia]. unfold demo_ready, run_calls. cbn [foreach].
  rewrite !exec_bind, !exec_ret. apply (th_call _ _ _ 6 0); [|done|by vm_compute]. apply (th_call _ _ _ 3 3); [|done|by vm_compute].
  apply (th_call _ _ _ 0 3); [|done|by vm_compute]. apply th_init.
Qed.

Lemma demo_attending :
  attending 1 9 4 demo_can at0 [first_result; second_result]
    [result (complete_result 1 9 4 first_result) at2; result (complete_result 1 9 4 second_result) at5] at6.
Proof.
  apply (at_other 1 9 4 demo_can at0 (CallStart (start_of 1 1 9 4 (demo_result (submit_id demo_init None))))); [done..|].
  apply (at_other 1 9 4 demo_can at1 (CallStart (start_of 1 1 9 4 (demo_result (submit_id demo_init None + 3))))); [done..|].
  apply (at_own 1 9 4 demo_can at2). apply (at_other 1 9 4 demo_can at3 CallRollEpoch); [done..|].
  apply (at_other 1 9 4 demo_can at4 (CallCancel (submit_id demo_init None + 3))); [done|done|].
  apply (at_own 1 9 4 demo_can at5). apply at_end.
Qed.

Lemma batches_finish_under_interference_witness :
  demo_reachable (co_sched at6) /\
  exists r, requests (co_sched at6) !! reported_id first_result = Some r /\
    (rec_state r = RS_Completed \/ rec_state r = RS_Cancelled /\ demo_can (reported_id first_result)).
Proof.
  assert (dout_worker_id demo_plan = 1 /\ dout_batch_members demo_plan = [reported_id first_result; reported_id second_result])
    as [Ew Em] by (split; by vm_compute).
  destruct (batches_finish_under_interference default_scheduler_config None 5 demo_ready (submit_id demo_init None) false demo_plan 9 4
    demo_can [first_result; second_result]
    [result (complete_result 1 9 4 first_result) at2; result (complete_result 1 9 4 second_result) at5] at6) as [HR HE].
  - exact demo_ready_reachable.
  - by vm_compute.
  - by vm_compute.
  - by vm_compute.
  - apply (bool_decide_unpack _). by vm_compute.
  - intros x Hx. split.
    + rewrite Em. by apply (list_elem_of_fmap_2 reported_id) in Hx.
    + apply elem_of_cons in Hx as [->|Hx%list_elem_of_singleton]; [|subst x]; eexists;
        (split; [by vm_compute|split; [by vm_compute|right; by vm_compute]]).
  - rewrite Ew. exact demo_attending.
  - split; [exact HR|]. apply HE; [by left|done].
Defined.
