(* ===== verification/Clock.v ===== *)
(** * The clock

    Models [include/inference_scheduler/clock.hpp]: a [Clock] is what can be read,
    [SystemClock] reads the steady clock (whose readings are a parameter, [Env]),
    and [SimulatedClock] stands where it was put.  A scheduler under a simulated
    clock keeps its invariant whatever the clock is made to show, and its queued
    requests expire exactly when the clock has been advanced by their
    allowance. *)

From S2P Require Import Prelude Enums Ids Float64 Types State Admission Queue Batch Dispatch Completion Control Frames Lifecycle Index Accounts Micro Refine Seed BatchSpec Handlers Machine Demo Safety DispatchSpec Tending.
Open Scope Z_scope.

(** ** The interface and its two implementations *)

Class Clock (C : Type) := now : C -> Z.

(** The steady clock at its [n]-th reading. *)
Definition SystemClock : Type := nat.
#[export] Instance SystemClock_now `{Env} : Clock SystemClock := env_clock.

Record SimulatedClock := mkSimulatedClock { sim_now : Z }.
#[export] Instance SimulatedClock_now : Clock SimulatedClock := sim_now.

Definition advance (d : Z) (c : SimulatedClock) : SimulatedClock := mkSimulatedClock (i64 (sim_now c + d)).
Definition set_clock (t : Z) (_ : SimulatedClock) : SimulatedClock := mkSimulatedClock t.

(** What a scheduler reads from a simulated clock that stands still during a
    call. *)
Definition standing `{Env} (c : SimulatedClock) : Env := {|
  env_clock _ := now c;
  env_cast := env_cast;
  env_f64_string := env_f64_string
|}.

(** ** A scheduler under a simulated clock *)

Inductive SimAction :=
| SimAdvance (d : Z)
| SimSet (t : Z)
| SimOp (o : Op).

Section Simulation.
  Context `{Env}.

Definition sim_step (a : SimAction) (cs : SimulatedClock * Impl) : SimulatedClock * Impl :=
  match a with
  | SimAdvance d => (advance d cs.1, cs.2)
  | SimSet t => (set_clock t cs.1, cs.2)
  | SimOp o => (cs.1, exec (@run_op (standing cs.1) o) cs.2)
  end.

(** The states a scheduler reaches under a clock that starts at [t]. *)
Inductive simulated (cf : SchedulerConfig) (ep : option Z) (salt t : Z) : SimulatedClock * Impl -> Prop :=
| sim_init : simulated cf ep salt t (mkSimulatedClock t, init_impl cf ep salt)
| sim_next cs a : simulated cf ep salt t cs -> match a with SimOp o => guard cs.2 o | _ => True end ->
    simulated cf ep salt t (sim_step a cs).

Lemma simulated_Inv cf ep salt t cs : simulated cf ep salt t cs -> Inv cs.2.
Proof.
  induction 1 as [|cs a _ IH G]; [eapply (@reachable_Inv H cf ep salt), reach_init|]. destruct a; cbn [sim_step snd]; [done..|].
  eapply Inv_rtc; [|exact IH]. by apply (@op_refines (standing cs.1)).
Qed.

(** ** Expiry *)

Lemma expire_elsewhere id i s : i <> id -> requests (exec (expire_request id) s) !! i = requests s !! i.
Proof.
  intros Hi. destruct (requests s !! id) as [r|] eqn:E.
  - rewrite (expire_requests id s r E). case_bool_decide; [|done]. by rewrite lookup_insert_ne.
  - unfold expire_request. rewrite exec_bind, result_gets, exec_gets. unfold request_of. by rewrite E.
Qed.

(** The body of the scan's loop. *)
Abbreviation expire_known := (fun id => o ← gets (fun s => requests s !! id);
  match o with Some _ => expire_request id | None => mret tt end).

Lemma expire_known_elsewhere id i s : i <> id -> requests (exec (expire_known id) s) !! i = requests s !! i.
Proof. intros Hi. cbv beta. rewrite exec_bind, result_gets, exec_gets. destruct (requests s !! id); [by apply expire_elsewhere|done]. Qed.

Lemma expire_list_other l s i : i ∉ l -> requests (exec (foreach l expire_known) s) !! i = requests s !! i.
Proof.
  revert s. induction l as [|id l IH]; intros s Hi; [done|]. rewrite not_elem_of_cons in Hi. destruct Hi as [Hne Hi].
  cbn [foreach]. by rewrite exec_bind, IH, expire_known_elsewhere.
Qed.

Lemma expire_list l s i r :
  NoDup l -> requests s !! i = Some r -> rec_state r = RS_Queued ->
  requests (exec (foreach l expire_known) s) !! i = Some (if bool_decide (i ∈ l) then set_expired r else r).
Proof.
  intros ND Hr Hs. revert s Hr. induction l as [|id l IH]; intros s Hr; [by rewrite bool_decide_eq_false_2 by set_solver|].
  apply NoDup_cons in ND as [Hni ND]. cbn [foreach]. rewrite exec_bind. destruct (decide (i = id)) as [<-|Hne].
  - rewrite expire_list_other, bool_decide_eq_true_2 by (done || set_solver). cbv beta. rewrite exec_bind, result_gets, exec_gets, Hr.
    by rewrite (expire_requests i s r Hr), bool_decide_eq_true_2, lookup_insert_eq.
  - rewrite IH by (done || by rewrite expire_known_elsewhere).
    by assert (bool_decide (i ∈ id :: l) = bool_decide (i ∈ l)) as -> by (apply bool_decide_ext; set_solver).
Qed.

(** The scan that every plan starts with expires the requests that are due and no
    other. *)
Lemma expire_scan_exact t s i r :
  QInv s -> requests s !! i = Some r -> rec_state r = RS_Queued ->
  requests (exec (expire_scan t) s) !! i = Some (if is_expired (rec_spec r) t then set_expired r else r).
Proof.
  intros Q Hr Hs. unfold expire_scan. rewrite exec_bind, result_gets, exec_gets.
  rewrite (expire_list _ s i r); [|apply NoDup_ListNoDup, List.NoDup_filter, NoDup_ListNoDup, NoDup_elements|done..].
  assert (i ∈ List.filter (expirable s t) (elements (queued s)) <-> is_expired (rec_spec r) t = true) as E.
  { rewrite list_elem_of_In, List.filter_In, <- list_elem_of_In, elem_of_elements, (q_queued _ Q). unfold expirable. rewrite Hr, Hs. naive_solver. }
  case_bool_decide as Hb; [by rewrite (proj1 E Hb)|]. destruct (is_expired (rec_spec r) t); [|done]. by destruct Hb; apply E.
Qed.

(** What a queued request may undergo from [expire_request] at [now]. *)
Definition due (i now : Z) (s s' : Impl) : Prop :=
  forall r, requests s !! i = Some r ->
    requests s' !! i = Some r \/
    (rec_state r = RS_Queued /\ is_expired (rec_spec r) now = true /\
     requests s' !! i = Some (set_expired r)).

#[export] Instance due_preorder i now : PreOrder (due i now).
Proof.
  split; [by intros s r Hr; left|]. intros s1 s2 s3 H1 H2 r Hr.
  destruct (H1 r Hr) as [Hr2|(Hs & He & Hr2)].
  - destruct (H2 r Hr2) as [|(? & ? & ?)]; auto.
  - right. split_and!; [done..|]. by destruct (H2 _ Hr2) as [|[? _]].
Qed.

Lemma due_same i now s s' : requests s' = requests s -> due i now s s'.
Proof. intros E r Hr. left. by rewrite E. Qed.

Lemma expire_scan_due i now s : Inv s -> due i now s (exec (expire_scan now) s).
Proof.
  intros I r Hr. destruct (decide (rec_state r = RS_Queued)) as [Hs|Hs].
  - rewrite (expire_scan_exact now s i r (i_queue _ I) Hr Hs).
    destruct (is_expired _ _) eqn:He; [by right|by left].
  - left. exact (expire_scan_record i r now s Hs Hr).
Qed.

Lemma expire_due i now id r s :
  requests s !! id = Some r -> is_expired (rec_spec r) now = true -> due i now s (exec (expire_request id) s).
Proof.
  intros Hr He r' Hr'. rewrite (expire_requests id s r Hr). case_bool_decide as Hs; [|by left].
  rewrite lookup_insert. case_decide as E; [|by left]. subst i. simplify_eq. by right.
Qed.

Lemma prune_pending_due i now k q s : due i now s (exec (prune_pending k now q) s).
Proof.
  revert s. induction q as [|top q IH]; intros s; cbn [prune_pending]; [by apply due_same|].
  rewrite !exec_bind, !result_gets, !exec_gets.
  destruct (requests s !! re_id top) as [r|] eqn:Hr.
  2:{ rewrite exec_bind. etrans; [|apply IH]. by apply due_same. }
  destruct (_ || _); [rewrite exec_bind; etrans; [|apply IH]; by apply due_same|].
  destruct (is_expired _ _) eqn:He; [|by apply due_same]. rewrite !exec_bind. etrans; [|apply IH].
  set (s1 := exec (modify _) s). trans s1; [by apply due_same|]. by apply (expire_due i now (re_id top) r).
Qed.

Lemma scan_flows_due i now ks best s : due i now s (exec (scan_flows now ks best) s).
Proof.
  revert best s. induction ks as [|k ks IH]; intros best s; cbn [scan_flows]; [by apply due_same|].
  rewrite !exec_bind, result_gets, exec_gets. set (s1 := exec (put_flow _ _) s).
  trans s1; [by apply due_same|]. etrans; [apply prune_pending_due|]. case_match; rewrite exec_bind; (etrans; [|apply IH]); by apply due_same.
Qed.

(** Choosing the next request after the scan expires nothing else. *)
Lemma pick_after_scan i now s : due i now s (exec (pick_seed now) s).
Proof.
  unfold pick_seed. rewrite !exec_bind, result_gets, exec_gets. etrans; [apply scan_flows_due|].
  apply due_same. by destruct (result (scan_flows _ _ _) _) as [[? ?]|].
Qed.

Lemma pick_due i s : Inv s -> due i (result clock_now s) s (exec pick_next s).
Proof.
  intros I. unfold pick_next. rewrite !exec_bind.
  assert (due i (result clock_now s) s (exec clock_now s)) as H1 by by apply due_same.
  assert (Inv (exec clock_now s)) as I1 by by apply clock_now_Inv.
  etrans; [exact H1|]. etrans; [by apply expire_scan_due|]. apply pick_after_scan.
Qed.

(** The first half of [plan_next]: a queued request is expired if it is due, and
    otherwise as it was. *)
Lemma pick_exact i r s :
  Inv s -> requests s !! i = Some r -> rec_state r = RS_Queued ->
  requests (exec pick_next s) !! i = Some (if is_expired (rec_spec r) (result clock_now s) then set_expired r else r).
Proof.
  intros I Hr Hs. unfold pick_next. rewrite !exec_bind.
  assert (Inv (exec clock_now s)) as I1 by by apply clock_now_Inv.
  pose proof (expire_scan_exact (result clock_now s) (exec clock_now s) i r (i_queue _ I1) Hr Hs) as He.
  destruct (pick_after_scan i (result clock_now s) _ _ He) as [|(Hq & Hx & _)]; [done|].
  destruct (is_expired (rec_spec r) (result clock_now s)) eqn:Ex; [done|congruence].
Qed.

(** ** Advancing the clock *)

Definition advances (ds : list Z) (c : SimulatedClock) : SimulatedClock := foldl (fun c d => advance d c) c ds.
Definition elapsed (ds : list Z) : Z := fold_right Z.add 0 ds.

Lemma elapsed_nonneg ds : Forall (fun d => 0 <= d) ds -> 0 <= elapsed ds.
Proof. induction 1; simpl; lia. Qed.

Lemma advances_elapsed ds c :
  Forall (fun d => 0 <= d) ds -> - 2 ^ 63 <= sim_now c -> sim_now c + elapsed ds < 2 ^ 63 ->
  now (advances ds c) = sim_now c + elapsed ds.
Proof.
  intros Hds. revert c. induction Hds as [|d ds Hd Hds IH]; intros c Hl Hu; unfold advances in *; simpl in *; [unfold now, SimulatedClock_now; lia|].
  pose proof (elapsed_nonneg ds Hds). rewrite IH; unfold advance; simpl; rewrite i64_id by lia; lia.
Qed.

End Simulation.

(** ** The theorem *)

(** C35: Deadlines under a simulated clock.  A queued request whose deadline was
    set [d] nanoseconds ahead of the clock, and that is still queued after the
    clock was advanced step by step, is expired when the scheduler next looks
    for work (the first half of [plan_next]) if the steps add up to at least
    [d], and is otherwise still queued, its record as it was.  (The readings
    and the deadline are within the clock's 64 bits.) *)
Theorem deadlines_expire_on_time `{Env} cf ep salt t s i r d t0 ds :
  let c := advances ds (mkSimulatedClock t0) in
  simulated cf ep salt t (c, s) -> requests s !! i = Some r -> rec_state r = RS_Queued ->
  spec_deadline (rec_spec r) = deadline_after d t0 -> 0 <= d -> - 2 ^ 63 <= t0 -> t0 + d < 2 ^ 63 ->
  Forall (fun d => 0 <= d) ds -> t0 + elapsed ds < 2 ^ 63 ->
  exists r', requests (sim_step (SimOp OpPick) (c, s)).2 !! i = Some r' /\
    if d <=? elapsed ds
    then rec_state r' = RS_Expired /\ rec_terminal_reason r' = "deadline_expired"%string
    else r' = r.
Proof.
  intros c Hsim Hr Hs Hd H0 Hl Hu Hds Ht. pose proof (simulated_Inv _ _ _ _ _ Hsim) as I. cbn [snd] in I.
  exists (if d <=? elapsed ds then set_expired r else r). split; [|by destruct (d <=? elapsed ds)].
  cbn [sim_step run_op fst snd]. rewrite exec_bind, exec_ret, (@pick_exact (standing c) i r s I Hr Hs).
  change (result (@clock_now (standing c)) s) with (now c).
  unfold c. rewrite advances_elapsed by (done || simpl; lia). unfold is_expired. rewrite Hd. unfold deadline_after, deadline_at, expired.
  cbn [dl_valid dl_point negb andb sim_now]. rewrite i64_id by lia. by destruct (Z.leb_spec d (elapsed ds)), (Z.leb_spec (t0 + d) (t0 + elapsed ds)); try lia.
Qed.

(** A request with five seconds is submitted at zero; the clock is advanced by two
    and by three. *)
Definition demo_due : RequestSpec := (demo_spec 3) <| spec_deadline := deadline_after 5000000000 0 |>.
Definition demo_steps : list Z := [2000000000; 3000000000].
Definition demo_simulated : SimulatedClock * Impl :=
  foldl (fun cs a => sim_step a cs) (mkSimulatedClock 0, demo_init)
    [SimOp (OpRegister demo_reg); SimOp (OpSubmit demo_due (Some 100)); SimAdvance 2000000000; SimAdvance 3000000000].

Lemma demo_simulated_reached : simulated default_scheduler_config None 5 0 demo_simulated.
Proof.
  unfold demo_simulated. cbn [foldl]. do 2 (apply sim_next; [|exact I]). apply sim_next; [|by vm_compute].
  apply sim_next; [|exact I]. apply sim_init.
Qed.

Lemma deadlines_expire_on_time_witness :
  exists r', requests (sim_step (SimOp OpPick) demo_simulated).2 !! 100 = Some r' /\
    rec_state r' = RS_Expired /\ rec_terminal_reason r' = "deadline_expired"%string.
Proof.
  pose proof (deadlines_expire_on_time default_scheduler_config None 5 0 demo_simulated.2 100 (request_of demo_simulated.2 100)
    5000000000 0 demo_steps) as HT.
  cbv zeta in HT. assert (advances demo_steps (mkSimulatedClock 0) = demo_simulated.1) as E by by vm_compute.
  assert ((5000000000 <=? elapsed demo_steps) = true) as Et by by vm_compute.
  rewrite E, Et, <- surjective_pairing in HT.
  apply HT; [exact demo_simulated_reached|by vm_compute|by vm_compute|by vm_compute|lia|lia|lia|repeat constructor; lia|by vm_compute].
Defined.
