(* ===== verification/Moves.v ===== *)
(** * Which operation moves which request where

    For every operation of the scheduler ([src/scheduler.cpp]), the changes of
    state it may make to a request, with the condition the code checks before
    it makes them; everything else leaves the request's state, its current
    attempt and its generation alone. *)

From S2P Require Import Prelude Enums Ids Float64 Types State Admission Queue Batch Dispatch Completion Control Frames Lifecycle Index Accounts Micro Refine Seed BatchSpec Handlers Machine Demo Safety CompletionSpec DispatchSpec Journal Reports Tending Clock.
Open Scope Z_scope.

(** ** The moves *)

Section Moves.
  Context `{Env}.

(** The report names this epoch, the registered boot of its worker and the
    current attempt. *)
Definition speaks_for (s : Impl) (rp : CompletionReport) (r : RequestRecord) : Prop :=
  cr_epoch rp = epoch s /\ from_boot s rp /\ current_attempt_named r rp.

(** The state a report asks for; a [Stale] report asks for none. *)
Definition verdict (s : Impl) (rp : CompletionReport) (r : RequestRecord) : option RequestState :=
  match cr_status rp with
  | CS_Succeeded => Some (if rec_cancellation_requested r then RS_Cancelled else RS_Completed)
  | CS_Cancelled => Some RS_Cancelled
  | CS_Expired => Some RS_Expired
  | CS_Stale => None
  | CS_Failed | CS_Ambiguous =>
      Some (if retryable (cfg s) (cr_failure_class rp) && can_retry (cfg s) r (result clock_now s)
            then RS_Queued else RS_Failed)
  end.

(** A request whose worker is lost is queued again, or fails where no retry is
    allowed. *)
Inductive lost_to (s : Impl) (r : RequestRecord) : RequestState -> Prop :=
| lost_retry t : can_retry (cfg s) r t = true -> lost_to s r RS_Queued
| lost_fail t : can_retry (cfg s) r t = false -> lost_to s r RS_Failed.

(** [moves s id r o st]: in state [s] operation [o] may take request [id], whose
    record is [r], to the state [st]. *)
Inductive moves (s : Impl) (id : Z) (r : RequestRecord) : Op -> RequestState -> Prop :=
| mv_expire_pick :
    rec_state r = RS_Queued -> is_expired (rec_spec r) (result clock_now s) = true ->
    moves s id r OpPick RS_Expired
| mv_expire_plan request ex :
    rec_state r = RS_Queued -> is_expired (rec_spec r) (result clock_now s) = true ->
    moves s id r (OpPlan request ex) RS_Expired
| mv_reserve request ex :
    rec_state r = RS_Queued -> is_expired (rec_spec r) (result clock_now s) = false ->
    moves s id r (OpPlan request ex) RS_Reserved
| mv_start rp :
    rec_state r = RS_Reserved -> cr_request_id rp = id -> speaks_for s rp r ->
    moves s id r (OpStart rp) RS_Running
| mv_settle rp st :
    rec_state r = RS_Reserved \/ rec_state r = RS_Running -> cr_request_id rp = id ->
    speaks_for s rp r -> verdict s rp r = Some st -> moves s id r (OpComplete rp) st
| mv_cancel reason detail :
    rec_state r = RS_Queued \/ rec_state r = RS_Reserved ->
    moves s id r (OpCancel id reason detail) RS_Cancelled
| mv_cancel_all detail :
    rec_state r = RS_Queued -> moves s id r (OpCancelAll detail) RS_Cancelled
| mv_reboot reg st :
    rec_state r = RS_Running -> flight s (reg_worker reg) id ->
    boot_of s (reg_worker reg) <> Some (reg_boot_id reg) -> lost_to s r st ->
    moves s id r (OpRegister reg) st
| mv_leave w st :
    rec_state r = RS_Running -> flight s w id -> lost_to s r st ->
    moves s id r (OpUnregister w) st.

Definition same_attempt (r r' : RequestRecord) : Prop :=
  rec_current_attempt r' = rec_current_attempt r /\ rec_generation r' = rec_generation r.

(** The new record of a request: where its state did not change, and where it did
    not go back to the queue, its attempt is the same. *)
Definition moved (s : Impl) (o : Op) (id : Z) (r r' : RequestRecord) : Prop :=
  (rec_state r' = rec_state r /\ same_attempt r r') \/
  (moves s id r o (rec_state r') /\ (rec_state r' = RS_Queued \/ same_attempt r r')).

Lemma moved_same s o id r : moved s o id r r.
Proof. by left. Qed.

(** ** Plans *)

(** The members of a batch are reserved, and nothing else happens to them. *)
Lemma reserve_list i w bid now l s r :
  NoDup l -> requests s !! i = Some r ->
  requests (exec (foreach l (reserve_member w bid now)) s) !! i =
    Some (if bool_decide (i ∈ l) then set_reserved bid now r else r).
Proof.
  intros ND. revert s r. induction ND as [|id l Hn ND IH]; intros s r Hr.
  { by rewrite bool_decide_eq_false_2 by set_solver. }
  cbn [foreach]. rewrite exec_bind. destruct (decide (i = id)) as [->|Hne].
  - rewrite (IH _ (set_reserved bid now r)), bool_decide_eq_false_2, bool_decide_eq_true_2;
      [done|set_solver|done|]. by rewrite reserve_member_requests, lookup_alter_eq, Hr.
  - rewrite (IH _ r) by (by rewrite reserve_member_requests, lookup_alter_ne).
    by rewrite (bool_decide_ext (i ∈ id :: l) (i ∈ l)) by set_solver.
Qed.

(** After its scan a plan reserves requests that are queued. *)
Lemma plan_reserves i request ex s r :
  Inv s -> requests (plan_state s) !! i = Some r ->
  let s' := exec (do_plan_dispatch request ex) s in
  requests s' !! i = Some r \/
  rec_state r = RS_Queued /\
    (requests s' !! i = Some (set_expired r) /\ is_expired (rec_spec r) (result clock_now s) = true \/
     exists bid now, requests s' !! i = Some (set_reserved bid now r)).
Proof.
  intros I Hr. cbv zeta. unfold do_plan_dispatch. rewrite !exec_bind, result_gets, exec_gets. fold (plan_state s).
  generalize (result clock_now s). intros now. pose proof (plan_state_Inv s I) as I1.
  generalize dependent (plan_state s). intros s1 Hr I1.
  destruct (requests s1 !! request) as [r0|] eqn:Hr0; [|by left].
  destruct (is_expired (rec_spec r0) now) eqn:He.
  { rewrite exec_bind, exec_ret. destruct (bool_decide _) eqn:Hb; [|by left].
    rewrite (expire_requests request s1 r0 Hr0), Hb, lookup_insert. destruct (decide (request = i)) as [->|]; [|by left].
    simplify_eq. right. apply bool_decide_eq_true_1 in Hb. split; [done|]. by left. }
  destruct (negb _ && _) eqn:HB; [by left|].
  assert (rec_state r0 = RS_Queued) as Hs by (eapply resting_runnable; [by eapply i_records|done]).
  rewrite !exec_bind, !result_gets, !exec_gets. fold (plan_members s1 request now).
  destruct (plan_members_queued s1 request now r0 I1 Hr0 Hs) as [ND HQ]. set (members := plan_members s1 request now) in *.
  destruct (negb (id_valid _)); [by left|]. rewrite !exec_bind, exec_gets.
  set (w := (select_worker _ _ _ _).1).
  assert (requests (exec (worker_slot w) s1) !! i = Some r) as Hr2.
  { unfold worker_slot. rewrite exec_modify. by destruct (workers s1 !! w). }
  rewrite exec_if. case_match; [by left|]. rewrite !exec_bind, exec_gets, exec_ret. unfold modify_stats. rewrite exec_modify.
  match goal with |- context [foreach members (reserve_member w ?b ?t)] =>
    match goal with |- context [exec (foreach members (reserve_member w b t)) ?S] =>
      pose proof (reserve_list i w b t members S r ND Hr2) as E end end.
  case_bool_decide as Hi; [right|by left]. destruct (HQ i Hi) as (r' & Hr' & Hs'). simplify_eq. eauto.
Qed.

Lemma plan_moved i request ex s r :
  Inv s -> requests s !! i = Some r ->
  exists r', requests (exec (do_plan_dispatch request ex) s) !! i = Some r' /\ moved s (OpPlan request ex) i r r'.
Proof.
  intros I Hr. pose proof (plan_reserves i request ex s) as HP. cbv zeta in HP.
  pose proof (expire_scan_due i (result clock_now s) (exec clock_now s) (clock_now_Inv s I) r Hr) as HD.
  fold (plan_state s) in HD. destruct HD as [Hp|(Hs & He & Hp)].
  2:{ destruct (HP _ I Hp) as [->|[Hq _]]; [|done]. exists (set_expired r). split; [done|].
      right. split; [by apply mv_expire_plan|by right]. }
  destruct (HP _ I Hp) as [->|(Hs & [[-> He]|(bid & t & ->)])].
  - exists r. split; [done|apply moved_same].
  - exists (set_expired r). split; [done|]. right. split; [by apply mv_expire_plan|by right].
  - exists (set_reserved bid t r). split; [done|]. right. split; [|by right]. apply mv_reserve; [done|].
    apply not_true_iff_false. intros He.
    pose proof (expire_scan_exact (result clock_now s) (exec clock_now s) i r (i_queue _ (clock_now_Inv s I)) Hr Hs) as E.
    fold (plan_state s) in E. rewrite Hp, He in E. injection E as E. by rewrite E in Hs.
Qed.

(** ** Start and completion *)

Lemma start_moved i rp s r :
  Inv s -> requests s !! i = Some r ->
  exists r', requests (exec (do_confirm_start rp) s) !! i = Some r' /\ moved s (OpStart rp) i r r'.
Proof.
  intros I Hr. destruct (Z.eqb_spec (cr_epoch rp) (epoch s)) as [He|He].
  2:{ exists r. split; [|apply moved_same]. unfold do_confirm_start. rewrite exec_bind, result_gets, exec_gets.
      by apply Z.eqb_neq in He as ->. }
  destruct (confirm_start_case rp s I) as [->|(r0 & now & Hr0 & Hs & Ha & Hb & ER & _)].
  { exists r. split; [done|apply moved_same]. }
  rewrite ER, lookup_insert. destruct (decide (cr_request_id rp = i)) as [<-|]; [|by eexists; split; [|apply moved_same]].
  simplify_eq. eexists. split; [done|]. right. split; [|by right]. apply mv_start; [done..|].
  split_and!; [done|by apply boot_matches_true|by apply attempt_matches_true].
Qed.

Lemma settle_moved id rp s r :
  requests s !! id = Some r -> is_terminal (rec_state r) = false ->
  exists r', requests (exec (settle id rp (result clock_now s)) (exec clock_now s)) !! id = Some r' /\
    rec_state r' = default (rec_state r) (verdict s rp r) /\ (rec_state r' = RS_Queued \/ same_attempt r r').
Proof.
  intros Hr HT. unfold settle. rewrite !exec_bind, !result_gets, !exec_gets.
  unfold request_of. change (requests (exec clock_now s)) with (requests s). rewrite Hr. cbn [default Datatypes.id].
  change (cfg (exec clock_now s)) with (cfg s). set (s1 := exec clock_now s). change (requests s1 !! id = Some r) in Hr.
  assert (forall w txt, exists r', requests (exec (finish_cancelled id w txt) s1) !! id = Some r' /\
    rec_state r' = RS_Cancelled /\ (rec_state r' = RS_Queued \/ same_attempt r r')) as HC.
  { intros w txt. destruct (finish_cancelled_requests id w txt s1 r Hr) as [b E]. rewrite HT in E.
    rewrite E, lookup_insert_eq. eexists. split_and!; [done|by destruct b|right; by destruct b]. }
  assert (exists r', requests (exec (finish_failed id rp) s1) !! id = Some r' /\
    rec_state r' = RS_Failed /\ (rec_state r' = RS_Queued \/ same_attempt r r')) as HF.
  { destruct (finish_failed_requests id rp s1) as [b E]. eexists.
    split_and!; [by eapply alter_here|by destruct b|right; by destruct b]. }
  destruct (make_retry_fresh id rp s1 r Hr) as (r' & Hr' & _ & Hq). unfold verdict.
  destruct (cr_status rp).
  - destruct (rec_cancellation_requested r); rewrite exec_bind, exec_ret; [apply HC|].
    destruct (finish_success_requests id rp s1) as (b & t & E). eexists.
    split_and!; [by eapply alter_here|by destruct b|right; by destruct b].
  - destruct (_ && _); rewrite ?exec_bind, ?exec_gets, ?exec_ret; [|apply HF]. exists r'. auto.
  - rewrite exec_bind, exec_ret. apply HC.
  - rewrite exec_bind, exec_ret. destruct (complete_expired_requests id rp s1) as (b & E). eexists.
    split_and!; [by eapply alter_here|by destruct b|right; by destruct b].
  - rewrite !exec_bind, exec_ret. unfold bump_stale. reqs.
    destruct (release_batch_member_requests id (cr_worker rp) s1) as [b ->]. rewrite alter_twice.
    rewrite lookup_alter_eq, Hr. eexists. split_and!; [done|by destruct b|right; by destruct b].
  - destruct (_ && _); rewrite ?exec_bind, ?exec_gets, ?exec_ret; [|apply HF]. exists r'. auto.
Qed.

(** An authorised report has the effect it asks for; any other none. *)
Lemma complete_moved i rp s r :
  Inv s -> honest s rp -> requests s !! i = Some r ->
  exists r', requests (exec (do_complete rp) s) !! i = Some r' /\ moved s (OpComplete rp) i r r' /\
    (authorised s rp = true -> cr_request_id rp = i -> rec_state r' = default (rec_state r) (verdict s rp r)).
Proof.
  intros I HH Hr. destruct (decide (i = cr_request_id rp)) as [->|Hi].
  2:{ exists r. rewrite complete_other by done. split_and!; [done|apply moved_same|congruence]. }
  destruct (authorised s rp) eqn:HA.
  2:{ apply unauthorised_refused in HA as (a & why & R). destruct (complete_refused rp s a why R) as [_ ->].
      exists r. split_and!; [by destruct a|apply moved_same|done]. }
  pose proof HA as HB. unfold authorised in HB. rewrite Hr in HB.
  apply andb_true_iff in HB as [[HE%Z.eqb_eq HB]%andb_true_iff [HM HT%negb_true_iff]%andb_true_iff].
  assert (live r = true) as HL by (unfold live; by rewrite HT).
  assert (rec_cancellation_committed r = false) as HC by (by apply (i_records _ I _ _ Hr)).
  pose proof (complete_authorised rp s r HA Hr HC) as Hd. unfold exec at 1. rewrite Hd.
  destruct (settle_moved (cr_request_id rp) rp s r Hr HT) as (r' & Hr' & Hv & Hq).
  exists r'. split_and!; [done| |done].
  destruct (HH r Hr HM HL) as [HO _]. pose proof (ro_resting _ _ (i_records _ I _ _ Hr)) as HR.
  destruct (verdict s rp r) as [st|] eqn:EV; cbn [default id] in Hv.
  - right. split; [|done]. rewrite Hv. apply mv_settle; [|done| |done].
    + by destruct (rec_state r); auto.
    + split_and!; [done|by apply boot_matches_true|by apply attempt_matches_true].
  - left. split; [done|]. destruct Hq as [Hq|]; [|done]. rewrite Hv in Hq. by rewrite Hq in HO.
Qed.

(** ** Cancellation *)

Lemma cancel_moved i id reason detail s r :
  Inv s -> requests s !! i = Some r ->
  exists r', requests (exec (do_cancel id reason detail) s) !! i = Some r' /\ moved s (OpCancel id reason detail) i r r'.
Proof.
  intros I Hr. destruct (cancel_case id reason detail s) as [->|(r0 & r' & Hr0 & -> & [Ea Eg Es])].
  { exists r. split; [done|apply moved_same]. }
  rewrite lookup_insert. destruct (decide (id = i)) as [<-|]; [|by eexists; split; [|apply moved_same]].
  simplify_eq. exists r'. split; [done|]. destruct Es as [(Es & Hn & HT)|Es]; [right|by left].
  split; [|by right]. rewrite Es. apply mv_cancel. pose proof (ro_resting _ _ (i_records _ I _ _ Hr)) as HR.
  by destruct (rec_state r); auto.
Qed.

Lemma foreach_not_turn (f : Z -> M unit) i l s :
  i ∉ l -> (forall j s', j <> i -> requests (exec (f j) s') !! i = requests s' !! i) ->
  requests (exec (foreach l f) s) !! i = requests s !! i.
Proof.
  intros Hi Ho. revert s. induction l as [|j l IH]; intros s; [done|]. rewrite not_elem_of_cons in Hi.
  destruct Hi as [Hj Hi]. cbn [foreach]. rewrite exec_bind, IH, Ho by done. done.
Qed.

(** A loop over distinct requests, seen from one of them: the state in which its
    turn comes. *)
Lemma foreach_turn (P : Impl -> Prop) (f : Z -> M unit) i l s :
  NoDup l -> i ∈ l -> P s ->
  (forall j s', j <> i -> P s' -> P (exec (f j) s')) ->
  (forall j s', j <> i -> requests (exec (f j) s') !! i = requests s' !! i) ->
  exists s1, P s1 /\ requests (exec (foreach l f) s) !! i = requests (exec (f i) s1) !! i.
Proof.
  intros ND Hi Hs HP Ho. revert s Hs. induction ND as [|j l Hj ND IH]; intros s Hs; [by apply not_elem_of_nil in Hi|].
  cbn [foreach]. rewrite exec_bind. destruct (decide (j = i)) as [->|Hne].
  - exists s. split; [done|]. by apply foreach_not_turn.
  - apply IH; [set_solver|auto].
Qed.

Lemma cancel_all_moved i detail s r :
  Inv s -> requests s !! i = Some r ->
  exists r', requests (exec (do_cancel_all_queued detail) s) !! i = Some r' /\ moved s (OpCancelAll detail) i r r'.
Proof.
  intros I Hr. unfold do_cancel_all_queued. rewrite exec_bind, result_gets, exec_gets, exec_bind, exec_ret.
  destruct (decide (i ∈ elements (queued s))) as [Hi|Hi].
  2:{ exists r. rewrite foreach_not_turn; [|done|intros; by apply cancel_queued_one_requests]. by split; [|apply moved_same]. }
  destruct (foreach_turn (fun s1 => requests s1 !! i = Some r) (cancel_queued_one detail) i (elements (queued s)) s)
    as (s1 & Hr1 & ->); [apply NoDup_elements|done|done|
      intros j s1 Hj; by rewrite cancel_queued_one_requests | intros; by apply cancel_queued_one_requests |].
  assert (rec_state r = RS_Queued) as Hs.
  { apply elem_of_elements, (q_queued _ (i_queue _ I)) in Hi as (r0 & Hr0 & Hs0). congruence. }
  unfold cancel_queued_one. rewrite exec_bind, result_gets, exec_gets, Hr1, Hs. cbn [is_terminal]. rewrite exec_bind.
  set (f := fun r : RequestRecord => r <| rec_cancel_reason := CR_SchedulerDrain |>).
  set (txt := if String.eqb detail EmptyString then _ else _).
  assert (requests (exec (modify_rec i f) s1) !! i = Some (f r)) as Hf by (rewrite modify_rec_requests, lookup_alter_eq; by rewrite Hr1).
  destruct (finish_cancelled_requests i invalid_id txt (exec (modify_rec i f) s1) (f r) Hf) as [b ->].
  change (rec_state (f r)) with (rec_state r). rewrite Hs. cbn [is_terminal]. rewrite lookup_insert_eq.
  eexists. split; [done|]. right. split; [|right; by destruct b].
  replace (rec_state _) with RS_Cancelled by (by destruct b). by apply mv_cancel_all.
Qed.

(** ** Lost workers *)

Lemma recover_one_cfg w boot id s : cfg (exec (recover_one w boot id) s) = cfg s.
Proof.
  change (steps (same cfg) s (recover_one w boot id)).
  unfold recover_one, make_retry, finish_failed, release_batch_member, release_batch, enqueue_request, put_flow, emit_event,
    tenant_of, release_running, release_admitted, modify_tenant, modify_stats, modify_worker, modify_rec, next_id, clock_now.
  mwalk ltac:(first [reflexivity | unfold same; by repeat case_match]).
  all: unfold steps, same, tenant_of; rewrite exec_modify; by case_match.
Qed.

Lemma recover_one_moved w boot i s r :
  requests s !! i = Some r -> is_terminal (rec_state r) = false ->
  exists r', requests (exec (recover_one w boot i) s) !! i = Some r' /\ lost_to s r (rec_state r') /\
    (rec_state r' = RS_Queued \/ same_attempt r r').
Proof.
  intros Hr HT. unfold recover_one. rewrite exec_bind, result_gets, exec_gets, Hr, HT. cbv zeta. rewrite !exec_bind, result_gets, exec_gets.
  set (s1 := exec clock_now _). assert (requests s1 !! i = Some r) as Hr1 by done. change (cfg s1) with (cfg s).
  set (now := result clock_now _). set (rp := restart_report w boot i r). destruct (can_retry (cfg s) r now) eqn:HC.
  - destruct (make_retry_fresh i rp s1 r Hr1) as (r' & Hr' & _ & Hq). exists r'.
    split_and!; [done|rewrite Hq; by eapply lost_retry|by left].
  - destruct (finish_failed_requests i rp s1) as [b E]. exists (set_failed rp b r).
    split_and!; [by eapply alter_here| |right; by destruct b].
    replace (rec_state _) with RS_Failed by (by destruct b). by eapply lost_fail.
Qed.

(** What is in flight on the worker is lost; the rest is left alone. *)
Lemma recover_moved i w s r :
  Inv s -> requests s !! i = Some r ->
  exists r', requests (exec (recover_in_flight w) s) !! i = Some r' /\
    (r' = r \/ rec_state r = RS_Running /\ flight s w i /\ lost_to s r (rec_state r') /\
               (rec_state r' = RS_Queued \/ same_attempt r r')).
Proof.
  intros I Hr. unfold recover_in_flight. rewrite exec_bind, result_gets, exec_gets.
  destruct (workers s !! w) as [wr|] eqn:Hw; [|by eauto]. rewrite !exec_bind, exec_gets. unfold modify_worker. rewrite !exec_modify.
  set (l := merge_sort Z.le (map_to_list (wr_in_flight wr)).*1). set (b := reg_boot_id (wr_registration wr)).
  match goal with |- exists r', requests ?S !! i = _ /\ _ => change (requests S) with (requests (exec (foreach l (recover_one w b)) s)) end.
  destruct (decide (i ∈ l)) as [Hi|Hi].
  2:{ exists r. split; [|by left]. rewrite foreach_not_turn; [done..|]. intros. by apply recover_one_other. }
  destruct (foreach_turn (fun s1 => requests s1 !! i = Some r /\ cfg s1 = cfg s) (recover_one w b) i l s)
    as (s1 & [Hr1 Hc1] & ->); [|done|done| |intros; by apply recover_one_other|].
  { unfold l. rewrite merge_sort_Permutation. apply NoDup_fst_map_to_list. }
  { intros j s1 Hj [H1 H2]. rewrite recover_one_other, recover_one_cfg by done. done. }
  assert (flight s w i) as Hf.
  { unfold l in Hi. rewrite merge_sort_Permutation in Hi. apply list_elem_of_fmap in Hi as ([j a] & -> & Hin%elem_of_map_to_list).
    exists wr. eauto. }
  destruct (f_running _ (i_flight _ I) _ _ Hf) as (r0 & Hr0 & Hs). simplify_eq.
  destruct (recover_one_moved w b i s1 r Hr1) as (r' & Hr' & HL & Hq); [by rewrite Hs|].
  exists r'. split; [done|]. right. split_and!; [done..| |done]. destruct HL as [t HC|t HC]; rewrite Hc1 in HC; by econstructor.
Qed.

Lemma register_moved i reg s r :
  Inv s -> requests s !! i = Some r ->
  exists r', requests (exec (do_register_worker reg) s) !! i = Some r' /\ moved s (OpRegister reg) i r r'.
Proof.
  intros I Hr. destruct (decide (boot_of s (reg_worker reg) = Some (reg_boot_id reg))) as [Hb|Hb].
  { exists r. split; [|apply moved_same]. apply register_record; [by left|exact Hr]. }
  unfold do_register_worker. cbv zeta. set (w := reg_worker reg) in *. rewrite !exec_bind, result_gets, exec_gets.
  pose proof (steps_fewer _ _ (worker_slot_acct w s)) as HF.
  assert (requests (exec (worker_slot w) s) = requests s /\ cfg (exec (worker_slot w) s) = cfg s) as [E1 E2].
  { unfold worker_slot. rewrite exec_modify. by destruct (workers s !! w). }
  assert (Inv (exec (worker_slot w) s)) as I1.
  { eapply Inv_rtc; [|exact I]. change (refines s (worker_slot w)). auto with frame nocore. }
  unfold modify_worker. rewrite exec_modify. reqs. cbn [requests upd upd_workers]. rewrite exec_when.
  destruct (_ && _); [|exists r; rewrite E1; by split; [|apply moved_same]].
  destruct (recover_moved i w (exec (worker_slot w) s) r I1) as (r' & Hr' & HM); [by rewrite E1|].
  exists r'. split; [done|]. destruct HM as [->|(Hs & Hf & HL & Hq)]; [apply moved_same|]. right. split; [|done].
  apply mv_reboot; [done|by apply HF|done|]. destruct HL as [t HC|t HC]; rewrite E2 in HC; by econstructor.
Qed.

Lemma unregister_moved i w s r :
  Inv s -> requests s !! i = Some r ->
  exists r', requests (exec (do_unregister_worker w) s) !! i = Some r' /\ moved s (OpUnregister w) i r r'.
Proof.
  intros I Hr. unfold do_unregister_worker. rewrite exec_bind, result_gets, exec_gets.
  destruct (workers s !! w); [|by exists r; split; [|apply moved_same]]. reqs. cbn [requests upd upd_workers].
  destruct (recover_moved i w s r I Hr) as (r' & Hr' & HM). exists r'. split; [done|].
  destruct HM as [->|(Hs & Hf & HL & Hq)]; [apply moved_same|]. right. split; [|done]. by apply mv_leave.
Qed.

(** ** Submission *)

(** A new request: the submitted specification under its id, queued or rejected. *)
Definition born (sp : RequestSpec) (id : Z) (r : RequestRecord) : Prop :=
  rec_spec r = sp /\ rec_request_id r = id /\ (rec_state r = RS_Queued \/ rec_state r = RS_Rejected).

Lemma submit_born sp pre s :
  requests s !! submit_id s pre = None ->
  requests (exec (do_submit sp pre) s) = requests s \/
  exists r, requests (exec (do_submit sp pre) s) = <[submit_id s pre := r]> (requests s) /\ born sp (submit_id s pre) r.
Proof.
  intros Hn. unfold do_submit. destruct (validate_spec sp); [|by left]. rewrite exec_bind.
  assert (result (match pre with Some p => mret p | None => next_id end) s = submit_id s pre) as -> by (by destruct pre).
  set (s1 := exec _ s). assert (requests s1 = requests s) as E1 by (unfold s1; destruct pre; by reqs).
  generalize dependent (submit_id s pre). intros rid Hn. rewrite <- E1 in *. clear E1. clearbody s1. clear s pre.
  rewrite !exec_bind, !result_gets, !exec_gets. set (now := result clock_now s1). set (s2 := exec clock_now s1).
  change (requests s1) with (requests s2) in *. destruct (make_admission s2 sp now) as [[] reason] eqn:HM; cbn [fst snd].
  - right. unfold submit_admitted. rewrite (admitted_unexpired s2 sp now) by (by rewrite HM). cbv zeta. reqs.
    edestruct enqueue_requests as [t ->]. rewrite insert_if_absent_requests by (by reqs). reqs.
    erewrite alter_Some by apply lookup_insert_eq. rewrite insert_insert_eq. eexists. split; [done|]. split_and!; auto.
  - left. by reqs.
  - right. reqs. rewrite insert_if_absent_requests by (by reqs). reqs. eexists. split; [done|]. split_and!; auto.
Qed.

(** ** All operations *)

Lemma op_moved o s i r :
  Inv s -> guard s o -> requests s !! i = Some r ->
  exists r', requests (exec (run_op o) s) !! i = Some r' /\ moved s o i r r'.
Proof.
  intros I G Hr.
  assert (forall s', requests s' = requests s -> exists r', requests s' !! i = Some r' /\ moved s o i r r') as HS.
  { intros s' E. exists r. rewrite E. split; [done|apply moved_same]. }
  destruct o; cbn [run_op guard] in *; rewrite ?exec_unit.
  - destruct (submit_born sp pre s G) as [E|(r' & E & _)]; [by apply HS|]. exists r. rewrite E, lookup_insert_ne; [by split; [|apply moved_same]|].
    intros Ei. rewrite Ei in G. congruence.
  - destruct (pick_due i s I r Hr) as [->|(Hs & He & ->)]; [by exists r; split; [|apply moved_same]|].
    exists (set_expired r). split; [done|]. right. split; [by apply mv_expire_pick|by right].
  - by apply plan_moved.
  - by apply start_moved.
  - destruct (complete_moved i rp s r I G Hr) as (r' & ? & ? & _). eauto.
  - by apply cancel_moved.
  - by apply register_moved.
  - apply HS. unfold do_update_capability. rewrite exec_bind, result_gets, exec_gets. case_match; by reqs.
  - apply HS. unfold do_set_worker_state. rewrite exec_bind, result_gets, exec_gets. case_match; by reqs.
  - by apply unregister_moved.
  - apply HS. unfold do_begin_drain. by reqs.
  - by apply cancel_all_moved.
  - apply HS. unfold do_roll_epoch. by reqs.
  - apply HS. unfold do_explain. rewrite !exec_bind, !result_gets, !exec_gets. destruct (requests s !! request); [|done].
    rewrite exec_bind. by case_match.
  - by apply HS.
  - by apply HS.
  - by apply HS.
  - apply HS. unfold flush_events. rewrite exec_bind, result_gets, exec_gets. by case_match.
Qed.

Lemma op_born o s i :
  guard s o -> requests s !! i = None -> requests (exec (run_op o) s) !! i = None \/
  exists sp pre r, o = OpSubmit sp pre /\ i = submit_id s pre /\
    requests (exec (run_op o) s) !! i = Some r /\ born sp i r.
Proof.
  intros G Hn. assert (forall s', dom (requests s') = dom (requests s) -> requests s' !! i = None) as HD.
  { intros s' E. apply not_elem_of_dom. rewrite E. by apply not_elem_of_dom. }
  pose proof (fun Ho => op_loud (R := shut) o s Ho) as HL.
  destruct o; try (left; exact (HD _ (proj2 (HL Logic.I)))); clear HL; cbn [run_op guard] in *; rewrite exec_unit.
  - destruct (submit_born sp pre s G) as [->|(r & -> & HB)]; [by left|]. rewrite lookup_insert.
    destruct (decide (submit_id s pre = i)) as [<-|]; [right|by left]. eauto 10.
  - left. apply HD. apply (begin_drain_loud (R := shut)). done.
  - by left.
  - left. unfold flush_events. rewrite exec_bind, result_gets, exec_gets. by case_match.
Qed.

End Moves.

(** ** The theorem *)

(** C4: The lifecycle.  In a reachable state every operation, used as [guard]
    says, changes the state of a request only by one of the moves listed in
    [moves], under the condition listed there: a plan reserves queued requests
    that are not expired and, like a pick, expires those that are; a start
    takes a reserved request to running; an authorised report on a reserved or
    running request takes it exactly where its status asks ([verdict]); a
    cancellation ends queued and reserved requests; the loss of the worker
    queues a running request again or fails it.  A request keeps its id and
    specification; its attempt changes only when it is queued again, and
    attempts are only appended; a finished record stays as it is; a new request
    comes from a submission only, as queued or rejected. *)
Theorem requests_move_as_specified `{Env} c ep salt s o s' id :
  reachable c ep salt s -> step s o s' ->
  match requests s !! id with
  | Some r => exists r', requests s' !! id = Some r' /\ same_id r r' /\
      moved s o id r r' /\
      (is_terminal (rec_state r) = true -> r' = r) /\
      (att_attempt_id <$> rec_history r) `prefix_of` (att_attempt_id <$> rec_history r') /\
      (forall rp, o = OpComplete rp -> cr_request_id rp = id -> authorised s rp = true ->
         rec_state r' = default (rec_state r) (verdict s rp r))
  | None => requests s' !! id = None \/
      exists sp pre r', o = OpSubmit sp pre /\ id = submit_id s pre /\
        requests s' !! id = Some r' /\ born sp id r'
  end.
Proof.
  intros I%reachable_Inv Hs. destruct Hs as [s o G].
  destruct (requests s !! id) as [r|] eqn:Hr; [|by apply op_born].
  destruct (op_moved o s id r I G Hr) as (r' & Hr' & HM). exists r'.
  destruct (evolution_rtc _ _ (op_refines o s I G) id r Hr) as (r2 & Hr2 & [HI HF HA _]). simplify_eq.
  split_and!; [done..|]. intros rp -> Hid HAu. cbn [run_op guard] in *. rewrite exec_unit in Hr'.
  destruct (complete_moved id rp s r I G Hr) as (r2 & Hr2 & _ & Hv). simplify_eq. by apply Hv.
Qed.

(** The success of a running request. *)
Lemma requests_move_as_specified_witness :
  exists r', requests demo_done !! 100 = Some r' /\ rec_state r' = RS_Completed /\
    moved demo_running (OpComplete (demo_report demo_running 100 CS_Succeeded FC_Internal)) 100
      (request_of demo_running 100) r'.
Proof.
  pose proof (requests_move_as_specified default_scheduler_config None 5 demo_running
    (OpComplete (demo_report demo_running 100 CS_Succeeded FC_Internal)) demo_done 100 demo_running_reachable
    (step_op demo_running (OpComplete (demo_report demo_running 100 CS_Succeeded FC_Internal)) demo_done_honest)) as HT.
  assert (requests demo_running !! 100 = Some (request_of demo_running 100)) as E by by vm_compute.
  rewrite E in HT. destruct HT as (r' & Hr' & _ & HM & _ & _ & HV). exists r'. split; [exact Hr'|]. split; [|exact HM].
  rewrite (HV _ eq_refl); by vm_compute.
Defined.
