(* ===== verification/Examples.v ===== *)
(** * The example programs

    The six programs of [examples/]: each makes a scheduler on a simulated clock
    that stands at zero, registers one or two workers, submits requests, and
    checks what came of them; its exit status says whether all is well.  Here a
    program is what it prints and its exit status, as a function of the random
    salt of the identifiers, and each is evaluated. *)

From S2P Require Import Prelude Enums Ids Float64 Types State Admission Queue Batch Dispatch Completion Control Frames Lifecycle Index Accounts Micro Refine Seed BatchSpec Handlers Machine Demo Safety Executor Api Reports Rounds LocalDriver Bytes Envelope Decimal Cli Clock.
From stdpp Require Import pretty.
Open Scope Z_scope.

(** ** The two helpers, the same in every program *)

Definition make_reg (id units : Z) : WorkerRegistration :=
  default_registration <| reg_worker := id |> <| reg_node := id * 100 + 1 |> <| reg_accelerator := id * 100 + 2 |>
    <| reg_boot_id := 1000 + id |> <| reg_state := WS_Online |>
    <| reg_capability := default_capability <| cap_backend := "cpu" |> <| cap_device_name := "cpu-" +:+ pretty id |>
         <| cap_total_capacity_units := units |> <| cap_available_capacity_units := units |> |>.

Definition make_spec (t m : Z) (ph : RequestPhase) (cost : f64) : RequestSpec :=
  default_spec <| spec_tenant := t |> <| spec_model := m |> <| spec_revision := 1 |> <| spec_phase := ph |>
    <| spec_priority := PC_Medium |> <| spec_latency_class := LC_Standard |>
    <| spec_tokens ::= fun k => k <| te_input := 32 |> <| te_output := 16 |> |>
    <| spec_demand ::= fun d => d <| rd_cost_units := cost |> |>.

(** [Result::value]: the value, or the default one that an error is stored with. *)
Definition value_or {A} (dflt : A) (r : Result A) : A := match r with Ok a => a | Err _ => dflt end.

(** [%d] of a [bool]. *)
Definition print_bool (b : bool) : string := if b then "1" else "0".

(** The snapshot in a failed [Result<RequestSnapshot>]. *)
Definition default_snapshot : RequestSnapshot :=
  mkRequestSnapshot invalid_id invalid_id RS_Created RP_Unknown LC_Background PC_Background invalid_id invalid_id invalid_id
    invalid_id invalid_id deadline_none 0.

(** What a program leaves behind. *)
Definition Program : Type := list string * Z.

#[export] Instance upd_cfg_scheduling : Update cfg_scheduling. Proof. derive_update. Defined.
#[export] Instance upd_cfg_fairness : Update cfg_fairness. Proof. derive_update. Defined.
#[export] Instance upd_al_default_tenant_concurrency : Update al_default_tenant_concurrency. Proof. derive_update. Defined.

Definition with_tenant_weights (ws : list TenantWeight) (f : FairnessPolicy) : FairnessPolicy :=
  mkFairnessPolicy ws (fair_default_weight f) (fair_quantum f) (fair_starvation_guard_factor f) (fair_enabled f).

Definition with_phase_weights (g : list f64 -> list f64) (p : SchedulingPolicy) : SchedulingPolicy :=
  mkSchedulingPolicy (pol_latency_weight p) (pol_priority_weight p) (g (pol_phase_weight p)) (pol_primary p)
    (pol_deadline_boost_enabled p) (pol_deadline_boost_max p) (pol_deadline_boost_threshold_ms p) (pol_preemption_enabled p)
    (pol_dispatch p).

Section Examples.
  Context {host : Env} (salt : Z).

(** [std::make_shared<SimulatedClock>()]. *)
#[local] Instance at_zero : Env := standing (mkSimulatedClock 0).

Definition basic_admission : Program :=
  let s := Scheduler.make default_scheduler_config salt in
  let s := exec (Scheduler.register_worker (make_reg 1 8)) s in
  match result (Scheduler.submit (make_spec 7 42 RP_Prefill fone) None) s with
  | Ok ad => (["basic_admission: decision=" +:+ AdmissionDecision_name (ao_decision ad) +:+ " request=" +:+ pretty (ao_request_id ad)
                 +:+ " attempt=" +:+ pretty (ao_attempt_id ad) +:+ " generation=" +:+ pretty (ao_generation ad);
               "basic_admission PASS"%string], 0)
  | Err _ => (["basic_admission: error"%string], 1)
  end.

(** The two reports of [cancellation_retry], on the attempt of the snapshot. *)
Definition example_start (ep w : Z) (snap : RequestSnapshot) : CompletionReport :=
  default_report <| cr_epoch := ep |> <| cr_worker := w |> <| cr_boot_id := 1001 |> <| cr_request_id := 6 |>
    <| cr_attempt_id := rsn_attempt_id snap |> <| cr_generation := rsn_generation snap |>
    <| cr_worker_snapshot ::= fun x => x <| res_available_capacity_units := 100 |> |>.
Definition example_failure (ep w : Z) (snap : RequestSnapshot) : CompletionReport :=
  (example_start ep w snap) <| cr_status := CS_Failed |> <| cr_failure_class := FC_RetryableWorker |> <| cr_error_message := "boom" |>.

Definition retry_body : M Program :=
  Scheduler.register_worker (make_reg 1 100) ;;
  Scheduler.submit (make_spec 1 10 RP_Prefill fone) (Some 5) ;;
  cr ← Scheduler.cancel 5 CR_ClientRequested "example";
  sn ← Scheduler.request_snapshot 5;
  Scheduler.submit (make_spec 1 20 RP_Prefill fone) (Some 6) ;;
  d ← Scheduler.plan_dispatch 6 false;
  snap ← Scheduler.request_snapshot 6;
  ep ← Scheduler.get_epoch;
  let w := dout_worker_id (value_or default_dispatch_outcome d) in
  let attempt := value_or default_snapshot snap in
  Scheduler.confirm_dispatch_start (example_start ep w attempt) ;;
  co ← Scheduler.complete_attempt (example_failure ep w attempt);
  let retried := match co with Ok c => co_retried c | Err _ => false end in
  let cancelled := match sn with Ok x => bool_decide (rsn_state x = RS_Cancelled) | Err _ => false end in
  mret (["cancellation_retry: cancel ok=" +:+ print_bool (result_ok cr) +:+ " state=" +:+
           match sn with Ok x => RequestState_name (rsn_state x) | Err _ => "?" end +:+ " (queued cancellation is authoritative)";
         "cancellation_retry: retried=" +:+ print_bool retried +:+ " after_failed (new attempt identity)";
         "cancellation_retry PASS"%string],
        if result_ok cr && cancelled && retried then 0 else 1).

Definition cancellation_retry : Program :=
  result retry_body (Scheduler.make default_scheduler_config salt).

Definition dynamic_batching : Program :=
  let cfg := default_scheduler_config <| cfg_batch ::= fun b => b <| bc_max_batch_size := 3 |> |> in
  let d := result (
    Scheduler.register_worker (make_reg 1 1000) ;;
    Scheduler.submit (make_spec 1 10 RP_Prefill fone) (Some 1) ;;
    Scheduler.submit (make_spec 1 10 RP_Prefill fone) (Some 2) ;;
    Scheduler.submit (make_spec 1 10 RP_Prefill fone) (Some 3) ;;
    Scheduler.plan_dispatch 1 false) (Scheduler.make cfg salt) in
  let size := match d with Ok o => length (dout_batch_members o) | Err _ => 0%nat end in
  (["dynamic_batching: batch_size=" +:+ pretty size +:+ " (compatible requests batched)"; "dynamic_batching PASS"%string],
   if result_ok d && bool_decide (size = 3%nat) then 0 else 1).

Definition explain_decision : Program :=
  let ex := result (
    Scheduler.register_worker (make_reg 1 8) ;; Scheduler.register_worker (make_reg 2 8) ;;
    Scheduler.submit (make_spec 1 10 RP_Prefill fone) (Some 9) ;;
    Scheduler.explain 9) (Scheduler.make default_scheduler_config salt) in
  (("explain_decision: request=" +:+ pretty (ex_request_id ex) +:+ " admission=" +:+ AdmissionDecision_name (ex_admission ex) +:+
     " reason=" +:+ ex_admission_reason_code ex)
   :: ((fun c => "  candidate worker=" +:+ pretty (ws_worker c) +:+ " eligible=" +:+ print_bool (ws_eligible c) +:+
          " score=" +:+ fixed 3 (ws_total c) +:+ " reason=" +:+ ws_reject_reason_code c) <$> ex_candidates ex)
   ++ ["explain_decision PASS"%string], 0).

(** ** With the in-process driver *)

Abbreviation D := (ST (LocalDriver CpuExecutor)).

(** [n] submissions under the ids from [first] on. *)
Definition submit_many (sp : RequestSpec) (first : Z) (n : nat) : D unit :=
  foreach (seqZ first (Z.of_nat n)) (fun id => on_sched (Scheduler.submit sp (Some id)) ;; mret tt).

Definition all_completed (s : Impl) (l : list Z) : bool :=
  forallb (fun id => match do_request_snapshot s id with
    | Ok sn => bool_decide (rsn_state sn = RS_Completed) | Err _ => false end) l.

Definition driven (cfg : SchedulerConfig) (units : Z) (m : D unit) : Impl :=
  let s := exec (Scheduler.register_worker (make_reg 1 units)) (Scheduler.make cfg salt) in
  ld_sched (exec (m ;; run_until_idle 1000000) (new_driver s (mkCpuExecutor 2000 400000) [make_reg 1 units])).

Definition fairness : Program :=
  let cfg := default_scheduler_config <| cfg_batch ::= fun b => b <| bc_max_batch_size := 1 |> |>
    <| cfg_admission ::= fun a => a <| al_default_tenant_concurrency := 100000 |> |>
    <| cfg_fairness ::= with_tenant_weights [mkTenantWeight 1 fone; mkTenantWeight 2 (f64_of_Z 6)] |> in
  let s := driven cfg 1000000 (submit_many (make_spec 1 10 RP_Prefill fone) 100 60 ;; submit_many (make_spec 2 10 RP_Prefill fone) 200 60) in
  let completed := st_requests_completed (do_stats s) in
  let all := all_completed s (seqZ 200 60) in
  (["fairness: completed=" +:+ pretty completed +:+ " tenant2_all_completed=" +:+ print_bool all +:+ " (tenant2 weight 6 vs tenant1 weight 1)";
    "fairness PASS"%string], if (completed =? 120) && all then 0 else 1).

Definition prefill_decode : Program :=
  let cfg := default_scheduler_config
    <| cfg_scheduling ::= with_phase_weights (fun w => <[2%nat := f64_of_Z 3]> (<[1%nat := fone]> w)) |>
    <| cfg_admission ::= fun a => a <| al_default_tenant_concurrency := 100000 |> |> in
  let s := driven cfg 1000000 (submit_many (make_spec 1 10 RP_Prefill fone) 100 40 ;; submit_many (make_spec 1 10 RP_Decode fone) 200 40) in
  let dec_done := all_completed s (seqZ 200 40) in
  let completed := st_requests_completed (do_stats s) in
  (["prefill_decode: completed=" +:+ pretty completed +:+ " decode_all_done=" +:+ print_bool dec_done +:+ " (decode weighted 3x prefill)";
    "prefill_decode PASS"%string], if (completed =? 80) && dec_done then 0 else 1).

End Examples.

(** ** They pass *)

(** The salt of a factory that drew twice from the system's entropy. *)
Definition example_salt : Z := random_salt 11 13.

(** Every example exits with 0. *)
Example examples_pass :
  Forall (fun p : Program => p.2 = 0)
    [basic_admission example_salt; cancellation_retry example_salt; dynamic_batching example_salt; explain_decision example_salt].
Proof. by repeat constructor. Qed.

(** All requests of the two driven examples complete. *)
Example driven_examples_pass : (fairness example_salt).2 = 0 /\ (prefill_decode example_salt).2 = 0.
Proof. split; by vm_compute. Qed.

(** What the second one prints. *)
Example cancellation_retry_prints :
  (cancellation_retry example_salt).1 =
  ["cancellation_retry: cancel ok=1 state=cancelled (queued cancellation is authoritative)";
   "cancellation_retry: retried=1 after_failed (new attempt identity)"; "cancellation_retry PASS"]%string.
Proof. by vm_compute. Qed.
